(* ===== verification/_CoqProject ===== *)
-Q . S2P
Prelude.v
Ranges.v
Sql.v
ArchiveJobs.v
Downloads.v
Lifecycle.v
Protocol.v
Targets.v
TargetsProps.v
Paths.v
Fscommit.v
Registry.v
RegistryProps.v
World.v
Archive.v
Recovery.v
RecoveryProps.v
Planner.v
Gate.v
Transfer.v
Orchestrator.v
OrchestratorProps.v
OrchestratorSuccess.v
OrchestratorSteps.v
Json.v
Migrator.v
MigratorProps.v
MigratorRun.v
MigratorSafety.v
Media.v
Peers.v
Fetch.v
Updates.v
Telegram.v
ChatService.v
Iter.v
IterProps.v
AuthWizard.v
Proxy.v
Web.v
WebTargets.v
Kv.v
KvClients.v
ProxyWatchdog.v
ClientPool.v
Observe.v
RegistryStatus.v
Startup.v
WebPanels.v
Commands.v
ArchiveLoop.v
Dispatch.v
Fields.v
