(* ===== verification/Prelude.v ===== *)
(** * TGX: a verification development

    TGX is a Telegram download daemon in Go. A scan turns rows of an SQLite database into
    tasks; workers resolve each message, reserve SSD space, fetch the file in parallel
    through a rate gate into a part file, verify and rename it, record the success in one
    transaction that also queues an archive job; an archive worker copies finished files to
    slower storage and deletes the source; recovery code repairs what a crash left; a
    migrator imports the tables and files of an older design. This library models those
    parts as executable functions translated from the sources under src/ and proves what
    they promise.

    ** Parts, files and sources

    - Prelude: 64-bit integers with wrap-around, results and errors, the state monads and
      their notations, Go's string functions, sums, the shared tactics.
    - Ranges: [RangeTracker] (core/transfer/writer.go) and [addRange] (app/daemon/registry.go),
      shown to implement a set of byte offsets.
    - Sql: the schema of app/daemon/db.go as records over finite maps; a monad in which every
      statement may fail and a transaction rolls back unless it commits.
    - ArchiveJobs, Downloads: the operations of db.go on archive_jobs and download_records.
      Lifecycle: a step relation per table and the proof that every operation, under any
      failures, stays on it. Protocol: transactions, generations, failure recording, the scan.
    - Paths: path/filepath. Fscommit: a file system in which every system call may fail;
      internal/fscommit (atomic commit without replacing, streaming copy, SSD admission).
    - Registry, RegistryProps: app/daemon/registry.go over a heap of shared task cells, so
      that handles of older attempts alias what the code aliases.
    - World: files, database and registry together. Archive: app/daemon/archive.go.
      Recovery, RecoveryProps: app/daemon/recovery.go.
    - Planner: [PathPlanner] of app/daemon/orchestrator.go.
    - Gate: core/transfer/gate.go, as a machine of interleaved callers over a semaphore given
      by a class. Transfer: adapter.go, manager.go and [CountingWriterAt] of core/transfer.
    - Orchestrator and its Props, Success and Steps: [downloadOne], submission, scan, dispatch,
      conflicts, cancellation and the online finalizer of app/daemon/orchestrator.go, with
      app/daemon/errors.go.
    - Json: what is used of encoding/json. Migrator and its Props, Run and Safety:
      app/daemon/migration/spool_migrator.go.
    - Targets, TargetsProps: the other tables of db.go (listen targets, cursors, messages,
      accounts, statistics) and the migration of old keys.
    - Media: core/tmedia. Peers, Fetch: core/util/tutil/tutil.go (identifiers and links;
      fetching messages). Updates: app/daemon/updates_stream.go. Telegram: the message cache
      and resolution of app/daemon/telegram.go. ChatService: app/daemon/chat_service.go and
      [SyncPeers].
    - Iter, IterProps: the command-line downloader (app/dl/iter.go, dl.go, progress.go) and
      pkg/tmessage/urls.go.
    - AuthWizard: app/daemon/auth_wizard.go. Proxy: app/daemon/proxy_manager.go.
    - Web, WebTargets: sessions, routes and handlers of app/daemon/web_server.go.
    - Kv: the interface of core/storage/storage.go as a class with laws, the drivers of pkg/kv as
      its instances. KvClients: core/storage/state.go, peers.go and session.go over the class.
    - ArchiveLoop: the wake-ups and the loop of app/daemon/archive.go over Archive. Dispatch:
      the dispatcher of app/daemon/updates_stream.go over Updates.
    - Observe: app/daemon/storage_meter.go and lifecycle.go. RegistryStatus: the readings of
      app/daemon/registry.go. Startup: app/daemon/run.go and the daemon command of cmd/daemon.go.
    - WebPanels: the remaining handlers of app/daemon/web_server.go (event stream, telemetry,
      storage, lists, proxies, wizard, accounts).
    - ProxyWatchdog: pkg/proxy. ClientPool: core/dcpool, core/middlewares, core/tclient and
      core/util/netutil; goroutines interleave between the operations on locks.
    - Commands: the download command and its loop (app/dl/dl.go), the item cache of
      app/dl/serve.go, pkg/tmessage/files.go, cmd/conflict.go and cmd/healthcheck.go.
    - Fields: pkg/texpr/fields.go over a store of shared arrays.

    State is a record per component; a method is a function on it with the source's name, its
    guards and early returns included. Fallible code returns a sum type. A system call or SQL
    statement takes its next fault from a list in the state, so a theorem over all states is a
    theorem over all patterns of failure, and a crash is the pattern that fails from some call
    on. Concurrency is interleaving: of the atomic steps of the goroutines in Gate, Transfer,
    ClientPool, Observe, ArchiveLoop and Commands, of whole calls (they run under one mutex) in Registry, and of arbitrary other
    activity at the waiting points of [downloadOne].

    ** What the theorems show

    - Safety of files: committing, archiving, recovering, downloading and migrating never lose
      or overwrite a file that is not theirs, whatever fails; a reported success is on disk
      with the recorded size and digest.
    - Contracts of the store: the life cycles of records and jobs, permanence of success,
      atomic completion, fencing by generation, exclusive claims, bounded delays.
    - Contracts of the registry: well-formedness, conserved totals, frozen verdicts, isolated
      attempts, paths that stay inside.
    - The transfer layer: bounded requests in flight, respected cool-downs, no leaked permit,
      a request budget that holds under any interleaving, complete files on success.
    - Refinements and round trips: trackers and byte sets, counters, the JSON manifest.
    - The edges: a pushed message is stored before it is submitted and only for an enabled
      target; a resolved file is that of the message asked for, from a bounded cache;
      identifiers resolve back to their peers; the iterator ends and yields every wanted
      message once, also after an interruption; a login needs the server's consent; the
      watchdog leaves only a node that failed four times; a guarded web route needs the password
      or a fresh session, and an update of a target changes only what it names.
    - The stores: both drivers keep the laws of the interface, the clients implement maps over
      any lawful store, and a migration copies every pair.
    - The loops: a pass of the archive worker ends and loses no file, and no wake-up is lost;
      the cache of targets mirrors the table over any updates; a run of the daemon recovers
      before anything works and closes what it opened; the download loop keeps to its limit,
      reports each file once and ends, and an interrupted run is continued.
    - The network: the pool makes one connection per data centre however its callers
      interleave, and they all return; the proxy in use is that of the current node.
    - What is shown: counters equal the bytes written, a status lists each active task once,
      telemetry goes only to live sessions, pages cover the finished downloads, and a request
      reaches the wizard only well formed.
    Theorems that show a place where the code falls short of its comments or its purpose are
    marked in their doc comments.

    ** Bounds and fuel

    Loops over lists are structural. Where the source loops on a condition (merging
    intervals, pruning, waiting, retrying a resolution) the loop has fuel, the length of the
    data or the number of answers an oracle holds, and the theorems are proved for every
    fuel or with the fuel shown to be enough. Integers are unbounded where the source cannot overflow and
    wrapped ([wrap64]) where it can. Digests, file name cleaning, the semaphore, the Telegram
    client and its downloader are parameters; what is assumed of them is stated where it is
    used and witnessed by a concrete instance.

    ** Not modelled

    Logging, tickers and timers, progress bars, the static pages and the JSON texts of the web
    server; the HTTP range handler behind the file server; the construction of the Telegram
    client (core/tclient.New, pkg/tclient) and the embedded sing-box of pkg/proxy; the
    declaration of flags and the printing of the commands, the terminal login of app/login,
    and the stand-alone programs under tools, which are calls of libraries with no state of
    their own. Media conversion (core/tmedia/convert.go) is not called; the name template of
    the command with its functions (pkg/tplfunc) is an argument. Floating-point numbers are
    left out or an abstract type. Singleflight is modelled as one flight at a time. bbolt, the Telegram
    library and SQLite's engine are parameters or documented behaviour. *)
From stdpp Require Export base tactics option list sorting gmap strings pretty.
From Stdlib Require Export ZArith Lia.

#[global] Set Default Goal Selector "!".
#[export] Set Warnings "-clear-no-such-hyp".
#[global] Open Scope Z_scope.

(** ** Machine integers

    Go's [int] and [int64] are 64-bit two's complement; [wrap64] is the value an
    operation leaves in such a variable. *)

Definition int64_min : Z := - 2 ^ 63.
Definition int64_max : Z := 2 ^ 63 - 1.
Definition wrap64 (z : Z) : Z := (z + 2 ^ 63) mod 2 ^ 64 - 2 ^ 63.
Definition in_int64 (z : Z) : Prop := int64_min <= z <= int64_max.

(** [shl64 a n] is Go's [a << n] on an [int]: bits shifted out are lost. *)
Definition shl64 (a n : Z) : Z := wrap64 (Z.shiftl a n).

Lemma wrap64_id z : in_int64 z → wrap64 z = z.
Proof.
  unfold in_int64, int64_min, int64_max, wrap64; intros.
  rewrite Z.mod_small by lia. lia.
Qed.

Lemma wrap64_range z : in_int64 (wrap64 z).
Proof.
  unfold in_int64, int64_min, int64_max, wrap64.
  pose proof (Z.mod_pos_bound (z + 2 ^ 63) (2 ^ 64) ltac:(lia)). lia.
Qed.

(** A power of two at or above the width contributes nothing. *)
Lemma wrap64_mul_pow2 a n : 64 <= n → wrap64 (a * 2 ^ n) = 0.
Proof.
  intros Hn. unfold wrap64.
  replace (a * 2 ^ n + 2 ^ 63) with (2 ^ 63 + a * 2 ^ (n - 64) * 2 ^ 64).
  - rewrite Z.mod_add by lia. reflexivity.
  - rewrite <- Z.mul_assoc, <- Z.pow_add_r by lia.
    replace (n - 64 + 64) with n by lia. lia.
Qed.

Lemma shl64_ge a n : 64 <= n → shl64 a n = 0.
Proof.
  intros Hn. unfold shl64. rewrite Z.shiftl_mul_pow2 by lia.
  by apply wrap64_mul_pow2.
Qed.

(** ** Fallible code

    [res E A] is a Go [(A, error)] pair of which exactly one half is meaningful. *)

Inductive res (E A : Type) : Type :=
| Ok (a : A)
| Err (e : E).
Arguments Ok {E A} a.
Arguments Err {E A} e.

Definition is_ok {E A} (r : res E A) : bool :=
  match r with Ok _ => true | Err _ => false end.

#[export] Instance res_eq_dec {E A} `{EqDecision E, EqDecision A} : EqDecision (res E A).
Proof. solve_decision. Defined.

(** A computation that threads a state and may return an error. The state at the
    point of the error is kept: Go code does not undo its assignments. *)
Definition ST (S E A : Type) : Type := S → res E A * S.

Definition st_ret {S E A} (a : A) : ST S E A := λ s, (Ok a, s).
Definition st_err {S E A} (e : E) : ST S E A := λ s, (Err e, s).
Definition st_bind {S E A B} (m : ST S E A) (k : A → ST S E B) : ST S E B :=
  λ s, match m s with
       | (Ok a, s') => k a s'
       | (Err e, s') => (Err e, s')
       end.

(** [st_try m k] hands the error to the continuation, as Go's
    [x, err := f(); if err != nil {...}] does. *)
Definition st_try {S E A B} (m : ST S E A) (k : res E A → ST S E B) : ST S E B :=
  λ s, let (r, s') := m s in k r s'.

(** A computation that threads a state and always returns a value; errors it reports are
    part of the value. *)
Definition SM (S A : Type) : Type := S → A * S.
Definition sm_ret {S A} (a : A) : SM S A := λ s, (a, s).
Definition sm_bind {S A B} (m : SM S A) (k : A → SM S B) : SM S B :=
  λ s, let (a, s') := m s in k a s'.

Declare Scope go_scope.
Delimit Scope go_scope with go.
Notation "'let!' x ':=' c 'in' k" := (st_bind c (λ x, k))
  (at level 10, x pattern, c at level 100, k at level 200) : go_scope.
Notation "'try!' x ':=' c 'in' k" := (st_try c (λ x, k))
  (at level 10, x pattern, c at level 100, k at level 200) : go_scope.
Notation "'do!' x ':=' c 'in' k" := (sm_bind c (λ x, k))
  (at level 10, x pattern, c at level 100, k at level 200) : go_scope.
Notation "'done!' a" := (sm_ret a) (at level 100) : go_scope.
Notation "'return!' a" := (st_ret a) (at level 100) : go_scope.
Notation "'fail!' e" := (st_err e) (at level 100) : go_scope.
#[global] Open Scope go_scope.

(** ** Strings *)

Fixpoint string_map (f : Ascii.ascii → Ascii.ascii) (s : string) : string :=
  match s with
  | EmptyString => EmptyString
  | String c s' => String (f c) (string_map f s')
  end.

(** [strings.ToLower] on ASCII text. *)
Definition ascii_lower (c : Ascii.ascii) : Ascii.ascii :=
  let n := Ascii.nat_of_ascii c in
  if decide (65 ≤ n ∧ n ≤ 90)%nat then Ascii.ascii_of_nat (n + 32) else c.
Definition ToLower (s : string) : string := string_map ascii_lower s.

(** [strings.HasPrefix], [strings.HasSuffix], [strings.Contains], [strings.TrimPrefix]. *)
Definition HasPrefix (s p : string) : bool := String.prefix p s.

Fixpoint HasSuffix (s p : string) : bool :=
  if String.eqb s p then true
  else match s with
       | EmptyString => false
       | String _ s' => HasSuffix s' p
       end.

Fixpoint Contains (s sub : string) : bool :=
  if String.prefix sub s then true
  else match s with
       | EmptyString => false
       | String _ s' => Contains s' sub
       end.

Fixpoint drop_string (n : nat) (s : string) : string :=
  match n, s with
  | O, _ => s
  | S n', String _ s' => drop_string n' s'
  | S _, EmptyString => EmptyString
  end.

Definition TrimPrefix (s p : string) : string :=
  if HasPrefix s p then drop_string (String.length p) s else s.

(** SQLite's [LIKE '%lit%'] and [LIKE '%lit'] for a literal without wildcards:
    matching is case-insensitive on ASCII letters. *)
Definition like_contains (s lit : string) : bool := Contains (ToLower s) (ToLower lit).
Definition like_suffix (s lit : string) : bool := HasSuffix (ToLower s) (ToLower lit).

(** [COALESCE(x, d)]. *)
Definition coalesce {A} (d : A) (x : option A) : A := default d x.

(** [fmt.Sprintf("%d", z)]. *)
Definition itoa (z : Z) : string := pretty z.

(** [CanonicalTaskID] of naming.go, also written inline as [Sprintf("%s:%d", ...)]. *)
Definition CanonicalTaskID (chatID : string) (messageID : Z) : string :=
  chatID +:+ ":" +:+ itoa messageID.

(** A separator that does not occur in the second part determines both parts. *)
Lemma string_sep_inj c s1 s2 t1 t2 :
  c ∉ String.list_ascii_of_string t1 → c ∉ String.list_ascii_of_string t2 →
  s1 +:+ String c t1 = s2 +:+ String c t2 → s1 = s2 ∧ t1 = t2.
Proof.
  intros H1 H2. revert s2. induction s1 as [|a s1 IH]; intros [|b s2] Heq; simplify_eq/=.
  - done.
  - exfalso. apply H1. clear. induction s2; simpl; set_solver.
  - exfalso. apply H2. clear. induction s1; simpl; set_solver.
  - destruct (IH s2) as [-> ->]; done.
Qed.

Lemma string_app_inj_l (s t1 t2 : string) : s +:+ t1 = s +:+ t2 → t1 = t2.
Proof. induction s; intros; simplify_eq/=; auto. Qed.

Lemma string_length_app (s t : string) : String.length (s +:+ t) = (String.length s + String.length t)%nat.
Proof. induction s as [|a s IH]; [done|]. simpl. f_equal. exact IH. Qed.

(** Numbers print as digits, after a sign if negative. *)
Definition digits : list Ascii.ascii := String.list_ascii_of_string "0123456789".

Lemma pretty_N_digits n : Forall (.∈ digits) (String.list_ascii_of_string (pretty (n : N))).
Proof.
  assert (∀ n s, Forall (.∈ digits) (String.list_ascii_of_string s) →
            Forall (.∈ digits) (String.list_ascii_of_string (pretty_N_go n s))) as Hgo.
  { clear n. intros n. induction (N.lt_wf_0 n) as [n _ IH]; intros s Hs.
    destruct (decide (0 < n)%N) as [Hn|Hn]; [|by replace n with 0%N by lia].
    rewrite pretty_N_go_step by done. apply IH; [by apply N.div_lt|]. constructor; [|done].
    unfold pretty_N_char. repeat case_match; apply (bool_decide_unpack _); exact I. }
  unfold pretty, pretty_N. case_decide; [|by apply Hgo].
  constructor; [apply (bool_decide_unpack _); exact I|constructor].
Qed.

Lemma itoa_digits z c :
  c ∈ String.list_ascii_of_string (itoa z) → c ∈ digits ∨ (z < 0 ∧ c = Ascii.ascii_of_nat 45).
Proof.
  unfold itoa, pretty, pretty_Z. pose proof (λ p, pretty_N_digits (Npos p)) as Hd.
  setoid_rewrite Forall_forall in Hd. destruct z as [|p|p]; simpl; intros Hc.
  - left. set_solver.
  - left. by apply (Hd p).
  - apply elem_of_cons in Hc as [->|Hc]; [by right|left]. by apply (Hd p).
Qed.

Lemma itoa_inj z1 z2 : itoa z1 = itoa z2 → z1 = z2.
Proof. apply (inj pretty). Qed.

(** ** Generic lemmas *)

Lemma default_Some_inv {A} (d x : A) (o : option A) : default d o = x → x ≠ d → o = Some x.
Proof. destruct o; simpl; congruence. Qed.

Lemma not_neither (P Q : Prop) `{!Decision P, !Decision Q} : ¬ (¬ P ∧ ¬ Q) → P ∨ Q.
Proof. destruct (decide P), (decide Q); tauto. Qed.

(** Sums over a list, and the number of elements a test accepts. *)
Definition sumZ {A} (f : A → Z) (l : list A) : Z := foldr (λ x acc, f x + acc) 0 l.
Definition tally {A} (p : A → bool) (l : list A) : Z := sumZ (λ x, Z.b2z (p x)) l.

Section Sums.
Context {A : Type}.
Implicit Types (f : A → Z) (p q : A → bool) (l : list A).

Lemma sumZ_cons f x l : sumZ f (x :: l) = f x + sumZ f l.
Proof. done. Qed.
Lemma sumZ_app f l k : sumZ f (l ++ k) = sumZ f l + sumZ f k.
Proof. unfold sumZ. induction l as [|x l IH]; simpl; [done|]. rewrite IH. lia. Qed.

Lemma sumZ_insert f l i x y : l !! i = Some x → sumZ f (<[i := y]> l) = sumZ f l - f x + f y.
Proof.
  revert i. induction l as [|z l IH]; intros [|i] Hi; simplify_eq/=.
  - unfold sumZ. simpl. lia.
  - unfold sumZ in *. simpl. rewrite (IH _ Hi). lia.
Qed.

Lemma sumZ_nonneg f l : (∀ x, x ∈ l → 0 <= f x) → 0 <= sumZ f l.
Proof.
  induction l as [|x l IH]; intros Hf; unfold sumZ in *; simpl; [lia|].
  pose proof (Hf x ltac:(by left)). enough (0 <= foldr (λ x acc, f x + acc) 0 l) by lia.
  apply IH. intros y Hy. apply Hf. by right.
Qed.

Lemma sumZ_elem f l x : (∀ x, x ∈ l → 0 <= f x) → x ∈ l → f x <= sumZ f l.
Proof.
  intros Hf (l1 & l2 & ->)%list_elem_of_split. rewrite sumZ_app.
  pose proof (sumZ_nonneg f l1 ltac:(intros y Hy; apply Hf; set_solver)).
  pose proof (sumZ_nonneg f l2 ltac:(intros y Hy; apply Hf; set_solver)).
  unfold sumZ in *. simpl. lia.
Qed.

Lemma tally_app p l k : tally p (l ++ k) = tally p l + tally p k.
Proof. apply sumZ_app. Qed.
Lemma tally_insert p l i x y :
  l !! i = Some x → tally p (<[i := y]> l) = tally p l - Z.b2z (p x) + Z.b2z (p y).
Proof. apply sumZ_insert. Qed.
Lemma tally_pos p l i x : l !! i = Some x → p x = true → 0 < tally p l.
Proof.
  intros Hi Hp. pose proof (sumZ_elem (λ x, Z.b2z (p x)) l x) as He. cbn beta in He. rewrite Hp in He.
  enough (1 <= tally p l) by lia. apply He; [intros y _; by destruct (p y)|].
  by eapply list_elem_of_lookup_2.
Qed.
Lemma tally_le p q l : (∀ x, p x = true → q x = true) → tally p l <= tally q l.
Proof.
  intros Hpq. unfold tally, sumZ. induction l as [|x l IH]; simpl; [lia|].
  specialize (Hpq x). destruct (p x), (q x); simpl; lia || (by specialize (Hpq eq_refl)).
Qed.
Lemma tally_zero p l : (∀ x, x ∈ l → p x = false) → tally p l = 0.
Proof.
  unfold tally, sumZ. induction l as [|x l IH]; intros Hp; simpl; [done|].
  rewrite (Hp x) by set_solver. rewrite IH; [done|set_solver].
Qed.
Lemma tally_nonneg p l : 0 <= tally p l.
Proof. apply sumZ_nonneg. intros x _. by destruct (p x). Qed.

Lemma sumZ_Permutation f l k : l ≡ₚ k → sumZ f l = sumZ f k.
Proof. unfold sumZ. induction 1; simpl; lia. Qed.

End Sums.

(** Sums over a finite map. *)
Definition map_sum `{Countable K} {A} (f : A → Z) (m : gmap K A) : Z :=
  sumZ (λ kv, f kv.2) (map_to_list m).

Section MapSums.
Context `{Countable K} {A : Type} (f : A → Z).
Implicit Types m : gmap K A.

Lemma map_sum_empty : map_sum f (∅ : gmap K A) = 0.
Proof. unfold map_sum. by rewrite map_to_list_empty. Qed.

Lemma map_sum_insert_new m i x : m !! i = None → map_sum f (<[i := x]> m) = f x + map_sum f m.
Proof.
  intros Hi. unfold map_sum. rewrite (sumZ_Permutation _ _ _ (map_to_list_insert m i x Hi)).
  by rewrite sumZ_cons.
Qed.

Lemma map_sum_delete m i x : m !! i = Some x → map_sum f (delete i m) = map_sum f m - f x.
Proof.
  intros Hi. rewrite <- (insert_delete_id m i x Hi) at 2.
  rewrite map_sum_insert_new by apply lookup_delete_eq. lia.
Qed.

Lemma map_sum_insert m i x y : m !! i = Some x → map_sum f (<[i := y]> m) = map_sum f m - f x + f y.
Proof.
  intros Hi. rewrite <- insert_delete_eq, map_sum_insert_new by apply lookup_delete_eq.
  rewrite (map_sum_delete _ _ _ Hi). lia.
Qed.

Lemma map_sum_elem m i x : (∀ j y, m !! j = Some y → 0 <= f y) → m !! i = Some x → f x <= map_sum f m.
Proof.
  intros Hf Hi. apply (sumZ_elem (λ kv : K * A, f kv.2) (map_to_list m) (i, x)).
  - intros [j y] Hj%elem_of_map_to_list. simpl. eauto.
  - by apply elem_of_map_to_list.
Qed.

End MapSums.

Lemma StronglySorted_rev {A} (R : relation A) l : StronglySorted (flip R) l → StronglySorted R (rev l).
Proof.
  induction 1 as [|x l Hl IH Hx]; [constructor|]. simpl. apply StronglySorted_app_2; [|done|by repeat constructor].
  intros a b Ha Hb. apply list_elem_of_singleton in Hb as ->. rewrite Forall_forall in Hx. apply Hx.
  by apply list_elem_of_In, in_rev, list_elem_of_In.
Qed.

(** [ORDER BY R LIMIT n]: the result is sorted, drawn from the rows, as long as it can
    be, and no row left out sorts before a row returned. *)
Definition top_k {A} (R : relation A) `{!RelDecision R} (n : Z) (l : list A) : list A :=
  take (Z.to_nat n) (merge_sort R l).

Section TopK.
Context {A : Type} (R : relation A) `{!RelDecision R, !Transitive R, !Total R}.

Lemma StronglySorted_app_inv (l1 l2 : list A) :
  StronglySorted R (l1 ++ l2) →
  StronglySorted R l1 ∧ (∀ x y, x ∈ l1 → y ∈ l2 → R x y).
Proof.
  induction l1 as [|a l1 IH]; simpl; intros Hs; [split; [constructor|set_solver]|].
  inversion Hs as [|? ? Hs' Hf]; subst. destruct (IH Hs') as [IH1 IH2].
  apply Forall_app in Hf as [Hf1 Hf2]. split; [by constructor|].
  intros x y [->|Hx]%elem_of_cons Hy; [|eauto].
  rewrite Forall_forall in Hf2. auto.
Qed.

Lemma top_k_spec n l :
  StronglySorted R (top_k R n l) ∧
  (∀ x, x ∈ top_k R n l → x ∈ l) ∧
  Z.of_nat (length (top_k R n l)) <= Z.max 0 n ∧
  (∀ x y, x ∈ top_k R n l → y ∈ l → y ∉ top_k R n l → R x y) ∧
  (∀ y, y ∈ l → y ∉ top_k R n l → length (top_k R n l) = Z.to_nat n).
Proof.
  unfold top_k. set (m := Z.to_nat n).
  pose proof (StronglySorted_merge_sort R l) as Hs.
  pose proof (merge_sort_Permutation R l) as Hp.
  rewrite <- (take_drop m (merge_sort R l)) in Hs.
  destruct (StronglySorted_app_inv _ _ Hs) as [Hs1 Hs2].
  assert (∀ y, y ∈ l → y ∉ take m (merge_sort R l) → y ∈ drop m (merge_sort R l)) as Hd.
  { intros y Hy Hn. rewrite <- Hp, <- (take_drop m (merge_sort R l)), elem_of_app in Hy.
    tauto. }
  split_and!; [done| | |eauto|].
  - intros x Hx. rewrite <- Hp, <- (take_drop m (merge_sort R l)), elem_of_app. by left.
  - rewrite length_take. lia.
  - intros y Hy Hn. apply Hd in Hn; [|done]. apply list_elem_of_lookup_1 in Hn as [i Hi].
    rewrite lookup_drop in Hi. apply lookup_lt_Some in Hi. rewrite length_take. lia.
Qed.

End TopK.

(** ** Going round a ring *)

Lemma omap_seq_window {A} (f : nat → option A) (l : list A) m : ∀ a b,
  (∀ i, (i < m)%nat → f (a + i)%nat = l !! (b + i)%nat) → omap f (seq a m) = take m (drop b l).
Proof.
  induction m as [|m IH]; intros a b Hf; [done|]. cbn [seq omap list_omap].
  pose proof (Hf 0%nat ltac:(lia)) as H0. rewrite !Nat.add_0_r in H0.
  rewrite H0, (IH (S a) (S b)).
  2: { intros i Hi. specialize (Hf (S i) ltac:(lia)). by rewrite !Nat.add_succ_r in Hf. }
  destruct (l !! b) as [x|] eqn:E.
  - by rewrite (drop_S _ _ _ E).
  - apply lookup_ge_None in E. rewrite !drop_ge by lia. by rewrite !take_nil.
Qed.

(** The elements of a list at [(idx + k) % len] for the steps [k] from 1 to its length, as a
    search that goes round a ring of candidates reads them. *)
Definition cyclic {A} (idx : Z) (l : list A) : list A :=
  omap (λ k, l !! Z.to_nat ((idx + Z.of_nat k) mod Z.of_nat (length l))) (seq 1 (length l)).
Lemma cyclic_rotation {A} (l : list A) (k : nat) :
  (k <= length l)%nat → cyclic (Z.of_nat k - 1) l = drop k l ++ take k l.
Proof.
  intros Hk. unfold cyclic. set (n := length l) in *.
  replace (seq 1 n) with (seq 1 (n - k) ++ seq (1 + (n - k)) k) by (rewrite <- seq_app; f_equal; lia).
  rewrite omap_app. f_equal.
  - rewrite (omap_seq_window _ l _ _ k).
    + apply take_ge. rewrite length_drop. lia.
    + intros i Hi. f_equal. rewrite Z.mod_small by lia. lia.
  - rewrite (omap_seq_window _ l _ _ 0); [done|].
    intros i Hi. f_equal.
    replace (Z.of_nat k - 1 + Z.of_nat (1 + (n - k) + i)) with (Z.of_nat i + 1 * Z.of_nat n) by lia.
    rewrite Z_mod_plus_full, Z.mod_small by lia. lia.
Qed.

(** ** Tactics *)

Create HintDb tgx.

(** Unfold the monad and reduce. *)
Ltac go_simpl := unfold st_bind, st_try, st_ret, st_err in *; simpl in *.

(** Split every [decide], [if] and [match] of the goal, closing absurd branches. *)
Ltac go_cases := repeat (case_decide || case_match); simplify_eq/=.

(** Clean up hypotheses about booleans. *)
Ltac go_bool :=
  repeat match goal with
  | H : bool_decide _ = true |- _ => apply bool_decide_eq_true in H
  | H : bool_decide _ = false |- _ => apply bool_decide_eq_false in H
  | H : (_ && _)%bool = true |- _ => apply andb_true_iff in H as [??]
  | H : (_ || _)%bool = false |- _ => apply orb_false_iff in H as [??]
  | H : negb _ = true |- _ => apply negb_true_iff in H
  | H : negb _ = false |- _ => apply negb_false_iff in H
  | H : String.eqb _ _ = true |- _ => apply String.eqb_eq in H
  | H : String.eqb _ _ = false |- _ => apply String.eqb_neq in H
  | H : (_ <? _) = true |- _ => apply Z.ltb_lt in H
  | H : (_ <? _) = false |- _ => apply Z.ltb_ge in H
  | H : (_ <=? _) = true |- _ => apply Z.leb_le in H
  | H : (_ <=? _) = false |- _ => apply Z.leb_gt in H
  | H : (_ =? _) = true |- _ => apply Z.eqb_eq in H
  | H : (_ =? _) = false |- _ => apply Z.eqb_neq in H
  end.
