(* ===== verification/Ranges.v ===== *)
(** * Byte ranges

    The coverage trackers: [RangeTracker] of core/transfer/writer.go, which decides
    whether a download is complete, and [addRange] of app/daemon/registry.go, which
    counts a task's unique bytes. Both keep a sorted list of half-open intervals
    with gaps between them; both are shown to implement a finite set of byte
    offsets, and to be the same function on well-formed lists. *)
From S2P Require Import Prelude.

(** ** Data *)

Record byteInterval := Interval { start : Z; end_ : Z }.

#[export] Instance byteInterval_eq_dec : EqDecision byteInterval.
Proof. solve_decision. Defined.

Definition RangeTracker : Type := list byteInterval.

Module Tracker.

Definition NewRangeTracker : RangeTracker := [].

(** The loop of [AddRange]: [inserted] is the source's flag, [new] its
    [newInterval]; the result is what the iterations append to [merged]. *)
Fixpoint add_loop (new : byteInterval) (inserted : bool) (its : list byteInterval)
    : list byteInterval :=
  match its with
  | [] => if inserted then [] else [new]
  | it :: rest =>
      if inserted then it :: add_loop new inserted rest
      else if end_ new <? start it then new :: it :: add_loop new true rest
      else if end_ it <? start new then it :: add_loop new inserted rest
      else
        let s := if start it <? start new then start it else start new in
        let e := if end_ new <? end_ it then end_ it else end_ new in
        add_loop (Interval s e) inserted rest
  end.

Definition AddRange (rt : RangeTracker) (s e : Z) : RangeTracker :=
  if (e <=? s) || (s <? 0) then rt else add_loop (Interval s e) false rt.

Definition IsComplete (rt : RangeTracker) (expectedSize : Z) : bool :=
  if expectedSize <=? 0 then true
  else match rt with
       | [it] => (start it =? 0) && (expectedSize <=? end_ it)
       | _ => false
       end.

Fixpoint CoveredBytes (rt : RangeTracker) : Z :=
  match rt with
  | [] => 0
  | it :: rest => (end_ it - start it) + CoveredBytes rest
  end.

End Tracker.

(** [addRange] of registry.go. *)
Module TaskRanges.

Definition min64 (a b : Z) : Z := if a <? b then a else b.
Definition max64 (a b : Z) : Z := if b <? a then a else b.

Fixpoint overlap (s e : Z) (ranges : list byteInterval) : Z :=
  match ranges with
  | [] => 0
  | existing :: rest =>
      let left := max64 s (start existing) in
      let right := min64 e (end_ existing) in
      (if left <? right then right - left else 0) + overlap s e rest
  end.

Fixpoint merge_loop (next : byteInterval) (inserted : bool) (ranges : list byteInterval)
    : list byteInterval :=
  match ranges with
  | [] => if inserted then [] else [next]
  | existing :: rest =>
      if end_ existing <? start next then existing :: merge_loop next inserted rest
      else if end_ next <? start existing then
        if inserted then existing :: merge_loop next inserted rest
        else next :: existing :: merge_loop next true rest
      else
        merge_loop (Interval (min64 (start next) (start existing))
                             (max64 (end_ next) (end_ existing))) inserted rest
  end.

(** New ranges and the number of bytes not covered before. *)
Definition addRange (ranges : list byteInterval) (s e : Z) : list byteInterval * Z :=
  (merge_loop (Interval s e) false ranges, e - s - overlap s e ranges).

End TaskRanges.

(** ** Well-formed interval lists and the set they denote *)

(** Non-empty intervals from [lo] on, sorted, with a gap between neighbours. *)
Fixpoint wf_from (lo : Z) (its : list byteInterval) : Prop :=
  match its with
  | [] => True
  | it :: rest => lo <= start it ∧ start it < end_ it ∧ wf_from (end_ it + 1) rest
  end.

Definition wf (its : list byteInterval) : Prop := wf_from 0 its.

Definition range_set (s e : Z) : gset Z := list_to_set (seqZ s (e - s)).

Fixpoint bytes (its : list byteInterval) : gset Z :=
  match its with
  | [] => ∅
  | it :: rest => range_set (start it) (end_ it) ∪ bytes rest
  end.

Lemma elem_of_range_set x s e : x ∈ range_set s e ↔ s <= x < e.
Proof. unfold range_set. rewrite elem_of_list_to_set, elem_of_seqZ. lia. Qed.

Lemma size_range_set s e : s <= e → Z.of_nat (size (range_set s e)) = e - s.
Proof.
  intros. unfold range_set. rewrite size_list_to_set by apply NoDup_seqZ.
  rewrite length_seqZ. lia.
Qed.

Lemma wf_from_weaken lo lo' its : lo' <= lo → wf_from lo its → wf_from lo' its.
Proof. destruct its; simpl; intuition lia. Qed.

Lemma wf_from_bytes lo its x : wf_from lo its → x ∈ bytes its → lo <= x.
Proof.
  revert lo. induction its as [|it rest IH]; simpl; intros lo; [set_solver|].
  intros (? & ? & Hr). rewrite elem_of_union, elem_of_range_set.
  intros [?|Hx]; [lia|]. apply (IH _ Hr) in Hx. lia.
Qed.

#[export] Hint Resolve wf_from_bytes : tgx.

(** Two neighbours are never adjacent: the byte at [end_] of an interval is free. *)
Lemma wf_from_end_free lo it rest :
  wf_from lo (it :: rest) → end_ it ∉ bytes (it :: rest).
Proof.
  simpl. intros (? & ? & Hr). rewrite elem_of_union, elem_of_range_set.
  intros [?|Hx]; [lia|]. apply (wf_from_bytes _ _ _ Hr) in Hx. lia.
Qed.

(** ** [RangeTracker.AddRange] *)

Section AddLoop.
Import Tracker.

Lemma add_loop_inserted new its : add_loop new true its = its.
Proof. induction its as [|it rest IH]; simpl; [done|by rewrite IH]. Qed.

Lemma add_loop_wf new lo its :
  wf_from lo its → lo <= start new → start new < end_ new →
  wf_from lo (add_loop new false its).
Proof.
  revert new lo. induction its as [|it rest IH]; simpl; intros new lo Hwf Hlo Hne.
  { intuition lia. }
  destruct Hwf as (? & ? & Hr).
  destruct (end_ new <? start it) eqn:?; go_bool.
  { simpl. rewrite add_loop_inserted. intuition lia. }
  destruct (end_ it <? start new) eqn:?; go_bool.
  { simpl. split_and!; [lia..|]. apply IH; [done|lia|lia]. }
  apply IH; simpl;
    [eapply wf_from_weaken, Hr; lia
    | destruct (start it <? start new); lia
    | destruct (start it <? start new) eqn:?, (end_ new <? end_ it) eqn:?; go_bool; lia].
Qed.

Lemma add_loop_bytes new its x :
  Forall (λ it, start it < end_ it) its → start new < end_ new →
  x ∈ bytes (add_loop new false its) ↔
  start new <= x < end_ new ∨ x ∈ bytes its.
Proof.
  revert new. induction its as [|it rest IH]; simpl; intros new Hf Hne.
  { rewrite elem_of_union, elem_of_range_set. set_solver. }
  apply Forall_cons in Hf as [? Hf].
  destruct (end_ new <? start it) eqn:?; go_bool.
  { simpl. rewrite add_loop_inserted, !elem_of_union, !elem_of_range_set. tauto. }
  destruct (end_ it <? start new) eqn:?; go_bool.
  { simpl. rewrite !elem_of_union, !elem_of_range_set, IH by done. tauto. }
  rewrite IH by (simpl; try done;
    destruct (start it <? start new) eqn:?, (end_ new <? end_ it) eqn:?; go_bool; lia).
  rewrite elem_of_union, elem_of_range_set. simpl.
  destruct (start it <? start new) eqn:?, (end_ new <? end_ it) eqn:?; go_bool;
    split; intros; intuition lia.
Qed.

Lemma wf_from_nonempty lo its : wf_from lo its → Forall (λ it, start it < end_ it) its.
Proof.
  revert lo. induction its as [|it rest IH]; simpl; intros lo; [constructor|].
  intros (? & ? & Hr). constructor; eauto.
Qed.

Lemma AddRange_wf rt s e : wf rt → wf (AddRange rt s e).
Proof.
  intros Hwf. unfold AddRange.
  destruct ((e <=? s) || (s <? 0)) eqn:?; go_bool; [done|].
  apply add_loop_wf; simpl; auto; lia.
Qed.

(** [AddRange] adds exactly the requested bytes. *)
Lemma AddRange_bytes rt s e :
  wf rt → 0 <= s → bytes (AddRange rt s e) = bytes rt ∪ range_set s e.
Proof.
  intros Hwf Hs. apply set_eq. intros x. rewrite elem_of_union, elem_of_range_set.
  unfold AddRange. destruct (s <? 0) eqn:?; go_bool; [lia|].
  destruct (e <=? s) eqn:?; go_bool; simpl; [intuition lia|].
  rewrite add_loop_bytes by (simpl; eauto using wf_from_nonempty).
  simpl. tauto.
Qed.

(** ** [CoveredBytes] is a cardinality *)

Lemma CoveredBytes_size lo rt :
  wf_from lo rt → CoveredBytes rt = Z.of_nat (size (bytes rt)).
Proof.
  revert lo. induction rt as [|it rest IH]; simpl; intros lo; [done|].
  intros (? & ? & Hr). rewrite size_union, Nat2Z.inj_add, size_range_set by
    (try lia; intros x; rewrite elem_of_range_set; intros ? Hx;
     apply (wf_from_bytes _ _ _ Hr) in Hx; lia).
  by rewrite (IH _ Hr).
Qed.

(** The sum of the source stays within the largest end, hence within [int64]. *)
Lemma CoveredBytes_bound lo hi rt :
  wf_from lo rt → Forall (λ it, end_ it <= hi) rt → lo <= hi →
  0 <= CoveredBytes rt <= hi - lo.
Proof.
  revert lo. induction rt as [|it rest IH]; simpl; intros lo; [lia|].
  intros (? & ? & Hr) Hf Hlo. apply Forall_cons in Hf as [? Hf].
  destruct rest as [|it' rest']; [simpl; lia|].
  assert (end_ it + 1 <= hi) as Hlo'.
  { destruct Hr as (? & ? & _). apply Forall_cons in Hf as [? _]. lia. }
  specialize (IH _ Hr Hf Hlo'). lia.
Qed.

(** ** [IsComplete] *)

Lemma IsComplete_covers rt n x :
  IsComplete rt n = true → 0 <= x < n → x ∈ bytes rt.
Proof.
  unfold IsComplete. intros H Hx. destruct (n <=? 0) eqn:?; go_bool; [lia|].
  destruct rt as [|it [|]]; try done. go_bool. simpl.
  rewrite elem_of_union, elem_of_range_set. left. lia.
Qed.

(** Two intervals leave a hole, so a gap-free prefix of [n] bytes with nothing
    beyond it is one interval. *)
Lemma covers_IsComplete rt n :
  wf rt → (∀ x, x ∈ bytes rt ↔ 0 <= x < n) → IsComplete rt n = true.
Proof.
  intros Hwf Hall. unfold IsComplete. destruct (n <=? 0) eqn:?; go_bool; [done|].
  destruct rt as [|it rest]; [exfalso; assert (0 ∈ bytes []) by (apply Hall; lia); set_solver|].
  pose proof (wf_from_end_free _ _ _ Hwf) as Hfree.
  destruct Hwf as (? & ? & Hr).
  assert (start it ∈ bytes (it :: rest)) as Hst%Hall.
  { simpl. rewrite elem_of_union, elem_of_range_set. lia. }
  assert (n <= end_ it).
  { destruct (Z.le_gt_cases n (end_ it)); [done|]. exfalso. apply Hfree, Hall. lia. }
  assert (start it = 0).
  { assert (0 ∈ bytes (it :: rest)) as Hz by (apply Hall; lia). simpl in Hz.
    rewrite elem_of_union, elem_of_range_set in Hz. destruct Hz as [?|Hz]; [lia|].
    apply (wf_from_bytes _ _ _ Hr) in Hz. lia. }
  destruct rest as [|it' rest']; [apply andb_true_iff; split; lia|].
  exfalso. destruct Hr as (? & ? & _).
  assert (start it' ∈ bytes (it :: it' :: rest')) as Hst'%Hall; [|lia].
  simpl. rewrite !elem_of_union, !elem_of_range_set. lia.
Qed.

End AddLoop.

(** ** The registry's [addRange] *)

Section AddRangeTask.
Import TaskRanges.

Lemma min64_min a b : min64 a b = Z.min a b.
Proof. unfold min64. destruct (a <? b) eqn:?; go_bool; lia. Qed.
Lemma max64_max a b : max64 a b = Z.max a b.
Proof. unfold max64. destruct (b <? a) eqn:?; go_bool; lia. Qed.

Lemma merge_loop_inserted next lo its :
  wf_from lo its → end_ next < lo → start next < end_ next → merge_loop next true its = its.
Proof.
  revert lo. induction its as [|it rest IH]; simpl; intros lo; [done|].
  intros (? & ? & Hr) ? ?.
  destruct (end_ it <? start next) eqn:?; go_bool; [lia|].
  destruct (end_ next <? start it) eqn:?; go_bool; [|lia].
  rewrite (IH _ Hr); [done|lia|lia].
Qed.

(** On well-formed lists the two merging loops agree. *)
Lemma merge_loop_add_loop new lo its :
  wf_from lo its → start new < end_ new →
  merge_loop new false its = Tracker.add_loop new false its.
Proof.
  revert new lo. induction its as [|it rest IH]; simpl; intros new lo; [done|].
  intros (? & ? & Hr) ?.
  destruct (end_ new <? start it) eqn:?, (end_ it <? start new) eqn:?; go_bool; try lia.
  - rewrite add_loop_inserted. erewrite merge_loop_inserted; [done|exact Hr|lia|lia].
  - by erewrite IH by eauto.
  - erewrite IH by (eauto; simpl; rewrite min64_min, max64_max; lia).
    f_equal. rewrite min64_min, max64_max.
    f_equal; [destruct (start it <? start new) eqn:?|destruct (end_ new <? end_ it) eqn:?];
      go_bool; lia.
Qed.

(** The overlap with later intervals only depends on where the range ends. *)
Lemma overlap_start s s' e lo its :
  wf_from lo its → s <= lo → s' <= lo → overlap s e its = overlap s' e its.
Proof.
  revert lo. induction its as [|it rest IH]; simpl; intros lo; [done|].
  intros (? & ? & Hr) ? ?. rewrite !max64_max, !Z.max_r by lia.
  f_equal. apply (IH _ Hr); lia.
Qed.

Lemma overlap_before s e lo its : wf_from lo its → e <= lo → overlap s e its = 0.
Proof.
  revert lo. induction its as [|it rest IH]; simpl; intros lo; [done|].
  intros (? & ? & Hr) ?. rewrite (IH _ Hr) by lia. rewrite max64_max, min64_min.
  destruct (_ <? _) eqn:?; go_bool; lia.
Qed.

Lemma add_loop_CoveredBytes new lo its :
  wf_from lo its → start new < end_ new →
  Tracker.CoveredBytes (Tracker.add_loop new false its) =
  Tracker.CoveredBytes its + (end_ new - start new) - overlap (start new) (end_ new) its.
Proof.
  revert new lo. induction its as [|it rest IH]; simpl; intros new lo; [lia|].
  intros (? & ? & Hr) ?. rewrite max64_max, min64_min.
  destruct (end_ new <? start it) eqn:?; go_bool.
  { rewrite add_loop_inserted. simpl. rewrite (overlap_before _ _ _ _ Hr) by lia.
    destruct (_ <? _) eqn:?; go_bool; lia. }
  destruct (end_ it <? start new) eqn:?; go_bool; simpl.
  { erewrite IH by eauto. destruct (_ <? _) eqn:?; go_bool; lia. }
  erewrite IH by (eauto; simpl; destruct (start it <? start new) eqn:?, (end_ new <? end_ it) eqn:?;
    go_bool; lia).
  simpl. destruct (end_ new <? end_ it) eqn:?; go_bool.
  - rewrite !(overlap_before _ _ _ _ Hr) by lia.
    destruct (start it <? start new) eqn:?, (Z.max _ _ <? _) eqn:?; go_bool; lia.
  - erewrite (overlap_start _ (start new)) by
      (first [exact Hr | destruct (start it <? start new) eqn:?; go_bool; lia | lia]).
    destruct (start it <? start new) eqn:?, (Z.max _ _ <? _) eqn:?; go_bool; lia.
Qed.

End AddRangeTask.

(** ** The contract of a coverage tracker

    What a download writer relies on: a tracker stands for a set of byte offsets. *)

Class CoverageTracker (T : Type) := {
  ct_new : T;
  ct_add : T → Z → Z → T;
  ct_complete : T → Z → bool;
  ct_covered : T → Z;
  ct_valid : T → Prop;
  ct_bytes : T → gset Z;
  ct_new_valid : ct_valid ct_new;
  ct_new_bytes : ct_bytes ct_new = ∅;
  ct_add_valid t s e : ct_valid t → ct_valid (ct_add t s e);
  ct_add_bytes t s e : ct_valid t → 0 <= s → ct_bytes (ct_add t s e) = ct_bytes t ∪ range_set s e;
  ct_add_neg t s e : s < 0 → ct_add t s e = t;
  ct_complete_sound t n x : ct_complete t n = true → 0 <= x < n → x ∈ ct_bytes t;
  ct_complete_exact t n :
    ct_valid t → (∀ x, x ∈ ct_bytes t ↔ 0 <= x < n) → ct_complete t n = true;
  ct_covered_size t : ct_valid t → ct_covered t = Z.of_nat (size (ct_bytes t));
}.

Lemma AddRange_neg rt s e : s < 0 → Tracker.AddRange rt s e = rt.
Proof.
  intros. unfold Tracker.AddRange. destruct (e <=? s); simpl; [done|].
  destruct (s <? 0) eqn:?; go_bool; [done|lia].
Qed.

#[export] Program Instance RangeTracker_coverage : CoverageTracker RangeTracker := {|
  ct_new := Tracker.NewRangeTracker;
  ct_add := Tracker.AddRange;
  ct_complete := Tracker.IsComplete;
  ct_covered := Tracker.CoveredBytes;
  ct_valid := wf;
  ct_bytes := bytes;
|}.
Next Obligation. done. Qed.
Next Obligation. done. Qed.
Next Obligation. intros. by apply AddRange_wf. Qed.
Next Obligation. intros. by apply AddRange_bytes. Qed.
Next Obligation. intros. by apply AddRange_neg. Qed.
Next Obligation. intros. by eapply IsComplete_covers. Qed.
Next Obligation. intros. by apply covers_IsComplete. Qed.
Next Obligation. intros. by eapply CoveredBytes_size. Qed.

(** ** Sequences of writes *)

(** The tracker after a sequence of completed writes [(start, end)], in any order. *)
Definition record_all {T} `{CoverageTracker T} (t : T) (ws : list (Z * Z)) : T :=
  foldl (λ t w, ct_add t w.1 w.2) t ws.

Section RecordAll.
Context {T : Type} `{CoverageTracker T}.

Lemma record_all_valid (t : T) ws : ct_valid t → ct_valid (record_all t ws).
Proof.
  revert t. induction ws as [|w ws IH]; simpl; intros t Ht; [done|].
  by apply IH, ct_add_valid.
Qed.

Lemma record_all_bytes (t : T) ws x :
  ct_valid t →
  x ∈ ct_bytes (record_all t ws) ↔
  x ∈ ct_bytes t ∨ ∃ s e, (s, e) ∈ ws ∧ 0 <= s ∧ s <= x < e.
Proof.
  revert t. induction ws as [|[s e] ws IH]; simpl; intros t Ht.
  { split; [tauto|]. intros [?|(?&?&Hin&_)]; [done|]. set_solver. }
  rewrite IH by by apply ct_add_valid.
  assert (x ∈ ct_bytes (ct_add t s e) ↔ x ∈ ct_bytes t ∨ (0 <= s ∧ s <= x < e)) as ->.
  { destruct (Z.lt_ge_cases s 0).
    - rewrite ct_add_neg by done. intuition lia.
    - rewrite ct_add_bytes by done. rewrite elem_of_union, elem_of_range_set. intuition lia. }
  split.
  - intros [[?|[? ?]]|(s'&e'&Hin&?)]; [tauto| |]; right.
    + exists s, e. split; [by left|done].
    + exists s', e'. split; [by right|done].
  - intros [?|(s'&e'&Hin&?&?)]; [tauto|].
    apply elem_of_cons in Hin as [?|Hin]; simplify_eq; [tauto|].
    right. eauto.
Qed.

End RecordAll.

(** C21. Whatever ranges are recorded, in whatever order and with whatever overlap,
    the tracker holds exactly the union of the valid ones as sorted, gapped intervals,
    and [CoveredBytes] is the number of distinct bytes written. *)
Theorem range_tracker_refines_byte_set (ws : list (Z * Z)) :
  let rt := record_all Tracker.NewRangeTracker ws in
  wf rt ∧
  (∀ x, x ∈ bytes rt ↔ ∃ s e, (s, e) ∈ ws ∧ 0 <= s ∧ s <= x < e) ∧
  Tracker.CoveredBytes rt = Z.of_nat (size (bytes rt)).
Proof.
  intros rt. assert (wf rt) as Hwf by exact (record_all_valid _ ws ct_new_valid).
  split_and!; [done| |by eapply CoveredBytes_size].
  intros x. etrans; [exact (record_all_bytes ct_new ws x ct_new_valid)|]. set_solver.
Qed.

(** A download writer never accepts an incomplete file, and accepts every complete
    one: for writes that stay below the expected size, [IsComplete] answers true if
    and only if every byte of [0, n) was written. *)
Theorem is_complete_iff_all_bytes_written (ws : list (Z * Z)) (n : Z) :
  (∀ s e, (s, e) ∈ ws → e <= n) →
  Tracker.IsComplete (record_all Tracker.NewRangeTracker ws) n = true ↔
  (∀ x, 0 <= x < n → ∃ s e, (s, e) ∈ ws ∧ 0 <= s ∧ s <= x < e).
Proof.
  intros Hle. pose proof (record_all_bytes ct_new ws) as Hb.
  split.
  - intros Hc x Hx. apply (IsComplete_covers _ _ x) in Hc; [|done].
    apply Hb in Hc as [Hc|?]; [set_solver|done|exact ct_new_valid].
  - intros Hall. apply covers_IsComplete; [exact (record_all_valid _ ws ct_new_valid)|].
    intros x. etrans; [apply (Hb x ct_new_valid)|]. split; [|eauto].
    intros [?|(s&e&Hin&?&?)]; [set_solver|]. specialize (Hle _ _ Hin). lia.
Qed.

Lemma is_complete_iff_all_bytes_written_witness :
  Tracker.IsComplete (record_all Tracker.NewRangeTracker [(4, 9); (0, 5)]) 9 = true ↔
  (∀ x, 0 <= x < 9 → ∃ s e, (s, e) ∈ [(4, 9); (0, 5)] ∧ 0 <= s ∧ s <= x < e).
Proof.
  apply (is_complete_iff_all_bytes_written [(4, 9); (0, 5)] 9).
  intros s e Hin. repeat (apply elem_of_cons in Hin as [Hin|Hin]; simplify_eq; [lia|]).
  by apply not_elem_of_nil in Hin.
Defined.

(** The comment on [IsComplete] says "if and only if"; without the bound on the
    writes the answer can be false although [0, n) is covered, because any second
    interval beyond a hole makes the list longer than one. *)
Theorem is_complete_incomplete_past_size :
  ∃ ws n, (∀ x, 0 <= x < n → x ∈ bytes (record_all Tracker.NewRangeTracker ws)) ∧
    0 < n ∧ Tracker.IsComplete (record_all Tracker.NewRangeTracker ws) n = false.
Proof.
  exists [(0, 10); (20, 30)], 10. split_and!; [|lia|done].
  intros x Hx. simpl. rewrite !elem_of_union, !elem_of_range_set. lia.
Qed.

Lemma addRange_spec (ranges : list byteInterval) (s e : Z) :
  wf ranges → 0 <= s < e →
  let '(ranges', unique) := TaskRanges.addRange ranges s e in
  ranges' = Tracker.AddRange ranges s e ∧ wf ranges' ∧
  bytes ranges' = bytes ranges ∪ range_set s e ∧
  unique = Z.of_nat (size (bytes ranges')) - Z.of_nat (size (bytes ranges)).
Proof.
  intros Hwf Hse. simpl.
  assert (TaskRanges.merge_loop (Interval s e) false ranges = Tracker.AddRange ranges s e) as ->.
  { erewrite merge_loop_add_loop by (eauto; simpl; lia). unfold Tracker.AddRange.
    destruct (e <=? s) eqn:?, (s <? 0) eqn:?; go_bool; try lia. done. }
  pose proof (AddRange_wf ranges s e Hwf) as Hwf'.
  split_and!; [done|done|by apply AddRange_bytes; [|lia]|].
  rewrite <- !(CoveredBytes_size 0) by done. unfold Tracker.AddRange.
  destruct (e <=? s) eqn:?, (s <? 0) eqn:?; go_bool; try lia. simpl.
  rewrite (add_loop_CoveredBytes _ 0) by (done || (simpl; lia)). simpl. lia.
Qed.

(** The registry's byte counter: on a well-formed list [addRange] produces the same
    intervals as the transfer layer's tracker, keeps the list well formed, and
    returns exactly the number of bytes that were not covered before. *)
Theorem addRange_counts_new_bytes (ranges : list byteInterval) (s e : Z) :
  wf ranges → 0 <= s < e →
  let '(ranges', unique) := TaskRanges.addRange ranges s e in
  ranges' = Tracker.AddRange ranges s e ∧ wf ranges' ∧
  bytes ranges' = bytes ranges ∪ range_set s e ∧
  unique = Z.of_nat (size (bytes ranges')) - Z.of_nat (size (bytes ranges)).
Proof. apply addRange_spec. Qed.

Lemma addRange_counts_new_bytes_witness :
  let '(ranges', unique) := TaskRanges.addRange [Interval 0 4; Interval 6 9] 2 8 in
  ranges' = Tracker.AddRange [Interval 0 4; Interval 6 9] 2 8 ∧ wf ranges' ∧
  bytes ranges' = bytes [Interval 0 4; Interval 6 9] ∪ range_set 2 8 ∧
  unique = Z.of_nat (size (bytes ranges')) - Z.of_nat (size (bytes [Interval 0 4; Interval 6 9])).
Proof.
  apply (addRange_counts_new_bytes [Interval 0 4; Interval 6 9] 2 8);
    [unfold wf; simpl; lia|lia].
Defined.
