(* ===== verification/Sql.v ===== *)
(** * The SQLite store: tables, rows and statements

    The schema of app/daemon/db.go ([initSchema]) as records over finite maps, the Go
    structures of app/daemon/models.go that statements fill, and a monad for code that
    runs statements: every statement may fail with an SQL error (drawn from a list of
    faults, so that error paths are part of the model), and a transaction restores the
    tables unless it commits. *)
From S2P Require Import Prelude.

(** ** Rows *)

Definition key : Type := string * Z.

(** download_records; nullable columns are options. *)
Record download_row := DRow {
  status : string;
  file_name : option string;
  save_path : option string;
  media_type : option string;
  file_size : option Z;
  sha256 : option string;
  error : option string;
  created_at : Z;
  updated_at : Z;
  downloaded_at : option Z;
  processing_started_at : option Z;
  attempts : Z;
  next_retry_at : Z;
  attempt_generation : string;
}.

(** archive_jobs. *)
Record archive_row := ARow {
  relative_path : string;
  expected_size : Z;
  a_sha256 : string;
  state : string;
  a_attempts : Z;
  a_next_retry_at : Z;
  claim_id : string;
  last_error : option string;
  a_created_at : Z;
  a_updated_at : Z;
}.

(** chat_scan_cursors. *)
Record cursor_row := CRow {
  cursor : Z;
  mirrored_cursor : Z;
  c_updated_at : Z;
}.

(** chat_messages. *)
Record message_row := MRow {
  sender_id : option string;
  sender_name : option string;
  text : option string;
  m_media_type : option string;
  has_media : Z;
  reply_to_message_id : option Z;
  date : Z;
  m_created_at : Z;
  m_updated_at : Z;
}.

(** listen_targets. *)
Record target_row := TRow {
  enabled : Z;
  title : string;
  username : string;
  chat_type : string;
  download_filter : string;
  upload_telegram_chat_id : string;
  priority : Z;
  t_created_at : Z;
  t_updated_at : Z;
  revision : Z;
}.

(** telegram_accounts. *)
Record account_row := AccRow {
  user_id : Z;
  first_name : string;
  last_name : string;
  acc_username : string;
  phone : string;
  is_premium : bool;
  is_active : bool;
  acc_created_at : Z;
  acc_updated_at : Z;
}.

Record db := Db {
  records : gmap key download_row;
  jobs : gmap key archive_row;
  cursors : gmap string cursor_row;
  messages : gmap key message_row;
  targets : gmap string target_row;
  accounts : gmap string account_row;
}.

Definition empty_db : db := Db ∅ ∅ ∅ ∅ ∅ ∅.

#[export] Instance download_row_eq_dec : EqDecision download_row.
Proof. solve_decision. Defined.
#[export] Instance message_row_eq_dec : EqDecision message_row.
Proof. solve_decision. Defined.
#[export] Instance archive_row_eq_dec : EqDecision archive_row.
Proof. solve_decision. Defined.

Definition set_records (t : gmap key download_row) (d : db) : db :=
  Db t (jobs d) (cursors d) (messages d) (targets d) (accounts d).
Definition set_jobs (t : gmap key archive_row) (d : db) : db :=
  Db (records d) t (cursors d) (messages d) (targets d) (accounts d).
Definition set_cursors (t : gmap string cursor_row) (d : db) : db :=
  Db (records d) (jobs d) t (messages d) (targets d) (accounts d).
Definition set_messages (t : gmap key message_row) (d : db) : db :=
  Db (records d) (jobs d) (cursors d) t (targets d) (accounts d).
Definition set_targets (t : gmap string target_row) (d : db) : db :=
  Db (records d) (jobs d) (cursors d) (messages d) t (accounts d).
Definition set_accounts (t : gmap string account_row) (d : db) : db :=
  Db (records d) (jobs d) (cursors d) (messages d) (targets d) t.

(** ** Errors *)

Record SuccessProof := Proof_ { SavePath : string; FileSize : Z; SHA256 : string }.

(** The sentinels of db.go. A message keeps the fixed text of its branch; the operands
    formatted into it are left out. [ErrSQL] stands for an error of the SQL layer. *)
Inductive dberr :=
| ErrStateConflict (msg : string)
| ErrStaleAttempt (msg : string)
| AlreadySuccessError (proof : SuccessProof)
| ErrArchiveConflict
| ErrConflictRecordNotFound
| ErrSQL.

#[export] Instance SuccessProof_eq_dec : EqDecision SuccessProof.
Proof. solve_decision. Defined.
#[export] Instance dberr_eq_dec : EqDecision dberr.
Proof. solve_decision. Defined.

(** ** Statements *)

(** The tables, and for each coming statement whether it fails. *)
Record sqlst := Sql { tabs : db; faults : list bool }.

Definition DB (A : Type) : Type := ST sqlst dberr A.

Definition stmt {A} (f : db → A * db) : DB A := λ s,
  if hd false (faults s) then (Err ErrSQL, Sql (tabs s) (tl (faults s)))
  else let (a, d) := f (tabs s) in (Ok a, Sql d (tl (faults s))).

Definition query {A} (f : db → A) : DB A := stmt (λ d, (f d, d)).
Definition exec (f : db → db) : DB unit := stmt (λ d, (tt, f d)).

(** [UPDATE download_records SET f WHERE chat_id = ? AND message_id = ? AND p],
    with the number of rows affected. *)
Definition update_record (k : key) (p : download_row → bool) (f : download_row → download_row)
    : DB Z :=
  stmt (λ d, match records d !! k with
             | Some r => if p r then (1, set_records (<[k := f r]> (records d)) d) else (0, d)
             | None => (0, d)
             end).

Definition update_job (k : key) (p : archive_row → bool) (f : archive_row → archive_row) : DB Z :=
  stmt (λ d, match jobs d !! k with
             | Some r => if p r then (1, set_jobs (<[k := f r]> (jobs d)) d) else (0, d)
             | None => (0, d)
             end).

Definition insert_record (k : key) (r : download_row) : DB unit :=
  exec (λ d, set_records (<[k := r]> (records d)) d).
Definition insert_job (k : key) (r : archive_row) : DB unit :=
  exec (λ d, set_jobs (<[k := r]> (jobs d)) d).

(** [INSERT ... ON CONFLICT(chat_id, message_id) DO UPDATE]: [f] gives the new row from the
    row in place, if any. *)
Definition upsert_record (k : key) (f : option download_row → download_row) : DB unit :=
  exec (λ d, set_records (<[k := f (records d !! k)]> (records d)) d).

(** How a transaction body leaves: [tx.Commit()] followed by a result, or a return that
    runs the deferred [tx.Rollback()]. *)
Inductive txout :=
| Commit (r : res dberr unit)
| Rollback (r : res dberr unit).

Definition lift_res {A} (r : res dberr A) : DB A := λ s, (r, s).

Definition with_tx (body : DB txout) : DB unit := λ s,
  match query (λ d, d) s with                                  (* tx, err := d.db.Begin() *)
  | (Err e, s1) => (Err e, s1)
  | (Ok d0, s1) =>
      match body s1 with
      | (Err e, s2) => (Err e, Sql d0 (faults s2))
      | (Ok (Rollback r), s2) => (r, Sql d0 (faults s2))
      | (Ok (Commit r), s2) =>
          match exec id s2 with                                (* tx.Commit() *)
          | (Err e, s3) => (Err e, Sql d0 (faults s3))
          | (Ok _, s3) => (r, s3)
          end
      end
  end.

(** Statements that start from the given tables with no failing statement to come. *)
Definition run {A} (m : DB A) (d : db) : res dberr A * db :=
  let (r, s) := m (Sql d []) in (r, tabs s).

(** ** Field updates of a row *)

Definition set_status (v : string) (r : download_row) : download_row :=
  DRow v (file_name r) (save_path r) (media_type r) (file_size r) (sha256 r) (error r)
    (created_at r) (updated_at r) (downloaded_at r) (processing_started_at r)
    (attempts r) (next_retry_at r) (attempt_generation r).
Definition set_error (v : option string) (r : download_row) : download_row :=
  DRow (status r) (file_name r) (save_path r) (media_type r) (file_size r) (sha256 r) v
    (created_at r) (updated_at r) (downloaded_at r) (processing_started_at r)
    (attempts r) (next_retry_at r) (attempt_generation r).
Definition set_updated_at (v : Z) (r : download_row) : download_row :=
  DRow (status r) (file_name r) (save_path r) (media_type r) (file_size r) (sha256 r) (error r)
    (created_at r) v (downloaded_at r) (processing_started_at r)
    (attempts r) (next_retry_at r) (attempt_generation r).
Definition set_downloaded_at (v : option Z) (r : download_row) : download_row :=
  DRow (status r) (file_name r) (save_path r) (media_type r) (file_size r) (sha256 r) (error r)
    (created_at r) (updated_at r) v (processing_started_at r)
    (attempts r) (next_retry_at r) (attempt_generation r).
Definition set_started_at (v : option Z) (r : download_row) : download_row :=
  DRow (status r) (file_name r) (save_path r) (media_type r) (file_size r) (sha256 r) (error r)
    (created_at r) (updated_at r) (downloaded_at r) v
    (attempts r) (next_retry_at r) (attempt_generation r).
Definition set_attempts (v : Z) (r : download_row) : download_row :=
  DRow (status r) (file_name r) (save_path r) (media_type r) (file_size r) (sha256 r) (error r)
    (created_at r) (updated_at r) (downloaded_at r) (processing_started_at r)
    v (next_retry_at r) (attempt_generation r).
Definition set_next_retry_at (v : Z) (r : download_row) : download_row :=
  DRow (status r) (file_name r) (save_path r) (media_type r) (file_size r) (sha256 r) (error r)
    (created_at r) (updated_at r) (downloaded_at r) (processing_started_at r)
    (attempts r) v (attempt_generation r).
Definition set_generation (v : string) (r : download_row) : download_row :=
  DRow (status r) (file_name r) (save_path r) (media_type r) (file_size r) (sha256 r) (error r)
    (created_at r) (updated_at r) (downloaded_at r) (processing_started_at r)
    (attempts r) (next_retry_at r) v.

(** [SET save_path = ?, file_size = ?, sha256 = ?]. *)
Definition set_proof (path : string) (size : Z) (sha : string) (r : download_row) : download_row :=
  DRow (status r) (file_name r) (Some path) (media_type r) (Some size) (Some sha) (error r)
    (created_at r) (updated_at r) (downloaded_at r) (processing_started_at r)
    (attempts r) (next_retry_at r) (attempt_generation r).

(** [CASE WHEN ? != '' THEN ? ELSE col END] and [CASE WHEN ? > 0 THEN ? ELSE col END]. *)
Definition text_or (v : string) (old : option string) : option string :=
  if decide (v = "") then old else Some v.
Definition size_or (v : Z) (old : option Z) : option Z :=
  if 0 <? v then Some v else old.

(** The four metadata assignments BeginDownload, FailDownload and RecordTargetConflict share. *)
Definition set_meta (fileName savePath mediaType : string) (fileSize : Z) (r : download_row)
    : download_row :=
  DRow (status r) (text_or fileName (file_name r)) (text_or savePath (save_path r))
    (text_or mediaType (media_type r)) (size_or fileSize (file_size r)) (sha256 r) (error r)
    (created_at r) (updated_at r) (downloaded_at r) (processing_started_at r)
    (attempts r) (next_retry_at r) (attempt_generation r).

Definition set_state (v : string) (r : archive_row) : archive_row :=
  ARow (relative_path r) (expected_size r) (a_sha256 r) v (a_attempts r) (a_next_retry_at r)
    (claim_id r) (last_error r) (a_created_at r) (a_updated_at r).
Definition set_claim (v : string) (r : archive_row) : archive_row :=
  ARow (relative_path r) (expected_size r) (a_sha256 r) (state r) (a_attempts r)
    (a_next_retry_at r) v (last_error r) (a_created_at r) (a_updated_at r).
Definition set_last_error (v : string) (r : archive_row) : archive_row :=
  ARow (relative_path r) (expected_size r) (a_sha256 r) (state r) (a_attempts r)
    (a_next_retry_at r) (claim_id r) (Some v) (a_created_at r) (a_updated_at r).
Definition set_a_updated_at (v : Z) (r : archive_row) : archive_row :=
  ARow (relative_path r) (expected_size r) (a_sha256 r) (state r) (a_attempts r)
    (a_next_retry_at r) (claim_id r) (last_error r) (a_created_at r) v.
Definition set_retry (n next : Z) (r : archive_row) : archive_row :=
  ARow (relative_path r) (expected_size r) (a_sha256 r) (state r) n next
    (claim_id r) (last_error r) (a_created_at r) (a_updated_at r).

(** ** A logic of effects

    [quiet m]: running [m] leaves the tables as they are, whatever statements fail.
    [effect R m]: running [m] takes the tables along [R]. The rules below follow the
    structure of a handler, so a handler's effect reduces to its one or two writes. *)

Definition quiet {A} (m : DB A) : Prop := ∀ s, tabs (m s).2 = tabs s.
Definition effect {A} (R : db → db → Prop) (m : DB A) : Prop := ∀ s, R (tabs s) (tabs (m s).2).

(** A relation on rows, at every key of a table. *)
Definition on_records (R : option download_row → option download_row → Prop) (d d' : db) : Prop :=
  ∀ k, R (records d !! k) (records d' !! k).
Definition on_jobs (R : option archive_row → option archive_row → Prop) (d d' : db) : Prop :=
  ∀ k, R (jobs d !! k) (jobs d' !! k).

Section Effects.
Context {A B : Type}.
Implicit Types (R : db → db → Prop).

Lemma quiet_ret (a : A) : quiet (st_ret a).
Proof. by intros s. Qed.
Lemma quiet_err e : quiet (A:=A) (st_err e).
Proof. by intros s. Qed.
Lemma quiet_query (f : db → A) : quiet (query f).
Proof. intros s. unfold query, stmt. by destruct (hd false (faults s)). Qed.
Lemma quiet_bind (m : DB A) (k : A → DB B) : quiet m → (∀ a, quiet (k a)) → quiet (st_bind m k).
Proof.
  intros Hm Hk s. unfold st_bind. specialize (Hm s).
  destruct (m s) as [[a|e] s']; simpl in *; [by rewrite Hk|done].
Qed.
Lemma quiet_try (m : DB A) (k : res dberr A → DB B) :
  quiet m → (∀ a, quiet (k a)) → quiet (st_try m k).
Proof.
  intros Hm Hk s. unfold st_try. specialize (Hm s).
  destruct (m s) as [r s']; simpl in *. by rewrite Hk.
Qed.

Lemma effect_quiet R (m : DB A) : (∀ d, R d d) → quiet m → effect R m.
Proof. intros Hr Hq s. by rewrite Hq. Qed.
Lemma effect_bind_l R (m : DB A) (k : A → DB B) :
  (∀ d, R d d) → quiet m → (∀ a, effect R (k a)) → effect R (st_bind m k).
Proof.
  intros Hr Hm Hk s. unfold st_bind. specialize (Hm s).
  destruct (m s) as [[a|e] s']; simpl in *; rewrite <- Hm; auto.
  apply Hk.
Qed.
Lemma effect_bind_r R (m : DB A) (k : A → DB B) :
  effect R m → (∀ a, quiet (k a)) → effect R (st_bind m k).
Proof.
  intros Hm Hk s. unfold st_bind. specialize (Hm s).
  destruct (m s) as [[a|e] s']; simpl in *; [by rewrite Hk|done].
Qed.
Lemma effect_bind_trans R (m : DB A) (k : A → DB B) :
  (∀ d1 d2 d3, R d1 d2 → R d2 d3 → R d1 d3) →
  effect R m → (∀ a, effect R (k a)) → effect R (st_bind m k).
Proof.
  intros Ht Hm Hk s. unfold st_bind. specialize (Hm s).
  destruct (m s) as [[a|e] s']; simpl in *; [|done]. eapply Ht, Hk. done.
Qed.
Lemma effect_try_l R (m : DB A) (k : res dberr A → DB B) :
  quiet m → (∀ a, effect R (k a)) → effect R (st_try m k).
Proof.
  intros Hm Hk s. unfold st_try. specialize (Hm s).
  destruct (m s) as [r s']; simpl in *. rewrite <- Hm. apply Hk.
Qed.

(** Reading the tables and then acting on what was read. *)
Lemma effect_read R (f : db → A) (k : A → DB B) :
  (∀ d, R d d) → (∀ s, R (tabs s) (tabs (k (f (tabs s)) s).2)) → effect R (st_bind (query f) k).
Proof.
  intros Hr Hk s. unfold st_bind, query, stmt. destruct (hd false (faults s)); simpl; [done|].
  specialize (Hk (Sql (tabs s) (tl (faults s)))). done.
Qed.

Lemma effect_weaken R R' (m : DB A) : (∀ d d', R d d' → R' d d') → effect R m → effect R' m.
Proof. intros Hw Hm s. apply Hw, Hm. Qed.

End Effects.

Lemma effect_with_tx (R : db → db → Prop) (body : DB txout) :
  (∀ d, R d d) → effect R body → effect R (with_tx body).
Proof.
  intros Hr Hb s. unfold with_tx, query, exec, stmt.
  destruct (hd false (faults s)); simpl; [done|].
  specialize (Hb (Sql (tabs s) (tl (faults s)))).
  destruct (body _) as [[[r|r]|e] s2]; simpl in *; try done.
  destruct (hd false (faults s2)); simpl; done.
Qed.

Lemma effect_update_record R k p f :
  (∀ o, R o o) → (∀ r, p r = true → R (Some r) (Some (f r))) →
  effect (on_records R) (update_record k p f).
Proof.
  intros Hr Hf s k'. unfold update_record, stmt.
  destruct (hd false (faults s)); simpl; [done|].
  destruct (records (tabs s) !! k) as [r|] eqn:Hk; simpl; [|done].
  destruct (p r) eqn:Hp; simpl; [|done].
  destruct (decide (k = k')) as [->|]; [|by rewrite lookup_insert_ne].
  rewrite lookup_insert_eq, Hk. auto.
Qed.

Lemma upsert_record_at R k f s :
  (∀ o, R o o) → R (records (tabs s) !! k) (Some (f (records (tabs s) !! k))) →
  on_records R (tabs s) (tabs (upsert_record k f s).2).
Proof.
  intros Hr Hf k'. unfold upsert_record, exec, stmt.
  destruct (hd false (faults s)); simpl; [done|].
  destruct (decide (k = k')) as [->|]; [|by rewrite lookup_insert_ne].
  by rewrite lookup_insert_eq.
Qed.

Lemma effect_update_job R k p f :
  (∀ o, R o o) → (∀ r, p r = true → R (Some r) (Some (f r))) →
  effect (on_jobs R) (update_job k p f).
Proof.
  intros Hr Hf s k'. unfold update_job, stmt.
  destruct (hd false (faults s)); simpl; [done|].
  destruct (jobs (tabs s) !! k) as [r|] eqn:Hk; simpl; [|done].
  destruct (p r) eqn:Hp; simpl; [|done].
  destruct (decide (k = k')) as [->|]; [|by rewrite lookup_insert_ne].
  rewrite lookup_insert_eq, Hk. auto.
Qed.

(** Statements on one table leave the other alone. *)
Definition same_records (d d' : db) : Prop := records d' = records d.
Definition same_jobs (d d' : db) : Prop := jobs d' = jobs d.

Lemma same_records_update_job k p f : effect same_records (update_job k p f).
Proof.
  intros s. unfold update_job, stmt. destruct (hd false (faults s)); simpl; [done|].
  destruct (jobs (tabs s) !! k) as [r|]; simpl; [|done]. by destruct (p r).
Qed.
Lemma same_records_insert_job k r : effect same_records (insert_job k r).
Proof. intros s. unfold insert_job, exec, stmt. by destruct (hd false (faults s)). Qed.
Lemma same_jobs_update_record k p f : effect same_jobs (update_record k p f).
Proof.
  intros s. unfold update_record, stmt. destruct (hd false (faults s)); simpl; [done|].
  destruct (records (tabs s) !! k) as [r|]; simpl; [|done]. by destruct (p r).
Qed.
Lemma same_jobs_insert_record k r : effect same_jobs (insert_record k r).
Proof. intros s. unfold insert_record, exec, stmt. by destruct (hd false (faults s)). Qed.

Lemma same_records_trans d1 d2 d3 : same_records d1 d2 → same_records d2 d3 → same_records d1 d3.
Proof. unfold same_records. congruence. Qed.
Lemma same_jobs_trans d1 d2 d3 : same_jobs d1 d2 → same_jobs d2 d3 → same_jobs d1 d3.
Proof. unfold same_jobs. congruence. Qed.

(** A write to the records followed by code that leaves them alone, and the converse. *)
Lemma effect_bind_records {A B} R (m : DB A) (k : A → DB B) :
  effect (on_records R) m → (∀ a, effect same_records (k a)) →
  effect (on_records R) (st_bind m k).
Proof.
  intros Hm Hk s. unfold st_bind. specialize (Hm s).
  destruct (m s) as [[a|e] s']; simpl in *; [|done].
  intros k'. by rewrite (Hk a s').
Qed.
Lemma effect_bind_jobs {A B} R (m : DB A) (k : A → DB B) :
  (∀ o, R o o) → effect same_jobs m → (∀ a, effect (on_jobs R) (k a)) →
  effect (on_jobs R) (st_bind m k).
Proof.
  intros Hr Hm Hk s k'. unfold st_bind. specialize (Hm s).
  destruct (m s) as [[a|e] s']; simpl in *; rewrite <- Hm; [apply Hk|apply Hr].
Qed.
Lemma effect_try_r {A B} R (m : DB A) (k : res dberr A → DB B) :
  effect R m → (∀ a, quiet (k a)) → effect R (st_try m k).
Proof.
  intros Hm Hk s. unfold st_try. specialize (Hm s).
  destruct (m s) as [r s']; simpl in *. by rewrite Hk.
Qed.
Lemma on_records_same R d d' : (∀ o, R o o) → same_records d d' → on_records R d d'.
Proof. intros Hr Hs k. rewrite Hs. apply Hr. Qed.
Lemma on_jobs_same R d d' : (∀ o, R o o) → same_jobs d d' → on_jobs R d d'.
Proof. intros Hr Hs k. rewrite Hs. apply Hr. Qed.

(** An [INSERT] after the row was seen to be absent. *)
Lemma insert_record_fresh R k r s :
  (∀ o, R o o) → R None (Some r) → records (tabs s) !! k = None →
  on_records R (tabs s) (tabs (insert_record k r s).2).
Proof.
  intros Hr Hn Hk k'. unfold insert_record, exec, stmt.
  destruct (hd false (faults s)); simpl; [done|].
  destruct (decide (k = k')) as [->|]; [|by rewrite lookup_insert_ne].
  by rewrite lookup_insert_eq, Hk.
Qed.
Lemma insert_job_fresh R k r s :
  (∀ o, R o o) → R None (Some r) → jobs (tabs s) !! k = None →
  on_jobs R (tabs s) (tabs (insert_job k r s).2).
Proof.
  intros Hr Hn Hk k'. unfold insert_job, exec, stmt.
  destruct (hd false (faults s)); simpl; [done|].
  destruct (decide (k = k')) as [->|]; [|by rewrite lookup_insert_ne].
  by rewrite lookup_insert_eq, Hk.
Qed.

(** [SELECT] one record, then either insert it or work on it. *)
Lemma effect_read_record {A} R k (K : option download_row → DB A) :
  (∀ o, R o o) →
  (∀ s, records (tabs s) !! k = None → on_records R (tabs s) (tabs (K None s).2)) →
  (∀ s r, records (tabs s) !! k = Some r → on_records R (tabs s) (tabs (K (Some r) s).2)) →
  effect (on_records R) (st_bind (query (λ d, records d !! k)) K).
Proof.
  intros Hr Hn Hs. apply effect_read; [intros d k'; apply Hr|]. intros s.
  destruct (records (tabs s) !! k) eqn:Hk; [by apply Hs|by apply Hn].
Qed.
Lemma update_record_then {A} R k p f (K : Z → DB A) s r :
  (∀ o, R o o) → records (tabs s) !! k = Some r →
  (p r = true → R (Some r) (Some (f r))) → (∀ a, effect same_records (K a)) →
  on_records R (tabs s) (tabs (st_bind (update_record k p f) K s).2).
Proof.
  intros Hr Hk Hf HK k'. unfold st_bind, update_record, stmt.
  destruct (hd false (faults s)); simpl; [apply Hr|]. rewrite Hk.
  destruct (p r) eqn:Hp; simpl; rewrite HK; simpl; [|apply Hr].
  destruct (decide (k = k')) as [->|]; [|by rewrite lookup_insert_ne].
  rewrite lookup_insert_eq, Hk. auto.
Qed.
Lemma quiet_at {A} R (m : DB A) s : (∀ o, R o o) → quiet m → on_records R (tabs s) (tabs (m s).2).
Proof. intros Hr Hm k. rewrite Hm. apply Hr. Qed.
Lemma insert_record_fresh_then {A} R k r (K : unit → DB A) s :
  (∀ o, R o o) → R None (Some r) → records (tabs s) !! k = None →
  (∀ a, effect same_records (K a)) →
  on_records R (tabs s) (tabs (st_bind (insert_record k r) K s).2).
Proof.
  intros Hr Hn Hk HK. pose proof (insert_record_fresh R k r s Hr Hn Hk) as Hi.
  unfold st_bind. destruct (insert_record k r s) as [[a|e] s']; simpl in *; [|done].
  intros k'. by rewrite (HK a s').
Qed.

Ltac quiet :=
  lazymatch goal with
  | |- quiet (st_ret _) => apply quiet_ret
  | |- quiet (st_err _) => apply quiet_err
  | |- quiet (query _) => apply quiet_query
  | |- quiet (st_bind _ _) => apply quiet_bind; [quiet|intros ?; quiet]
  | |- quiet (st_try _ _) => apply quiet_try; [quiet|intros ?; quiet]
  | |- quiet (match ?x with _ => _ end) => destruct x; quiet
  | |- quiet ?m => first [done | progress simpl; quiet]
  end.

(** [sql_run]: execute a handler symbolically, one goal per path. *)
Ltac sql_unfold :=
  unfold update_record, update_job, insert_record, insert_job, query, exec, stmt,
    st_bind, st_try, st_ret, st_err, set_jobs, set_records in *; simpl in *.
Ltac sql_step :=
  match goal with
  | |- context [match ?x with _ => _ end] =>
      lazymatch x with
      | context [match _ with _ => _ end] => fail
      | decide _ => destruct x; simpl in *; simplify_eq/=
      | _ => destruct x eqn:?; simpl in *; simplify_eq/=
      end
  end.
Ltac sql_run := sql_unfold; repeat sql_step.
