(* ===== verification/ArchiveJobs.v ===== *)
(** * The archive queue

    The operations of app/daemon/db.go on the archive_jobs table: queueing inside the
    completion transaction ([ensureArchiveJobLocked]), claiming, completing, failing with
    back-off, flagging conflicts and crash recovery. The theorems show that a job's
    identity never changes, that its states follow a fixed graph with two absorbing
    states, that a claim is exclusive, and that the retry delay stays within its bounds. *)
From S2P Require Import Prelude Sql.

(** ** Data of models.go *)

Record ArchiveJob := Job {
  j_ChatID : string;
  j_MessageID : Z;
  j_RelativePath : string;
  j_ExpectedSize : Z;
  j_SHA256 : string;
  j_State : string;
  j_Attempts : Z;
  j_NextRetryAt : Z;
  j_ClaimID : string;
  j_LastError : string;
  j_CreatedAt : Z;
  j_UpdatedAt : Z;
}.

Record ArchiveStats := Stats {
  BacklogFiles : Z;
  BacklogBytes : Z;
  ActiveWorkers : Z;
  ArchivedFiles : Z;
  ConflictCount : Z;
  ArchivedBytes : Z;
}.

Definition job_of_row (k : key) (r : archive_row) : ArchiveJob :=
  Job k.1 k.2 (relative_path r) (expected_size r) (a_sha256 r) (state r) (a_attempts r)
    (a_next_retry_at r) (claim_id r) (coalesce "" (last_error r)) (a_created_at r)
    (a_updated_at r).

(** [arcSHA != sha256Hex || arcPath != relPath || arcSize != size], negated. *)
Definition same_identity (r : archive_row) (relPath : string) (size : Z) (sha : string) : bool :=
  bool_decide (a_sha256 r = sha ∧ relative_path r = relPath ∧ expected_size r = size).

(** [(claim_id = ? OR claim_id = '')]. *)
Definition claim_ok (claimID : string) (r : archive_row) : bool :=
  bool_decide (claim_id r = claimID ∨ claim_id r = "").

(** ** Operations *)

Definition ensureArchiveJobLocked (k : key) (relPath : string) (size : Z) (sha256Hex : string)
    (now : Z) : DB unit :=
  let! job := query (λ d, jobs d !! k) in
  match job with
  | None =>
      insert_job k (ARow relPath size sha256Hex "pending" 0 0 "" None now now)
  | Some r =>
      if decide (state r = "archived") then
        if same_identity r relPath size sha256Hex then return! tt else fail! ErrArchiveConflict
      else if decide (state r = "conflict") then
        if same_identity r relPath size sha256Hex then return! tt else fail! ErrArchiveConflict
      else if decide (state r = "copying") then
        if same_identity r relPath size sha256Hex then return! tt else fail! ErrArchiveConflict
      else
        if same_identity r relPath size sha256Hex then return! tt
        else
          let! _ := update_job k (λ _, true)
            (λ r, set_a_updated_at now
               (set_last_error "archive identity mismatch on duplicate download complete"
                  (set_state "conflict" r))) in
          fail! ErrArchiveConflict
  end.

(** [ORDER BY created_at ASC]. *)
Definition job_le (a b : key * archive_row) : Prop := a_created_at a.2 <= a_created_at b.2.
#[export] Instance job_le_dec : RelDecision job_le.
Proof. intros a b. unfold job_le. apply _. Defined.

Definition due (now : Z) (r : archive_row) : bool :=
  bool_decide (state r = "pending" ∧ a_next_retry_at r <= now).

Definition GetDueArchiveJobs (now limit : Z) : DB (list ArchiveJob) :=
  query (λ d,
    (λ kr, job_of_row kr.1 kr.2) <$>
      top_k job_le limit (filter (λ kr, due now kr.2 = true) (map_to_list (jobs d)))).

Definition ClaimArchiveJob (k : key) (claimID : string) (now : Z) : DB bool :=
  let! n := update_job k (λ r, bool_decide (state r = "pending"))
    (λ r, set_a_updated_at now (set_claim claimID (set_state "copying" r))) in
  return! (0 <? n).

Definition CompleteArchiveJob (k : key) (claimID expectedSHA : string) (now : Z) : DB unit :=
  let! n := update_job k
    (λ r, bool_decide (state r = "copying") && claim_ok claimID r &&
          bool_decide (a_sha256 r = expectedSHA))
    (λ r, set_a_updated_at now (set_claim "" (set_last_error "" (set_state "archived" r)))) in
  if n =? 0 then
    let! job := query (λ d, jobs d !! k) in
    match job with
    | None => fail! (ErrStateConflict "archive job does not exist")
    | Some r =>
        if decide (state r = "archived") then
          if decide (a_sha256 r = expectedSHA) then return! tt
          else fail! (ErrStateConflict "archive job already archived with conflicting sha")
        else if decide (state r = "conflict") then
          fail! (ErrStateConflict "archive job is in conflict state")
        else if decide (claim_id r ≠ "" ∧ claimID ≠ "" ∧ claim_id r ≠ claimID) then
          fail! (ErrStaleAttempt "stale archive claim")
        else fail! (ErrStateConflict "archive job not in copying state")
    end
  else return! tt.

(** [int64(5 * (1 << (attempts - 1)))] with its cap. *)
Definition archive_backoff (attempts : Z) : Z :=
  let backoffSec := wrap64 (5 * shl64 1 (attempts - 1)) in
  if (1800 <? backoffSec) || (backoffSec <=? 0) then 1800 else backoffSec.

Definition FailArchiveJob (k : key) (claimID errStr : string) (now : Z) : DB unit :=
  let! job := query (λ d, jobs d !! k) in
  match job with
  | None => fail! (ErrStateConflict "archive job does not exist")
  | Some r =>
      if decide (state r = "archived" ∨ state r = "conflict") then
        fail! (ErrStateConflict "cannot fail archive job in terminal state")
      else if decide (state r ≠ "copying") then
        fail! (ErrStateConflict "cannot fail archive job from state")
      else if decide (claim_id r ≠ "" ∧ claimID ≠ "" ∧ claim_id r ≠ claimID) then
        fail! (ErrStaleAttempt "stale archive attempt")
      else
        let attempts := a_attempts r + 1 in
        let nextRetry := now + archive_backoff attempts in
        let! n := update_job k (λ r, bool_decide (state r = "copying") && claim_ok claimID r)
          (λ r, set_a_updated_at now (set_claim "" (set_last_error errStr
                  (set_retry attempts nextRetry (set_state "pending" r))))) in
        if n =? 0 then fail! (ErrStateConflict "zero rows affected in FailArchiveJob")
        else return! tt
  end.

Definition SetArchiveJobConflict (k : key) (claimID errStr : string) (now : Z) : DB unit :=
  let! job := query (λ d, jobs d !! k) in
  match job with
  | None => fail! (ErrStateConflict "archive job does not exist")
  | Some r =>
      if decide (state r = "archived") then
        fail! (ErrStateConflict "cannot set conflict on already archived job")
      else if decide (state r = "conflict") then return! tt
      else if decide (claim_id r ≠ "" ∧ claimID ≠ "" ∧ claim_id r ≠ claimID) then
        fail! (ErrStaleAttempt "stale archive claim")
      else
        let! n := update_job k
          (λ r, bool_decide (state r = "pending" ∨ state r = "copying") && claim_ok claimID r)
          (λ r, set_a_updated_at now (set_claim "" (set_last_error errStr (set_state "conflict" r)))) in
        if n =? 0 then fail! (ErrStateConflict "zero rows affected in SetArchiveJobConflict")
        else return! tt
  end.

Definition copying_jobs (d : db) : list ArchiveJob :=
  (λ kr, job_of_row kr.1 kr.2) <$>
    filter (λ kr, state kr.2 = "copying") (map_to_list (jobs d)).

Definition GetStaleCopyingArchiveJobs : DB (list ArchiveJob) := query copying_jobs.

Definition RecoverStaleArchiveJob (k : key) (staleClaimID : string) (now : Z) : DB unit :=
  let! n := update_job k (λ r, bool_decide (state r = "copying") && claim_ok staleClaimID r)
    (λ r, set_a_updated_at now (set_claim "" (set_state "pending" r))) in
  if n =? 0 then
    try! _ := query (λ d, jobs d !! k) in
    fail! (ErrStateConflict "cannot recover archive job from non-copying state")
  else return! tt.

Definition RecoverArchiveJobComplete (k : key) (staleClaimID expectedSHA : string) (now : Z)
    : DB unit :=
  let! n := update_job k
    (λ r, bool_decide (state r = "copying") && claim_ok staleClaimID r &&
          bool_decide (a_sha256 r = expectedSHA))
    (λ r, set_a_updated_at now (set_claim "" (set_last_error "" (set_state "archived" r)))) in
  if n =? 0 then
    try! q := query (λ d, jobs d !! k) in
    match q with
    | Ok (Some r) =>
        if decide (state r = "archived" ∧ a_sha256 r = expectedSHA) then return! tt
        else fail! (ErrStateConflict "cannot complete recovered archive job from state")
    | _ =>
        (* the scan left state and currentSHA empty *)
        fail! (ErrStateConflict "cannot complete recovered archive job from state")
    end
  else return! tt.

(** [COALESCE(SUM(CASE WHEN p THEN f ELSE 0 END), 0)]. *)
Definition sum_jobs (p : archive_row → bool) (f : archive_row → Z) (d : db) : Z :=
  sumZ (λ kr, if p kr.2 then f kr.2 else 0) (map_to_list (jobs d)).

Definition GetArchiveStats : DB ArchiveStats :=
  query (λ d,
    let backlog r := bool_decide (state r = "pending" ∨ state r = "copying") in
    let copying r := bool_decide (state r = "copying") in
    let archived r := bool_decide (state r = "archived") in
    let conflict r := bool_decide (state r = "conflict") in
    Stats (sum_jobs backlog (λ _, 1) d) (sum_jobs backlog expected_size d)
      (sum_jobs copying (λ _, 1) d) (sum_jobs archived (λ _, 1) d)
      (sum_jobs conflict (λ _, 1) d) (sum_jobs archived expected_size d)).

(** ** The contract: one step of a job *)

(** The states an operation may move a job between. *)
Definition job_edge (s s' : string) : bool :=
  bool_decide (s = s') ||
  bool_decide (s = "pending" ∧ s' = "copying") ||
  bool_decide (s = "pending" ∧ s' = "conflict") ||
  bool_decide (s = "copying" ∧ s' = "archived") ||
  bool_decide (s = "copying" ∧ s' = "pending") ||
  bool_decide (s = "copying" ∧ s' = "conflict").

(** The path, size and digest a job was queued with. *)
Definition identity (r : archive_row) : string * Z * string :=
  (relative_path r, expected_size r, a_sha256 r).

Definition known_state (s : string) : Prop :=
  s = "pending" ∨ s = "copying" ∨ s = "archived" ∨ s = "conflict".

Inductive job_step : option archive_row → option archive_row → Prop :=
| job_same o : job_step o o
| job_new r : state r = "pending" → claim_id r = "" → job_step None (Some r)
| job_move r r' :
    identity r' = identity r →
    a_created_at r' = a_created_at r →
    (known_state (state r) → job_edge (state r) (state r') = true) →
    known_state (state r') →
    state r ≠ "archived" → state r ≠ "conflict" →
    job_step (Some r) (Some r').

#[export] Hint Constructors job_step : tgx.

(** ** Every operation is a step *)

(** A guarded write of a job: read the guard, then classify the move. *)
Ltac job_write :=
  apply effect_update_job; [constructor|];
  intros ? ?; go_bool; unfold claim_ok in *; go_bool;
  apply job_move; simpl; unfold known_state, job_edge; try done; try congruence; try tauto;
  repeat match goal with H : state _ = _ |- _ => rewrite H end; done.

Ltac job_effect :=
  lazymatch goal with
  | |- effect _ (st_bind (query _) _) =>
      apply effect_bind_l; [constructor|quiet|intros ?; job_effect]
  | |- effect _ (st_bind (update_job _ _ _) _) =>
      apply effect_bind_r; [job_write|intros ?; quiet]
  | |- effect _ (match ?x with _ => _ end) => destruct x; job_effect
  | |- effect _ (let _ := _ in _) => cbv zeta; job_effect
  | |- effect _ _ => apply effect_quiet; [constructor|quiet]
  end.

Lemma ensureArchiveJobLocked_step k relPath size sha now :
  effect (on_jobs job_step) (ensureArchiveJobLocked k relPath size sha now).
Proof.
  apply effect_read; [constructor|]. intros s.
  destruct (jobs (tabs s) !! k) as [r|] eqn:Hk; [|apply insert_job_fresh; eauto with tgx].
  repeat case_decide; try (case_match; constructor).
  case_match; [constructor|]. revert s Hk.
  enough (∀ s, jobs (tabs s) !! k = Some r →
    on_jobs job_step (tabs s) (tabs (update_job k (λ _, true) (λ r, set_a_updated_at now
      (set_last_error "archive identity mismatch on duplicate download complete"
        (set_state "conflict" r))) s).2)) as Hup.
  { intros s Hk. specialize (Hup s Hk). unfold st_bind. by destruct (update_job _ _ _ _) as [[]]. }
  intros s Hk k'. unfold update_job, stmt. destruct (hd false (faults s)); simpl; [constructor|].
  rewrite Hk. simpl. destruct (decide (k = k')) as [->|]; [|rewrite lookup_insert_ne by done; constructor].
  rewrite lookup_insert_eq, Hk. apply job_move; try done; [|unfold known_state; simpl; tauto].
  intros [Hs|[Hs|[Hs|Hs]]]; [|done..]. unfold job_edge. by rewrite Hs.
Qed.

Lemma ClaimArchiveJob_step k claimID now :
  effect (on_jobs job_step) (ClaimArchiveJob k claimID now).
Proof. unfold ClaimArchiveJob. job_effect. Qed.

Lemma CompleteArchiveJob_step k claimID sha now :
  effect (on_jobs job_step) (CompleteArchiveJob k claimID sha now).
Proof. unfold CompleteArchiveJob. job_effect. Qed.

Lemma FailArchiveJob_step k claimID e now :
  effect (on_jobs job_step) (FailArchiveJob k claimID e now).
Proof. unfold FailArchiveJob. job_effect. Qed.

Lemma SetArchiveJobConflict_step k claimID e now :
  effect (on_jobs job_step) (SetArchiveJobConflict k claimID e now).
Proof.
  unfold SetArchiveJobConflict. apply effect_bind_l; [constructor|quiet|intros job].
  destruct job as [r|]; [|job_effect]. repeat (destruct (decide _); [job_effect|]).
  apply effect_bind_r; [|intros ?; quiet]. apply effect_update_job; [constructor|].
  intros r' Hg. go_bool. apply job_move; simpl; unfold known_state; try done; try tauto.
  - intros _. unfold job_edge. destruct H as [-> | ->]; done.
  - intros ?. destruct H; congruence.
  - intros ?. destruct H; congruence.
Qed.

Lemma RecoverStaleArchiveJob_step k claimID now :
  effect (on_jobs job_step) (RecoverStaleArchiveJob k claimID now).
Proof. unfold RecoverStaleArchiveJob. job_effect. Qed.

Lemma RecoverArchiveJobComplete_step k claimID sha now :
  effect (on_jobs job_step) (RecoverArchiveJobComplete k claimID sha now).
Proof. unfold RecoverArchiveJobComplete. job_effect. Qed.

(** ** Claims *)

(** A holder's claim keeps every other worker out: no operation that presents another,
    non-empty claim changes the row. *)
Definition other_claim_op (c : string) (k : key) (m : DB unit) : Prop :=
  ∃ c' now, c' ≠ c ∧ c' ≠ "" ∧
    ((∃ sha, m = CompleteArchiveJob k c' sha now) ∨
     (∃ e, m = FailArchiveJob k c' e now) ∨
     (∃ e, m = SetArchiveJobConflict k c' e now) ∨
     m = RecoverStaleArchiveJob k c' now ∨
     (∃ sha, m = RecoverArchiveJobComplete k c' sha now)).

Definition claimed_by (c : string) (k : key) (d : db) : Prop :=
  ∃ r, jobs d !! k = Some r ∧ state r = "copying" ∧ claim_id r = c.

Lemma claim_ok_other c c' r : claim_id r = c → c ≠ "" → c' ≠ c → claim_ok c' r = false.
Proof. intros. apply bool_decide_eq_false. intros [|]; congruence. Qed.

Lemma other_claim_blocked c k m s :
  c ≠ "" → claimed_by c k (tabs s) → other_claim_op c k m →
  tabs (m s).2 = tabs s ∧ is_ok (m s).1 = false.
Proof.
  intros Hc (r & Hr & Hst & Hcl) (c' & now & Hne & Hne' & Hm).
  pose proof (claim_ok_other _ _ _ Hcl Hc Hne) as Hok.
  destruct Hm as [[sha ->]|[[e ->]|[[e ->]|[->|[sha ->]]]]].
  - unfold CompleteArchiveJob. sql_unfold.
    destruct (hd false _); simpl; [done|]. rewrite Hr, Hst, Hok, andb_false_r. simpl.
    destruct (hd false _); simpl; [done|]. rewrite Hr, Hst. simpl. by case_decide.
  - unfold FailArchiveJob. sql_unfold.
    destruct (hd false _); simpl; [done|]. rewrite Hr, Hst. simpl.
    case_decide; [done|naive_solver].
  - unfold SetArchiveJobConflict. sql_unfold.
    destruct (hd false _); simpl; [done|]. rewrite Hr, Hst. simpl.
    case_decide; [done|naive_solver].
  - unfold RecoverStaleArchiveJob. sql_unfold.
    destruct (hd false _); simpl; [done|]. rewrite Hr, Hst, Hok. simpl.
    by destruct (hd false _).
  - unfold RecoverArchiveJobComplete. sql_unfold.
    destruct (hd false _); simpl; [done|]. rewrite Hr, Hst, Hok, andb_false_r. simpl.
    destruct (hd false _); simpl; [done|]. rewrite Hr, Hst. done.
Qed.

Lemma claim_taken c c' k now s :
  claimed_by c k (tabs s) →
  tabs (ClaimArchiveJob k c' now s).2 = tabs s ∧ (ClaimArchiveJob k c' now s).1 ≠ Ok true.
Proof.
  intros (r & Hr & Hst & Hcl). unfold ClaimArchiveJob. sql_unfold.
  destruct (hd false _); simpl; [done|]. rewrite Hr, Hst. done.
Qed.

(** A claimed archive job belongs to one worker: claiming it again reports false, and
    completing, failing, flagging or recovering it under a different claim returns an
    error; none of them changes the store, whatever statements fail. *)
Theorem archive_claim_exclusive (c c' : string) (k : key) (now : Z) (m : DB unit) (s : sqlst) :
  c ≠ "" → claimed_by c k (tabs s) → other_claim_op c k m →
  (tabs (m s).2 = tabs s ∧ is_ok (m s).1 = false) ∧
  (tabs (ClaimArchiveJob k c' now s).2 = tabs s ∧ (ClaimArchiveJob k c' now s).1 ≠ Ok true).
Proof. eauto using other_claim_blocked, claim_taken. Qed.

(** ** The retry delay *)

Lemma archive_backoff_small n : 1 <= n <= 64 → 5 <= archive_backoff n <= 1800.
Proof.
  intros Hn. assert (Forall (λ n, 5 <= archive_backoff n <= 1800) (seqZ 1 64)) as Hall.
  { apply (bool_decide_unpack _). vm_compute. exact I. }
  rewrite Forall_forall in Hall. apply Hall, elem_of_seqZ. lia.
Qed.

(** The delay before a failed archive attempt is retried lies between 5 seconds and 30
    minutes for every attempt number, including those whose shift overflows. *)
Theorem archive_backoff_bounded (n : Z) : 1 <= n → 5 <= archive_backoff n <= 1800.
Proof.
  intros Hn. destruct (Z.le_gt_cases n 64) as [Hs|Hl].
  - apply archive_backoff_small. lia.
  - unfold archive_backoff. rewrite shl64_ge by lia. vm_compute. intuition congruence.
Qed.

Lemma archive_backoff_bounded_witness : 5 <= archive_backoff 62 <= 1800.
Proof. apply (archive_backoff_bounded 62). lia. Defined.

Definition sample_job : archive_row := ARow "a/b.mp4" 7 "d1" "copying" 0 0 "c1" None 1 1.
Definition sample_jobs : db := set_jobs {[ ("chat", 5) := sample_job ]} empty_db.

Lemma archive_claim_exclusive_witness :
  (tabs (FailArchiveJob ("chat", 5) "c2" "boom" 9 (Sql sample_jobs [])).2 = sample_jobs ∧
   is_ok (FailArchiveJob ("chat", 5) "c2" "boom" 9 (Sql sample_jobs [])).1 = false) ∧
  (tabs (ClaimArchiveJob ("chat", 5) "c3" 9 (Sql sample_jobs [])).2 = sample_jobs ∧
   (ClaimArchiveJob ("chat", 5) "c3" 9 (Sql sample_jobs [])).1 ≠ Ok true).
Proof.
  apply (archive_claim_exclusive "c1" "c3" ("chat", 5) 9
           (FailArchiveJob ("chat", 5) "c2" "boom" 9) (Sql sample_jobs [])).
  - done.
  - exists sample_job. done.
  - exists "c2", 9. split_and!; [done|done|]. right; left. by exists "boom".
Defined.

(** ** The queue *)

#[export] Instance job_le_trans : Transitive job_le.
Proof. intros a b c. unfold job_le. lia. Qed.
#[export] Instance job_le_total : Total job_le.
Proof. intros a b. unfold job_le. lia. Qed.

(** [GetDueArchiveJobs] returns at most [limit] jobs, each a pending job whose retry time
    has come; a due job is left out only if [limit] jobs, all created no later, are returned. *)
Theorem due_archive_jobs_spec (d : db) (now limit : Z) :
  ∃ chosen : list (key * archive_row),
    run (GetDueArchiveJobs now limit) d = (Ok ((λ kr, job_of_row kr.1 kr.2) <$> chosen), d) ∧
    StronglySorted job_le chosen ∧
    Z.of_nat (length chosen) <= Z.max 0 limit ∧
    (∀ k r, (k, r) ∈ chosen → jobs d !! k = Some r ∧ state r = "pending" ∧ a_next_retry_at r <= now) ∧
    (∀ k r, jobs d !! k = Some r → state r = "pending" → a_next_retry_at r <= now →
       (k, r) ∈ chosen ∨
       (length chosen = Z.to_nat limit ∧ ∀ kr, kr ∈ chosen → a_created_at kr.2 <= a_created_at r)).
Proof.
  set (l := filter (λ kr : key * archive_row, due now kr.2 = true) (map_to_list (jobs d))).
  exists (top_k job_le limit l).
  pose proof (top_k_spec job_le limit l) as (Hs & Hin & Hlen & Hrest & Hfull).
  assert (∀ k r, (k, r) ∈ l ↔ jobs d !! k = Some r ∧ state r = "pending" ∧ a_next_retry_at r <= now) as Hl.
  { intros k r. unfold l, due. rewrite list_elem_of_filter, elem_of_map_to_list. simpl.
    rewrite bool_decide_eq_true. tauto. }
  split_and!; [done|done|done| |].
  - intros k r Hkr. by apply Hl, Hin.
  - intros k r Hk Hp Ha. destruct (decide ((k, r) ∈ top_k job_le limit l)) as [|Hn]; [by left|].
    right. assert ((k, r) ∈ l) as Hkl by by apply Hl.
    split; [by eapply Hfull|]. intros kr Hkr. by apply (Hrest kr (k, r)).
Qed.
