(* ===== verification/Downloads.v ===== *)
(** * The download records

    The operations of app/daemon/db.go on the download_records table (with the archive
    queue where completion feeds it), the structures they return, and
    [FailureDisposition] of app/daemon/registry.go, whose rendering is what failure
    recording stores and inspects. *)
From S2P Require Import Prelude Sql ArchiveJobs.

(** ** Failure dispositions (registry.go) *)

Record FailureDisposition := Disp {
  Stage : string;
  Op : string;
  Class_ : string;
  Unavailable : bool;
  Retryable : bool;
  RetryOwner : string;
  d_PhysicalAttemptID : string;
  Message : string;
  Cause : option string;   (* the text of the wrapped error, if any *)
}.

Definition or_else (v d : string) : string := if decide (v = "") then d else v.

(** [FailureDisposition.Error]. *)
Definition disp_Error (d : FailureDisposition) : string :=
  let msg := if decide (Message d = "") then coalesce "" (Cause d) else Message d in
  if decide (Stage d ≠ "" ∨ Op d ≠ "") then
    "[" +:+ Stage d +:+ ":" +:+ Op d +:+ ":" +:+ or_else (Class_ d) "error" +:+ "] " +:+ msg +:+
    " (owner=" +:+ or_else (RetryOwner d) "none" +:+ ", retryable=" +:+
    (if Retryable d then "true" else "false") +:+ ")"
  else msg.

(** ** Structures of models.go *)

Record DownloadRecord := Rec {
  r_ChatID : string;
  r_MessageID : Z;
  r_Status : string;
  r_FileName : string;
  r_SavePath : string;
  r_MediaType : string;
  r_FileSize : Z;
  r_SHA256 : string;
  r_Error : string;
  r_CreatedAt : Z;
  r_UpdatedAt : Z;
  r_Attempts : Z;
  r_AttemptGeneration : string;
  r_NextRetryAt : Z;
  r_TargetTitle : string;
  r_Date : Z;
}.

Record ChatMessage := Msg {
  m_ChatID : string;
  m_MessageID : Z;
  m_SenderID : string;
  m_SenderName : string;
  m_Text : string;
  m_MediaType : string;
  m_HasMedia : bool;
  m_ReplyToMessageID : Z;
  m_Date : Z;
  m_FileName : string;
  m_FileSize : Z;
}.

(** ** Ingestion *)

(** The name [IngestMessage] stores when the message carries none that is usable. *)
Definition ingest_file_name (m : ChatMessage) : string :=
  if bool_decide (m_FileName m = "") || HasSuffix (m_FileName m) ".bin" ||
     HasSuffix (m_FileName m) ".unknown" then
    let ext := if decide (m_MediaType m = "photo") then ".jpg"
               else if decide (m_MediaType m = "audio") then ".mp3" else ".mp4" in
    itoa (m_MessageID m) +:+ ext
  else m_FileName m.

Definition IngestMessage (m : ChatMessage) (now : Z) : DB unit :=
  let k : key := (m_ChatID m, m_MessageID m) in
  let hasMediaInt := if m_HasMedia m then 1 else 0 in
  with_tx (
    let! _ := exec (λ d, set_messages
      (<[k := match messages d !! k with
              | None => MRow (Some (m_SenderID m)) (Some (m_SenderName m)) (Some (m_Text m))
                          (Some (m_MediaType m)) hasMediaInt (Some (m_ReplyToMessageID m))
                          (m_Date m) now now
              | Some old => MRow (sender_id old) (sender_name old) (Some (m_Text m))
                              (Some (m_MediaType m)) hasMediaInt (reply_to_message_id old)
                              (date old) (m_created_at old) now
              end]> (messages d)) d) in
    if m_HasMedia m then
      let fileName := ingest_file_name m in
      let! _ := upsert_record k (λ row,
        match row with
        | None => DRow "pending" (Some fileName) None (Some (m_MediaType m))
                    (Some (m_FileSize m)) None None now now None None 0 0 ""
        | Some old =>
            let name :=
              match file_name old with
              | None => Some fileName
              | Some n => if like_suffix n ".bin" then Some fileName else Some n
              end in
            DRow (status old) name (save_path old) (Some (m_MediaType m))
              (Some (m_FileSize m)) (sha256 old) (error old) (created_at old)
              (updated_at old) (downloaded_at old) (processing_started_at old)
              (attempts old) (next_retry_at old) (attempt_generation old)
        end) in
      return! (Commit (Ok tt))
    else return! (Commit (Ok tt))).

Definition EnsureDownloadRecord (k : key) (finalPath : string) (expectedSize now : Z) : DB unit :=
  exec (λ d, match records d !! k with
             | Some _ => d
             | None => set_records (<[k := DRow "pending" None (Some finalPath) None
                         (Some expectedSize) None None now now None None 0 0 ""]> (records d)) d
             end).

(** ** Queries *)

(** The scan targets of GetPendingCommittingDownloads and GetStaleDownloadingRecords. *)
Definition record_of_row (k : key) (r : download_row) : DownloadRecord :=
  Rec k.1 k.2 (status r) (coalesce "" (file_name r)) (coalesce "" (save_path r))
    (coalesce "" (media_type r)) (coalesce 0 (file_size r)) (coalesce "" (sha256 r)) ""
    (created_at r) (updated_at r) (attempts r) (attempt_generation r) (next_retry_at r) "" 0.

Definition records_with_status (st : string) (d : db) : list DownloadRecord :=
  (λ kr, record_of_row kr.1 kr.2) <$>
    filter (λ kr, status kr.2 = st) (map_to_list (records d)).

Definition GetPendingCommittingDownloads : DB (list DownloadRecord) :=
  query (records_with_status "committing").
Definition GetStaleDownloadingRecords : DB (list DownloadRecord) :=
  query (records_with_status "downloading").

(** A record joined with its target, as [GetPendingDownloads] selects it. *)
Record pending_row := PRow { p_key : key; p_row : download_row; p_target : target_row; p_date : Z }.

Definition eligible (now : Z) (r : download_row) : bool :=
  bool_decide (status r = "pending" ∨ (status r = "failed" ∧ next_retry_at r <= now)).

Definition pending_rows (now : Z) (d : db) : list pending_row :=
  omap (λ kr : key * download_row,
    match targets d !! kr.1.1 with
    | Some t =>
        if bool_decide (enabled t = 1) && eligible now kr.2 then
          Some (PRow kr.1 kr.2 t (match messages d !! kr.1 with
                                  | Some m => date m
                                  | None => created_at kr.2
                                  end))
        else None
    | None => None
    end) (map_to_list (records d)).

(** [ORDER BY t.priority DESC, r.message_id ASC]. *)
Definition pending_le (a b : pending_row) : Prop :=
  priority (p_target b) < priority (p_target a) ∨
  (priority (p_target b) = priority (p_target a) ∧ (p_key a).2 <= (p_key b).2).
#[export] Instance pending_le_dec : RelDecision pending_le.
Proof. intros a b. unfold pending_le. apply _. Defined.

Definition record_of_pending (p : pending_row) : DownloadRecord :=
  let r := p_row p in
  Rec (p_key p).1 (p_key p).2 (status r) (coalesce "" (file_name r)) (coalesce "" (save_path r))
    (coalesce "" (media_type r)) (coalesce 0 (file_size r)) "" (coalesce "" (error r))
    (created_at r) (updated_at r) (attempts r) "" (next_retry_at r) (title (p_target p))
    (p_date p).

Definition GetPendingDownloads (limit now : Z) : DB (list DownloadRecord) :=
  query (λ d, record_of_pending <$> top_k pending_le limit (pending_rows now d)).

(** [GetDownloadRecord]: [file_size] is scanned without COALESCE, so NULL is an error. *)
Definition GetDownloadRecord (k : key) : DB (option DownloadRecord) :=
  let! row := query (λ d, records d !! k) in
  match row with
  | None => return! None
  | Some r =>
      match file_size r with
      | None => fail! ErrSQL
      | Some size =>
          return! (Some (Rec k.1 k.2 (status r) (coalesce "" (file_name r))
            (coalesce "" (save_path r)) (coalesce "" (media_type r)) size
            (coalesce "" (sha256 r)) (coalesce "" (error r)) 0 0 (attempts r)
            (attempt_generation r) 0 "" 0))
      end
  end.

(** [GetDurableTargetBytes]. *)
Definition success_bytes (d : db) : Z :=
  sumZ (λ kr, if bool_decide (status kr.2 = "success") then coalesce 0 (file_size kr.2) else 0)
    (map_to_list (records d)).
Definition GetDurableTargetBytes : DB Z := query success_bytes.

(** ** Failure texts and back-off *)

(** Texts of a lifecycle cancellation, which is not a download failure. *)
Definition is_cancel_text (lowerErr : string) : bool :=
  Contains lowerErr "context canceled" ||
  Contains lowerErr "context deadline exceeded" ||
  String.eqb lowerErr "canceled" || String.eqb lowerErr "task canceled" ||
  Contains lowerErr "engine forcibly closed".

Definition is_gone_text (lowerErr : string) : bool :=
  Contains lowerErr "deleted" || Contains lowerErr "unavailable" ||
  Contains lowerErr "message_id_invalid".

(** [int64(60 * (1 << currentAttempts))] capped at 1800. *)
Definition download_backoff (currentAttempts : Z) : Z :=
  let backoff := wrap64 (60 * shl64 1 currentAttempts) in
  if 1800 <? backoff then 1800 else backoff.

(** The status, error text and retry time [UpdateDownloadStatus] settles on. *)
Definition status_outcome (status0 errMsg0 : string) (currentAttempts now : Z)
    : string * string * Z :=
  if decide (status0 = "failed") then
    let lowerErr := ToLower errMsg0 in
    if is_cancel_text lowerErr then ("pending", "", 0)
    else if is_gone_text lowerErr then (status0, errMsg0, now + 86400 * 7)
    else (status0, errMsg0, now + download_backoff currentAttempts)
  else (status0, errMsg0, 0).

Definition UpdateDownloadStatus (k : key) (status0 fileName savePath mediaType : string)
    (fileSize : Z) (errMsg0 : string) (now : Z) : DB unit :=
  let downloadedAt := if decide (status0 = "success") then Some now else None in
  (* the error of the guard query is ignored: its targets stay "" and 0 *)
  try! q := query (λ d, records d !! k) in
  let '(currentStatus, currentAttempts) :=
    match q with
    | Ok (Some r) => (status r, attempts r)
    | _ => ("", 0)
    end in
  if decide (currentStatus = "success" ∨ currentStatus = "conflict") then return! tt
  else if decide (currentStatus = "failed" ∧ status0 = "failed") then return! tt
  else
    let '(st, errMsg, nextRetryAt) := status_outcome status0 errMsg0 currentAttempts now in
    let initialAttempts := if decide (st = "failed") then 1 else 0 in
    upsert_record k (λ row,
      match row with
      | None => DRow st (Some fileName) (Some savePath) (Some mediaType) (Some fileSize)
                  None (Some errMsg) now now downloadedAt None initialAttempts nextRetryAt ""
      | Some old =>
          DRow st (text_or fileName (file_name old)) (text_or savePath (save_path old))
            (text_or mediaType (media_type old)) (size_or fileSize (file_size old))
            (sha256 old) (Some errMsg) (created_at old) now
            (match downloadedAt with Some t => Some t | None => downloaded_at old end)
            (processing_started_at old)
            (if decide (st = "failed") then attempts old + 1 else attempts old)
            (if decide (st = "failed") then nextRetryAt else next_retry_at old)
            (attempt_generation old)
      end).

(** ** The attempt protocol *)

Definition BeginDownload (k : key) (generation fileName savePath mediaType : string)
    (fileSize now : Z) : DB unit :=
  let! row := query (λ d, records d !! k) in
  match row with
  | None =>
      insert_record k (DRow "downloading" (Some fileName) (Some savePath) (Some mediaType)
        (Some fileSize) None None now now None (Some now) 0 0 generation)
  | Some r =>
      let currentPath := coalesce "" (save_path r) in
      let currentSize := coalesce 0 (file_size r) in
      let currentSHA := coalesce "" (sha256 r) in
      if decide (status r = "success") then
        if decide (currentSHA = "" ∨ currentPath = "" ∨ currentSize <= 0) then
          fail! (ErrStateConflict "success record missing required proof")
        else if decide (savePath ≠ "" ∧ savePath ≠ currentPath) then
          fail! (ErrStateConflict "already success with conflicting path")
        else if decide (0 < fileSize ∧ fileSize ≠ currentSize) then
          fail! (ErrStateConflict "already success with conflicting size")
        else fail! (AlreadySuccessError (Proof_ currentPath currentSize currentSHA))
      else if decide (status r = "unavailable") then
        fail! (ErrStateConflict "cannot download unavailable message")
      else if decide (status r = "committing") then
        fail! (ErrStateConflict "message is currently committing")
      else if decide (status r = "downloading") then
        if decide (attempt_generation r ≠ generation) then
          fail! (ErrStateConflict "concurrent download active")
        else
          let! n := update_record k
            (λ r, bool_decide (status r = "downloading" ∧ attempt_generation r = generation))
            (λ r, set_updated_at now (set_meta fileName savePath mediaType fileSize r)) in
          if n =? 0 then fail! (ErrStateConflict "zero rows affected in BeginDownload update")
          else return! tt
      else
        let! n := update_record k
          (λ r, bool_decide (status r = "pending" ∨ status r = "failed"))
          (λ r, set_error (Some "") (set_started_at (Some now) (set_updated_at now
                  (set_generation generation (set_meta fileName savePath mediaType fileSize
                    (set_status "downloading" r)))))) in
        if n =? 0 then fail! (ErrStateConflict "zero rows affected in BeginDownload")
        else return! tt
  end.

(** The proof columns of a row, with NULL read as the empty value. *)
Definition row_sha (r : download_row) : string := coalesce "" (sha256 r).
Definition row_path (r : download_row) : string := coalesce "" (save_path r).
Definition row_size (r : download_row) : Z := coalesce 0 (file_size r).

Definition PrepareDownloadCommit (k : key) (generation relPath : string) (size : Z)
    (sha256Hex : string) (now : Z) : DB unit :=
  let! row := query (λ d, records d !! k) in
  match row with
  | None => fail! (ErrStateConflict "record does not exist for PrepareDownloadCommit")
  | Some r =>
      if decide (status r = "committing" ∧ attempt_generation r = generation ∧
                 row_sha r = sha256Hex ∧ row_path r = relPath ∧ row_size r = size) then return! tt
      else if decide (status r = "success") then
        if decide (row_sha r = "" ∨ row_path r = "" ∨ row_size r <= 0) then
          fail! (ErrStateConflict "success record missing required proof")
        else if decide (row_sha r = sha256Hex ∧ row_path r = relPath ∧ row_size r = size) then
          return! tt
        else fail! (ErrStateConflict "already success with conflicting proof")
      else if decide (attempt_generation r ≠ generation) then
        fail! (ErrStaleAttempt "record has another generation")
      else if decide (status r ≠ "downloading") then
        fail! (ErrStateConflict "cannot transition to committing")
      else
        let! n := update_record k
          (λ r, bool_decide (status r = "downloading" ∧ attempt_generation r = generation))
          (λ r, set_updated_at now (set_proof relPath size sha256Hex (set_status "committing" r))) in
        if n =? 0 then fail! (ErrStateConflict "zero rows affected in PrepareDownloadCommit")
        else return! tt
  end.

(** The tail shared by the two completion transactions: queue the archive job, and commit
    also when the queue reports an identity conflict. *)
Definition queue_and_commit (queueArchive : bool) (k : key) (relPath : string) (size : Z)
    (sha256Hex : string) (now : Z) : DB txout :=
  if queueArchive then
    try! q := ensureArchiveJobLocked k relPath size sha256Hex now in
    match q with
    | Ok _ => return! (Commit (Ok tt))
    | Err ErrArchiveConflict => return! (Commit (Err ErrArchiveConflict))
    | Err e => return! (Rollback (Err e))
    end
  else return! (Commit (Ok tt)).

Definition CompleteDownloadAndQueueArchive (k : key) (generation relPath : string) (size : Z)
    (sha256Hex : string) (queueArchive : bool) (now : Z) : DB unit :=
  with_tx (
    let! row := query (λ d, records d !! k) in
    match row with
    | None => fail! (ErrStateConflict "record does not exist for CompleteDownload")
    | Some r =>
        if decide (status r = "success") then
          if decide (row_sha r = "" ∨ row_path r = "" ∨ row_size r <= 0) then
            fail! (ErrStateConflict "success record missing required proof")
          else if decide (row_sha r ≠ sha256Hex ∨ row_path r ≠ relPath ∨ row_size r ≠ size) then
            fail! (ErrStateConflict "already success with conflicting proof")
          else queue_and_commit queueArchive k relPath size sha256Hex now
        else if decide (attempt_generation r ≠ generation) then
          fail! (ErrStaleAttempt "record has another generation")
        else if decide (status r ≠ "committing") then
          fail! (ErrStateConflict "cannot transition to success (must be committing)")
        else if decide (row_sha r ≠ "" ∧ row_sha r ≠ sha256Hex) then
          fail! (ErrStateConflict "prepared sha does not match completion sha")
        else if decide (row_path r ≠ "" ∧ row_path r ≠ relPath) then
          fail! (ErrStateConflict "prepared path does not match completion path")
        else if decide (0 < row_size r ∧ row_size r ≠ size) then
          fail! (ErrStateConflict "prepared size does not match completion size")
        else
          let! n := update_record k
            (λ r, bool_decide (status r = "committing" ∧ attempt_generation r = generation))
            (λ r, set_error (Some "") (set_updated_at now (set_downloaded_at (Some now)
                    (set_proof relPath size sha256Hex (set_status "success" r))))) in
          if n =? 0 then fail! (ErrStateConflict "zero rows affected in CompleteDownload")
          else queue_and_commit queueArchive k relPath size sha256Hex now
    end).

Definition CompleteExistingDownload (k : key) (generation relPath : string) (size : Z)
    (sha256Hex : string) (queueArchive : bool) (now : Z) : DB unit :=
  with_tx (
    let! row := query (λ d, records d !! k) in
    match row with
    | None =>
        let! _ := insert_record k (DRow "success" None (Some relPath) None (Some size)
                    (Some sha256Hex) (Some "") now now (Some now) None 0 0 generation) in
        queue_and_commit queueArchive k relPath size sha256Hex now
    | Some r =>
        if decide (status r = "success") then
          if decide (row_sha r = "" ∨ row_path r = "" ∨ row_size r <= 0) then
            fail! (ErrStateConflict "existing success record missing required proof")
          else if decide (row_sha r ≠ sha256Hex ∨ row_path r ≠ relPath ∨ row_size r ≠ size) then
            fail! (ErrStateConflict "already success with conflicting proof")
          else return! (Rollback (Ok tt))
        else if decide (status r = "committing" ∨ status r = "downloading") then
          if decide (attempt_generation r ≠ "" ∧ generation ≠ "" ∧ attempt_generation r ≠ generation) then
            fail! (ErrStaleAttempt "record has another generation")
          else
            let! n := update_record k
              (λ r, bool_decide ((status r = "committing" ∨ status r = "downloading") ∧
                      (attempt_generation r = generation ∨ attempt_generation r = "")))
              (λ r, set_error (Some "") (set_updated_at now (set_downloaded_at (Some now)
                      (set_proof relPath size sha256Hex (set_status "success" r))))) in
            if n =? 0 then fail! (ErrStateConflict "zero rows affected in CompleteExistingDownload")
            else queue_and_commit queueArchive k relPath size sha256Hex now
        else fail! (ErrStateConflict "cannot complete existing download from status")
    end).

(** ** Failure, conflict and cancellation *)

Definition RecordTargetConflict (k : key) (generation fileName savePath mediaType : string)
    (fileSize : Z) (disp : FailureDisposition) (now : Z) : DB unit :=
  let! row := query (λ d, records d !! k) in
  match row with
  | None =>
      insert_record k (DRow "conflict" (Some fileName) (Some savePath) (Some mediaType)
        (Some fileSize) None (Some (disp_Error disp)) now now None None 1 0 generation)
  | Some r =>
      if decide (status r = "success" ∨ status r = "conflict") then return! tt
      else if decide (attempt_generation r ≠ "" ∧ generation ≠ "" ∧ attempt_generation r ≠ generation) then
        fail! (ErrStaleAttempt "")
      else
        let! n := update_record k
          (λ r, bool_decide (status r ≠ "success" ∧
                  (attempt_generation r = generation ∨ attempt_generation r = "")))
          (λ r, set_updated_at now (set_next_retry_at 0 (set_error (Some (disp_Error disp))
                  (set_meta fileName savePath mediaType fileSize (set_status "conflict" r))))) in
        if n =? 0 then fail! (ErrStaleAttempt "zero rows affected in RecordTargetConflict")
        else return! tt
  end.

(** The new generation is the caller's, or ["retry_<nanoseconds>"]. *)
Definition ResolveTargetConflict (k : key) (newGenOpt : option string) (nowNano now : Z) : DB unit :=
  let newGen :=
    match newGenOpt with
    | Some g => or_else g ("retry_" +:+ itoa nowNano)
    | None => "retry_" +:+ itoa nowNano
    end in
  let! n := update_record k (λ r, bool_decide (status r = "conflict"))
    (λ r, set_updated_at now (set_next_retry_at 0 (set_error (Some "")
            (set_generation newGen (set_attempts 0 (set_status "pending" r)))))) in
  if n =? 0 then fail! ErrConflictRecordNotFound else return! tt.

(** The status, error text and retry time [FailDownload] settles on. *)
Definition fail_outcome (isUnavailable : bool) (errMsg0 : string) (currentAttempts now : Z)
    : string * string * Z :=
  if isUnavailable then ("unavailable", errMsg0, now + 86400 * 7)
  else if is_cancel_text (ToLower errMsg0) then ("pending", "", 0)
  else ("failed", errMsg0, now + download_backoff currentAttempts).

Definition FailDownload (k : key) (generation fileName savePath mediaType : string)
    (fileSize : Z) (errMsg0 : string) (isUnavailable : bool) (now : Z) : DB unit :=
  let status0 := if isUnavailable then "unavailable" else "failed" in
  let! row := query (λ d, records d !! k) in
  match row with
  | None =>
      insert_record k (DRow status0 (Some fileName) (Some savePath) (Some mediaType)
        (Some fileSize) None (Some errMsg0) now now None None 1 (now + 60) generation)
  | Some r =>
      if decide (status r = "success" ∨ status r = "failed" ∨ status r = "unavailable" ∨
                 status r = "conflict") then return! tt
      else if decide (attempt_generation r ≠ "" ∧ generation ≠ "" ∧ attempt_generation r ≠ generation) then
        fail! (ErrStaleAttempt "")
      else
        let '(st, errMsg, nextRetryAt) := fail_outcome isUnavailable errMsg0 (attempts r) now in
        let! n := update_record k
          (λ r, bool_decide (status r ≠ "success" ∧ status r ≠ "conflict" ∧
                  (attempt_generation r = generation ∨ attempt_generation r = "")))
          (λ r, set_updated_at now (set_next_retry_at nextRetryAt
                  (set_attempts (if decide (st = "failed") then attempts r + 1 else attempts r)
                    (set_error (Some errMsg)
                      (set_meta fileName savePath mediaType fileSize (set_status st r)))))) in
        if n =? 0 then fail! (ErrStaleAttempt "zero rows affected in FailDownload")
        else return! tt
  end.

Definition FailDownloadDisposition (k : key) (generation fileName savePath mediaType : string)
    (fileSize : Z) (disp : FailureDisposition) (now : Z) : DB unit :=
  if decide (Class_ disp = "target_conflict") then
    RecordTargetConflict k generation fileName savePath mediaType fileSize disp now
  else
    FailDownload k generation fileName savePath mediaType fileSize (disp_Error disp)
      (Unavailable disp) now.

Definition CancelDownload (k : key) (generation reason : string) (now : Z) : DB unit :=
  let! n := update_record k
    (λ r, bool_decide ((status r = "pending" ∨ status r = "downloading") ∧
            (attempt_generation r = generation ∨ attempt_generation r = "" ∨ generation = "")))
    (λ r, set_updated_at now (set_error (Some (or_else reason "task canceled"))
            (set_status "failed" r))) in
  if n =? 0 then fail! (ErrStateConflict "zero rows affected in CancelDownload")
  else return! tt.
