(* ===== verification/Lifecycle.v ===== *)
(** * The life of a download record

    The contract of the download_records and archive_jobs tables: one inductive step
    relation per table, and the proof that every operation of db.go, under any pattern
    of failing statements, moves every row along it. The theorems on permanence of
    success, on generations and on the commit protocol follow from the contract. *)
From S2P Require Import Prelude Sql ArchiveJobs Downloads.

(** ** The contract *)

(** Which status an operation may give a record. *)
Definition dl_edge (s s' : string) : Prop :=
  s' = s ∨
  ((s = "pending" ∨ s = "failed") ∧ s' = "downloading") ∨
  (s = "downloading" ∧ s' = "committing") ∨
  ((s = "committing" ∨ s = "downloading") ∧ s' = "success") ∨
  (s ≠ "success" ∧ s' = "conflict") ∨
  (s ≠ "success" ∧ s ≠ "failed" ∧ s ≠ "unavailable" ∧ s ≠ "conflict" ∧
   (s' = "failed" ∨ s' = "unavailable" ∨ s' = "pending")) ∨
  (s = "conflict" ∧ s' = "pending").

(** The two places where a record receives a new generation. *)
Definition generation_edge (s s' : string) : Prop :=
  ((s = "pending" ∨ s = "failed") ∧ s' = "downloading") ∨ (s = "conflict" ∧ s' = "pending").

Definition initial_status (s : string) : Prop :=
  s = "pending" ∨ s = "downloading" ∨ s = "success" ∨ s = "conflict" ∨
  s = "failed" ∨ s = "unavailable".

Definition has_proof (r : download_row) : Prop :=
  is_Some (save_path r) ∧ is_Some (file_size r) ∧ is_Some (sha256 r).

Inductive dl_step : option download_row → option download_row → Prop :=
| dl_same o : dl_step o o
| dl_new r :
    initial_status (status r) → (status r = "success" → has_proof r) →
    dl_step None (Some r)
| dl_move r r' :
    status r ≠ "success" →
    dl_edge (status r) (status r') →
    (attempt_generation r' = attempt_generation r ∨ generation_edge (status r) (status r')) →
    (status r' = "success" → has_proof r') →
    created_at r' = created_at r →
    dl_step (Some r) (Some r')
| dl_ingest r r' :   (* a later message update: name, type and announced size only *)
    status r' = status r → save_path r' = save_path r → sha256 r' = sha256 r →
    attempt_generation r' = attempt_generation r → created_at r' = created_at r →
    attempts r' = attempts r → next_retry_at r' = next_retry_at r →
    downloaded_at r' = downloaded_at r → error r' = error r →
    is_Some (file_size r') →
    dl_step (Some r) (Some r').

#[export] Hint Constructors dl_step : tgx.

(** ** Every operation keeps the contract *)

Lemma queue_and_commit_records q k relPath size sha now :
  effect same_records (queue_and_commit q k relPath size sha now).
Proof.
  unfold queue_and_commit. destruct q; [|by intros s].
  apply effect_try_r; [|intros [|[]]; quiet].
  unfold ensureArchiveJobLocked. apply effect_bind_l; [done|quiet|intros [r|]].
  - repeat (destruct (decide _); [destruct (same_identity _ _ _ _); by intros s|]).
    destruct (same_identity _ _ _ _); [by intros s|].
    apply effect_bind_r; [apply same_records_update_job|intros ?; quiet].
  - apply same_records_insert_job.
Qed.

Lemma queue_and_commit_jobs q k relPath size sha now :
  effect (on_jobs job_step) (queue_and_commit q k relPath size sha now).
Proof.
  unfold queue_and_commit. destruct q; [|apply effect_quiet; [constructor|quiet]].
  apply effect_try_r; [apply ensureArchiveJobLocked_step|intros [|[]]; quiet].
Qed.

(** What follows a write: an error, a result, or the archive queue. *)
Ltac dl_tail :=
  lazymatch goal with
  | |- effect _ (match ?x with _ => _ end) => destruct x; dl_tail
  | |- effect _ (queue_and_commit _ _ _ _ _ _) => apply queue_and_commit_records
  | |- effect _ _ => apply effect_quiet; [done|quiet]
  end.

(** Side conditions of an edge are propositional in the statuses at hand. *)
Ltac dl_side :=
  repeat match goal with
  | H : context [row_sha] |- _ => clear H
  | H : context [row_path] |- _ => clear H
  | H : context [row_size] |- _ => clear H
  | H : ¬ (_ ∨ _) |- _ => apply Decidable.not_or in H as [? ?]
  | H : ¬ (_ ∧ _ ∧ _) |- _ => clear H
  end;
  try done; try congruence; intros; destruct_or?; destruct_and?; subst; try congruence;
  repeat match goal with H : status _ = _ |- _ => rewrite H in * end;
  try congruence; try tauto; intuition congruence.

(** A guarded write of a record: what was read and the guard give the edge. *)
Ltac dl_guard :=
  let Hg := fresh "Hg" in
  intros Hg; cbv beta in Hg; go_bool; destruct_and?; apply dl_move; simpl;
  unfold dl_edge, generation_edge, has_proof; simpl; dl_side.

(** Walk one path of a handler whose record has been read. *)
Ltac dl_path Hk :=
  cbv zeta;
  lazymatch goal with
  | |- on_records _ _ (tabs (match ?x with _ => _ end _).2) => destruct x; dl_path Hk
  | |- on_records _ _ (tabs (queue_and_commit _ _ _ _ _ _ _).2) =>
      apply on_records_same; [apply dl_same|apply queue_and_commit_records]
  | |- on_records _ _ (tabs (st_bind (update_record _ _ _) _ _).2) =>
      eapply update_record_then; [apply dl_same|exact Hk|dl_guard|intros ?; dl_tail]
  | |- _ => apply quiet_at; [apply dl_same|quiet]
  end.

Ltac dl_fresh :=
  apply dl_new; simpl; unfold initial_status, has_proof; simpl; naive_solver.

Ltac dl_effect :=
  let s := fresh "s" in let r := fresh "r" in let Hk := fresh "Hk" in
  apply effect_read_record; [apply dl_same|intros s Hk|intros s r Hk; dl_path Hk].

Lemma BeginDownload_step k gen fn sp mt fs now :
  effect (on_records dl_step) (BeginDownload k gen fn sp mt fs now).
Proof.
  dl_effect. apply insert_record_fresh; [apply dl_same|dl_fresh|done].
Qed.

Lemma PrepareDownloadCommit_step k gen p n sha now :
  effect (on_records dl_step) (PrepareDownloadCommit k gen p n sha now).
Proof. dl_effect. apply quiet_at; [apply dl_same|quiet]. Qed.

Lemma CompleteDownloadAndQueueArchive_step k gen p n sha q now :
  effect (on_records dl_step) (CompleteDownloadAndQueueArchive k gen p n sha q now).
Proof.
  apply effect_with_tx; [constructor|]. dl_effect. apply quiet_at; [apply dl_same|quiet].
Qed.

Lemma CompleteExistingDownload_step k gen p n sha q now :
  effect (on_records dl_step) (CompleteExistingDownload k gen p n sha q now).
Proof.
  apply effect_with_tx; [constructor|]. dl_effect.
  apply insert_record_fresh_then; [apply dl_same|dl_fresh|done|].
  intros _. apply queue_and_commit_records.
Qed.

Lemma RecordTargetConflict_step k gen fn sp mt fs disp now :
  effect (on_records dl_step) (RecordTargetConflict k gen fn sp mt fs disp now).
Proof.
  dl_effect. apply insert_record_fresh; [apply dl_same|dl_fresh|done].
Qed.

Lemma FailDownload_step k gen fn sp mt fs e u now :
  effect (on_records dl_step) (FailDownload k gen fn sp mt fs e u now).
Proof.
  unfold FailDownload, fail_outcome. destruct u, (is_cancel_text (ToLower e)); simpl; dl_effect;
    (apply insert_record_fresh; [apply dl_same|dl_fresh|done]).
Qed.

Lemma FailDownloadDisposition_step k gen fn sp mt fs disp now :
  effect (on_records dl_step) (FailDownloadDisposition k gen fn sp mt fs disp now).
Proof.
  unfold FailDownloadDisposition. case_decide;
    [apply RecordTargetConflict_step|apply FailDownload_step].
Qed.

(** A conditional [UPDATE] that needs no preceding read. *)
Lemma update_only k p f (K : Z → DB unit) :
  (∀ r, p r = true → dl_step (Some r) (Some (f r))) → (∀ n, quiet (K n)) →
  effect (on_records dl_step) (st_bind (update_record k p f) K).
Proof.
  intros Hf HK. apply effect_bind_r; [|done]. apply effect_update_record; [apply dl_same|done].
Qed.

Lemma ResolveTargetConflict_step k g nano now :
  effect (on_records dl_step) (ResolveTargetConflict k g nano now).
Proof. apply update_only; [intros r; dl_guard|intros ?; quiet]. Qed.

Lemma CancelDownload_step k gen reason now :
  effect (on_records dl_step) (CancelDownload k gen reason now).
Proof. apply update_only; [intros r; dl_guard|intros ?; quiet]. Qed.

Lemma EnsureDownloadRecord_step k p n now :
  effect (on_records dl_step) (EnsureDownloadRecord k p n now).
Proof.
  intros s k'. unfold EnsureDownloadRecord, exec, stmt.
  destruct (hd false (faults s)); simpl; [constructor|].
  destruct (records (tabs s) !! k) eqn:Hk; simpl; [constructor|].
  destruct (decide (k = k')) as [->|]; [|rewrite lookup_insert_ne by done; constructor].
  rewrite lookup_insert_eq, Hk. dl_fresh.
Qed.

Lemma exec_records_alone (f : db → db) :
  (∀ d, records (f d) = records d) → effect same_records (exec f).
Proof. intros Hf s. unfold exec, stmt. by destruct (hd false (faults s)); simpl; [|apply Hf]. Qed.

Lemma effect_bind_trans_records {A B} (m : DB A) (k : A → DB B) :
  effect same_records m → (∀ a, effect (on_records dl_step) (k a)) →
  effect (on_records dl_step) (st_bind m k).
Proof.
  intros Hm Hk s k'. unfold st_bind. specialize (Hm s).
  destruct (m s) as [[a|e] s']; simpl in *; rewrite <- Hm; [apply Hk|constructor].
Qed.

Lemma IngestMessage_step m now : effect (on_records dl_step) (IngestMessage m now).
Proof.
  apply effect_with_tx; [constructor|].
  eapply effect_bind_trans_records; [by apply exec_records_alone|intros _].
  destruct (m_HasMedia m); [|apply effect_quiet; [constructor|quiet]].
  apply effect_bind_r; [|intros _; quiet].
  intros s. apply upsert_record_at; [constructor|].
  destruct (records (tabs s) !! _); [|dl_fresh]. apply dl_ingest; simpl; eauto.
Qed.

(** ** Operations as data *)

(** The calls that write the two tables while the daemon runs. *)
Inductive db_op :=
| OpIngest (m : ChatMessage)
| OpEnsure (k : key) (finalPath : string) (expectedSize : Z)
| OpBegin (k : key) (gen fileName savePath mediaType : string) (fileSize : Z)
| OpPrepare (k : key) (gen relPath : string) (size : Z) (sha : string)
| OpComplete (k : key) (gen relPath : string) (size : Z) (sha : string) (queueArchive : bool)
| OpCompleteExisting (k : key) (gen relPath : string) (size : Z) (sha : string) (queueArchive : bool)
| OpTargetConflict (k : key) (gen fileName savePath mediaType : string) (fileSize : Z)
    (disp : FailureDisposition)
| OpResolveConflict (k : key) (newGen : option string) (nano : Z)
| OpFail (k : key) (gen fileName savePath mediaType : string) (fileSize : Z)
    (disp : FailureDisposition)
| OpCancel (k : key) (gen reason : string)
| OpClaim (k : key) (claim : string)
| OpCompleteArchive (k : key) (claim sha : string)
| OpFailArchive (k : key) (claim err : string)
| OpArchiveConflict (k : key) (claim err : string)
| OpRecoverStale (k : key) (claim : string)
| OpRecoverComplete (k : key) (claim sha : string).

Definition exec_op (o : db_op) (now : Z) : DB unit :=
  match o with
  | OpIngest m => IngestMessage m now
  | OpEnsure k p n => EnsureDownloadRecord k p n now
  | OpBegin k g fn sp mt fs => BeginDownload k g fn sp mt fs now
  | OpPrepare k g p n sha => PrepareDownloadCommit k g p n sha now
  | OpComplete k g p n sha q => CompleteDownloadAndQueueArchive k g p n sha q now
  | OpCompleteExisting k g p n sha q => CompleteExistingDownload k g p n sha q now
  | OpTargetConflict k g fn sp mt fs disp => RecordTargetConflict k g fn sp mt fs disp now
  | OpResolveConflict k g nano => ResolveTargetConflict k g nano now
  | OpFail k g fn sp mt fs disp => FailDownloadDisposition k g fn sp mt fs disp now
  | OpCancel k g reason => CancelDownload k g reason now
  | OpClaim k c => let! _ := ClaimArchiveJob k c now in return! tt
  | OpCompleteArchive k c sha => CompleteArchiveJob k c sha now
  | OpFailArchive k c e => FailArchiveJob k c e now
  | OpArchiveConflict k c e => SetArchiveJobConflict k c e now
  | OpRecoverStale k c => RecoverStaleArchiveJob k c now
  | OpRecoverComplete k c sha => RecoverArchiveJobComplete k c sha now
  end.

(** Archive handlers leave the records alone: their only writes are to jobs. *)
Ltac records_alone :=
  intros s; apply on_records_same; [apply dl_same|]; revert s;
  match goal with |- ∀ s, same_records (tabs s) (tabs (?m s).2) => change (effect same_records m) end;
  repeat first
    [ apply same_records_update_job
    | apply effect_bind_trans; [apply same_records_trans| |intros ?]
    | apply effect_quiet; [done|solve [quiet]]
    | case_match ].

Lemma exec_op_records o now : effect (on_records dl_step) (exec_op o now).
Proof.
  destruct o; simpl.
  - apply IngestMessage_step.
  - apply EnsureDownloadRecord_step.
  - apply BeginDownload_step.
  - apply PrepareDownloadCommit_step.
  - apply CompleteDownloadAndQueueArchive_step.
  - apply CompleteExistingDownload_step.
  - apply RecordTargetConflict_step.
  - apply ResolveTargetConflict_step.
  - apply FailDownloadDisposition_step.
  - apply CancelDownload_step.
  - unfold ClaimArchiveJob. records_alone.
  - unfold CompleteArchiveJob. records_alone.
  - unfold FailArchiveJob. records_alone.
  - unfold SetArchiveJobConflict. records_alone.
  - unfold RecoverStaleArchiveJob. records_alone.
  - unfold RecoverArchiveJobComplete. records_alone.
Qed.

Ltac jobs_alone :=
  intros s; apply on_jobs_same; [apply job_same|]; revert s;
  match goal with |- ∀ s, same_jobs (tabs s) (tabs (?m s).2) => change (effect same_jobs m) end;
  repeat first
    [ apply same_jobs_update_record | apply same_jobs_insert_record
    | apply effect_bind_trans; [apply same_jobs_trans| |intros ?]
    | apply effect_quiet; [done|solve [quiet]]
    | case_match | progress cbv zeta ].

Lemma exec_jobs_alone (f : db → db) : (∀ d, jobs (f d) = jobs d) → effect same_jobs (exec f).
Proof. intros Hf s. unfold exec, stmt. by destruct (hd false (faults s)); simpl; [|apply Hf]. Qed.

(** A completion transaction: the record is written, then the archive queue. *)
Ltac completion_jobs :=
  apply effect_with_tx; [constructor|];
  repeat first
    [ apply queue_and_commit_jobs
    | apply effect_bind_l; [constructor|quiet|intros ?]
    | apply effect_bind_jobs;
        [constructor|first [apply same_jobs_update_record|apply same_jobs_insert_record]|intros ?]
    | apply effect_quiet; [constructor|solve [quiet]]
    | case_match ].

Lemma exec_op_jobs o now : effect (on_jobs job_step) (exec_op o now).
Proof.
  destruct o; simpl.
  - apply effect_with_tx; [constructor|]. intros s. apply on_jobs_same; [constructor|]. revert s.
    apply effect_bind_trans; [apply same_jobs_trans|by apply exec_jobs_alone|intros _].
    destruct (m_HasMedia m); [|apply effect_quiet; [done|quiet]].
    apply effect_bind_trans; [apply same_jobs_trans|by apply exec_jobs_alone|intros _].
    apply effect_quiet; [done|quiet].
  - intros s. apply on_jobs_same; [constructor|]. revert s. apply exec_jobs_alone.
    intros d. by destruct (records d !! k).
  - unfold BeginDownload. jobs_alone.
  - unfold PrepareDownloadCommit. jobs_alone.
  - completion_jobs.
  - completion_jobs.
  - unfold RecordTargetConflict. jobs_alone.
  - unfold ResolveTargetConflict. jobs_alone.
  - unfold FailDownloadDisposition, RecordTargetConflict, FailDownload. jobs_alone.
  - unfold CancelDownload. jobs_alone.
  - apply effect_bind_r; [apply ClaimArchiveJob_step|intros ?; quiet].
  - apply CompleteArchiveJob_step.
  - apply FailArchiveJob_step.
  - apply SetArchiveJobConflict_step.
  - apply RecoverStaleArchiveJob_step.
  - apply RecoverArchiveJobComplete_step.
Qed.


(** ** Runs of the store *)

(** One step of a run: an operation, a status update whose guard query answers, or the
    environment deciding which of the coming statements fail. *)
Inductive op_step : sqlst → sqlst → Prop :=
| step_op o now s : op_step s (exec_op o now s).2
| step_status k st fn sp mt fs e now s :
    hd false (faults s) = false →
    op_step s (UpdateDownloadStatus k st fn sp mt fs e now s).2
| step_faults s fs : op_step s (Sql (tabs s) fs).

(** What a later state keeps of a completed record. *)
Definition success_kept (o o' : option download_row) : Prop :=
  ∀ r, o = Some r → status r = "success" →
  ∃ r', o' = Some r' ∧ status r' = "success" ∧ save_path r' = save_path r ∧
        sha256 r' = sha256 r ∧ attempt_generation r' = attempt_generation r ∧
        downloaded_at r' = downloaded_at r.

Lemma success_kept_refl o : success_kept o o.
Proof. intros r -> Hs. eauto 10. Qed.

Lemma success_kept_trans o1 o2 o3 : success_kept o1 o2 → success_kept o2 o3 → success_kept o1 o3.
Proof.
  intros H12 H23 r Hr Hs. destruct (H12 r Hr Hs) as (r2 & -> & Hs2 & ?).
  destruct (H23 r2 eq_refl Hs2) as (r3 & -> & Hs3 & ?). exists r3. intuition congruence.
Qed.

Lemma dl_step_success_kept o o' : dl_step o o' → success_kept o o'.
Proof.
  intros [? | r Hi Hp | r r' Hne He Hg Hp Hc | r r' Hst Hsp Hsh Hg Hc Ha Hn Hd Her Hf] r0 Hr Hs;
    simplify_eq.
  - eauto 10.
  - exists r'. split_and!; congruence.
Qed.

Lemma UpdateDownloadStatus_kept k st fn sp mt fs e now s :
  hd false (faults s) = false →
  on_records success_kept (tabs s) (tabs (UpdateDownloadStatus k st fn sp mt fs e now s).2).
Proof.
  intros Hf. unfold UpdateDownloadStatus, st_try, query, stmt. rewrite Hf. simpl.
  set (s1 := Sql (tabs s) (tl (faults s))).
  change (on_records success_kept (tabs s)) with (on_records success_kept (tabs s1)) in *.
  destruct (records (tabs s) !! k) as [r|] eqn:Hk;
    (case_decide as Hsc; [intros ?; apply success_kept_refl|]);
    (case_decide; [intros ?; apply success_kept_refl|]);
    destruct (status_outcome _ _ _ _) as [[st' e'] nr]; apply upsert_record_at;
    try apply success_kept_refl; simpl; rewrite Hk; intros r0 Hr0 Hs0; simplify_eq; tauto.
Qed.

Lemma op_step_success_kept s s' : op_step s s' → on_records success_kept (tabs s) (tabs s').
Proof.
  intros [o now s0|k st fn sp mt fs e now s0 Hf|s0 fs] k'.
  - apply dl_step_success_kept, exec_op_records.
  - by apply UpdateDownloadStatus_kept.
  - apply success_kept_refl.
Qed.


(** Rows for the examples below. *)
Definition done_row : download_row :=
  DRow "success" (Some "7.mp4") (Some "chat/2024_01/7 - 7.mp4") (Some "video") (Some 12)
    (Some "d1") (Some "") 1 5 (Some 5) (Some 2) 0 0 "1".
Definition done_db : db := set_records {[ ("chat", 7) := done_row ]} empty_db.


(** The exception matters: [UpdateDownloadStatus] ignores the error of its guard query,
    so when that query fails a completed record can be overwritten with 'failed'. *)
Theorem update_status_guard_fault_overwrites_success :
  ∃ (s : sqlst) k now r', records (tabs s) !! k = Some done_row ∧
    UpdateDownloadStatus k "failed" "" "" "" 0 "i/o timeout" now s =
      (Ok tt, Sql (set_records {[ k := r' ]} empty_db) []) ∧
    status r' = "failed".
Proof.
  eexists (Sql done_db [true]), ("chat", 7), 9, _.
  split_and!; [reflexivity|vm_compute; reflexivity|reflexivity].
Qed.

(** Re-ingesting a message replaces the size of a completed record: the proof the
    record carries no longer describes the file, and the next attempt is told that the
    proof is missing instead of that the download is complete. *)
Theorem ingest_breaks_success_proof :
  let m := Msg "chat" 7 "" "" "" "video" true 0 0 "7.mp4" 0 in
  let begin_ d := (run (BeginDownload ("chat", 7) "1" "" "" "" 0 9) d).1 in
  begin_ done_db = Err (AlreadySuccessError (Proof_ "chat/2024_01/7 - 7.mp4" 12 "d1")) ∧
  begin_ (run (IngestMessage m 8) done_db).2 =
    Err (ErrStateConflict "success record missing required proof").
Proof. split; vm_compute; reflexivity. Qed.

(** ** Archive jobs are permanent too *)

Definition job_kept (o o' : option archive_row) : Prop :=
  ∀ r, o = Some r → ∃ r', o' = Some r' ∧ identity r' = identity r ∧
    (state r = "archived" ∨ state r = "conflict" → r' = r).

Lemma job_kept_refl o : job_kept o o.
Proof. intros r ->. eauto. Qed.
Lemma job_kept_trans o1 o2 o3 : job_kept o1 o2 → job_kept o2 o3 → job_kept o1 o3.
Proof.
  intros H12 H23 r Hr. destruct (H12 r Hr) as (r2 & -> & Hi2 & Ht2).
  destruct (H23 r2 eq_refl) as (r3 & -> & Hi3 & Ht3). exists r3. split; [done|].
  split; [congruence|]. intros Ht. specialize (Ht2 Ht) as ->. auto.
Qed.
Lemma job_step_kept o o' : job_step o o' → job_kept o o'.
Proof.
  intros [? | r Hs Hc | r r' Hi Hc He Hk Ha Hn] r0 Hr; simplify_eq; [eauto|].
  exists r'. split_and!; [done|unfold identity; congruence|]. intros [?|?]; done.
Qed.

Lemma UpdateDownloadStatus_jobs k st fn sp mt fs e now :
  effect same_jobs (UpdateDownloadStatus k st fn sp mt fs e now).
Proof.
  unfold UpdateDownloadStatus. apply effect_try_l; [quiet|intros q].
  destruct (match q with Ok (Some r) => _ | _ => _ end).
  repeat (case_decide; [apply effect_quiet; [done|quiet]|]).
  destruct (status_outcome _ _ _ _) as [[st' e'] nr].
  by apply exec_jobs_alone.
Qed.

(** An archive job is never redirected and never leaves a final state: over any run, it
    keeps the path, size and digest it was queued with, and once 'archived' or 'conflict'
    its row does not change at all. *)
Theorem archive_job_is_permanent (s s' : sqlst) (k : key) (r : archive_row) :
  rtc op_step s s' → jobs (tabs s) !! k = Some r →
  ∃ r', jobs (tabs s') !! k = Some r' ∧ identity r' = identity r ∧
        (state r = "archived" ∨ state r = "conflict" → r' = r).
Proof.
  intros Hrun Hr.
  assert (job_kept (jobs (tabs s) !! k) (jobs (tabs s') !! k)) as Hk; [|by apply Hk].
  clear Hr. induction Hrun as [s|s s1 s' Hst Hrun IH]; [apply job_kept_refl|].
  eapply job_kept_trans, IH. destruct Hst as [o now s0|k' st fn sp mt fs e now s0 Hf|s0 fs].
  - apply job_step_kept, exec_op_jobs.
  - rewrite (UpdateDownloadStatus_jobs k' st fn sp mt fs e now s0). apply job_kept_refl.
  - apply job_kept_refl.
Qed.

Lemma archive_job_is_permanent_witness :
  ∃ r', jobs (tabs (exec_op (OpCompleteArchive ("chat", 5) "c1" "d1") 9 (Sql sample_jobs [])).2)
          !! ("chat", 5) = Some r' ∧ identity r' = identity sample_job ∧
        (state sample_job = "archived" ∨ state sample_job = "conflict" → r' = sample_job).
Proof.
  apply (archive_job_is_permanent (Sql sample_jobs []) _ ("chat", 5) sample_job).
  - apply rtc_once. apply step_op.
  - reflexivity.
Defined.
