(* ===== verification/Protocol.v ===== *)
(** * The attempt protocol of the store

    What callers of db.go rely on beyond the life-cycle contract: completion is one
    transaction over both tables, a generation fences out every other attempt, failure
    recording chooses its status and delay as documented, and the scan that feeds the
    scheduler selects exactly the due records of enabled targets. *)
From S2P Require Import Prelude Sql ArchiveJobs Downloads Lifecycle.

(** ** Queueing an archive job *)

(** The job at [k] is for this very file. *)
Definition job_matches (k : key) (relPath : string) (size : Z) (sha : string) (d : db) : Prop :=
  ∃ j, jobs d !! k = Some j ∧ identity j = (relPath, size, sha).

Lemma same_identity_spec r p n sha : same_identity r p n sha = true ↔ identity r = (p, n, sha).
Proof.
  unfold same_identity, identity. rewrite bool_decide_eq_true. split; [intros (->&->&->); done|].
  intros ?; simplify_eq; done.
Qed.

(** The three ways [ensureArchiveJobLocked] ends. *)
Lemma ensureArchiveJobLocked_spec k p n sha now s :
  let '(r, s') := ensureArchiveJobLocked k p n sha now s in
  records (tabs s') = records (tabs s) ∧
  match r with
  | Ok _ => job_matches k p n sha (tabs s')
  | Err ErrArchiveConflict =>
      ∃ j, jobs (tabs s') !! k = Some j ∧ identity j ≠ (p, n, sha) ∧ state j ≠ "pending"
  | Err e => e = ErrSQL ∧ tabs s' = tabs s
  end.
Proof.
  unfold ensureArchiveJobLocked, st_bind, query, stmt.
  destruct (hd false (faults s)); simpl; [done|].
  destruct (jobs (tabs s) !! k) as [j|] eqn:Hj; simpl.
  - destruct (same_identity j p n sha) eqn:Hid.
    + apply same_identity_spec in Hid.
      repeat case_decide; simpl; (split; [done|]; by exists j).
    + assert (identity j ≠ (p, n, sha)) as Hne.
      { intros ?%same_identity_spec. congruence. }
      do 3 (case_decide; simpl; [split; [done|]; exists j; split_and!; [done|done|congruence]|]).
      unfold update_job, stmt. simpl. destruct (hd false (tl (faults s))); simpl; [done|].
      rewrite Hj. simpl. split; [done|]. eexists. simpl. rewrite lookup_insert_eq. done.
  - unfold insert_job, exec, stmt. simpl.
    destruct (hd false (tl (faults s))); simpl; [done|]. split; [done|].
    eexists. simpl. rewrite lookup_insert_eq. done.
Qed.

(** ** Completion *)

(** The record at [k] is complete with this proof. *)
Definition completed (k : key) (relPath : string) (size : Z) (sha : string) (d : db) : Prop :=
  ∃ r, records d !! k = Some r ∧ status r = "success" ∧
       row_path r = relPath ∧ row_size r = size ∧ row_sha r = sha.

(** The record at [k] was prepared by this generation, with nothing contradicting the proof. *)
Definition prepared (k : key) (gen relPath : string) (size : Z) (sha : string) (d : db) : Prop :=
  ∃ r, records d !! k = Some r ∧ status r = "committing" ∧ attempt_generation r = gen ∧
       (row_sha r = "" ∨ row_sha r = sha) ∧ (row_path r = "" ∨ row_path r = relPath) ∧
       (row_size r <= 0 ∨ row_size r = size).

Definition job_conflicts (k : key) (relPath : string) (size : Z) (sha : string) (d : db) : Prop :=
  ∃ j, jobs d !! k = Some j ∧ identity j ≠ (relPath, size, sha) ∧ state j ≠ "pending".

(** The tail of a completion whose record is already written. *)
Lemma queue_and_commit_spec q k p n sha now s :
  let '(o, s') := queue_and_commit q k p n sha now s in
  records (tabs s') = records (tabs s) ∧
  match o with
  | Ok (Commit (Ok _)) => q = true → job_matches k p n sha (tabs s')
  | Ok (Commit (Err e)) => e = ErrArchiveConflict ∧ q = true ∧ job_conflicts k p n sha (tabs s')
  | Ok (Rollback (Err e)) => e ≠ ErrArchiveConflict
  | _ => False
  end.
Proof.
  unfold queue_and_commit. destruct q; simpl; [|done].
  pose proof (ensureArchiveJobLocked_spec k p n sha now s) as Hspec. unfold st_try.
  destruct (ensureArchiveJobLocked k p n sha now s) as [[[]|e] s']; simpl in *.
  - destruct Hspec as [Hr Hm]. split; [done|]. auto.
  - destruct e; simpl; destruct Hspec as [Hr Hm]; split; try done.
Qed.

(** What a completion call promises of its result, [was] being what it required before. *)
Definition completion_post (was : Prop) (k : key) (p : string) (n : Z) (sha : string) (q : bool)
    (d : db) (r : res dberr unit) (d' : db) : Prop :=
  match r with
  | Ok _ => was ∧ completed k p n sha d' ∧ (q = true → job_matches k p n sha d')
  | Err ErrArchiveConflict => was ∧ completed k p n sha d' ∧ q = true ∧ job_conflicts k p n sha d'
  | Err _ => d' = d
  end.

(** What the body of the transaction has to establish. *)
Definition body_post (was : Prop) (k : key) (p : string) (n : Z) (sha : string) (q : bool)
    (d : db) (o : res dberr txout) (d' : db) : Prop :=
  match o with
  | Ok (Commit r) =>
      completion_post was k p n sha q d r d' ∧ (is_ok r = false → r = Err ErrArchiveConflict)
  | Ok (Rollback (Ok _)) => was ∧ completed k p n sha d ∧ q = false
  | Ok (Rollback (Err e)) => e ≠ ErrArchiveConflict
  | Err e => e ≠ ErrArchiveConflict
  end.

Lemma with_tx_post was k p n sha q (body : DB txout) s :
  (∀ s1, tabs s1 = tabs s →
    let '(o, s2) := body s1 in body_post was k p n sha q (tabs s) o (tabs s2)) →
  let '(r, s') := with_tx body s in completion_post was k p n sha q (tabs s) r (tabs s').
Proof.
  intros Hbody. unfold with_tx, query, exec, stmt.
  destruct (hd false (faults s)); simpl; [done|].
  specialize (Hbody (Sql (tabs s) (tl (faults s))) eq_refl).
  destruct (body _) as [[[r|[u|e]]|e] s2]; simpl in *; [|naive_solver|by destruct e..].
  destruct Hbody as [Hc He]. destruct (hd false (faults s2)); simpl; done.
Qed.

(** The tail, on a state whose record is complete. *)
Lemma queue_post (was : Prop) q k p n sha now d s :
  was → completed k p n sha (tabs s) →
  let '(o, s2) := queue_and_commit q k p n sha now s in body_post was k p n sha q d o (tabs s2).
Proof.
  intros Hw Hc. pose proof (queue_and_commit_spec q k p n sha now s) as Hspec.
  destruct (queue_and_commit _ _ _ _ _ _ _) as [[[[u|e]|[u|e]]|e] s2]; simpl in *;
    destruct Hspec as [Hrec Hspec]; try done; unfold completed in *; rewrite Hrec.
  - done.
  - destruct Hspec as (-> & ? & ?). done.
Qed.

(** The guarded write of the proof, then the tail. *)
Lemma write_queue_post (was : Prop) q k p n sha now gd f e d s r :
  was → records (tabs s) !! k = Some r → e ≠ ErrArchiveConflict →
  (gd r = true → status (f r) = "success" ∧ row_path (f r) = p ∧ row_size (f r) = n ∧ row_sha (f r) = sha) →
  let '(o, s2) := st_bind (update_record k gd f)
    (λ m, if m =? 0 then st_err e else queue_and_commit q k p n sha now) s in
  body_post was k p n sha q d o (tabs s2).
Proof.
  intros Hw Hr He Hf. unfold st_bind, update_record, stmt.
  destruct (hd false (faults s)); simpl; [done|]. rewrite Hr.
  destruct (gd r) eqn:Hg; simpl; [|done]. apply queue_post; [done|].
  eexists. simpl. rewrite lookup_insert_eq. destruct (Hf eq_refl) as (?&?&?&?). done.
Qed.

Lemma CompleteDownload_post (k : key) (gen relPath : string) (size : Z) (sha : string)
    (q : bool) (now : Z) (s : sqlst) :
  let '(r, s') := CompleteDownloadAndQueueArchive k gen relPath size sha q now s in
  completion_post (completed k relPath size sha (tabs s) ∨ prepared k gen relPath size sha (tabs s))
    k relPath size sha q (tabs s) r (tabs s').
Proof.
  apply with_tx_post. intros s1 Hs1. rewrite <- Hs1. clear s Hs1.
  unfold st_bind at 1, query, stmt. destruct (hd false (faults s1)); simpl; [done|].
  destruct (records (tabs s1) !! k) as [r|] eqn:Hr; simpl; [|done].
  case_decide as Hst.
  { case_decide; [done|]. case_decide as Hm; [done|].
    assert (completed k relPath size sha (tabs s1)) as Hc.
    { exists r. apply Decidable.not_or in Hm as [? [? ?]%Decidable.not_or].
      repeat (split; [done || by apply dec_stable|]). by apply dec_stable. }
    apply queue_post; [by left|done]. }
  case_decide as Hg; [done|]. case_decide as Hcm; [done|].
  case_decide as Hsha; [done|]. case_decide as Hp; [done|]. case_decide as Hn; [done|].
  eapply write_queue_post; [|done|done|done].
  right. exists r. split_and!; try done; apply not_neither; try apply _; try tauto.
  intros [? ?]. apply Hn. lia.
Qed.


Definition committing_row : download_row :=
  DRow "committing" (Some "7.mp4") (Some "chat/7.mp4") (Some "video") (Some 12)
    (Some "d1") (Some "") 1 5 None (Some 2) 0 0 "1".
Definition committing_db : db := set_records {[ ("chat", 7) := committing_row ]} empty_db.

(** The happy path: prepared record in, success and queued job out. *)
Example complete_download_example :
  run (CompleteDownloadAndQueueArchive ("chat", 7) "1" "chat/7.mp4" 12 "d1" true 9) committing_db =
  (Ok tt, set_jobs {[ ("chat", 7) := ARow "chat/7.mp4" 12 "d1" "pending" 0 0 "" None 9 9 ]}
    (set_records {[ ("chat", 7) :=
       DRow "success" (Some "7.mp4") (Some "chat/7.mp4") (Some "video") (Some 12)
         (Some "d1") (Some "") 1 9 (Some 9) (Some 2) 0 0 "1" ]} empty_db)).
Proof. vm_compute. reflexivity. Qed.

(** Without failing statements a prepared record completes. *)
Lemma ensureArchiveJobLocked_calm k p n sha now s :
  faults s = [] → (ensureArchiveJobLocked k p n sha now s).1 ≠ Err ErrSQL ∧
                  faults (ensureArchiveJobLocked k p n sha now s).2 = [].
Proof.
  destruct s as [d fs]. simpl. intros ->. unfold ensureArchiveJobLocked. sql_unfold.
  repeat (case_match; simplify_eq/=); (split; [congruence|done]).
Qed.

Lemma CompleteDownload_calm k gen p n sha q now t :
  prepared k gen p n sha t →
  let '(r, s') := CompleteDownloadAndQueueArchive k gen p n sha q now (Sql t []) in
  (r = Ok tt ∨ r = Err ErrArchiveConflict) ∧ completed k p n sha (tabs s') ∧ faults s' = [].
Proof.
  intros (row & Hr & Hst & Hg & Hsha & Hp & Hn).
  assert (let '(r, s') := CompleteDownloadAndQueueArchive k gen p n sha q now (Sql t []) in
    (r = Ok tt ∨ r = Err ErrArchiveConflict) ∧ faults s' = []) as Hres.
  { unfold CompleteDownloadAndQueueArchive, with_tx.
    unfold query at 1, stmt at 1. simpl. unfold st_bind at 1, query, stmt. simpl. rewrite Hr. simpl.
    rewrite decide_False by (by rewrite Hst). rewrite decide_False by tauto.
    rewrite decide_False by tauto. rewrite decide_False by tauto. rewrite decide_False by tauto.
    rewrite decide_False by lia. unfold st_bind, update_record, stmt. simpl. rewrite Hr.
    rewrite bool_decide_eq_true_2 by done. simpl. unfold queue_and_commit. destruct q; [|simpl; auto].
    unfold st_try. match goal with |- context [ensureArchiveJobLocked k p n sha now ?s] =>
      pose proof (ensureArchiveJobLocked_calm k p n sha now s eq_refl) as [Hne Hf];
      pose proof (ensureArchiveJobLocked_spec k p n sha now s) as Hs;
      destruct (ensureArchiveJobLocked k p n sha now s) as [r s'] end.
    simpl in *. destruct r as [u|e]; simpl.
    - unfold exec, stmt. rewrite Hf. simpl. by destruct u; auto.
    - destruct e; try (destruct Hs as [_ [? _]]; congruence).
      unfold exec, stmt. simpl. rewrite Hf. simpl. auto. }
  pose proof (CompleteDownload_post k gen p n sha q now (Sql t [])) as Hpost.
  destruct (CompleteDownloadAndQueueArchive _ _ _ _ _ _ _ _) as [r s'].
  destruct Hres as [Hr' Hf]. split; [done|]. split; [|done].
  destruct Hr' as [->| ->]; simpl in Hpost; tauto.
Qed.

(** ** Generations *)

(** An operation of attempt [g] on record [k]. *)
Definition attempt_op (g : string) (k : key) (o : db_op) : Prop :=
  match o with
  | OpBegin k' g' _ _ _ _ | OpPrepare k' g' _ _ _ | OpComplete k' g' _ _ _ _
  | OpCompleteExisting k' g' _ _ _ _ | OpTargetConflict k' g' _ _ _ _ _
  | OpFail k' g' _ _ _ _ _ | OpCancel k' g' _ => k' = k ∧ g' = g
  | _ => False
  end.

Definition owned_by (g : string) (k : key) (d : db) : Prop :=
  ∃ r, records d !! k = Some r ∧ attempt_generation r = g ∧
       (status r = "downloading" ∨ status r = "committing").

(** Run a handler up to the point where its generation test fails. *)
Ltac fenced Hr Hst :=
  sql_unfold; destruct (hd false _); simpl; [done|]; rewrite Hr; simpl;
  rewrite ?Hst; simpl; try done;
  repeat (case_decide; simpl; try done; try (exfalso; naive_solver)).

Lemma fenced_tx (body : DB txout) s :
  (∀ s1, tabs s1 = tabs s → ∃ e, (body s1).1 = Err e) →
  tabs (with_tx body s).2 = tabs s ∧ is_ok (with_tx body s).1 = false.
Proof.
  intros Hb. unfold with_tx, query, stmt. destruct (hd false (faults s)); simpl; [done|].
  destruct (Hb (Sql (tabs s) (tl (faults s))) eq_refl) as [e He].
  destruct (body _) as [? s2]. simpl in *. subst. done.
Qed.

Lemma fenced_update k p f e s r :
  records (tabs s) !! k = Some r → p r = false →
  let m := st_bind (update_record k p f) (λ n, if n =? 0 then st_err e else st_ret tt) in
  tabs (m s).2 = tabs s ∧ is_ok (m s).1 = false.
Proof.
  intros Hr Hp. unfold st_bind, update_record, stmt. destruct (hd false (faults s)); simpl; [done|].
  by rewrite Hr, Hp.
Qed.

(** C14. A generation fences its record: while one attempt has a record in 'downloading' or
    'committing', every call of another attempt on that record (begin, prepare, complete,
    fail, flag a conflict, cancel) returns an error and changes nothing, whatever
    statements fail. *)
Theorem generation_fences_record (g g' : string) (k : key) (o : db_op) (now : Z) (s : sqlst) :
  g ≠ "" → g' ≠ "" → g' ≠ g → owned_by g k (tabs s) → attempt_op g' k o →
  tabs (exec_op o now s).2 = tabs s ∧ is_ok (exec_op o now s).1 = false.
Proof.
  intros Hg Hg' Hne (r & Hr & Hgen & Hst) Ho.
  destruct o; simpl in Ho; try done; destruct Ho as [-> ->]; simpl.
  - unfold BeginDownload. destruct Hst as [Hst|Hst]; fenced Hr Hst.
  - unfold PrepareDownloadCommit. destruct Hst as [Hst|Hst]; fenced Hr Hst.
  - apply fenced_tx. intros s1 Hs1. destruct Hst as [Hst|Hst]; sql_unfold;
      (destruct (hd false _); simpl; [eauto|]; rewrite Hs1, Hr; simpl; rewrite Hst; simpl;
       case_decide; simpl; eauto; exfalso; naive_solver).
  - apply fenced_tx. intros s1 Hs1. destruct Hst as [Hst|Hst]; sql_unfold;
      (destruct (hd false _); simpl; [eauto|]; rewrite Hs1, Hr; simpl; rewrite Hst; simpl;
       case_decide; simpl; eauto; exfalso; naive_solver).
  - unfold RecordTargetConflict. destruct Hst as [Hst|Hst]; fenced Hr Hst.
  - unfold FailDownloadDisposition, RecordTargetConflict, FailDownload.
    destruct (decide (Class_ disp = _)); destruct Hst as [Hst|Hst]; fenced Hr Hst.
  - apply (fenced_update _ _ _ _ _ r Hr). apply bool_decide_eq_false. naive_solver.
Qed.

Lemma generation_fences_record_witness :
  tabs (exec_op (OpPrepare ("chat", 7) "2" "x" 3 "d") 9 (Sql committing_db [])).2 = committing_db ∧
  is_ok (exec_op (OpPrepare ("chat", 7) "2" "x" 3 "d") 9 (Sql committing_db [])).1 = false.
Proof.
  apply (generation_fences_record "1" "2" ("chat", 7) (OpPrepare ("chat", 7) "2" "x" 3 "d") 9
           (Sql committing_db [])); try done.
  exists committing_row. split_and!; [done|done|by right].
Defined.

(** ** Failure *)

Lemma download_backoff_small n : 0 <= n <= 57 → 60 <= download_backoff n <= 1800.
Proof.
  intros Hn. assert (Forall (λ n, 60 <= download_backoff n <= 1800) (seqZ 0 58)) as Hall.
  { apply (bool_decide_unpack _). vm_compute. exact I. }
  rewrite Forall_forall in Hall. apply Hall, elem_of_seqZ. lia.
Qed.

Lemma download_backoff_large n : 58 <= n → download_backoff n <= 0.
Proof.
  intros Hn. destruct (Z.le_gt_cases 64 n).
  { unfold download_backoff. rewrite shl64_ge by done. vm_compute. congruence. }
  assert (Forall (λ n, download_backoff n <= 0) (seqZ 58 6)) as Hall.
  { apply (bool_decide_unpack _). vm_compute. exact I. }
  rewrite Forall_forall in Hall. apply Hall, elem_of_seqZ. lia.
Qed.

(** What recording a failure does to the row of the attempt. *)
Definition failed_as (u : bool) (msg : string) (now : Z) (r r' : download_row) : Prop :=
  if u then status r' = "unavailable" ∧ attempts r' = attempts r ∧ next_retry_at r' = now + 604800
  else if is_cancel_text (ToLower msg) then
    status r' = "pending" ∧ attempts r' = attempts r ∧ next_retry_at r' = 0 ∧ error r' = Some ""
  else status r' = "failed" ∧ attempts r' = attempts r + 1 ∧
       next_retry_at r' = now + download_backoff (attempts r) ∧ error r' = Some msg.

Lemma FailDownload_owned (k : key) (g fn sp mt msg : string) (fs now : Z) (u : bool)
    (d : db) (r : download_row) :
  records d !! k = Some r → attempt_generation r = g →
  (status r = "pending" ∨ status r = "downloading" ∨ status r = "committing") →
  ∃ r', run (FailDownload k g fn sp mt fs msg u now) d =
          (Ok tt, set_records (<[k := r']> (records d)) d) ∧ failed_as u msg now r r'.
Proof.
  intros Hr Hg Hst. unfold run, FailDownload. sql_unfold. rewrite Hr. simpl.
  case_decide as Hfin; [destruct Hst as [Hst|[Hst|Hst]]; rewrite Hst in Hfin; naive_solver|].
  case_decide; [naive_solver|].
  unfold fail_outcome, failed_as.
  destruct u; [|destruct (is_cancel_text (ToLower msg))]; simpl; rewrite Hr; simpl;
    (rewrite bool_decide_eq_true_2 by (split_and!; [tauto|tauto|by left]));
    eexists; (split; [done|]); simpl; split_and!; done.
Qed.

(** Recording a failure of the owning attempt: unavailability is final for a week and does
    not count as an attempt; a lifecycle cancellation puts the record back to 'pending'
    without counting; any other error counts one attempt and sets the retry time. *)
Theorem fail_download_spec (k : key) (g fn sp mt msg : string) (fs now : Z) (u : bool)
    (d : db) (r : download_row) :
  records d !! k = Some r → attempt_generation r = g →
  (status r = "pending" ∨ status r = "downloading" ∨ status r = "committing") →
  ∃ r', run (FailDownload k g fn sp mt fs msg u now) d =
          (Ok tt, set_records (<[k := r']> (records d)) d) ∧ failed_as u msg now r r'.
Proof. apply FailDownload_owned. Qed.

Definition downloading_row (n : Z) : download_row :=
  DRow "downloading" (Some "7.mp4") None (Some "video") (Some 12) None None 1 5 None (Some 2) n 0 "1".
Definition downloading_db (n : Z) : db := set_records {[ ("chat", 7) := downloading_row n ]} empty_db.

Lemma fail_download_spec_witness :
  ∃ r', run (FailDownload ("chat", 7) "1" "" "" "" 0 "rpc timeout" false 1000) (downloading_db 2) =
          (Ok tt, set_records (<[("chat", 7) := r']> (records (downloading_db 2))) (downloading_db 2)) ∧
        failed_as false "rpc timeout" 1000 (downloading_row 2) r'.
Proof.
  apply (fail_download_spec ("chat", 7) "1" "" "" "" "rpc timeout" 0 1000 false (downloading_db 2)
           (downloading_row 2)); [reflexivity|reflexivity|right; left; reflexivity].
Defined.

(** The delay before a failed download is retried is between one and thirty minutes for the
    first 58 attempts; from the 59th on the shift overflows and, unlike in the archive
    queue, nothing catches it: the delay is not positive, so the record is due again at once. *)
Theorem download_backoff_bounds (n now : Z) :
  0 <= n →
  ∃ r', (run (FailDownload ("chat", 7) "1" "" "" "" 0 "rpc timeout" false now)
           (downloading_db n)).2 = set_records (<[("chat", 7) := r']> (records (downloading_db n)))
                                     (downloading_db n) ∧
        (n < 58 → now + 60 <= next_retry_at r' <= now + 1800) ∧
        (58 <= n → eligible now r' = true).
Proof.
  intros Hn.
  destruct (FailDownload_owned ("chat", 7) "1" "" "" "" "rpc timeout" 0 now false (downloading_db n)
    (downloading_row n)) as (r' & Hrun & Hst & _ & Hnext & _); [done|done|by right; left|].
  exists r'. rewrite Hrun, Hnext. split_and!; [done| |]; intros Hb.
  - pose proof (download_backoff_small n ltac:(lia)). simpl. lia.
  - pose proof (download_backoff_large n Hb). apply bool_decide_eq_true. right.
    rewrite Hnext. simpl. split; [done|lia].
Qed.

Lemma download_backoff_bounds_witness :
  ∃ r', (run (FailDownload ("chat", 7) "1" "" "" "" 0 "rpc timeout" false 1000)
           (downloading_db 58)).2 = set_records (<[("chat", 7) := r']> (records (downloading_db 58)))
                                     (downloading_db 58) ∧
        (58 < 58 → 1000 + 60 <= next_retry_at r' <= 1000 + 1800) ∧
        (58 <= 58 → eligible 1000 r' = true).
Proof. apply (download_backoff_bounds 58 1000). lia. Defined.

(** ** Selection *)

#[local] Instance pending_le_trans : Transitive pending_le.
Proof. intros a b c. unfold pending_le. lia. Qed.
#[local] Instance pending_le_total : Total pending_le.
Proof. intros a b. unfold pending_le. lia. Qed.

#[local] Instance target_row_eq_dec : EqDecision target_row.
Proof. solve_decision. Defined.
#[local] Instance pending_row_eq_dec : EqDecision pending_row.
Proof. solve_decision. Defined.

(** [p] is the join of a due record with its enabled target. *)
Definition selectable (now : Z) (d : db) (p : pending_row) : Prop :=
  records d !! p_key p = Some (p_row p) ∧ targets d !! (p_key p).1 = Some (p_target p) ∧
  enabled (p_target p) = 1 ∧
  (status (p_row p) = "pending" ∨ (status (p_row p) = "failed" ∧ next_retry_at (p_row p) <= now)).

Lemma pending_rows_selectable now d p : p ∈ pending_rows now d → selectable now d p.
Proof.
  intros ([k r] & Hin & Heq)%list_elem_of_omap. apply elem_of_map_to_list in Hin. simpl in Heq.
  destruct (targets d !! k.1) as [t|] eqn:Ht; [|done].
  destruct (_ && _)%bool eqn:Hb; simplify_eq. unfold eligible in Hb. go_bool. done.
Qed.

Lemma selectable_pending_rows now d k r t :
  records d !! k = Some r → targets d !! k.1 = Some t → enabled t = 1 → eligible now r = true →
  ∃ p, p ∈ pending_rows now d ∧ p_key p = k ∧ p_row p = r ∧ p_target p = t.
Proof.
  intros Hr Ht He Hel. eexists. split; [|split_and!].
  - apply list_elem_of_omap. exists (k, r). split; [by apply elem_of_map_to_list|].
    simpl. rewrite Ht, Hel, bool_decide_eq_true_2 by done. done.
  - done.
  - done.
  - done.
Qed.

(** The scan that feeds the scheduler returns at most [limit] rows, each a due record of an
    enabled target, in order of descending target priority and then message id; and a due
    record of an enabled target that it leaves out ranks behind every row it returns, which
    then are exactly [limit]. *)
Theorem pending_downloads_spec (limit now : Z) (d : db) :
  ∃ ps, run (GetPendingDownloads limit now) d = (Ok (record_of_pending <$> ps), d) ∧
    StronglySorted pending_le ps ∧ Z.of_nat (length ps) <= Z.max 0 limit ∧
    (∀ p, p ∈ ps → selectable now d p) ∧
    (∀ k r t, records d !! k = Some r → targets d !! k.1 = Some t → enabled t = 1 →
       eligible now r = true →
       (∃ p, p ∈ ps ∧ p_key p = k ∧ p_row p = r) ∨
       (length ps = Z.to_nat limit ∧ ∀ p, p ∈ ps →
          priority t < priority (p_target p) ∨
          (priority t = priority (p_target p) ∧ (p_key p).2 <= k.2))).
Proof.
  exists (top_k pending_le limit (pending_rows now d)).
  destruct (top_k_spec pending_le limit (pending_rows now d)) as (Hs & Hin & Hlen & Hout & Hfull).
  split_and!; [done|done|done| |].
  { intros p Hp. by apply pending_rows_selectable, Hin. }
  intros k r t Hr Ht He Hel.
  destruct (selectable_pending_rows now d k r t Hr Ht He Hel) as (p & Hp & <- & <- & <-).
  destruct (decide (p ∈ top_k pending_le limit (pending_rows now d))) as [|Hno]; [left; eauto|].
  right. split; [by eapply Hfull|]. intros q Hq. by apply Hout.
Qed.
