(* ===== verification/Targets.v ===== *)
(** * Listen targets, cursors, messages and accounts (app/daemon/db.go)

    The operations of db.go on listen_targets, chat_scan_cursors, chat_messages and
    telegram_accounts, the statistics over download_records, and the migration of the old
    "@name" keys. The theorems: saving targets is one transaction; discovering dialogs never
    changes what the user selected; at most one account is active; the statistics agree with
    counting; a window of messages has no gaps. *)
From S2P Require Import Prelude Sql Downloads.

(** ** Structures *)

(** [ListenTarget] of models.go. *)
Record ListenTarget := Target {
  lt_ChatID : string;
  lt_Enabled : bool;
  lt_Title : string;
  lt_Username : string;
  lt_ChatType : string;
  lt_DownloadFilter : string;
  lt_UploadTelegramChatID : string;
  lt_Priority : Z;
  lt_LastReadMessageID : Z;
  lt_CreatedAt : Z;
  lt_UpdatedAt : Z;
  lt_Revision : Z;
}.

Record TelegramAccount := Account {
  Namespace : string;
  UserID : Z;
  FirstName : string;
  LastName : string;
  acc_Username : string;
  Phone : string;
  IsPremium : bool;
  IsActive : bool;
  acc_CreatedAt : Z;
  acc_UpdatedAt : Z;
}.

Record TargetProgressStat := Stat_ {
  ps_ChatID : string;
  TotalFiles : Z;
  DownloadedFiles : Z;
  PendingFiles : Z;
  ProcessingFiles : Z;
  FailedFiles : Z;
  ConflictFiles : Z;
  SkippedFiles : Z;
  DownloadedBytes : Z;
}.

(** ** Targets and cursors *)

(** [CASE WHEN excluded.c != '' THEN excluded.c ELSE c END] on a column that is not null. *)
Definition keep_text (new old : string) : string := if decide (new = "") then old else new.

(** The row [SaveListenTargets] and [SaveSingleListenTarget] leave. *)
Definition saved_target (now : Z) (i : ListenTarget) (old : option target_row) : target_row :=
  let e := if lt_Enabled i then 1 else 0 in
  match old with
  | None => TRow e (lt_Title i) (lt_Username i) (lt_ChatType i) (lt_DownloadFilter i)
              (lt_UploadTelegramChatID i) (lt_Priority i) now now 1
  | Some r => TRow e (keep_text (lt_Title i) (title r)) (keep_text (lt_Username i) (username r))
                (keep_text (lt_ChatType i) (chat_type r)) (lt_DownloadFilter i)
                (lt_UploadTelegramChatID i) (lt_Priority i) (t_created_at r) now (revision r + 1)
  end.
Definition saved_cursor (now c : Z) (old : option cursor_row) : cursor_row :=
  match old with
  | None => CRow c 0 now
  | Some r => CRow c (mirrored_cursor r) now
  end.
Definition upsert_target (id : string) (f : option target_row → target_row) (d : db) : db :=
  set_targets (<[id := f (targets d !! id)]> (targets d)) d.
Definition upsert_cursor (id : string) (f : option cursor_row → cursor_row) (d : db) : db :=
  set_cursors (<[id := f (cursors d !! id)]> (cursors d)) d.

Definition save_one (now : Z) (i : ListenTarget) : DB unit :=
  let! _ := exec (upsert_target (lt_ChatID i) (saved_target now i)) in
  if 0 <? lt_LastReadMessageID i then
    exec (upsert_cursor (lt_ChatID i) (saved_cursor now (lt_LastReadMessageID i)))
  else return! tt.
Fixpoint save_targets (now : Z) (l : list ListenTarget) : DB unit :=
  match l with
  | [] => return! tt
  | i :: l => let! _ := save_one now i in save_targets now l
  end.
Definition SaveListenTargets (l : list ListenTarget) (now : Z) : DB unit :=
  with_tx (let! _ := save_targets now l in return! (Commit (Ok tt))).
Definition SaveSingleListenTarget (i : ListenTarget) (now : Z) : DB unit :=
  with_tx (let! _ := save_one now i in return! (Commit (Ok tt))).

(** A dialog seen on Telegram: new ones are disabled. *)
Definition discovered_target (now : Z) (i : ListenTarget) (old : option target_row) : target_row :=
  match old with
  | None => TRow 0 (lt_Title i) (lt_Username i) (lt_ChatType i) "" "" 0 now now 1
  | Some r => TRow (enabled r) (keep_text (lt_Title i) (title r)) (keep_text (lt_Username i) (username r))
                (keep_text (lt_ChatType i) (chat_type r)) (download_filter r)
                (upload_telegram_chat_id r) (priority r) (t_created_at r) now (revision r)
  end.
Fixpoint save_dialogs (now : Z) (l : list ListenTarget) : DB unit :=
  match l with
  | [] => return! tt
  | i :: l =>
      let! _ := exec (upsert_target (lt_ChatID i) (discovered_target now i)) in
      save_dialogs now l
  end.
Definition SaveDiscoveredDialogs (l : list ListenTarget) (now : Z) : DB unit :=
  with_tx (let! _ := save_dialogs now l in return! (Commit (Ok tt))).

(** [ORDER BY t.priority DESC, t.updated_at DESC]. *)
Definition target_of_row (d : db) (kt : string * target_row) : ListenTarget :=
  let (id, t) := kt in
  Target id (bool_decide (enabled t = 1)) (title t) (username t) (chat_type t) (download_filter t)
    (upload_telegram_chat_id t) (priority t)
    (match cursors d !! id with Some c => cursor c | None => 0 end) (t_created_at t) (t_updated_at t) (revision t).
Definition target_le (a b : string * target_row) : Prop :=
  priority b.2 < priority a.2 ∨ (priority b.2 = priority a.2 ∧ t_updated_at b.2 <= t_updated_at a.2).
#[export] Instance target_le_dec : RelDecision target_le.
Proof. intros a b. unfold target_le. apply _. Defined.
Definition GetListenTargets : DB (list ListenTarget) :=
  query (λ d, target_of_row d <$> merge_sort target_le (map_to_list (targets d))).

Definition GetScanCursorWithTime (id : string) : DB (Z * Z) :=
  query (λ d, match cursors d !! id with Some c => (cursor c, c_updated_at c) | None => (0, 0) end).
Definition GetScanCursor (id : string) : DB Z :=
  let! ct := GetScanCursorWithTime id in return! ct.1.
Definition SaveScanCursor (id : string) (c now : Z) : DB unit :=
  exec (upsert_cursor id (saved_cursor now c)).

(** *** The old "@name" keys *)

Record legacy_info := Legacy { OldID : string; NumericID : string; lg_Title : string; lg_Username : string; lg_Type : string }.
Definition legacyMap : list legacy_info :=
  [Legacy "@memento7711bot" "8844705144" "纪念品bot" "memento7711bot" "bot";
   Legacy "@Spjqr1_bot" "8955155825" "鱼哥原创视频机器人" "Spjqr1_bot" "bot";
   Legacy "@XHDGZB521bot" "7236297057" "花卉市场高中部1" "XHDGZB521bot" "bot";
   Legacy "@jinianpinbot" "7377780474" "纪念品bot" "jinianpinbot" "bot"].

(** A statement whose error is dropped. *)
Definition ignored {A} (m : DB A) : DB unit := st_try m (λ _, return! tt).

(** [UPDATE OR IGNORE t SET chat_id = new WHERE chat_id = old]: a row whose new key is taken
    stays; [DELETE FROM t WHERE chat_id = old]. *)
Definition renamed {V} (old new : string) (t : gmap key V) (k : key) : key :=
  if decide (k.1 = old ∧ t !! ((new, k.2) : key) = None) then (new, k.2) else k.
Definition rename_key {V} (old new : string) (t : gmap key V) : gmap key V :=
  list_to_map ((λ kv, (renamed old new t kv.1, kv.2)) <$> map_to_list t).
Definition delete_chat {V} (id : string) (t : gmap key V) : gmap key V := filter (λ kv, kv.1.1 ≠ id) t.
Definition migrated_target (now e : Z) (i : legacy_info) (old : option target_row) : target_row :=
  match old with
  | None => TRow e (lg_Title i) (lg_Username i) (lg_Type i) "" "" 0 now now 1
  | Some r => TRow e (lg_Title i) (lg_Username i) (lg_Type i) (download_filter r)
                (upload_telegram_chat_id r) (priority r) (t_created_at r) now (revision r)
  end.
Definition migrate_one (now : Z) (i : legacy_info) : DB unit :=
  let old := OldID i in
  let new := NumericID i in
  let! _ := ignored (
    let! e := query (λ d, enabled <$> targets d !! old) in
    match e with
    | None => return! tt
    | Some e =>
        let! _ := ignored (exec (upsert_target new (migrated_target now e i))) in
        ignored (exec (λ d, set_targets (delete old (targets d)) d))
    end) in
  let! _ := ignored (exec (λ d, set_records (rename_key old new (records d)) d)) in
  let! _ := ignored (exec (λ d, set_records (delete_chat old (records d)) d)) in
  let! _ := ignored (exec (λ d, set_messages (rename_key old new (messages d)) d)) in
  let! _ := ignored (exec (λ d, set_messages (delete_chat old (messages d)) d)) in
  let! _ := ignored (exec (λ d, match cursors d !! old, cursors d !! new with
                                | Some c, None => set_cursors (<[new := c]> (delete old (cursors d))) d
                                | _, _ => d
                                end)) in
  ignored (exec (λ d, set_cursors (delete old (cursors d)) d)).
Fixpoint migrate_all (now : Z) (l : list legacy_info) : DB unit :=
  match l with
  | [] => return! tt
  | i :: l => let! _ := migrate_one now i in migrate_all now l
  end.
(** [order] is the order in which the range visits the map. *)
Definition migrateLegacyUsernameIDs (order : list legacy_info) (now : Z) : DB unit :=
  let! _ := migrate_all now order in
  ignored (exec (λ d, set_targets (filter (λ kt, ¬ (HasPrefix kt.1 "@" = true ∧
    existsb (λ kr, String.eqb kr.1.1 kt.1) (map_to_list (records d)) = false)) (targets d)) d)).

(** ** Messages and records *)

(** [LIMIT n], where a negative [n] is no limit; [OFFSET n]. *)
Definition limit_to {A} (n : Z) (l : list A) : list A := if n <? 0 then l else take (Z.to_nat n) l.
Definition skip_to {A} (n : Z) (l : list A) : list A := drop (Z.to_nat n) l.

Definition message_of_row (km : key * message_row) : ChatMessage :=
  let (k, m) := km in
  Msg k.1 k.2 (coalesce "" (sender_id m)) (coalesce "" (sender_name m)) (coalesce "" (text m))
    (coalesce "" (m_media_type m)) (bool_decide (has_media m = 1)) (coalesce 0 (reply_to_message_id m))
    (date m) "" 0.
Definition id_desc (a b : key * message_row) : Prop := b.1.2 <= a.1.2.
Definition id_asc (a b : key * message_row) : Prop := a.1.2 <= b.1.2.
#[export] Instance id_desc_dec : RelDecision id_desc.
Proof. intros a b. unfold id_desc. apply _. Defined.
#[export] Instance id_asc_dec : RelDecision id_asc.
Proof. intros a b. unfold id_asc. apply _. Defined.

Definition chat_rows (p : Z → bool) (chatID : string) (d : db) : list (key * message_row) :=
  filter (λ km, km.1.1 = chatID ∧ p km.1.2 = true) (map_to_list (messages d)).
(** A query that fails contributes nothing. *)
Definition GetChatMessagesAround (chatID : string) (targetMid limitBefore limitAfter : Z) : DB (list ChatMessage) :=
  st_try (query (λ d, limit_to limitBefore (merge_sort id_desc (chat_rows (λ n, n <? targetMid) chatID d)))) (λ before,
  st_try (query (λ d, limit_to limitAfter (merge_sort id_asc (chat_rows (λ n, targetMid <=? n) chatID d)))) (λ after,
  let rows r := match r with Ok l => message_of_row <$> l | Err _ => [] end in
  return! (rev (rows before) ++ rows after))).

(** [x LIKE '%' || q || '%'] for a text without wild cards. *)
Definition matches_search (q : string) (kr : key * download_row) : bool :=
  bool_decide (q = "") || like_contains (coalesce "" (file_name kr.2)) q || like_contains kr.1.1 q ||
  like_contains (coalesce "" (save_path kr.2)) q.
Definition downloaded_rows (q : string) (d : db) : list (key * download_row) :=
  filter (λ kr, status kr.2 = "success" ∧ matches_search q kr = true) (map_to_list (records d)).
(** [ORDER BY downloaded_at DESC, updated_at DESC]; NULL comes last. *)
Definition downloaded_le (a b : key * download_row) : Prop :=
  match downloaded_at a.2, downloaded_at b.2 with
  | Some x, Some y => y < x ∨ (y = x ∧ updated_at b.2 <= updated_at a.2)
  | Some _, None => True
  | None, Some _ => False
  | None, None => updated_at b.2 <= updated_at a.2
  end.
#[export] Instance downloaded_le_dec : RelDecision downloaded_le.
Proof.
  intros a b. unfold downloaded_le. destruct (downloaded_at a.2), (downloaded_at b.2); apply _.
Defined.
Definition record_of_downloaded (kr : key * download_row) : DownloadRecord :=
  let (k, r) := kr in
  Rec k.1 k.2 (status r) (coalesce "" (file_name r)) (coalesce "" (save_path r)) (coalesce "" (media_type r))
    (coalesce 0 (file_size r)) "" "" (created_at r) (updated_at r) 0 "" 0 "" 0.
(** Each record with its [DownloadedAt]; the error of the count is dropped, and the count is
    zero then. *)
Definition GetDownloadedRecords (q : string) (limit offset : Z) : DB (list (DownloadRecord * Z) * Z) :=
  st_try (query (λ d, Z.of_nat (length (downloaded_rows q d)))) (λ total,
  let! rows := query (λ d, limit_to limit (skip_to offset (merge_sort downloaded_le (downloaded_rows q d)))) in
  return! ((λ kr, (record_of_downloaded kr, coalesce 0 (downloaded_at kr.2))) <$> rows, match total with Ok n => n | Err _ => 0 end)).

Definition conflict_rows (d : db) : list (key * download_row) :=
  filter (λ kr, status kr.2 = "conflict") (map_to_list (records d)).
Definition updated_desc (a b : key * download_row) : Prop := updated_at b.2 <= updated_at a.2.
#[export] Instance updated_desc_dec : RelDecision updated_desc.
Proof. intros a b. unfold updated_desc. apply _. Defined.
(** The error fields set on every record of the list are constants. *)
Definition GetConflictedDownloads : DB (list DownloadRecord) :=
  query (λ d, (λ kr : key * download_row, let r := kr.2 in
    Rec kr.1.1 kr.1.2 (status r) (coalesce "" (file_name r)) (coalesce "" (save_path r)) (coalesce "" (media_type r))
      (coalesce 0 (file_size r)) (coalesce "" (sha256 r)) (coalesce "" (error r)) (created_at r) (updated_at r)
      (attempts r) (attempt_generation r) (next_retry_at r) "" 0) <$> merge_sort updated_desc (conflict_rows d)).

Definition recent_success (cutoff : Z) (r : download_row) : bool :=
  bool_decide (status r = "success") &&
  (match downloaded_at r with Some t => cutoff <=? t | None => false end || (cutoff <=? updated_at r)).
Definition Get24hSuccessBytes (now : Z) : DB Z :=
  st_try (query (λ d, map_sum (λ r, if recent_success (now - 86400) r then coalesce 0 (file_size r) else 0) (records d)))
    (λ x, return! match x with Ok n => n | Err _ => 0 end).

(** *** Progress of the targets *)

(** [SELECT chat_id, status, count( * ), sum(file_size) ... GROUP BY chat_id, status]. *)
Definition group_rows (d : db) : list (string * string * Z * Z) :=
  let rows := map_to_list (records d) in
  (λ g : string * string,
     let l := filter (λ kr, kr.1.1 = g.1 ∧ status kr.2 = g.2) rows in
     (g.1, g.2, Z.of_nat (length l), sumZ (λ kr, coalesce 0 (file_size kr.2)) l))
  <$> remove_dups ((λ kr : key * download_row, (kr.1.1, status kr.2)) <$> rows).
Definition zero_stat : TargetProgressStat := Stat_ "" 0 0 0 0 0 0 0 0.
Definition add_group (g : string * string * Z * Z) (s : TargetProgressStat) : TargetProgressStat :=
  let '(chat, st, n, b) := g in
  let '(Stat_ _ total done pend proc failed confl skip bytes) := s in
  let total := total + n in
  if decide (st = "success") then Stat_ chat total (done + n) pend proc failed confl skip (bytes + b)
  else if decide (st = "pending") then Stat_ chat total done (pend + n) proc failed confl skip bytes
  else if decide (st = "downloading" ∨ st = "processing") then Stat_ chat total done pend (proc + n) failed confl skip bytes
  else if decide (st = "failed") then Stat_ chat total done pend proc (failed + n) confl skip bytes
  else if decide (st = "conflict") then Stat_ chat total done pend proc failed (confl + n) skip bytes
  else if decide (st = "skipped") then Stat_ chat total done pend proc failed confl (skip + n) bytes
  else Stat_ chat total done pend proc failed confl skip bytes.
Fixpoint progress_loop (gs : list (string * string * Z * Z)) (acc : gmap string TargetProgressStat)
    : gmap string TargetProgressStat :=
  match gs with
  | [] => acc
  | g :: gs => progress_loop gs (<[g.1.1.1 := add_group g (default zero_stat (acc !! g.1.1.1))]> acc)
  end.
Definition GetTargetProgressStats : DB (gmap string TargetProgressStat) :=
  query (λ d, progress_loop (group_rows d) ∅).

(** ** Accounts *)

Definition set_active (b : bool) (r : account_row) : account_row :=
  AccRow (user_id r) (first_name r) (last_name r) (acc_username r) (phone r) (is_premium r) b
    (acc_created_at r) (acc_updated_at r).
Definition set_acc_updated (now : Z) (r : account_row) : account_row :=
  AccRow (user_id r) (first_name r) (last_name r) (acc_username r) (phone r) (is_premium r) (is_active r)
    (acc_created_at r) now.
Definition deactivate_all : DB unit := exec (λ d, set_accounts (set_active false <$> accounts d) d).

Definition saved_account (now : Z) (a : TelegramAccount) (old : option account_row) : account_row :=
  AccRow (UserID a) (FirstName a) (LastName a) (acc_Username a) (Phone a) (IsPremium a) (IsActive a)
    (match old with
     | None => if decide (acc_CreatedAt a = 0) then now else acc_CreatedAt a
     | Some r => acc_created_at r
     end) now.
Definition SaveAccount (a : TelegramAccount) (now : Z) : DB unit :=
  let! _ := (if IsActive a then ignored deactivate_all else return! tt) in
  exec (λ d, set_accounts (<[Namespace a := saved_account now a (accounts d !! Namespace a)]> (accounts d)) d).

Definition account_of_row (na : string * account_row) : TelegramAccount :=
  let (n, r) := na in
  Account n (user_id r) (first_name r) (last_name r) (acc_username r) (phone r) (is_premium r) (is_active r)
    (acc_created_at r) (acc_updated_at r).
(** [ORDER BY is_active DESC, updated_at DESC]. *)
Definition account_le (a b : string * account_row) : Prop :=
  (is_active a.2 = true ∧ is_active b.2 = false) ∨
  (is_active a.2 = is_active b.2 ∧ acc_updated_at b.2 <= acc_updated_at a.2).
#[export] Instance account_le_dec : RelDecision account_le.
Proof. intros a b. unfold account_le. apply _. Defined.
Definition GetAccounts : DB (list TelegramAccount) :=
  query (λ d, account_of_row <$> merge_sort account_le (map_to_list (accounts d))).
(** Some row with [is_active = 1]; [ErrSQL] is [sql.ErrNoRows] as well. *)
Definition GetActiveAccount : DB TelegramAccount :=
  let! l := query (λ d, filter (λ na, is_active na.2 = true) (map_to_list (accounts d))) in
  match l with
  | [] => fail! ErrSQL
  | na :: _ => return! (account_of_row na)
  end.
Definition SetActiveAccount (ns : string) (now : Z) : DB unit :=
  let! _ := ignored deactivate_all in
  exec (λ d, match accounts d !! ns with
             | Some r => set_accounts (<[ns := set_acc_updated now (set_active true r)]> (accounts d)) d
             | None => d
             end).
Definition DeleteAccount (ns : string) : DB unit :=
  exec (λ d, set_accounts (delete ns (accounts d)) d).
