(* ===== verification/TargetsProps.v ===== *)
(** * What the remaining tables guarantee

    Theorems on the operations of Targets.v: saving and reading targets, discovery, the one
    active account, the progress statistics, windows of messages and the migration of the old
    keys. *)
From S2P Require Import Prelude Sql Downloads Targets.

(** ** Saving targets *)

Definition apply_save (now : Z) (d : db) (i : ListenTarget) : db :=
  let d := upsert_target (lt_ChatID i) (saved_target now i) d in
  if 0 <? lt_LastReadMessageID i then
    upsert_cursor (lt_ChatID i) (saved_cursor now (lt_LastReadMessageID i)) d
  else d.

Lemma exec_spec f s r s' :
  exec f s = (r, s') → tabs s' = (if is_ok r then f (tabs s) else tabs s).
Proof. unfold exec, stmt. destruct (hd false (faults s)); intros [= <- <-]; done. Qed.

Lemma save_one_ok now i s s' : save_one now i s = (Ok tt, s') → tabs s' = apply_save now (tabs s) i.
Proof.
  unfold save_one, apply_save, st_bind. destruct (exec _ s) as [[u|] s1] eqn:H1; [|done]. apply exec_spec in H1. simpl in H1.
  destruct (0 <? _).
  - intros H2%exec_spec. by rewrite H2, H1.
  - unfold st_ret. intros [= <-]. done.
Qed.
Lemma save_targets_ok now l s s' :
  save_targets now l s = (Ok tt, s') → tabs s' = foldl (apply_save now) (tabs s) l.
Proof.
  revert s. induction l as [|i l IH]; intros s; cbn [save_targets]; [by intros [= ->]|].
  unfold st_bind. destruct (save_one now i s) as [[[]|] s1] eqn:H1; [|done]. apply save_one_ok in H1.
  intros H2%IH. simpl. by rewrite H2, H1.
Qed.

(** A transaction whose body commits [Ok] or fails. *)
Lemma tx_all_or_nothing (m : DB unit) s r s' :
  with_tx (let! _ := m in return! (Commit (Ok tt))) s = (r, s') →
  match r with
  | Ok _ => ∃ f f', m (Sql (tabs s) f) = (Ok tt, Sql (tabs s') f')
  | Err _ => tabs s' = tabs s
  end.
Proof.
  unfold with_tx, query, exec, stmt, st_bind, st_ret. destruct (hd false (faults s)); [by intros [= <- <-]|].
  destruct (m _) as [[[]|e] s1] eqn:Hm; [|by intros [= <- <-]].
  destruct (hd false (faults s1)); intros [= <- <-]; [done|]. simpl. exists (tl (faults s)), (faults s1).
  rewrite Hm. by destruct s1.
Qed.

Lemma apply_save_targets now d i :
  targets (apply_save now d i) = <[lt_ChatID i := saved_target now i (targets d !! lt_ChatID i)]> (targets d).
Proof. unfold apply_save. by destruct (0 <? _). Qed.
Lemma apply_save_cursors now d i :
  cursors (apply_save now d i) =
  if 0 <? lt_LastReadMessageID i then
    <[lt_ChatID i := saved_cursor now (lt_LastReadMessageID i) (cursors d !! lt_ChatID i)]> (cursors d)
  else cursors d.
Proof. unfold apply_save. by destruct (0 <? _). Qed.

Lemma foldl_save_other now l d id :
  id ∉ lt_ChatID <$> l →
  targets (foldl (apply_save now) d l) !! id = targets d !! id ∧ cursors (foldl (apply_save now) d l) !! id = cursors d !! id.
Proof.
  revert d. induction l as [|i l IH]; intros d Hid; [done|].
  rewrite fmap_cons, not_elem_of_cons in Hid. destruct Hid as [Hne Hid]. simpl.
  destruct (IH (apply_save now d i) Hid) as [-> ->].
  rewrite apply_save_targets, apply_save_cursors, lookup_insert_ne by done. split; [done|].
  destruct (0 <? _); [by rewrite lookup_insert_ne|done].
Qed.
Lemma foldl_save_in now l d i :
  NoDup (lt_ChatID <$> l) → i ∈ l →
  targets (foldl (apply_save now) d l) !! lt_ChatID i = Some (saved_target now i (targets d !! lt_ChatID i)) ∧
  cursors (foldl (apply_save now) d l) !! lt_ChatID i =
    (if 0 <? lt_LastReadMessageID i then Some (saved_cursor now (lt_LastReadMessageID i) (cursors d !! lt_ChatID i))
     else cursors d !! lt_ChatID i).
Proof.
  revert d. induction l as [|x l IH]; intros d Hnd Hi; [by apply elem_of_nil in Hi|].
  rewrite fmap_cons in Hnd. apply NoDup_cons in Hnd as [Hx Hnd]. apply elem_of_cons in Hi as [->|Hi]; simpl.
  - destruct (foldl_save_other now l (apply_save now d x) _ Hx) as [-> ->].
    rewrite apply_save_targets, apply_save_cursors, lookup_insert_eq. split; [done|].
    destruct (0 <? _); [by rewrite lookup_insert_eq|done].
  - assert (lt_ChatID x ≠ lt_ChatID i) as Hne.
    { intros He. apply Hx. rewrite He. by apply list_elem_of_fmap_2. }
    destruct (IH (apply_save now d x) Hnd Hi) as [-> ->].
    rewrite apply_save_targets, apply_save_cursors, lookup_insert_ne by done. split; [done|].
    destruct (0 <? lt_LastReadMessageID x); [by rewrite lookup_insert_ne|done].
Qed.

(** ** Reading targets *)

Definition read_target (d : db) (id : string) : option ListenTarget :=
  (λ t, target_of_row d (id, t)) <$> targets d !! id.
Definition listed (d : db) : list ListenTarget :=
  target_of_row d <$> merge_sort target_le (map_to_list (targets d)).

Lemma GetListenTargets_calm d : run GetListenTargets d = (Ok (listed d), d).
Proof. done. Qed.
Lemma target_of_row_id d kt : lt_ChatID (target_of_row d kt) = kt.1.
Proof. by destruct kt. Qed.
Lemma elem_of_listed d t : t ∈ listed d ↔ read_target d (lt_ChatID t) = Some t.
Proof.
  unfold listed, read_target. rewrite list_elem_of_fmap. setoid_rewrite merge_sort_Permutation. split.
  - intros ([id r] & -> & Hin). apply elem_of_map_to_list in Hin. rewrite target_of_row_id. simpl. by rewrite Hin.
  - intros (r & Hr & Hl)%fmap_Some. exists (lt_ChatID t, r). split; [done|]. by apply elem_of_map_to_list.
Qed.
Lemma listed_ids d : NoDup (lt_ChatID <$> listed d).
Proof.
  unfold listed. rewrite <- list_fmap_compose.
  assert (lt_ChatID ∘ target_of_row d <$> merge_sort target_le (map_to_list (targets d)) =
          (merge_sort target_le (map_to_list (targets d))).*1) as ->.
  { apply list_fmap_ext. intros i kt _. apply target_of_row_id. }
  rewrite merge_sort_Permutation. apply NoDup_fst_map_to_list.
Qed.

(** Saving targets and reading them back. Whatever statement fails, either nothing
    changes, or every target of the list is saved: then reading the targets gives each of
    them with the switches, filter, upload chat and priority it was saved with, with its
    title unless that is empty, with its cursor unless that is not positive, and with the
    next revision; targets that were not in the list read as before, and each target is
    listed once. *)
Theorem saved_targets_read_back (l : list ListenTarget) (now : Z) (s : sqlst) (r : res dberr unit) (s' : sqlst) :
  NoDup (lt_ChatID <$> l) → SaveListenTargets l now s = (r, s') →
  match r with
  | Err _ => tabs s' = tabs s
  | Ok _ =>
      ∃ before after, run GetListenTargets (tabs s) = (Ok before, tabs s) ∧
        run GetListenTargets (tabs s') = (Ok after, tabs s') ∧ NoDup (lt_ChatID <$> after) ∧
        (∀ t, lt_ChatID t ∉ lt_ChatID <$> l → t ∈ after ↔ t ∈ before) ∧
        (∀ i, i ∈ l → ∃ t, t ∈ after ∧ lt_ChatID t = lt_ChatID i ∧ lt_Enabled t = lt_Enabled i ∧
           lt_DownloadFilter t = lt_DownloadFilter i ∧ lt_UploadTelegramChatID t = lt_UploadTelegramChatID i ∧
           lt_Priority t = lt_Priority i ∧ (lt_Title i ≠ "" → lt_Title t = lt_Title i) ∧
           (0 < lt_LastReadMessageID i → lt_LastReadMessageID t = lt_LastReadMessageID i) ∧
           (lt_LastReadMessageID i <= 0 → ∀ o, o ∈ before → lt_ChatID o = lt_ChatID i →
              lt_LastReadMessageID t = lt_LastReadMessageID o) ∧
           (∀ o, o ∈ before → lt_ChatID o = lt_ChatID i → lt_Revision t = lt_Revision o + 1))
  end.
Proof.
  intros Hnd Hs. apply tx_all_or_nothing in Hs. destruct r as [[]|e]; [|done].
  destruct Hs as (f & f' & Hm%save_targets_ok). simpl in Hm. exists (listed (tabs s)), (listed (tabs s')).
  rewrite !GetListenTargets_calm. split_and!; [done..|apply listed_ids| |].
  - intros t Ht. rewrite !elem_of_listed. unfold read_target, target_of_row.
    destruct (foldl_save_other now l (tabs s) _ Ht) as [H1 H2]. by rewrite Hm, H1, H2.
  - intros i Hi. destruct (foldl_save_in now l (tabs s) i Hnd Hi) as [H1 H2].
    eexists (target_of_row (tabs s') (lt_ChatID i, _)). split.
    { rewrite elem_of_listed, target_of_row_id. unfold read_target. simpl. by rewrite Hm, H1. }
    rewrite Hm. simpl. rewrite H2.
    assert (∀ o, o ∈ listed (tabs s) → lt_ChatID o = lt_ChatID i → ∃ row, targets (tabs s) !! lt_ChatID i = Some row ∧
      o = target_of_row (tabs s) (lt_ChatID i, row)) as Hold.
    { intros o Ho <-. apply elem_of_listed, fmap_Some in Ho as (row & Hr & ->). by exists row. }
    unfold saved_target. split_and!; try (destruct (targets (tabs s) !! lt_ChatID i); done).
    + destruct (targets (tabs s) !! lt_ChatID i); destruct (lt_Enabled i); by vm_compute.
    + intros Ht. destruct (targets (tabs s) !! lt_ChatID i); simpl; [|done]. unfold keep_text. by rewrite decide_False.
    + intros Hp. rewrite (proj2 (Z.ltb_lt _ _) Hp). by destruct (cursors (tabs s) !! lt_ChatID i).
    + intros Hn o Ho Hid. destruct (Hold o Ho Hid) as (row & _ & ->). simpl.
      by rewrite (proj2 (Z.ltb_ge _ _) Hn).
    + intros o Ho Hid. destruct (Hold o Ho Hid) as (row & -> & ->). done.
Qed.

(** ** Discovery *)

(** What the user chose for a target. *)
Definition selection (t : target_row) : Z * string * string * Z * Z * Z :=
  (enabled t, download_filter t, upload_telegram_chat_id t, priority t, t_created_at t, revision t).
(** A target keeps its selection; a new one is disabled. *)
Definition discovery_step (o o' : option target_row) : Prop :=
  match o, o' with
  | Some t, Some t' => selection t' = selection t
  | None, Some t' => enabled t' = 0
  | None, None => True
  | Some _, None => False
  end.
Definition discovery_rel (d d' : db) : Prop :=
  (∀ id, discovery_step (targets d !! id) (targets d' !! id)) ∧
  records d' = records d ∧ jobs d' = jobs d ∧ cursors d' = cursors d ∧ messages d' = messages d ∧ accounts d' = accounts d.

Lemma discovery_step_refl o : discovery_step o o.
Proof. by destruct o. Qed.
Lemma discovery_step_trans o1 o2 o3 : discovery_step o1 o2 → discovery_step o2 o3 → discovery_step o1 o3.
Proof.
  destruct o1, o2, o3; simpl; try done; [by intros -> ->|]. intros H1 H2.
  unfold selection in H2. by injection H2 as -> _ _ _ _ _.
Qed.
Lemma discovery_rel_refl d : discovery_rel d d.
Proof. split; [intros id; apply discovery_step_refl|done]. Qed.
Lemma discovery_rel_trans d1 d2 d3 : discovery_rel d1 d2 → discovery_rel d2 d3 → discovery_rel d1 d3.
Proof.
  intros [Hx (?&?&?&?&?)] [Hy (?&?&?&?&?)]. split; [|split_and!; congruence].
  intros id. eapply discovery_step_trans; [apply Hx|apply Hy].
Qed.
Lemma effect_discovered now i : effect discovery_rel (exec (upsert_target (lt_ChatID i) (discovered_target now i))).
Proof.
  intros s. destruct (exec _ s) as [r s'] eqn:H. apply exec_spec in H. simpl. rewrite H.
  destruct (is_ok r); [|apply discovery_rel_refl]. split; [|done]. intros id. simpl.
  destruct (decide (lt_ChatID i = id)) as [<-|Hne]; [rewrite lookup_insert_eq|rewrite lookup_insert_ne by done; apply discovery_step_refl].
  by destruct (targets (tabs s) !! lt_ChatID i).
Qed.

(** Discovering dialogs never changes what the user selected: whatever statement fails,
    every target keeps its switch, filter, upload chat, priority and revision, new targets
    are disabled, and no other table changes; in particular the same downloads are due. *)
Theorem discovery_keeps_selection (l : list ListenTarget) (now : Z) (s : sqlst) :
  let d := tabs s in
  let d' := tabs (SaveDiscoveredDialogs l now s).2 in
  discovery_rel d d' ∧ (∀ t, p_key <$> pending_rows t d' = p_key <$> pending_rows t d).
Proof.
  assert (effect discovery_rel (SaveDiscoveredDialogs l now)) as He.
  { apply effect_with_tx; [apply discovery_rel_refl|]. apply effect_bind_r; [|by intros a s0].
    induction l as [|i l IH]; cbn [save_dialogs]; [intros s0; apply discovery_rel_refl|].
    apply effect_bind_trans; [apply discovery_rel_trans|apply effect_discovered|by intros _]. }
  specialize (He s). split; [done|]. destruct He as (Ht & Hr & _ & _ & Hm & _). intros t.
  unfold pending_rows. rewrite Hr, Hm.
  induction (map_to_list (records (tabs s))) as [|[k r] rows IH]; [done|]. cbn [omap list_omap].
  specialize (Ht k.1). simpl. destruct (targets (tabs s) !! k.1) as [t1|], (targets _ !! k.1) as [t2|]; simpl in Ht; try done.
  - unfold selection in Ht. injection Ht as -> _ _ _ _ _. destruct (bool_decide _ && _); [|done].
    rewrite !fmap_cons. by rewrite IH.
  - rewrite Ht. by rewrite bool_decide_false.
Qed.

(** ** Accounts *)

Definition one_active (d : db) : Prop :=
  ∀ n1 n2 r1 r2, accounts d !! n1 = Some r1 → accounts d !! n2 = Some r2 →
    is_active r1 = true → is_active r2 = true → n1 = n2.

Inductive account_op := OpSave (a : TelegramAccount) | OpActivate (ns : string) | OpDelete (ns : string).
Definition exec_account (now : Z) (o : account_op) : DB unit :=
  match o with
  | OpSave a => SaveAccount a now
  | OpActivate ns => SetActiveAccount ns now
  | OpDelete ns => DeleteAccount ns
  end.
(** Calls one after the other, without failing statements. *)
Definition run_accounts (d : db) (ops : list (Z * account_op)) : db :=
  foldl (λ d o, (run (exec_account o.1 o.2) d).2) d ops.

Lemma no_active_after d n r : (set_active false <$> accounts d) !! n = Some r → is_active r = false.
Proof. rewrite lookup_fmap. by intros (r0 & _ & ->)%fmap_Some. Qed.

Lemma one_active_insert d t n r :
  (∀ n r, t !! n = Some r → is_active r = false) → one_active (set_accounts (<[n := r]> t) d).
Proof.
  intros Ht n1 n2 r1 r2 H1 H2 A1 A2. simpl in H1, H2.
  apply lookup_insert_Some in H1 as [[<- _]|[_ H1]], H2 as [[<- _]|[_ H2]]; try done;
    [apply Ht in H2|apply Ht in H1..]; congruence.
Qed.

Lemma one_active_exec now o d : one_active d → one_active (run (exec_account now o) d).2.
Proof.
  intros Hd. destruct o as [a|ns|ns]; unfold run; simpl.
  - unfold SaveAccount. destruct (IsActive a) eqn:Ha; simpl.
    + apply one_active_insert. intros n r. apply no_active_after.
    + intros n1 n2 r1 r2 H1 H2 A1 A2. simpl in H1, H2.
      apply lookup_insert_Some in H1 as [[_ <-]|[_ H1]]; [simpl in A1; congruence|].
      apply lookup_insert_Some in H2 as [[_ <-]|[_ H2]]; [simpl in A2; congruence|]. by eapply Hd.
  - unfold SetActiveAccount. simpl. rewrite lookup_fmap. destruct (accounts d !! ns) as [r|]; simpl.
    + apply one_active_insert. intros n r'. apply no_active_after.
    + intros n1 n2 r1 r2 H1 _ A1 _. apply no_active_after in H1. congruence.
  - intros n1 n2 r1 r2 H1 H2. simpl in H1, H2. apply lookup_delete_Some in H1 as [_ H1], H2 as [_ H2]. by eapply Hd.
Qed.

(** At most one account is active: it holds initially and every saving, activation and
    deletion of accounts keeps it when no statement fails, and the active account that is
    read is the one activated last. *)
Theorem at_most_one_active_account (ops : list (Z * account_op)) (d : db) :
  one_active d →
  one_active (run_accounts d ops) ∧
  (∀ now ns r, accounts (run_accounts d ops) !! ns = Some r →
     ∃ a, run GetActiveAccount (run (SetActiveAccount ns now) (run_accounts d ops)).2 =
          (Ok a, (run (SetActiveAccount ns now) (run_accounts d ops)).2) ∧ Namespace a = ns).
Proof.
  intros Hd. assert (one_active (run_accounts d ops)) as Hr.
  { revert d Hd. induction ops as [|[t o] ops IH]; intros d Hd; [done|]. simpl. apply IH. by apply one_active_exec. }
  split; [done|]. intros now ns r Hns.
  pose proof (one_active_exec now (OpActivate ns) _ Hr) as Ho. simpl in Ho.
  set (d' := (run (SetActiveAccount ns now) (run_accounts d ops)).2) in *.
  assert (∃ r', accounts d' !! ns = Some r' ∧ is_active r' = true) as (r' & Hr' & Ha).
  { unfold d', run, SetActiveAccount. simpl. rewrite lookup_fmap, Hns. simpl. rewrite lookup_insert_eq. by eexists. }
  unfold run, GetActiveAccount, st_bind, query, stmt. simpl.
  destruct (filter _ (map_to_list (accounts d'))) as [|[n x] l] eqn:Hf.
  - exfalso. assert ((ns, r') ∈ filter (λ na : string * account_row, is_active na.2 = true) (map_to_list (accounts d'))) as Hin.
    { apply list_elem_of_filter. split; [done|]. by apply elem_of_map_to_list. }
    rewrite Hf in Hin. by apply elem_of_nil in Hin.
  - assert ((n, x) ∈ filter (λ na : string * account_row, is_active na.2 = true) (map_to_list (accounts d'))) as Hin
      by (rewrite Hf; by left).
    apply list_elem_of_filter in Hin as [Hx Hin]. apply elem_of_map_to_list in Hin.
    eexists. split; [done|]. simpl. by eapply Ho.
Qed.

(** ** Progress *)

Section Groups.
Context {X G : Type} `{!EqDecision G} (f : X → G).
Implicit Types (w : X → Z) (q : G → bool).

Lemma sumZ_indicator (c : Z) (y : G) l : NoDup l → y ∈ l → sumZ (λ g, if decide (y = g) then c else 0) l = c.
Proof.
  induction 1 as [|g l Hg Hnd IH]; intros Hy; [by apply elem_of_nil in Hy|]. rewrite sumZ_cons.
  apply elem_of_cons in Hy as [->|Hy].
  - rewrite decide_True by done. assert (sumZ (λ g', if decide (g = g') then c else 0) l = 0) as ->; [|lia].
    clear IH Hnd. induction l as [|z l IH]; [done|]. apply not_elem_of_cons in Hg as [Hz Hg].
    rewrite sumZ_cons, decide_False, IH by done. done.
  - rewrite decide_False by (intros ->; done). rewrite IH by done. lia.
Qed.

Lemma sumZ_add (h1 h2 : G → Z) l : sumZ (λ g, h1 g + h2 g) l = sumZ h1 l + sumZ h2 l.
Proof. induction l as [|g l IH]; [done|]. rewrite !sumZ_cons, IH. lia. Qed.
Lemma sumZ_ext (h1 h2 : G → Z) l : (∀ g, h1 g = h2 g) → sumZ h1 l = sumZ h2 l.
Proof. intros He. induction l as [|g l IH]; [done|]. by rewrite !sumZ_cons, IH, He. Qed.

(** Summing the groups is summing the rows. *)
Lemma sumZ_groups w q (groups : list G) (rows : list X) :
  NoDup groups → (∀ x, x ∈ rows → f x ∈ groups) →
  sumZ (λ g, if q g then sumZ w (filter (λ x, f x = g) rows) else 0) groups =
  sumZ (λ x, if q (f x) then w x else 0) rows.
Proof.
  intros Hnd. induction rows as [|x rows IH]; intros Hin.
  - induction groups as [|g gs IHg]; [done|]. apply NoDup_cons in Hnd as [_ Hnd]. rewrite sumZ_cons, IHg by (done || set_solver).
    by destruct (q g).
  - rewrite sumZ_cons, <- IH by (intros y Hy; apply Hin; by right).
    rewrite <- (sumZ_indicator (if q (f x) then w x else 0) (f x) groups) by (done || apply Hin; by left).
    rewrite <- sumZ_add. apply sumZ_ext. intros g. rewrite filter_cons.
    destruct (decide (f x = g)) as [He|He]; [rewrite sumZ_cons, He|]; by destruct (q g).
Qed.
End Groups.

Definition chat_count (d : db) (c : string) (p : string → bool) : Z :=
  tally (λ kr, bool_decide (kr.1.1 = c) && p (status kr.2)) (map_to_list (records d)).
Definition chat_bytes (d : db) (c : string) (p : string → bool) : Z :=
  sumZ (λ kr : key * download_row, if bool_decide (kr.1.1 = c) && p (status kr.2) then coalesce 0 (file_size kr.2) else 0)
    (map_to_list (records d)).

(** A field that every group adds to. *)
Lemma progress_field (F : TargetProgressStat → Z) (w : string * string * Z * Z → Z) c gs acc :
  (∀ g s, F (add_group g s) = F s + w g) →
  F (default zero_stat (progress_loop gs acc !! c)) =
  F (default zero_stat (acc !! c)) + sumZ (λ g, if decide (g.1.1.1 = c) then w g else 0) gs.
Proof.
  intros HF. revert acc. induction gs as [|g gs IH]; intros acc; cbn [progress_loop]; [simpl; lia|].
  rewrite IH, sumZ_cons. case_decide as Hc.
  - rewrite Hc, lookup_insert_eq. simpl. rewrite HF. lia.
  - rewrite lookup_insert_ne by done. lia.
Qed.

Lemma length_sumZ {A} (l : list A) : Z.of_nat (length l) = sumZ (λ _, 1) l.
Proof. induction l as [|x l IH]; [done|]. rewrite sumZ_cons, <- IH. simpl. lia. Qed.

Section Fields.
Context (d : db) (c : string).
#[local] Abbreviation rows := (map_to_list (records d)).
#[local] Abbreviation group_of := (λ kr : key * download_row, (kr.1.1, status kr.2)).

Lemma group_rows_sum (w : key * download_row → Z) (pick : string * string * Z * Z → Z) (p : string → bool) :
  (∀ g : string * string, pick (g.1, g.2, Z.of_nat (length (filter (λ kr, group_of kr = g) rows)),
     sumZ (λ kr, coalesce 0 (file_size kr.2)) (filter (λ kr, group_of kr = g) rows)) =
     if p g.2 then sumZ w (filter (λ kr, group_of kr = g) rows) else 0) →
  sumZ (λ g, if decide (g.1.1.1 = c) then pick g else 0) (group_rows d) =
  sumZ (λ kr, if bool_decide (kr.1.1 = c) && p (status kr.2) then w kr else 0) rows.
Proof.
  intros Hp. unfold group_rows.
  transitivity (sumZ (λ g : string * string, if bool_decide (g.1 = c) && p g.2 then sumZ w (filter (λ kr, group_of kr = g) rows) else 0)
    (remove_dups (group_of <$> rows))).
  - induction (remove_dups (group_of <$> rows)) as [|g gs IH]; [done|]. rewrite fmap_cons, !sumZ_cons, IH. f_equal.
    cbn [fst snd]. 
    assert (∀ l : list (key * download_row), filter (λ kr, kr.1.1 = g.1 ∧ status kr.2 = g.2) l = filter (λ kr, group_of kr = g) l) as Hf.
    { intros l. apply list_filter_iff. intros [k r]. destruct g as [a b]. simpl. split; [by intros [-> ->]|by intros [= -> ->]]. }
    rewrite decide_bool_decide. destruct (bool_decide (g.1 = c)); [|done]. by rewrite Hf, Hp.
  - apply sumZ_groups; [apply NoDup_remove_dups|]. intros kr Hkr. apply elem_of_remove_dups.
    by apply (list_elem_of_fmap_2 group_of).
Qed.
End Fields.

Definition is_status (l : list string) (st : string) : bool := existsb (λ x, bool_decide (st = x)) l.

(** The progress statistics agree with counting: for every chat, the totals that the
    loop accumulates from the grouped query are the numbers of its records with the statuses
    of each column and the bytes of the successful ones, and a chat without records has
    none. *)
Theorem progress_stats_count (d : db) :
  ∃ stats, run GetTargetProgressStats d = (Ok stats, d) ∧
  ∀ c, let s := default zero_stat (stats !! c) in
    TotalFiles s = chat_count d c (λ _, true) ∧
    DownloadedFiles s = chat_count d c (is_status ["success"]) ∧
    DownloadedBytes s = chat_bytes d c (is_status ["success"]) ∧
    PendingFiles s = chat_count d c (is_status ["pending"]) ∧
    ProcessingFiles s = chat_count d c (is_status ["downloading"; "processing"]) ∧
    FailedFiles s = chat_count d c (is_status ["failed"]) ∧
    ConflictFiles s = chat_count d c (is_status ["conflict"]) ∧
    SkippedFiles s = chat_count d c (is_status ["skipped"]).
Proof.
  exists (progress_loop (group_rows d) ∅). split; [done|]. intros c s.
  assert (∀ (F : TargetProgressStat → Z) (p : string → bool), F zero_stat = 0 → (∀ g s, F (add_group g s) = F s + (if p g.1.1.2 then g.1.2 else 0)) →
    F s = chat_count d c p) as Hcount.
  { intros F p H0 HF. unfold s. rewrite (progress_field F _ c _ _ HF), lookup_empty. simpl. rewrite H0.
    unfold chat_count, tally. rewrite (group_rows_sum d c (λ _, 1) _ p).
    - rewrite Z.add_0_l. clear. induction (map_to_list (records d)) as [|kr l IH]; [done|]. rewrite !sumZ_cons, IH.
      by destruct (bool_decide _ && _).
    - intros g. cbn [fst snd]. by rewrite length_sumZ. }
  assert (∀ (F : TargetProgressStat → Z) (p : string → bool), F zero_stat = 0 → (∀ g s, F (add_group g s) = F s + (if p g.1.1.2 then g.2 else 0)) →
    F s = chat_bytes d c p) as Hbytes.
  { intros F p H0 HF. unfold s. rewrite (progress_field F _ c _ _ HF), lookup_empty. simpl. rewrite H0.
    unfold chat_bytes. by rewrite (group_rows_sum d c (λ kr : key * download_row, coalesce 0 (file_size kr.2)) _ p). }
  split_and!; (first [apply (Hbytes DownloadedBytes)|apply Hcount]; [done|]);
    intros [[[chat st] n] b] [? ? ? ? ? ? ? ? ?]; unfold add_group, is_status; cbn [existsb fst snd];
    repeat case_bool_decide; repeat case_decide; subst; cbn [orb]; try (simpl; lia); exfalso; intuition congruence.
Qed.

(** ** Windows of messages *)

Lemma limit_to_split {A} n (l : list A) : ∃ rest, l = limit_to n l ++ rest ∧ (rest ≠ [] → length (limit_to n l) = Z.to_nat n).
Proof.
  unfold limit_to. destruct (n <? 0).
  - exists []. by rewrite app_nil_r.
  - exists (drop (Z.to_nat n) l). rewrite take_drop. split; [done|]. intros Hr. rewrite length_take.
    destruct (decide (length l ≤ Z.to_nat n)%nat) as [Hl|]; [|lia]. by rewrite drop_ge in Hr.
Qed.

Section Window.
Context (d : db) (chatID : string).

Lemma chat_rows_elem p km : km ∈ chat_rows p chatID d ↔ km.1.1 = chatID ∧ p km.1.2 = true ∧ messages d !! km.1 = Some km.2.
Proof.
  unfold chat_rows. rewrite list_elem_of_filter. destruct km as [k m]. rewrite elem_of_map_to_list. tauto.
Qed.
Lemma chat_rows_NoDup p : NoDup ((λ km : key * message_row, km.1.2) <$> chat_rows p chatID d).
Proof.
  unfold chat_rows. pose proof (NoDup_fst_map_to_list (messages d)) as Hnd.
  induction (map_to_list (messages d)) as [|km l IH]; [constructor|].
  rewrite fmap_cons in Hnd. apply NoDup_cons in Hnd as [Hx Hnd]. rewrite filter_cons. case_decide as Hk; [|by apply IH].
  rewrite fmap_cons. apply NoDup_cons. split; [|by apply IH].
  intros (y & Hy & Hin)%list_elem_of_fmap. apply list_elem_of_filter in Hin as [[Hc _] Hin]. apply Hx.
  apply list_elem_of_fmap. exists y. split; [|done]. destruct km as [[a b] m], y as [[a' b'] m']. simpl in *. destruct Hk. congruence.
Qed.

(** The ids of one side of the window, in their order. *)
Lemma side_sorted (R : relation (key * message_row)) `{!RelDecision R, !Total R, !Transitive R} (lt : Z → Z → Prop) p n :
  (∀ a b, R a b → a.1.2 ≠ b.1.2 → lt a.1.2 b.1.2) →
  StronglySorted lt ((λ km, km.1.2) <$> limit_to n (merge_sort R (chat_rows p chatID d))) ∧
  (∀ a b, a ∈ limit_to n (merge_sort R (chat_rows p chatID d)) → b ∈ chat_rows p chatID d →
     b ∉ limit_to n (merge_sort R (chat_rows p chatID d)) → lt a.1.2 b.1.2).
Proof.
  intros Hlt. set (l := merge_sort R (chat_rows p chatID d)).
  pose proof (StronglySorted_merge_sort R (chat_rows p chatID d)) as Hs. fold l in Hs.
  assert (l ≡ₚ chat_rows p chatID d) as Hp by apply merge_sort_Permutation.
  assert (NoDup ((λ km : key * message_row, km.1.2) <$> l)) as Hnd by (rewrite Hp; apply chat_rows_NoDup).
  assert (StronglySorted lt ((λ km : key * message_row, km.1.2) <$> l)) as Hss.
  { clear Hp. induction Hs as [|x k Hk IH Hx]; [constructor|]. rewrite fmap_cons in *. apply NoDup_cons in Hnd as [Hn Hnd].
    constructor; [by apply IH|]. apply Forall_fmap. rewrite Forall_forall in Hx |- *. intros y Hy. simpl.
    apply Hlt; [by apply Hx|]. intros He. apply Hn. rewrite He. by apply (list_elem_of_fmap_2 (λ km : key * message_row, km.1.2)). }
  destruct (limit_to_split n l) as (rest & Hl & _). rewrite Hl, fmap_app in Hss.
  apply StronglySorted_app in Hss as (H2 & H1 & _). split; [done|].
  intros a b Ha Hb Hnb. rewrite <- Hp, Hl, elem_of_app in Hb. destruct Hb as [?|Hb]; [done|].
  apply H2; by apply (list_elem_of_fmap_2 (λ km : key * message_row, km.1.2)).
Qed.
End Window.

#[export] Instance id_desc_total : Total id_desc.
Proof. intros a b. unfold id_desc. lia. Qed.
#[export] Instance id_desc_trans : Transitive id_desc.
Proof. intros a b c. unfold id_desc. lia. Qed.
#[export] Instance id_asc_total : Total id_asc.
Proof. intros a b. unfold id_asc. lia. Qed.
#[export] Instance id_asc_trans : Transitive id_asc.
Proof. intros a b c. unfold id_asc. lia. Qed.

(** The messages around a message: in the order of their numbers, all of this chat, each
    as it is stored, at most as many as asked for, and without gaps: a stored message whose
    number lies between two of them is among them. *)
Theorem message_window_has_no_gaps (d : db) (chatID : string) (mid nb na : Z) :
  ∃ l, run (GetChatMessagesAround chatID mid nb na) d = (Ok l, d) ∧
    StronglySorted Z.lt (m_MessageID <$> l) ∧
    (∀ m, m ∈ l → ∃ row, messages d !! (chatID, m_MessageID m) = Some row ∧ m = message_of_row ((chatID, m_MessageID m), row)) ∧
    (0 <= nb → 0 <= na → Z.of_nat (length l) <= nb + na) ∧
    (∀ x y k, x ∈ m_MessageID <$> l → y ∈ m_MessageID <$> l → x <= k <= y → is_Some (messages d !! (chatID, k)) →
       k ∈ m_MessageID <$> l).
Proof.
  set (before := limit_to nb (merge_sort id_desc (chat_rows (λ n, n <? mid) chatID d))).
  set (after := limit_to na (merge_sort id_asc (chat_rows (λ n, mid <=? n) chatID d))).
  destruct (side_sorted d chatID id_desc (λ a b, b < a) (λ n, n <? mid) nb) as [Hb1 Hb2];
    [intros a b; unfold id_desc; lia|]. fold before in Hb1, Hb2.
  destruct (side_sorted d chatID id_asc Z.lt (λ n, mid <=? n) na) as [Ha1 Ha2];
    [intros a b; unfold id_asc; lia|]. fold after in Ha1, Ha2.
  assert (∀ A n (l : list A) x, x ∈ limit_to n l → x ∈ l) as Hsub.
  { intros A n l x Hx. destruct (limit_to_split n l) as (rest & -> & _). apply elem_of_app. by left. }
  assert (∀ km, km ∈ before → km ∈ chat_rows (λ n, n <? mid) chatID d) as Hb
    by (intros km Hk; apply Hsub in Hk; by rewrite merge_sort_Permutation in Hk).
  assert (∀ km, km ∈ after → km ∈ chat_rows (λ n, mid <=? n) chatID d) as Ha
    by (intros km Hk; apply Hsub in Hk; by rewrite merge_sort_Permutation in Hk).
  assert (∀ l : list (key * message_row), m_MessageID <$> (message_of_row <$> l) = (λ km, km.1.2) <$> l) as Hid.
  { intros l. rewrite <- list_fmap_compose. apply list_fmap_ext. by intros i [? ?] _. }
  exists (rev (message_of_row <$> before) ++ (message_of_row <$> after)). split_and!; [done|..].
  - assert (m_MessageID <$> rev (message_of_row <$> before) = (λ km, km.1.2) <$> rev before) as Hrev
      by (rewrite <- Hid; f_equal; symmetry; apply map_rev).
    rewrite fmap_app, Hid, Hrev. apply StronglySorted_app_2; [| |done].
    + intros x y (a & -> & Hx)%list_elem_of_fmap (b & -> & Hy)%list_elem_of_fmap.
      apply list_elem_of_In, in_rev, list_elem_of_In in Hx. apply Hb, chat_rows_elem in Hx as (_ & Hx & _).
      apply Ha, chat_rows_elem in Hy as (_ & Hy & _). lia.
    + change (StronglySorted Z.lt (map (λ km : key * message_row, km.1.2) (rev before))). rewrite map_rev.
      apply StronglySorted_rev. exact Hb1.
  - intros m Hm. rewrite elem_of_app in Hm.
    assert (∃ p km, km ∈ chat_rows p chatID d ∧ m = message_of_row km) as (p & [[c k] row] & Hk & ->).
    { destruct Hm as [Hm|(km & -> & Hm)%list_elem_of_fmap]; [|eauto].
      apply list_elem_of_In, in_rev, list_elem_of_In in Hm. apply list_elem_of_fmap in Hm as (km & -> & Hm). eauto. }
    apply chat_rows_elem in Hk as (Hc & _ & Hd). simpl in Hc, Hd. subst c. exists row. by split.
  - intros Hn1 Hn2. rewrite length_app, length_rev, !length_fmap. unfold before, after, limit_to.
    rewrite !(proj2 (Z.ltb_ge _ _)) by done. rewrite !length_take. lia.
  - assert (∀ z, z ∈ m_MessageID <$> rev (message_of_row <$> before) ++ (message_of_row <$> after) ↔
      (∃ km, km ∈ before ∧ z = km.1.2) ∨ (∃ km, km ∈ after ∧ z = km.1.2)) as Hz.
    { intros z. rewrite fmap_app, elem_of_app, Hid.
      assert (m_MessageID <$> rev (message_of_row <$> before) = rev ((λ km, km.1.2) <$> before)) as ->
        by (rewrite <- Hid; apply map_rev).
      rewrite list_elem_of_In, <- in_rev, <- list_elem_of_In, !list_elem_of_fmap. naive_solver. }
    intros x y k Hx Hy Hk [row Hrow]. rewrite Hz in Hx, Hy. rewrite Hz.
    destruct (decide (k < mid)) as [Hlt|Hge].
    + assert (((chatID, k), row) ∈ chat_rows (λ n, n <? mid) chatID d) as Hin by (apply chat_rows_elem; simpl; split_and!; [done|lia|done]).
      destruct (decide (((chatID, k), row) ∈ before)) as [|Hn]; [left; by exists ((chatID, k), row)|exfalso].
      destruct Hx as [(a & Ha' & ->)|(a & Ha' & ->)].
      * specialize (Hb2 _ _ Ha' Hin Hn). simpl in Hb2. lia.
      * apply Ha, chat_rows_elem in Ha' as (_ & Ha' & _). lia.
    + assert (((chatID, k), row) ∈ chat_rows (λ n, mid <=? n) chatID d) as Hin by (apply chat_rows_elem; simpl; split_and!; [done|lia|done]).
      destruct (decide (((chatID, k), row) ∈ after)) as [|Hn]; [right; by exists ((chatID, k), row)|exfalso].
      destruct Hy as [(b & Hb' & ->)|(b & Hb' & ->)].
      * apply Hb, chat_rows_elem in Hb' as (_ & Hb' & _). lia.
      * specialize (Ha2 _ _ Hb' Hin Hn). simpl in Ha2. lia.
Qed.

(** ** The old keys *)

(** One chat moved to another id: the rows of both, the target's own first. *)
Definition move_chat {V} (old new : string) (t : gmap key V) : gmap key V := delete_chat old (rename_key old new t).

Lemma renamed_inj {V} (old new : string) (t : gmap key V) (k1 k2 : key) (v1 v2 : V) :
  t !! k1 = Some v1 → t !! k2 = Some v2 → renamed old new t k1 = renamed old new t k2 → k1 = k2.
Proof.
  destruct k1 as [c1 n1], k2 as [c2 n2]. unfold renamed. simpl. intros H1 H2.
  destruct (decide (c1 = old ∧ _)) as [[Hc1 Hd1]|Hd1], (decide (c2 = old ∧ _)) as [[Hc2 Hd2]|Hd2];
    intros He; injection He; intros; subst; try done;
    [discriminate (eq_trans (eq_sym Hd1) H2)|discriminate (eq_trans (eq_sym Hd2) H1)].
Qed.

Lemma rename_key_lookup {V} (old new : string) (t : gmap key V) (k' : key) (v : V) :
  rename_key old new t !! k' = Some v ↔ ∃ k, t !! k = Some v ∧ renamed old new t k = k'.
Proof.
  unfold rename_key. rewrite <- elem_of_list_to_map.
  - rewrite list_elem_of_fmap. setoid_rewrite <- (elem_of_map_to_list t). split.
    + intros ([k w] & He & Hk). simpl in He. simplify_eq. by exists k.
    + intros (k & Hk & <-). by exists (k, v).
  - rewrite <- list_fmap_compose. apply NoDup_fmap_2_strong; [|apply NoDup_map_to_list].
    intros [k1 v1] [k2 v2] H1 H2. simpl. rewrite elem_of_map_to_list in H1, H2. intros He.
    assert (k1 = k2) as -> by (by eapply renamed_inj). by simplify_eq.
Qed.

Lemma move_chat_lookup {V} (old new : string) (t : gmap key V) (c : string) (n : Z) :
  old ≠ new →
  move_chat old new t !! ((c, n) : key) =
  if decide (c = old) then None
  else if decide (c = new) then match t !! ((new, n) : key) with Some v => Some v | None => t !! ((old, n) : key) end
  else t !! ((c, n) : key).
Proof.
  intros Hne. unfold move_chat, delete_chat. apply option_eq. intros v.
  rewrite map_lookup_filter_Some, rename_key_lookup. simpl. unfold renamed. split.
  - intros ([[c0 n0] [Hk Hr]] & Hc). rewrite decide_False by done. simpl in *.
    case_decide as Hd; simplify_eq; destruct_and?; simplify_eq.
    + rewrite decide_True by done. by case_match.
    + case_decide; [|done]. subst. by rewrite Hk.
  - intros Hv. case_decide as Hc; [done|]. split; [|done]. case_decide as Hn; subst.
    + destruct (t !! ((new, n) : key)) as [w|] eqn:Ht; simplify_eq.
      * exists (new, n). split; [done|]. simpl. by rewrite decide_False by tauto.
      * exists (old, n). split; [done|]. simpl. by rewrite decide_True by done.
    + exists (c, n). split; [done|]. simpl. by rewrite decide_False by tauto.
Qed.

Definition move_cursor {V} (old new : string) (t : gmap string V) : gmap string V :=
  delete old (match t !! old, t !! new with Some c, None => <[new := c]> (delete old t) | _, _ => t end).
Lemma move_cursor_lookup {V} (old new : string) (t : gmap string V) (c : string) :
  old ≠ new →
  move_cursor old new t !! c =
  if decide (c = old) then None
  else if decide (c = new) then match t !! new with Some v => Some v | None => t !! old end
  else t !! c.
Proof.
  intros Hne. unfold move_cursor. destruct (decide (c = old)) as [->|Ho]; [apply lookup_delete_eq|].
  rewrite lookup_delete_ne by done. destruct (decide (c = new)) as [->|Hn].
  - destruct (t !! old) eqn:Hold, (t !! new) eqn:Hnew; rewrite ?Hnew; try done. by rewrite lookup_insert_eq.
  - destruct (t !! old) eqn:Hold, (t !! new) eqn:Hnew; try done. by rewrite lookup_insert_ne, lookup_delete_ne by done.
Qed.

(** Where the row read under [c] comes from, after the chats of [l] moved. *)
Definition moved_from (l : list legacy_info) (c : string) : option legacy_info :=
  find (λ i, String.eqb (NumericID i) c) l.
Definition moved {V} (l : list legacy_info) (f : string → option V) (c : string) : option V :=
  if decide (c ∈ OldID <$> l) then None
  else match moved_from l c with
       | Some i => match f c with Some v => Some v | None => f (OldID i) end
       | None => f c
       end.

Lemma moved_from_Some l c i : moved_from l c = Some i → i ∈ l ∧ NumericID i = c.
Proof. intros [Hi Heq]%find_some. apply list_elem_of_In in Hi. by apply String.eqb_eq in Heq. Qed.
Lemma moved_from_None l c : c ∉ NumericID <$> l → moved_from l c = None.
Proof.
  intros Hc. destruct (moved_from l c) as [i|] eqn:Hf; [|done]. apply moved_from_Some in Hf as [Hi <-].
  exfalso. by apply Hc, list_elem_of_fmap_2.
Qed.

Lemma moved_old {V} l (f : string → option V) c : c ∈ OldID <$> l → moved l f c = None.
Proof. intros Hc. unfold moved. by rewrite decide_True. Qed.
Lemma moved_new {V} l (f : string → option V) c :
  c ∉ OldID <$> l →
  moved l f c = match moved_from l c with
                | Some i => match f c with Some v => Some v | None => f (OldID i) end
                | None => f c
                end.
Proof. intros Hc. unfold moved. by rewrite decide_False. Qed.

Lemma moved_cons {V} i l (f : string → option V) c :
  NoDup ((OldID <$> i :: l) ++ (NumericID <$> i :: l)) →
  moved l (moved [i] f) c = moved (i :: l) f c.
Proof.
  intros Hnd. rewrite NoDup_app in Hnd. destruct Hnd as (H1 & H2 & H3). rewrite !fmap_cons in *.
  apply NoDup_cons in H1 as [Ho _]. apply NoDup_cons in H3 as [Hn _].
  assert (∀ x, x ≠ OldID i → x ∉ OldID <$> [i]) as Hi by (intros x Hx [?|Hx']%elem_of_cons; [done|by apply elem_of_nil in Hx']).
  destruct (decide (c ∈ OldID <$> l)) as [Hc|Hc]; [by rewrite !moved_old by (by try right)|].
  rewrite (moved_new l) by done. destruct (decide (c = OldID i)) as [->|Hco].
  { rewrite (moved_old (i :: l)) by left. rewrite moved_from_None; [apply moved_old; left|].
    intros He. apply (H2 (OldID i)); [left|by right]. }
  rewrite (moved_new (i :: l)) by (by intros [?|?]%elem_of_cons).
  rewrite (moved_new [i]) by (by apply Hi). cbn [moved_from find].
  destruct (String.eqb_spec (NumericID i) c) as [<-|Hne]; [by rewrite moved_from_None|].
  fold (moved_from l c). destruct (moved_from l c) as [j|] eqn:Hj; [|done].
  apply moved_from_Some in Hj as [Hj <-]. destruct (f (NumericID j)); [done|].
  rewrite (moved_new [i]) by (apply Hi; intros He; apply Ho; rewrite <- He; by apply list_elem_of_fmap_2).
  cbn [moved_from find]. destruct (String.eqb_spec (NumericID i) (OldID j)) as [He|]; [|done].
  exfalso. apply (H2 (OldID j)); [right; by apply list_elem_of_fmap_2|]. rewrite <- He. left.
Qed.

(** The migration of one chat, when no statement fails. *)
Definition moved_targets (now : Z) (i : legacy_info) (t : gmap string target_row) : gmap string target_row :=
  match t !! OldID i with
  | None => t
  | Some r => delete (OldID i) (<[NumericID i := migrated_target now (enabled r) i (t !! NumericID i)]> t)
  end.
Definition moved_db (now : Z) (d : db) (i : legacy_info) : db :=
  Db (move_chat (OldID i) (NumericID i) (records d)) (jobs d) (move_cursor (OldID i) (NumericID i) (cursors d))
    (move_chat (OldID i) (NumericID i) (messages d)) (moved_targets now i (targets d)) (accounts d).

Lemma migrate_one_calm now i d : migrate_one now i (Sql d []) = (Ok tt, Sql (moved_db now d i) []).
Proof.
  unfold migrate_one, moved_db, moved_targets, move_cursor. destruct d as [rs js cs ms ts accs].
  unfold ignored, query, exec, stmt, upsert_target, st_bind, st_try, st_ret. cbn [faults hd tl tabs targets fst snd].
  destruct (ts !! OldID i) as [r|] eqn:Hr; cbn; destruct (cs !! OldID i), (cs !! NumericID i); done.
Qed.
Lemma migrate_all_calm now l d : migrate_all now l (Sql d []) = (Ok tt, Sql (foldl (moved_db now) d l) []).
Proof.
  revert d. induction l as [|i l IH]; intros d; [done|]. cbn [migrate_all foldl]. unfold st_bind.
  by rewrite migrate_one_calm, IH.
Qed.

Section MoveAll.
Context (now : Z).

Lemma moved_one {V} i (f g : string → option V) :
  OldID i ≠ NumericID i →
  (∀ c, g c = if decide (c = OldID i) then None
              else if decide (c = NumericID i) then match f (NumericID i) with Some v => Some v | None => f (OldID i) end
              else f c) →
  ∀ c, g c = moved [i] f c.
Proof.
  intros Hne Hg c. rewrite Hg. case_decide as Hc; [subst; by rewrite moved_old by left|].
  rewrite moved_new by (intros [?|Hx]%elem_of_cons; [done|by apply elem_of_nil in Hx]). cbn [moved_from find].
  destruct (String.eqb_spec (NumericID i) c); case_decide; by subst.
Qed.
Lemma moved_ext {V} l (f g : string → option V) c : (∀ c, f c = g c) → moved l f c = moved l g c.
Proof. intros Hf. unfold moved. case_decide; [done|]. destruct (moved_from l c); by rewrite !Hf. Qed.

Lemma ids_tail i l :
  NoDup ((OldID <$> i :: l) ++ (NumericID <$> i :: l)) →
  OldID i ≠ NumericID i ∧ NoDup ((OldID <$> l) ++ (NumericID <$> l)).
Proof.
  rewrite !fmap_cons, !NoDup_app. intros (H1 & H2 & H3). apply NoDup_cons in H1 as [_ H1], H3 as [_ H3]. split_and!; try done.
  - intros He. apply (H2 (OldID i)); [left|rewrite He; left].
  - intros x Hx Hy. apply (H2 x); by right.
Qed.

Lemma moved_all l d :
  NoDup ((OldID <$> l) ++ (NumericID <$> l)) →
  (∀ n c, records (foldl (moved_db now) d l) !! ((c, n) : key) = moved l (λ c, records d !! ((c, n) : key)) c) ∧
  (∀ n c, messages (foldl (moved_db now) d l) !! ((c, n) : key) = moved l (λ c, messages d !! ((c, n) : key)) c) ∧
  (∀ c, cursors (foldl (moved_db now) d l) !! c = moved l (λ c, cursors d !! c) c) ∧
  jobs (foldl (moved_db now) d l) = jobs d ∧ accounts (foldl (moved_db now) d l) = accounts d.
Proof.
  revert d. induction l as [|i l IH]; intros d Hnd; [done|]. simpl.
  destruct (ids_tail i l Hnd) as [Hne Hl].
  destruct (IH (moved_db now d i) Hl) as (Hr & Hm & Hc & Hj & Ha). split_and!; try done.
  - intros n c. rewrite Hr, <- moved_cons by done. apply moved_ext. apply moved_one; [done|].
    intros c'. by apply move_chat_lookup.
  - intros n c. rewrite Hm, <- moved_cons by done. apply moved_ext. apply moved_one; [done|].
    intros c'. by apply move_chat_lookup.
  - intros c. rewrite Hc, <- moved_cons by done. apply moved_ext. apply moved_one; [done|].
    intros c'. by apply move_cursor_lookup.
Qed.

Lemma moved_targets_other i t c : c ≠ OldID i → c ≠ NumericID i → moved_targets now i t !! c = t !! c.
Proof.
  intros Ho Hn. unfold moved_targets. destruct (t !! OldID i); [|done]. by rewrite lookup_delete_ne, lookup_insert_ne by done.
Qed.
Lemma moved_targets_keep l d c : c ∉ OldID <$> l → c ∉ NumericID <$> l → targets (foldl (moved_db now) d l) !! c = targets d !! c.
Proof.
  revert d. induction l as [|i l IH]; intros d Ho Hn; [done|]. simpl. rewrite !fmap_cons, not_elem_of_cons in Ho, Hn.
  rewrite IH by tauto. apply moved_targets_other; tauto.
Qed.
(** The switch of each old target, and no old target left. *)
Lemma moved_targets_all l d i :
  NoDup ((OldID <$> l) ++ (NumericID <$> l)) → i ∈ l →
  targets (foldl (moved_db now) d l) !! OldID i = None ∧
  (∀ t, targets d !! OldID i = Some t →
     ∃ t', targets (foldl (moved_db now) d l) !! NumericID i = Some t' ∧ enabled t' = enabled t).
Proof.
  revert d. induction l as [|j l IH]; intros d Hnd Hi; [by apply elem_of_nil in Hi|]. simpl.
  destruct (ids_tail j l Hnd) as [Hne Hl]. rewrite !fmap_cons, NoDup_app in Hnd. destruct Hnd as (H1 & H2 & H3).
  apply NoDup_cons in H1 as [Ho _], H3 as [Hn _]. apply elem_of_cons in Hi as [->|Hi].
  - rewrite !moved_targets_keep; try done.
    2: { intros Hx. apply (H2 (NumericID j)); [by right|left]. }
    2: { intros Hx. apply (H2 (OldID j)); [left|by right]. }
    unfold moved_db. cbn [targets]. unfold moved_targets. destruct (targets d !! OldID j) as [r|] eqn:Hr.
    + split; [apply lookup_delete_eq|]. intros t [= <-]. rewrite lookup_delete_ne, lookup_insert_eq by done.
      eexists; split; [done|]. by destruct (targets d !! NumericID j).
    + by rewrite Hr.
  - assert (OldID i ∈ OldID <$> l ∧ NumericID i ∈ NumericID <$> l) as [Hio Hin] by (split; by apply list_elem_of_fmap_2).
    destruct (IH (moved_db now d j) Hl Hi) as [Ha Hb]. split; [done|]. intros t Ht. apply Hb.
    unfold moved_db. cbn [targets]. rewrite moved_targets_other; [done|congruence|].
    intros He. apply (H2 (OldID i)); [by right|]. rewrite He. left.
Qed.
End MoveAll.

Lemma NoDup_fmap_inj {A B} (f : A → B) (l : list A) x y : NoDup (f <$> l) → x ∈ l → y ∈ l → f x = f y → x = y.
Proof.
  intros Hnd (i & Hi)%list_elem_of_lookup (j & Hj)%list_elem_of_lookup He.
  assert (i = j) as -> by (eapply (NoDup_lookup _ _ _ (f x) Hnd); rewrite list_lookup_fmap; [by rewrite Hi|by rewrite Hj, He]).
  congruence.
Qed.
Lemma legacy_ids_distinct order : order ≡ₚ legacyMap → NoDup ((OldID <$> order) ++ (NumericID <$> order)).
Proof.
  intros ->. apply (bool_decide_unpack _). vm_compute. exact I.
Qed.

(** The migration of the old "@name" keys, in whichever order the map is visited and when
    no statement fails: no download record, message or cursor is left under an old id; under
    the numeric id stands the row that was already there, and otherwise the one moved from
    the old id; every other row is untouched; and an old target hands its switch to the
    numeric one. *)
Theorem legacy_rows_move (order : list legacy_info) (now : Z) (d : db) :
  order ≡ₚ legacyMap →
  ∃ d', run (migrateLegacyUsernameIDs order now) d = (Ok tt, d') ∧
    (∀ i n, i ∈ legacyMap →
       records d' !! (OldID i, n) = None ∧ messages d' !! (OldID i, n) = None ∧ cursors d' !! OldID i = None ∧
       records d' !! (NumericID i, n) = records d !! (NumericID i, n) ∪ records d !! (OldID i, n) ∧
       messages d' !! (NumericID i, n) = messages d !! (NumericID i, n) ∪ messages d !! (OldID i, n) ∧
       cursors d' !! NumericID i = cursors d !! NumericID i ∪ cursors d !! OldID i ∧
       (∀ t, targets d !! OldID i = Some t →
          targets d' !! OldID i = None ∧ ∃ t', targets d' !! NumericID i = Some t' ∧ enabled t' = enabled t)) ∧
    (∀ c n, c ∉ OldID <$> legacyMap → c ∉ NumericID <$> legacyMap →
       records d' !! (c, n) = records d !! (c, n) ∧ messages d' !! (c, n) = messages d !! (c, n) ∧
       cursors d' !! c = cursors d !! c) ∧
    jobs d' = jobs d ∧ accounts d' = accounts d.
Proof.
  intros Hp. pose proof (legacy_ids_distinct order Hp) as Hnd.
  destruct (moved_all now order d Hnd) as (Hr & Hm & Hc & Hj & Ha).
  unfold run, migrateLegacyUsernameIDs, st_bind. rewrite migrate_all_calm. set (d1 := foldl (moved_db now) d order) in *.
  eexists. split; [reflexivity|]. cbn [tabs records messages cursors jobs accounts].
  assert (∀ {V} (f : string → option V) i, i ∈ legacyMap →
    moved order f (OldID i) = None ∧ moved order f (NumericID i) = f (NumericID i) ∪ f (OldID i)) as Hmv.
  { intros V f i Hi. rewrite <- Hp in Hi. assert (OldID i ∈ OldID <$> order ∧ NumericID i ∈ NumericID <$> order)
      as [Hio Hin] by (split; by apply list_elem_of_fmap_2).
    split; [by apply moved_old|]. apply NoDup_app in Hnd as (_ & H2 & H3).
    rewrite moved_new by (intros Hx; by apply (H2 _ Hx)).
    destruct (moved_from order (NumericID i)) as [j|] eqn:Hj'.
    - apply moved_from_Some in Hj' as [Hj1 Hj2].
      assert (j = i) as -> by (by eapply (NoDup_fmap_inj NumericID order)). by destruct (f (NumericID i)), (f (OldID i)).
    - exfalso. apply list_elem_of_In in Hi. apply (find_none _ _ Hj') in Hi. by rewrite String.eqb_refl in Hi. }
  split_and!; try done.
  - intros i n Hi. rewrite !Hr, !Hm, !Hc. rewrite !(proj1 (Hmv _ _ i Hi)), !(proj2 (Hmv _ _ i Hi)). split_and!; try done.
    intros t Ht. rewrite <- Hp in Hi. destruct (moved_targets_all now order d i Hnd Hi) as [H1 H2].
    destruct (H2 t Ht) as (t' & Ht' & He). split.
    + apply map_lookup_filter_None. by left.
    + exists t'. split; [|done]. apply map_lookup_filter_Some. split; [done|]. simpl. intros [Hpre _].
      rewrite Hp in Hi. revert Hpre. clear -Hi. unfold legacyMap in Hi.
      repeat (apply elem_of_cons in Hi as [->|Hi]; [done|]). by apply elem_of_nil in Hi.
  - intros c n Ho Hn. rewrite Hr, Hm, Hc. rewrite <- Hp in Ho, Hn. rewrite !moved_new, !moved_from_None by done. done.
Qed.

(** ** Instances *)

Definition ex_record : download_row :=
  DRow "success" (Some "a.mp4") (Some "/data/a.mp4") (Some "video") (Some 9) (Some "ab") None 5 5 (Some 5) None 1 0 "g".
Definition ex_target (e : Z) : target_row := TRow e "t" "u" "channel" "" "" 0 5 5 1.
Definition ex_account (b : bool) : account_row := AccRow 7 "a" "b" "c" "1" false b 5 5.
Definition ex_legacy : db :=
  Db {[("@jinianpinbot", 3%Z) := ex_record]} ∅ ∅ ∅ {["@jinianpinbot" := ex_target 1]} ∅.

Lemma legacy_rows_move_witness :
  ∃ d', run (migrateLegacyUsernameIDs (rev legacyMap) 9) ex_legacy = (Ok tt, d') ∧
    records d' !! ("7377780474", 3%Z) = Some ex_record.
Proof.
  assert (rev legacyMap ≡ₚ legacyMap) as Hp by (symmetry; apply Permutation_rev).
  destruct (legacy_rows_move (rev legacyMap) 9 ex_legacy Hp) as (d' & Hr & Hi & _). exists d'. split; [exact Hr|].
  assert (Legacy "@jinianpinbot" "7377780474" "纪念品bot" "jinianpinbot" "bot" ∈ legacyMap) as Hin
    by (do 3 right; left).
  destruct (Hi _ 3%Z Hin) as (_ & _ & _ & He & _). simpl in He. rewrite He. reflexivity.
Defined.

Definition ex_new : ListenTarget := Target "100" true "news" "" "channel" "" "" 2 40 0 0 0.
Lemma saved_targets_read_back_witness :
  ∃ after, run GetListenTargets (tabs (SaveListenTargets [ex_new] 9 (Sql ex_legacy [])).2) =
    (Ok after, tabs (SaveListenTargets [ex_new] 9 (Sql ex_legacy [])).2) ∧
    ∃ t, t ∈ after ∧ lt_ChatID t = "100" ∧ lt_Priority t = 2 ∧ lt_LastReadMessageID t = 40.
Proof.
  assert (NoDup (lt_ChatID <$> [ex_new])) as Hnd by (apply NoDup_singleton).
  destruct (SaveListenTargets [ex_new] 9 (Sql ex_legacy [])) as [r s'] eqn:Hs.
  pose proof (saved_targets_read_back [ex_new] 9 (Sql ex_legacy []) r s' Hnd Hs) as Hx.
  assert (r = Ok tt) as -> by (vm_compute in Hs; congruence).
  destruct Hx as (before & after & _ & Ha & _ & _ & Hi). exists after. split; [exact Ha|].
  destruct (Hi ex_new) as (t & Ht & Hid & _ & _ & _ & Hp & _ & Hc & _); [left|].
  exists t. split_and!; [exact Ht|exact Hid|exact Hp|apply Hc; reflexivity].
Defined.

Lemma at_most_one_active_account_witness :
  one_active (run_accounts empty_db
    [(1, OpSave (Account "a" 1 "" "" "" "" false true 0 0)); (2, OpSave (Account "b" 2 "" "" "" "" false true 0 0));
     (3, OpActivate "a"); (4, OpDelete "b")]).
Proof. apply at_most_one_active_account. intros n1 n2 r1 r2 H1. destruct (lookup_empty_Some n1 r1 H1). Defined.

(** The error of the [UPDATE OR IGNORE] is dropped and the [DELETE] runs all the same: when
    only the update fails, the records of the old id are gone and none stands under the new
    one. *)
Example migration_can_lose_records :
  let s := (migrate_one 9 (Legacy "@jinianpinbot" "7377780474" "" "" "bot")
              (Sql (set_targets ∅ ex_legacy) [false; true])).2 in
  map_to_list (records (tabs s)) = [].
Proof. vm_compute. reflexivity. Qed.

(** The end of the migration, which runs at every start, removes an enabled "@name" target
    the user added as long as nothing was recorded for it. *)
Example start_removes_a_fresh_target :
  let d := Db ∅ ∅ ∅ ∅ {["@news" := ex_target 1]} ∅ in
  map_to_list (targets (run (migrateLegacyUsernameIDs legacyMap 9) d).2) = [].
Proof. vm_compute. reflexivity. Qed.

(** A dropped error of the statement that deactivates the others leaves two active accounts,
    and activating a namespace that does not exist leaves none. *)
Example failed_deactivation_leaves_two_active :
  let d := Db ∅ ∅ ∅ ∅ ∅ {["a" := ex_account true; "b" := ex_account false]} in
  let d' := tabs (SetActiveAccount "b" 9 (Sql d [true])).2 in
  is_active <$> accounts d' !! "a" = Some true ∧ is_active <$> accounts d' !! "b" = Some true.
Proof. vm_compute. done. Qed.
Example unknown_account_leaves_none_active :
  let d := Db ∅ ∅ ∅ ∅ ∅ {["a" := ex_account true]} in
  run (SetActiveAccount "x" 9) d = (Ok tt, Db ∅ ∅ ∅ ∅ ∅ {["a" := ex_account false]}) ∧
  (run GetActiveAccount (run (SetActiveAccount "x" 9) d).2).1 = Err ErrSQL.
Proof. vm_compute. done. Qed.
