(* ===== verification/Paths.v ===== *)
(** * Slash-separated paths

    The functions of Go's path and path/filepath packages (on a Unix system) that the
    program uses: [Clean], [Join], [Dir], [Base], [Rel] and [IsAbs], and what containment
    checks built on them are worth. *)
From S2P Require Import Prelude.

(** ** Components *)

Definition slash : Ascii.ascii := Ascii.ascii_of_nat 47.

Fixpoint split_on (c : Ascii.ascii) (s : string) : list string :=
  match s with
  | EmptyString => [EmptyString]
  | String a s' =>
      if decide (a = c) then EmptyString :: split_on c s'
      else match split_on c s' with
           | h :: t => String a h :: t
           | [] => [String a EmptyString]
           end
  end.

Fixpoint join_slash (cs : list string) : string :=
  match cs with
  | [] => EmptyString
  | [c] => c
  | c :: cs => c +:+ String slash (join_slash cs)
  end.

(** The loop of [Clean]: [acc] is what has been output so far, last element first. *)
Fixpoint norm (rooted : bool) (acc cs : list string) : list string :=
  match cs with
  | [] => rev acc
  | c :: cs =>
      if decide (c = "" ∨ c = ".") then norm rooted acc cs
      else if decide (c = "..") then
        match acc with
        | [] => if rooted then norm rooted [] cs else norm rooted [".."] cs
        | a :: acc' => if decide (a = "..") then norm rooted (".." :: acc) cs
                       else norm rooted acc' cs
        end
      else norm rooted (c :: acc) cs
  end.

Definition IsAbs (p : string) : bool := HasPrefix p "/".

Definition comps (p : string) : list string := norm (IsAbs p) [] (split_on slash p).

Definition Clean (p : string) : string :=
  if IsAbs p then "/" +:+ join_slash (comps p)
  else match comps p with [] => "." | cs => join_slash cs end.

(** [Join(a, b)] of two elements; empty ones are ignored. *)
Definition Join (a b : string) : string :=
  if decide (a = "") then (if decide (b = "") then "" else Clean b)
  else if decide (b = "") then Clean a
  else Clean (a +:+ "/" +:+ b).

(** Everything up to and including the last slash, cleaned. *)
Definition Dir (p : string) : string :=
  match rev (split_on slash p) with
  | [] | [_] => "."
  | _ :: init => Clean (join_slash (rev init) +:+ "/")
  end.

(** The last element, trailing slashes removed. *)
Fixpoint drop_empty (cs : list string) : list string :=
  match cs with
  | c :: cs' => if decide (c = "") then drop_empty cs' else cs
  | [] => []
  end.
Definition Base (p : string) : string :=
  if decide (p = "") then "."
  else match drop_empty (rev (split_on slash p)) with [] => "/" | c :: _ => c end.

(** [Rel(base, targ)]: [None] is the error "can't make targ relative to base". *)
Fixpoint strip_common (a b : list string) : list string * list string :=
  match a, b with
  | x :: a', y :: b' => if decide (x = y) then strip_common a' b' else (a, b)
  | _, _ => (a, b)
  end.
Definition Rel (base targ : string) : option string :=
  if decide (Clean base = Clean targ) then Some "."
  else if negb (Bool.eqb (IsAbs base) (IsAbs targ)) then None
  else
    let (a, b) := strip_common (comps base) (comps targ) in
    match a with
    | ".." :: _ => None
    | _ => match map (λ _, "..") a ++ b with [] => Some "." | cs => Some (join_slash cs) end
    end.

(** ** Facts *)

(** A component as [Clean] outputs it, other than "..". *)
Definition plain (c : string) : Prop :=
  c ≠ "" ∧ c ≠ "." ∧ c ≠ ".." ∧ slash ∉ String.list_ascii_of_string c.
Definition no_slash (c : string) : Prop := slash ∉ String.list_ascii_of_string c.

Lemma split_on_nonempty c s : split_on c s ≠ [].
Proof. destruct s as [|a s]; simpl; [done|]. case_decide; [done|]. by destruct (split_on c s). Qed.

Lemma split_on_no_sep s : Forall no_slash (split_on slash s).
Proof.
  unfold no_slash. induction s as [|a s IH]; [constructor; [set_solver|constructor]|].
  cbn [split_on]. case_decide; [constructor; [set_solver|done]|].
  destruct (split_on slash s) as [|h t]; inversion IH; subst; constructor; simpl; set_solver.
Qed.

Lemma split_on_app s1 s2 :
  split_on slash (s1 +:+ String slash s2) = split_on slash s1 ++ split_on slash s2.
Proof.
  induction s1 as [|a s1 IH].
  { change ("" +:+ String slash s2) with (String slash s2). cbn [split_on app].
    by rewrite decide_True by done. }
  change (String a s1 +:+ String slash s2) with (String a (s1 +:+ String slash s2)).
  cbn [split_on]. case_decide; [by rewrite IH|]. rewrite IH.
  destruct (split_on slash s1) as [|h t] eqn:Hs; [by apply split_on_nonempty in Hs|done].
Qed.

Lemma split_on_no_slash c : no_slash c → split_on slash c = [c].
Proof.
  unfold no_slash. induction c as [|a c IH]; [done|]. cbn [split_on String.list_ascii_of_string]. intros Hn.
  rewrite decide_False by set_solver. by rewrite IH by set_solver.
Qed.

Lemma split_join cs : cs ≠ [] → Forall no_slash cs → split_on slash (join_slash cs) = cs.
Proof.
  induction cs as [|c cs IH]; [done|]. intros _ Hf. inversion Hf; subst.
  destruct cs as [|c' cs]; [by apply split_on_no_slash|].
  change (join_slash (c :: c' :: cs)) with (c +:+ String slash (join_slash (c' :: cs))).
  by rewrite split_on_app, split_on_no_slash, IH.
Qed.

Lemma norm_app r acc cs1 cs2 : norm r acc (cs1 ++ cs2) = norm r (rev (norm r acc cs1)) cs2.
Proof.
  revert acc. induction cs1 as [|c cs1 IH]; intros acc; cbn [norm app].
  - by rewrite rev_involutive.
  - repeat case_match; apply IH.
Qed.

Lemma norm_plain r acc cs : Forall plain cs → norm r acc cs = rev acc ++ cs.
Proof.
  intros Hf. revert acc. induction Hf as [|c cs (He & Hd & Hdd & _) Hf IH]; intros acc; cbn [norm].
  - by rewrite app_nil_r.
  - rewrite decide_False by tauto. rewrite decide_False by done. rewrite IH. simpl.
    by rewrite <- app_assoc.
Qed.

(** The output is some ".." (none when rooted) followed by plain components. *)
Definition cleaned (r : bool) (cs : list string) : Prop :=
  ∃ n ps, cs = replicate n ".." ++ ps ∧ Forall plain ps ∧ (r = true → n = 0%nat).

Lemma norm_cleaned r acc cs :
  Forall no_slash cs → cleaned r (rev acc) → cleaned r (norm r acc cs).
Proof.
  intros Hs. revert acc. induction Hs as [|c cs Hc Hs IH]; intros acc Hacc; cbn [norm]; [done|].
  case_decide as He; [by apply IH|].
  case_decide as Hd.
  - destruct acc as [|a acc].
    + destruct r; [by apply IH|]. apply IH. exists 1%nat, []. done.
    + case_decide as Ha.
      * apply IH. subst. destruct Hacc as (n & ps & Heq & Hps & Hr).
        simpl in *. destruct ps as [|p ps _] using rev_ind.
        -- exists (S n), []. rewrite app_nil_r in *. rewrite Heq. split_and!; [|done|].
           ++ by rewrite replicate_S_end.
           ++ intros Hrt. specialize (Hr Hrt) as ->. by destruct (rev acc).
        -- rewrite app_assoc in Heq. apply app_inj_tail in Heq as [_ <-].
           apply Forall_app in Hps as [_ Hps]. inversion Hps as [|? ? (? & ? & ? & ?)]. done.
      * apply IH. destruct Hacc as (n & ps & Heq & Hps & Hr). simpl in Heq.
        destruct ps as [|p ps _] using rev_ind.
        -- rewrite app_nil_r in Heq. destruct n as [|n]; [by destruct (rev acc)|].
           rewrite replicate_S_end in Heq. by apply app_inj_tail in Heq as [_ ?].
        -- rewrite app_assoc in Heq. apply app_inj_tail in Heq as [-> _].
           apply Forall_app in Hps as [Hps _]. by exists n, ps.
  - apply IH. destruct Hacc as (n & ps & Heq & Hps & Hr). exists n, (ps ++ [c]). simpl. rewrite Heq.
    split_and!; [by rewrite app_assoc| |done]. apply Forall_app. split; [done|].
    constructor; [|constructor]. unfold plain, no_slash in *. tauto.
Qed.

Lemma comps_cleaned p : cleaned (IsAbs p) (comps p).
Proof. apply norm_cleaned; [apply split_on_no_sep|]. by exists 0%nat, []. Qed.

Lemma comps_abs_plain p : IsAbs p = true → Forall plain (comps p).
Proof.
  intros Ha. destruct (comps_cleaned p) as (n & ps & -> & Hps & Hn). by rewrite (Hn Ha).
Qed.

(** A relative path that [Clean] does not start with ".." has plain components only. *)
Lemma comps_rel_plain p :
  IsAbs p = false → HasPrefix (Clean p) ".." = false → Forall plain (comps p).
Proof.
  intros Ha Hp. destruct (comps_cleaned p) as (n & ps & Heq & Hps & _).
  unfold Clean in Hp. rewrite Ha in Hp. rewrite Heq in *.
  destruct n as [|n]; [done|exfalso]. simpl in Hp.
  destruct (replicate n ".." ++ ps); simpl in Hp; done.
Qed.

Lemma HasPrefix_app p s : HasPrefix (p +:+ s) p = true.
Proof.
  unfold HasPrefix. induction p as [|a p IH]; simpl; [by destruct s|].
  by rewrite IH; destruct (Ascii.ascii_dec a a).
Qed.

(** The weaker test for "..": the path itself, or a first component "..". *)
Lemma comps_rel_plain_strict p :
  IsAbs p = false → Clean p ≠ ".." → HasPrefix (Clean p) "../" = false → Forall plain (comps p).
Proof.
  intros Ha Hdd Hp. destruct (comps_cleaned p) as (n & ps & Heq & Hps & _).
  unfold Clean in Hdd, Hp. rewrite Ha in Hdd, Hp. rewrite Heq in *.
  destruct n as [|n]; [done|exfalso]. cbn [replicate app] in *.
  destruct (replicate n ".." ++ ps) as [|c cs]; [done|].
  change (join_slash (".." :: c :: cs)) with ("../" +:+ join_slash (c :: cs)) in Hp.
  by rewrite HasPrefix_app in Hp.
Qed.

Lemma IsAbs_app p q : IsAbs p = true → IsAbs (p +:+ q) = true.
Proof.
  unfold IsAbs, HasPrefix. destruct p as [|a p]; [done|]. simpl. case_match; [|done].
  by destruct (p +:+ q).
Qed.

Lemma comps_join_plain p cs :
  IsAbs p = true → cs ≠ [] → Forall plain cs →
  comps (p +:+ "/" +:+ join_slash cs) = comps p ++ cs.
Proof.
  intros Ha Hne Hf. unfold comps.
  assert (IsAbs (p +:+ "/" +:+ join_slash cs) = true) as -> by (by apply IsAbs_app).
  rewrite Ha. change ("/" +:+ join_slash cs) with (String slash (join_slash cs)).
  rewrite split_on_app, split_join; [|done|eapply Forall_impl; [exact Hf|]; by intros ? (_&_&_&?)].
  rewrite norm_app, norm_plain by done. by rewrite rev_involutive.
Qed.

Lemma IsAbs_slash q : IsAbs ("" +:+ String slash q) = true.
Proof. by destruct q. Qed.

(** A cleaned absolute path is its components. *)
Lemma Clean_abs p : IsAbs p = true → Clean p = "/" +:+ join_slash (comps p).
Proof. unfold Clean. by intros ->. Qed.

Lemma comps_Clean_abs p : IsAbs p = true → comps (Clean p) = comps p.
Proof.
  intros Ha. pose proof (comps_abs_plain p Ha) as Hf. rewrite Clean_abs by done.
  unfold comps at 1. change ("/" +:+ join_slash (comps p)) with ("" +:+ String slash (join_slash (comps p))).
  rewrite split_on_app, IsAbs_slash.
  destruct (comps p) as [|c cs]; [done|].
  rewrite split_join; [|done|eapply Forall_impl; [exact Hf|]; by intros ? (_&_&_&?)].
  change (split_on slash "") with [""]. by rewrite norm_app, norm_plain.
Qed.

(** What the programme accepts as a relative path inside a root directory. *)
Definition safe_rel (rel : string) : Prop :=
  Clean rel ≠ "." ∧ HasPrefix (Clean rel) ".." = false ∧ IsAbs (Clean rel) = false.

Lemma IsAbs_Clean p : IsAbs (Clean p) = IsAbs p.
Proof.
  unfold Clean. destruct (IsAbs p) eqn:Ha; [by destruct (join_slash _)|].
  destruct (comps_cleaned p) as (n & ps & -> & Hps & _).
  destruct n as [|n]; [|simpl; by destruct (replicate n ".." ++ ps)].
  destruct ps as [|c cs]; [done|]. inversion Hps as [|? ? (? & _ & _ & Hs)]; subst.
  assert (IsAbs c = false ∧ c ≠ "") as [Hc ?].
  { split; [|done]. unfold IsAbs, HasPrefix. destruct c as [|a c]; [done|]. simpl in *.
    case_match; [|done]. subst. exfalso. apply Hs. by left. }
  simpl. destruct cs; [done|]. unfold IsAbs, HasPrefix in *. destruct c as [|a c]; [done|].
  simpl in *. case_match; [|done]. by destruct c.
Qed.

Lemma Clean_idem p : IsAbs p = true → Clean (Clean p) = Clean p.
Proof.
  intros Ha. rewrite (Clean_abs (Clean p)) by (by rewrite IsAbs_Clean).
  by rewrite comps_Clean_abs, (Clean_abs p).
Qed.

Lemma safe_rel_comps rel :
  safe_rel rel → Forall plain (comps rel) ∧ comps rel ≠ [] ∧ Clean rel = join_slash (comps rel).
Proof.
  intros (Hdot & Hdd & Ha). rewrite IsAbs_Clean in Ha.
  split_and!; [by apply comps_rel_plain| |].
  - intros Hc. apply Hdot. unfold Clean. by rewrite Ha, Hc.
  - unfold Clean in *. rewrite Ha in *. by destruct (comps rel).
Qed.

Lemma Join_plain root cs :
  IsAbs root = true → cs ≠ [] → Forall plain cs →
  comps (Join root (join_slash cs)) = comps root ++ cs ∧ IsAbs (Join root (join_slash cs)) = true.
Proof.
  intros Ha Hne Hp. unfold Join.
  rewrite decide_False by (by intros ->). rewrite decide_False.
  - rewrite comps_Clean_abs, comps_join_plain by (done || by apply IsAbs_app).
    split; [done|]. rewrite IsAbs_Clean. by apply IsAbs_app.
  - destruct cs as [|c cs]; [done|]. inversion Hp as [|? ? (? & _)]; subst.
    simpl. destruct cs; [done|]. by destruct c.
Qed.

(** Joining an accepted relative path to an absolute root appends its components: the
    result is below the root. *)
Lemma Join_contained root rel :
  IsAbs root = true → safe_rel rel →
  comps (Join root (Clean rel)) = comps root ++ comps rel ∧ comps rel ≠ [] ∧
  IsAbs (Join root (Clean rel)) = true.
Proof.
  intros Ha Hs. destruct (safe_rel_comps rel Hs) as (Hp & Hne & Hc). rewrite Hc.
  destruct (Join_plain root (comps rel) Ha Hne Hp). done.
Qed.

Lemma strip_common_app a b : strip_common a (a ++ b) = ([], b).
Proof. induction a as [|x a IH]; simpl; [by destruct b|]. by rewrite decide_True. Qed.

(** [Rel] undoes [Join], so a second check on the joined path never fires. *)
Lemma Rel_Join root rel :
  IsAbs root = true → safe_rel rel → Rel root (Join root (Clean rel)) = Some (Clean rel).
Proof.
  intros Ha Hs. destruct (Join_contained root rel Ha Hs) as (Hc & Hne & Habs).
  destruct (safe_rel_comps rel Hs) as (Hp & _ & Heq). unfold Rel. rewrite decide_False.
  - rewrite Ha, Habs, Hc, strip_common_app. simpl. rewrite Heq. by destruct (comps rel).
  - intros Hcl. apply (f_equal comps) in Hcl. rewrite !comps_Clean_abs, Hc in Hcl by done.
    rewrite <- (app_nil_r (comps root)) in Hcl at 1. by apply app_inv_head in Hcl.
Qed.

(** Appending text without a slash extends the last element. *)
Lemma split_on_extend s t :
  no_slash t → ∃ init c, split_on slash s = init ++ [c] ∧ split_on slash (s +:+ t) = init ++ [c +:+ t].
Proof.
  intros Ht. induction s as [|a s (init & c & H1 & H2)].
  - exists [], "". split; [done|]. by apply split_on_no_slash.
  - change (String a s +:+ t) with (String a (s +:+ t)). cbn [split_on]. rewrite H1, H2.
    case_decide; [by exists ("" :: init), c|].
    destruct init as [|h init]; [by exists [], (String a c)|by exists (String a h :: init), c].
Qed.
Lemma split_on_last s t :
  no_slash t → last (split_on slash (s +:+ t)) = (λ c, c +:+ t) <$> last (split_on slash s).
Proof. intros Ht. destruct (split_on_extend s t Ht) as (init & c & -> & ->). by rewrite !last_snoc. Qed.

Lemma last_Join_plain root cs :
  IsAbs root = true → cs ≠ [] → Forall plain cs → last (split_on slash (Join root (join_slash cs))) = last cs.
Proof.
  intros Ha Hne Hp. destruct (Join_plain root cs Ha Hne Hp) as [Hc Habs].
  assert (Join root (join_slash cs) = "/" +:+ join_slash (comps root ++ cs)) as ->.
  { rewrite <- Hc. unfold Join. rewrite decide_False by (by intros ->). rewrite decide_False.
    - assert (IsAbs (root +:+ "/" +:+ join_slash cs) = true) as Hi by (by apply IsAbs_app).
      by rewrite (comps_Clean_abs _ Hi), (Clean_abs _ Hi).
    - destruct cs as [|c cs]; [done|]. inversion Hp as [|? ? (? & _)]; subst. simpl.
      destruct cs; [done|]. by destruct c. }
  change ("/" +:+ join_slash (comps root ++ cs)) with ("" +:+ String slash (join_slash (comps root ++ cs))).
  rewrite split_on_app, split_join.
  - rewrite app_assoc, last_app. destruct (last cs) as [c|] eqn:Hl; [done|]. by apply last_None in Hl.
  - destruct (comps root); [done|]. done.
  - apply Forall_app. split; (eapply Forall_impl;
      [first [exact Hp|exact (comps_abs_plain root Ha)]|by intros ? (_&_&_&?)]).
Qed.

(** A path of plain components is clean as it is. *)
Lemma IsAbs_join_plain cs : Forall plain cs → IsAbs (join_slash cs) = false.
Proof.
  intros Hf. destruct Hf as [|c cs (Hne & _ & _ & Hs) _]; [done|].
  destruct c as [|a c]; [done|]. unfold IsAbs, HasPrefix.
  assert (∃ t, join_slash (String a c :: cs) = String a t) as [t ->] by (destruct cs; eexists; reflexivity).
  cbn [String.prefix]. destruct (Ascii.ascii_dec _ a) as [<-|]; [|done].
  exfalso. apply Hs. simpl. set_solver.
Qed.

Lemma comps_join_slash cs : cs ≠ [] → Forall plain cs → comps (join_slash cs) = cs.
Proof.
  intros Hne Hf. unfold comps. rewrite split_join; [by rewrite norm_plain|done|].
  eapply Forall_impl; [exact Hf|]. by intros c (_ & _ & _ & ?).
Qed.

Lemma Clean_join_plain cs : cs ≠ [] → Forall plain cs → Clean (join_slash cs) = join_slash cs.
Proof.
  intros Hne Hf. unfold Clean. rewrite IsAbs_join_plain, comps_join_slash by done. by destruct cs.
Qed.
