(* ===== verification/Fscommit.v ===== *)
(** * Files and commits (internal/fscommit)

    A file system as a map from cleaned absolute paths to nodes, the system calls the
    program makes on it (each may fail, as an oracle says), and the operations of
    internal/fscommit: the non-replacing commit of a sibling file, the streaming copy and
    the reservation of SSD space. *)
From S2P Require Import Prelude Paths.

(** ** Files *)

Inductive node := DirNode | FileNode (data : string).

Inductive errno :=
| EEXIST | ENOENT | ENOTDIR | EISDIR | ENOTEMPTY | ENOSYS | EINVAL | EOPNOTSUPP | EIO | EPERM | ENOSPC.

#[export] Instance node_eq_dec : EqDecision node.
Proof. solve_decision. Defined.
#[export] Instance errno_eq_dec : EqDecision errno.
Proof. solve_decision. Defined.

Abbreviation disk := (gmap string node).

(** The files, and for each coming system call the error it fails with, if any. *)
Record fs := Fs { files : disk; osfaults : list (option errno) }.

Definition FS (A : Type) : Type := SM fs A.

Definition sys {A} (f : disk → res errno A * disk) : FS (res errno A) := λ s,
  match osfaults s with
  | Some e :: rest => (Err e, Fs (files s) rest)
  | rest => let (r, d) := f (files s) in (r, Fs d (tl rest))
  end.

(** [os.Stat], [os.Lstat]: there are no symbolic links. *)
Definition Stat (p : string) : FS (res errno node) :=
  sys (λ d, (match d !! p with Some n => Ok n | None => Err ENOENT end, d)).

Definition node_size (n : node) : Z :=
  match n with FileNode data => Z.of_nat (String.length data) | DirNode => 4096 end.
Definition is_dir (n : node) : bool := match n with DirNode => true | _ => false end.

(** A directory with an entry cannot be removed. *)
Definition has_entries (p : string) (d : disk) : bool :=
  existsb (λ kv, HasPrefix kv.1 (p +:+ "/")) (map_to_list d).

(** [os.Remove]. *)
Definition Remove (p : string) : FS (res errno unit) :=
  sys (λ d, match d !! p with
            | Some (FileNode _) => (Ok tt, delete p d)
            | Some DirNode => if has_entries p d then (Err ENOTEMPTY, d) else (Ok tt, delete p d)
            | None => (Err ENOENT, d)
            end).

(** [os.MkdirAll]: every directory on the way that is missing. *)
Definition ancestors (p : string) : list string :=
  (λ i, "/" +:+ join_slash (take i (comps p))) <$> seq 0 (S (length (comps p))).
Fixpoint mkdir_all (ps : list string) (d : disk) : res errno unit * disk :=
  match ps with
  | [] => (Ok tt, d)
  | p :: ps =>
      match d !! p with
      | Some DirNode => mkdir_all ps d
      | Some (FileNode _) => (Err ENOTDIR, d)
      | None => mkdir_all ps (<[p := DirNode]> d)
      end
  end.
Definition MkdirAll (p : string) : FS (res errno unit) := sys (mkdir_all (ancestors p)).

(** [unix.Open(p, O_RDONLY|O_DIRECTORY)]. *)
Definition open_dir (p : string) : FS (res errno unit) :=
  sys (λ d, (match d !! p with
             | Some DirNode => Ok tt
             | Some (FileNode _) => Err ENOTDIR
             | None => Err ENOENT
             end, d)).

(** [renameat2(..., RENAME_NOREPLACE)] and [linkat] of a regular file. *)
Definition Renameat2 (src dst : string) : FS (res errno unit) :=
  sys (λ d, match d !! src, d !! dst with
            | None, _ => (Err ENOENT, d)
            | Some _, Some _ => (Err EEXIST, d)
            | Some DirNode, None => (Err EISDIR, d)
            | Some (FileNode data), None => (Ok tt, <[dst := FileNode data]> (delete src d))
            end).
Definition Linkat (src dst : string) : FS (res errno unit) :=
  sys (λ d, match d !! src, d !! dst with
            | None, _ => (Err ENOENT, d)
            | Some _, Some _ => (Err EEXIST, d)
            | Some DirNode, None => (Err EPERM, d)
            | Some (FileNode data), None => (Ok tt, <[dst := FileNode data]> d)
            end).

Definition Fsync : FS (res errno unit) := sys (λ d, (Ok tt, d)).

(** ** Committing a part file *)

Inductive commit_err :=
| ErrTargetExists
| ErrNotSibling
| CommitErr (op : string) (e : errno).

#[export] Instance commit_err_eq_dec : EqDecision commit_err.
Proof. solve_decision. Defined.

(** [errors.Is(err, os.ErrExist)]: an errno counts when it is EEXIST or ENOTEMPTY. *)
Definition is_exist (e : commit_err) : bool :=
  match e with
  | ErrTargetExists => true
  | CommitErr _ EEXIST | CommitErr _ ENOTEMPTY => true
  | _ => false
  end.

(** The link-and-unlink branch of [commitFile], for file systems without renameat2. *)
Definition link_fallback (tempPath finalPath : string) : FS (res commit_err unit) :=
  do! l := Linkat tempPath finalPath in
  match l with
  | Err EEXIST => done! (Err ErrTargetExists)
  | Err e => done! (Err (CommitErr "linkat fallback" e))
  | Ok _ =>
      do! _ := Remove tempPath in
      done! (Ok tt)
  end.

(** [commitFile] of rename_linux.go. *)
Definition commitFile (tempPath finalPath : string) : FS (res commit_err unit) :=
  do! src := open_dir (Dir tempPath) in
  match src with
  | Err e => done! (Err (CommitErr "open src dir" e))
  | Ok _ =>
      do! dst := open_dir (Dir finalPath) in
      match dst with
      | Err e => done! (Err (CommitErr "open dst dir" e))
      | Ok _ =>
          do! r := Renameat2 tempPath finalPath in
          match r with
          | Ok _ => done! (Ok tt)
          | Err EEXIST => done! (Err ErrTargetExists)
          | Err ENOSYS | Err EINVAL | Err EOPNOTSUPP =>
              link_fallback tempPath finalPath
          | Err e => done! (Err (CommitErr "renameat2 failed" e))
          end
      end
  end.

Definition syncDir (dirPath : string) : FS (res errno unit) :=
  do! d := open_dir dirPath in
  match d with
  | Err e => done! (Err e)
  | Ok _ => Fsync
  end.
Definition FsyncDir (dirPath : string) : FS (res errno unit) := syncDir dirPath.

Definition CommitSiblingPart (partPath finalPath : string) : FS (res commit_err unit) :=
  let partDir := Clean (Dir partPath) in
  let finalDir := Clean (Dir finalPath) in
  if decide (partDir ≠ finalDir) then done! (Err ErrNotSibling)
  else
    do! st := Stat finalPath in
    match st with
    | Ok _ => done! (Err ErrTargetExists)
    | Err _ =>
        do! c := commitFile partPath finalPath in
        match c with
        | Err e => done! (Err e)
        | Ok _ =>
            do! r := syncDir finalDir in
            match r with
            | Err e => done! (Err (CommitErr "sync dir" e))
            | Ok _ => done! (Ok tt)
            end
        end
    end.

(** ** Copying *)

Section Copy.
(** The SHA-256 digest of a byte string, in hexadecimal. *)
Context (sha256Hex : string → string).

Fixpoint take_string (n : nat) (s : string) : string :=
  match n, s with
  | S n', String c s' => String c (take_string n' s')
  | _, _ => EmptyString
  end.

(** How the streams behave: [s_copy] is where [io.CopyBuffer] fails, [s_sync] and [s_close]
    whether those calls do. *)
Record stream_faults := Streams { s_copy : option (nat * errno); s_sync : option errno; s_close : option errno }.

(** [CopyStreamSequential]: bytes in the destination, count, digest or error. *)
Definition CopyStreamSequential (src : string) (f : stream_faults)
    : string * Z * res (string * errno) string :=
  match s_copy f with
  | Some (n, e) =>
      let out := take_string n src in
      (out, Z.of_nat (String.length out), Err ("copy buffer", e))
  | None =>
      let written := Z.of_nat (String.length src) in
      match s_sync f with
      | Some e => (src, written, Err ("fsync dst", e))
      | None =>
          match s_close f with
          | Some e => (src, written, Err ("close dst", e))
          | None => (src, written, Ok (sha256Hex src))
          end
      end
  end.

(** What the writes to an open file leave in it. *)
Definition put_data (p data : string) : FS unit := λ s,
  (tt, Fs (<[p := FileNode data]> (files s)) (osfaults s)).

(** [CopyFileSequential]; a failed copy removes the destination. *)
Definition CopyFileSequential (srcPath dstPath : string) (f : stream_faults)
    : FS (Z * res (string * errno) string) :=
  do! src := sys (λ d, (match d !! srcPath with
                        | Some (FileNode data) => Ok data
                        | Some DirNode => Err EISDIR
                        | None => Err ENOENT
                        end, d)) in
  match src with
  | Err e => done! (0, Err ("open src", e))
  | Ok data =>
      do! mk := MkdirAll (Dir dstPath) in
      match mk with
      | Err e => done! (0, Err ("create dst dir", e))
      | Ok _ =>
          do! op := sys (λ d, match d !! dstPath with
                              | Some DirNode => (Err EISDIR, d)
                              | _ => (Ok tt, <[dstPath := FileNode ""]> d)
                              end) in
          match op with
          | Err e => done! (0, Err ("open dst", e))
          | Ok _ =>
              let '(out, written, r) := CopyStreamSequential data f in
              do! _ := put_data dstPath out in
              match r with
              | Err e =>
                  do! _ := Remove dstPath in
                  done! (written, Err e)
              | Ok sha => done! (written, Ok sha)
              end
          end
      end
  end.

End Copy.

(** ** What the calls do to the files *)

Lemma sys_files {A} (f : disk → res errno A * disk) s r s' :
  sys f s = (r, s') →
  (∃ e, r = Err e ∧ files s' = files s) ∨ (f (files s) = (r, files s')).
Proof.
  unfold sys. destruct (osfaults s) as [|[e|] l]; intros Heq; simplify_eq/=; [right|left|right].
  - destruct (f (files s)). by simplify_eq/=.
  - eauto.
  - destruct (f (files s)). by simplify_eq/=.
Qed.

Lemma sys_reads {A} (g : disk → res errno A) s r s' :
  sys (λ d, (g d, d)) s = (r, s') → files s' = files s.
Proof. intros [(e & _ & ?)|[=]]%sys_files; congruence. Qed.

(** A move or a link happens in full or not at all, and never onto an existing file. *)
Lemma Renameat2_spec src dst s r s' :
  Renameat2 src dst s = (r, s') →
  match r with
  | Ok _ => ∃ data, files s !! src = Some (FileNode data) ∧ files s !! dst = None ∧
                    files s' = <[dst := FileNode data]> (delete src (files s))
  | Err _ => files s' = files s
  end.
Proof.
  intros [(e & -> & ?)|Heq]%sys_files; [done|].
  destruct (files s !! src) as [[|data]|], (files s !! dst) eqn:Hd; simplify_eq; eauto.
Qed.
Lemma Linkat_spec src dst s r s' :
  Linkat src dst s = (r, s') →
  match r with
  | Ok _ => ∃ data, files s !! src = Some (FileNode data) ∧ files s !! dst = None ∧
                    files s' = <[dst := FileNode data]> (files s)
  | Err _ => files s' = files s
  end.
Proof.
  intros [(e & -> & ?)|Heq]%sys_files; [done|].
  destruct (files s !! src) as [[|data]|], (files s !! dst) eqn:Hd; simplify_eq; eauto.
Qed.
Lemma Remove_spec p s r s' :
  Remove p s = (r, s') → files s' = files s ∨ (is_ok r = true ∧ files s' = delete p (files s)).
Proof.
  intros [(e & -> & ?)|Heq]%sys_files; [by left|].
  destruct (files s !! p) as [[|data]|]; [destruct (has_entries p (files s))|..]; simplify_eq; auto.
Qed.
Lemma Stat_spec p s r s' :
  Stat p s = (r, s') →
  files s' = files s ∧ match r with Ok n => files s !! p = Some n | Err _ => True end.
Proof.
  intros [(e & -> & ?)|Heq]%sys_files; [done|]. injection Heq as <- <-.
  split; [done|]. by destruct (files s !! p).
Qed.

(** Making directories removes nothing. *)
Lemma mkdir_all_persist ps d q n : d !! q = Some n → (mkdir_all ps d).2 !! q = Some n.
Proof.
  revert d. induction ps as [|p ps IH]; intros d Hq; cbn [mkdir_all]; [done|].
  destruct (d !! p) as [[]|] eqn:Hp; [by apply IH|done|]. apply IH.
  rewrite lookup_insert_ne; [done|]. intros ->. congruence.
Qed.

(** The outcome of a commit: nothing happened, or the part became the final file (and, when
    the link fallback could not unlink it, is still there too). *)
Definition committed (p f : string) (d d' : disk) : Prop :=
  ∃ data, d !! p = Some (FileNode data) ∧ d !! f = None ∧ d' !! f = Some (FileNode data) ∧
    (d' !! p = None ∨ d' !! p = Some (FileNode data)) ∧ ∀ q, q ≠ p → q ≠ f → d' !! q = d !! q.

Lemma link_fallback_spec p f s r s' :
  link_fallback p f s = (r, s') →
  match r with Ok _ => committed p f (files s) (files s') | Err _ => files s' = files s end.
Proof.
  unfold link_fallback, sm_bind, sm_ret.
  destruct (Linkat p f s) as [r4 s4] eqn:H4. apply Linkat_spec in H4.
  destruct r4 as [u|e4]; [|destruct e4; intros; simplify_eq; done].
  destruct (Remove p s4) as [r5 s5] eqn:H5. apply Remove_spec in H5. intros; simplify_eq.
  destruct H4 as (data & Hp & Hf & Heq). assert (p ≠ f) by congruence. exists data.
  rewrite Heq in H5. destruct H5 as [->|[_ ->]].
  - rewrite lookup_insert_eq, lookup_insert_ne by done. split_and!; auto.
    intros q Hq Hq'. by rewrite lookup_insert_ne by done.
  - split_and!; [done|done|by rewrite lookup_delete_ne, lookup_insert_eq by done|
      left; apply lookup_delete_eq|].
    intros q Hq Hq'. by rewrite lookup_delete_ne, lookup_insert_ne by done.
Qed.

Lemma commitFile_spec p f s r s' :
  commitFile p f s = (r, s') →
  match r with Ok _ => committed p f (files s) (files s') | Err _ => files s' = files s end.
Proof.
  unfold commitFile, sm_bind, sm_ret.
  destruct (open_dir (Dir p) s) as [r1 s1] eqn:H1. apply sys_reads in H1.
  destruct r1; [|intros; simplify_eq; done].
  destruct (open_dir (Dir f) s1) as [r2 s2] eqn:H2. apply sys_reads in H2.
  rewrite H1 in H2. destruct r2; [|intros; simplify_eq; done].
  destruct (Renameat2 p f s2) as [r3 s3] eqn:H3. apply Renameat2_spec in H3. rewrite H2 in H3.
  destruct r3 as [u|e].
  - intros; simplify_eq. destruct H3 as (data & Hp & Hf & Heq). exists data.
    assert (p ≠ f) by congruence. rewrite Heq, lookup_insert_eq, lookup_insert_ne, lookup_delete_eq by done.
    split_and!; auto. intros q Hq Hq'. by rewrite lookup_insert_ne, lookup_delete_ne by done.
  - rewrite <- H3. destruct e; try (intros; simplify_eq; done); apply link_fallback_spec.
Qed.

Lemma CommitSiblingPart_spec p f s r s' :
  CommitSiblingPart p f s = (r, s') →
  match r with
  | Ok _ => committed p f (files s) (files s')
  | Err e => files s' = files s ∨ (committed p f (files s) (files s') ∧ ∃ n, e = CommitErr "sync dir" n)
  end.
Proof.
  unfold CommitSiblingPart. case_decide; [intros [= <- <-]; by left|]. unfold sm_bind, sm_ret.
  destruct (Stat f s) as [r1 s1] eqn:H1. apply Stat_spec in H1 as [H1 _].
  destruct r1; [intros [= <- <-]; by left|].
  destruct (commitFile p f s1) as [r2 s2] eqn:H2. apply commitFile_spec in H2. rewrite H1 in H2.
  destruct r2; [|intros [= <- <-]; by left]. unfold syncDir, sm_bind, sm_ret.
  destruct (open_dir _ s2) as [r3 s3] eqn:H3. apply sys_reads in H3.
  assert (∀ r4 s4, Fsync s3 = (r4, s4) → files s4 = files s2) as H4
    by (intros r4 s4 H4%sys_reads; congruence).
  destruct r3 as [u|e3]; [|intros [= <- <-]; rewrite H3; eauto].
  destruct (Fsync s3) as [[]] eqn:Hf; specialize (H4 _ _ eq_refl); intros [= <- <-]; rewrite H4; eauto.
Qed.

(** C11. Committing a part file never loses and never overwrites data, whatever system calls
    fail: a file in the way stays as it is and is reported; the part's bytes are afterwards
    at the part path or at the final path; success means they are at the final path, which
    was free; and no other path is touched. *)
Theorem commit_part_preserves_data (p f : string) (s : fs) :
  let '(r, s') := CommitSiblingPart p f s in
  (∀ n, files s !! f = Some n → files s' = files s ∧ is_ok r = false) ∧
  (∀ data, files s !! p = Some (FileNode data) →
     files s' !! p = Some (FileNode data) ∨ files s' !! f = Some (FileNode data)) ∧
  (r = Ok tt → ∃ data, files s !! p = Some (FileNode data) ∧ files s !! f = None ∧
     files s' !! f = Some (FileNode data)) ∧
  (∀ q, q ≠ p → q ≠ f → files s' !! q = files s !! q).
Proof.
  destruct (CommitSiblingPart p f s) as [r s'] eqn:Hc. apply CommitSiblingPart_spec in Hc.
  assert (files s' = files s ∧ is_ok r = false ∨ committed p f (files s) (files s')) as Hcase
    by (destruct r; [by right|destruct Hc as [?|[? _]]; auto]).
  destruct Hcase as [[Heq Hr]|(data & Hp & Hf & Hf' & Hp' & Hq)].
  - rewrite Heq. split_and!; [done|by left|by intros ->|done].
  - split_and!; [congruence|intros; simplify_eq; by right|eauto|done].
Qed.

(** ** Reserving SSD space (admission.go) *)

Definition DefaultMinFreeSpace : Z := 5 * 1024 * 1024 * 1024.

Record SSDAdmission := Admission {
  rootPath : string;
  minFreeSpace : Z;                    (* uint64 *)
  reservations : gmap string Z;
  totalReserved : Z;
}.

Definition NewSSDAdmission (root : string) (minFree : Z) : SSDAdmission :=
  Admission root (if minFree =? 0 then DefaultMinFreeSpace else minFree) ∅ 0.

Record SSDStats := Stats_ {
  FreeBytes : Z; TotalBytes : Z; ReservedBytes_ : Z; AvailableBytes_ : Z; ActiveFiles_ : Z;
}.

Inductive adm_err := ErrStatfs | ErrInsufficientSSDSpace (available requested : Z).

Definition available (a : SSDAdmission) (free : Z) : Z :=
  wrap64 (wrap64 (wrap64 free - wrap64 (minFreeSpace a)) - totalReserved a).

(** [space] is what [GetDiskSpace(rootPath)] returns: free and total bytes. *)
Definition Stats (a : SSDAdmission) (space : option (Z * Z)) : res adm_err SSDStats :=
  match space with
  | None => Err ErrStatfs
  | Some (free, total) =>
      let avail := available a free in
      let avail := if avail <? 0 then 0 else avail in
      Ok (Stats_ free total (totalReserved a) avail (Z.of_nat (size (reservations a))))
  end.

Definition drop_reservation (a : SSDAdmission) (taskID : string) : SSDAdmission :=
  match reservations a !! taskID with
  | Some sz => Admission (rootPath a) (minFreeSpace a) (delete taskID (reservations a))
                 (wrap64 (totalReserved a - sz))
  | None => a
  end.

Definition Reserve (a : SSDAdmission) (taskID : string) (expectedSize : Z) (space : option (Z * Z))
    : res adm_err unit * SSDAdmission :=
  match space with
  | None => (Err ErrStatfs, a)
  | Some (free, _) =>
      let a := drop_reservation a taskID in
      let reqBytes := if expectedSize <=? 0 then 100 * 1024 * 1024 else expectedSize in
      if available a free <? reqBytes then
        (Err (ErrInsufficientSSDSpace (available a free) reqBytes), a)
      else
        (Ok tt, Admission (rootPath a) (minFreeSpace a) (<[taskID := reqBytes]> (reservations a))
                  (wrap64 (totalReserved a + reqBytes)))
  end.

(** The release functions handed out so far: the task of each, and whether it has run. *)
Record admission_world := AWorld { adm : SSDAdmission; handles : list (string * bool) }.

Inductive adm_event :=
| EvReserve (taskID : string) (expectedSize : Z) (space : option (Z * Z))
| EvRelease (i : nat).

Definition adm_step (w : admission_world) (e : adm_event) : admission_world :=
  match e with
  | EvReserve t n space =>
      match Reserve (adm w) t n space with
      | (Ok _, a) => AWorld a (handles w ++ [(t, false)])
      | (Err _, a) => AWorld a (handles w)
      end
  | EvRelease i =>
      match handles w !! i with
      | Some (t, false) => AWorld (drop_reservation (adm w) t) (<[i := (t, true)]> (handles w))
      | _ => w
      end
  end.

Definition adm_run (w : admission_world) (es : list adm_event) : admission_world := foldl adm_step w es.

(** The total is the sum of the reservations, and fits the width with the reserve. *)
Definition adm_inv (a : SSDAdmission) : Prop :=
  0 <= minFreeSpace a ∧ (∀ t z, reservations a !! t = Some z → 0 < z) ∧
  totalReserved a = map_sum id (reservations a) ∧ totalReserved a + minFreeSpace a <= int64_max.

Lemma adm_inv_nonneg a : adm_inv a → 0 <= totalReserved a.
Proof.
  intros (_ & Hpos & -> & _). apply sumZ_nonneg. intros [t z] Hin%elem_of_map_to_list.
  simpl. apply Hpos in Hin. unfold id. lia.
Qed.

Lemma adm_inv_drop a t : adm_inv a → adm_inv (drop_reservation a t).
Proof.
  intros Hinv. pose proof (adm_inv_nonneg a Hinv) as Hnn. destruct Hinv as (Hmin & Hpos & Hsum & Hmax).
  unfold drop_reservation. destruct (reservations a !! t) as [z|] eqn:Hz; [|done].
  pose proof (Hpos _ _ Hz). pose proof (map_sum_delete id _ _ _ Hz) as Hdel. change (id z) with z in Hdel.
  assert (z <= totalReserved a).
  { rewrite Hsum. apply (map_sum_elem id _ _ _ ltac:(intros ? ? ?%Hpos; unfold id; lia) Hz). }
  assert (wrap64 (totalReserved a - z) = totalReserved a - z) as Hw
    by (apply wrap64_id; unfold in_int64, int64_min; lia).
  unfold adm_inv. simpl. rewrite Hw. split_and!; [done| | |lia].
  - intros t' z' [_ ?]%lookup_delete_Some. by eapply Hpos.
  - lia.
Qed.

(** What was available is what it should be, and a grant stays within it. *)
Lemma Reserve_spec a t n free total :
  adm_inv a → 0 <= free <= int64_max →
  let need := if n <=? 0 then 100 * 1024 * 1024 else n in
  let d := drop_reservation a t in
  match Reserve a t n (Some (free, total)) with
  | (Ok _, a') => adm_inv a' ∧ totalReserved d + need + minFreeSpace d <= free ∧
                  a' = Admission (rootPath d) (minFreeSpace d) (<[t := need]> (reservations d))
                         (totalReserved d + need)
  | (Err _, a') => adm_inv a' ∧ free < totalReserved d + need + minFreeSpace d ∧ a' = d
  end.
Proof.
  intros Hinv Hfree need a1. pose proof (adm_inv_drop a t Hinv) as Hd. unfold Reserve.
  fold a1 in Hd |- *. pose proof (adm_inv_nonneg _ Hd) as Hnn.
  destruct Hd as (Hmin & Hpos & Hsum & Hmax).
  assert (0 < need) by (unfold need; destruct (n <=? 0) eqn:?; go_bool; lia).
  assert (available a1 free = free - minFreeSpace a1 - totalReserved a1) as Hav.
  { unfold available. rewrite (wrap64_id free), (wrap64_id (minFreeSpace a1)),
      (wrap64_id (free - minFreeSpace a1)); [apply wrap64_id|..]; unfold in_int64, int64_min, int64_max in *; lia. }
  rewrite Hav. fold need. destruct (_ <? need) eqn:Hlt; go_bool.
  - split_and!; [by unfold adm_inv|lia|done].
  - assert (wrap64 (totalReserved a1 + need) = totalReserved a1 + need) as Hw
      by (apply wrap64_id; unfold in_int64, int64_min; lia).
    unfold adm_inv. simpl. rewrite Hw. split_and!; [done| | |lia|lia|done].
    + intros t' z' [[<- <-]|[_ ?]]%lookup_insert_Some; [done|by eapply Hpos].
    + assert (reservations a1 !! t = None) as Hnone.
      { unfold a1, drop_reservation. destruct (reservations a !! t) eqn:He; [|done].
        apply lookup_delete_eq. }
      rewrite map_sum_insert_new by done. change (id need) with need. lia.
Qed.

Lemma adm_inv_step w e : 
  adm_inv (adm w) →
  match e with EvReserve _ _ (Some (free, _)) => 0 <= free <= int64_max | _ => True end →
  adm_inv (adm (adm_step w e)).
Proof.
  intros Hinv He. destruct e as [t n space|i]; simpl.
  - destruct space as [[free total]|]; [|done].
    pose proof (Reserve_spec (adm w) t n free total Hinv He) as Hr.
    destruct (Reserve _ _ _ _) as [[] a']; simpl; apply Hr.
  - destruct (handles w !! i) as [[t []]|]; simpl; try done. by apply adm_inv_drop.
Qed.

(** Reservations are accounted for: after any sequence of reservations and releases, each
    release function called any number of times, the total is the sum of the reservations
    in force, all positive. A reservation is granted exactly when the free space at that
    moment covers the minimum reserve and everything reserved, the request included. *)
Theorem admission_accounting (root : string) (minFree : Z) (es : list adm_event)
    (t : string) (n free total : Z) :
  0 <= minFree <= 2 ^ 62 → 0 <= free <= int64_max →
  Forall (λ e, match e with EvReserve _ _ (Some (f, _)) => 0 <= f <= int64_max | _ => True end) es →
  let a := adm (adm_run (AWorld (NewSSDAdmission root minFree) []) es) in
  let need := if n <=? 0 then 100 * 1024 * 1024 else n in
  let others := map_sum id (delete t (reservations a)) in
  totalReserved a = map_sum id (reservations a) ∧ (∀ u z, reservations a !! u = Some z → 0 < z) ∧
  (is_ok (Reserve a t n (Some (free, total))).1 = true ↔ others + need + minFreeSpace a <= free) ∧
  reservations (Reserve a t n (Some (free, total))).2 =
    (if decide (others + need + minFreeSpace a <= free) then <[t := need]> (delete t (reservations a))
     else delete t (reservations a)).
Proof.
  intros Hmin Hfree Hes a need others.
  assert (adm_inv a) as Hinv.
  { unfold a, adm_run. assert (adm_inv (adm (AWorld (NewSSDAdmission root minFree) []))) as H0.
    { unfold adm_inv, NewSSDAdmission, DefaultMinFreeSpace, int64_max. simpl. rewrite map_sum_empty.
      destruct (minFree =? 0); split_and!; try done; try lia. }
    revert H0. generalize (AWorld (NewSSDAdmission root minFree) []). clear a others.
    induction Hes as [|e es He _ IH]; intros w Hw; [done|]. simpl. by apply IH, adm_inv_step. }
  pose proof (Reserve_spec a t n free total Hinv Hfree) as Hr. fold need in Hr.
  assert (totalReserved (drop_reservation a t) = others ∧
          minFreeSpace (drop_reservation a t) = minFreeSpace a ∧
          reservations (drop_reservation a t) = delete t (reservations a)) as (Hd1 & Hd2 & Hd3).
  { destruct (adm_inv_drop a t Hinv) as (_ & _ & -> & _). unfold others, drop_reservation.
    destruct (reservations a !! t) eqn:He; simpl; [done|]. by rewrite delete_id. }
  split; [apply Hinv|split; [apply Hinv|]]. rewrite <- Hd1, <- Hd2, <- Hd3.
  destruct (Reserve _ _ _ _) as [[] a']; simpl in *; destruct Hr as (_ & Hle & ->).
  - by rewrite decide_True by lia.
  - rewrite decide_False by lia. split; [|done]. split; [done|lia].
Qed.

Lemma admission_accounting_witness :
  let a := adm (adm_run (AWorld (NewSSDAdmission "/ssd" 10) [])
                  [EvReserve "a" 5 (Some (100, 200)); EvReserve "b" 7 (Some (100, 200)); EvRelease 0]) in
  let need := if 50 <=? 0 then 100 * 1024 * 1024 else 50 in
  let others := map_sum id (delete "c" (reservations a)) in
  totalReserved a = map_sum id (reservations a) ∧ (∀ u z, reservations a !! u = Some z → 0 < z) ∧
  (is_ok (Reserve a "c" 50 (Some (66, 200))).1 = true ↔ others + need + minFreeSpace a <= 66) ∧
  reservations (Reserve a "c" 50 (Some (66, 200))).2 =
    (if decide (others + need + minFreeSpace a <= 66) then <["c" := need]> (delete "c" (reservations a))
     else delete "c" (reservations a)).
Proof.
  apply (admission_accounting "/ssd" 10 [EvReserve "a" 5 (Some (100, 200));
           EvReserve "b" 7 (Some (100, 200)); EvRelease 0] "c" 50 66 200);
    [lia|unfold int64_max; lia|repeat constructor; unfold int64_max; lia].
Defined.

(** A release function is keyed by the task, not by the reservation it came with: when a
    task reserves again before its previous attempt has let go, the previous release frees
    the new reservation, and space in use is no longer accounted for. *)
Theorem stale_release_frees_new_reservation :
  let w := adm_run (AWorld (NewSSDAdmission "/ssd" 10) [])
             [EvReserve "chat:7" 40 (Some (100, 200)); EvReserve "chat:7" 60 (Some (100, 200)); EvRelease 0] in
  handles w = [("chat:7", true); ("chat:7", false)] ∧ totalReserved (adm w) = 0 ∧
  is_ok (Reserve (adm w) "chat:8" 80 (Some (100, 200))).1 = true.
Proof. vm_compute. done. Qed.
