(* ===== verification/Registry.v ===== *)
(** * The task registry (app/daemon/registry.go)

    The registry holds one [*taskState] per task identifier, a queue of such pointers and
    the order in which tasks ended. Go code shares these pointers: a [Task] handle given to
    a worker keeps its attempt's cell when a retry puts a new cell under the same
    identifier. Pointers are therefore explicit: cells live in a heap, and the maps and
    handles hold addresses. Every method runs under the registry's mutex and is one
    function here.

    The floating-point speed and progress figures of snapshots are left out, as is process
    memory in [Status]. *)
From S2P Require Import Prelude Ranges Sql Downloads Paths.

(** ** Data *)

Inductive TaskState :=
| StateQueued | StateResolving | StateDownloading | StatePublishing
| StateSuccess | StateFailed | StateUnavailable.

#[export] Instance TaskState_eq_dec : EqDecision TaskState.
Proof. solve_decision. Defined.

Definition isTerminal (s : TaskState) : bool :=
  match s with StateSuccess | StateFailed | StateUnavailable => true | _ => false end.

Record TaskRequest := Request {
  ID : string;
  Peer : string;
  MessageID : Z;
  FinalPath : string;
  ExpectedSize : Z;
  Retry : bool;
  TargetTitle : string;
  MediaType : string;
  FileName : string;
  Date : Z;
  MaxRetries_ : Z;
}.

#[export] Instance TaskRequest_eq_dec : EqDecision TaskRequest.
Proof. solve_decision. Defined.

Definition set_final_path (v : string) (q : TaskRequest) : TaskRequest :=
  Request (ID q) (Peer q) (MessageID q) v (ExpectedSize q) (Retry q) (TargetTitle q) (MediaType q)
    (FileName q) (Date q) (MaxRetries_ q).
Definition no_retry (q : TaskRequest) : TaskRequest :=
  Request (ID q) (Peer q) (MessageID q) (FinalPath q) (ExpectedSize q) false (TargetTitle q)
    (MediaType q) (FileName q) (Date q) (MaxRetries_ q).

(** The byte counters of [taskState]. *)
Record meter := Meter {
  downloaded : Z;
  wireBytes : Z;
  replayBytes : Z;
  requestCount : Z;
  physicalRetries : Z;
  physicalAttemptID : string;
  ranges : list byteInterval;
  hasNetworkProgress : bool;
  netDownloaded : Z;
}.

(** The rate window of a task or of the registry: events [(at, bytes)], first and last byte. *)
Record feed := Feed { events : list (Z * Z); firstByte : option Z; lastByte : option Z }.

(** How an attempt ended. *)
Record outcome := Outcome {
  errorStage : string;
  errorOp : string;
  errorClass : string;
  errorText : string;
  retryable : bool;
  retryOwner : string;
  alreadyExists : bool;
  t_sha256 : string;
  finishedAt : option Z;
}.

Record taskState := TState {
  t_request : TaskRequest;
  t_state : TaskState;
  attemptGen : string;
  attemptCount : Z;
  t_fileName : string;
  totalSize : Z;
  dcID : Z;
  createdAt : Z;
  startedAt : option Z;
  canceled : bool;              (* cancel() was called on the attempt's context *)
  t_meter : meter;
  t_feed : feed;
  t_outcome : outcome;
}.

Definition zero_meter : meter := Meter 0 0 0 0 0 "" [] false 0.
Definition zero_feed : feed := Feed [] None None.
Definition zero_outcome : outcome := Outcome "" "" "" "" false "" false "" None.

(** [&taskState{request, state: StateQueued, totalSize, createdAt, attemptGen, attemptCount}]. *)
Definition new_task (q : TaskRequest) (size now : Z) (gen : string) (count : Z) : taskState :=
  TState q StateQueued gen count "" size 0 now None false zero_meter zero_feed zero_outcome.

Abbreviation ptr := nat.

Record PoolSnapshot := Pool { p_Size : Z; p_ActiveFiles : Z; p_Reconnects : Z }.

Record metrics := Metrics { m_wire : Z; m_payload : Z; m_retries : Z }.

Record Registry := Reg {
  heap : gmap ptr taskState;
  brk : ptr;                     (* the next address *)
  queueCapacity : Z;
  terminalLimit : Z;
  tasks : gmap string ptr;
  queue : list ptr;
  terminalOrder : list string;
  wake : bool;                   (* the channel of capacity one holds a token *)
  paused : bool;
  r_feed : feed;
  lastError : string;
  pool : PoolSnapshot;
  cumulative : metrics;
}.

Definition NewRegistry (cap limit : Z) : Registry :=
  Reg ∅ 0%nat (if cap <? 1 then 1 else cap) (if limit <? 1 then 1 else limit) ∅ [] [] false false
    zero_feed "" (Pool 0 0 0) (Metrics 0 0 0).

Section Setters.
Implicit Types r : Registry.
Definition with_heap h r := Reg h (brk r) (queueCapacity r) (terminalLimit r) (tasks r) (queue r)
  (terminalOrder r) (wake r) (paused r) (r_feed r) (lastError r) (pool r) (cumulative r).
Definition with_brk n r := Reg (heap r) n (queueCapacity r) (terminalLimit r) (tasks r) (queue r)
  (terminalOrder r) (wake r) (paused r) (r_feed r) (lastError r) (pool r) (cumulative r).
Definition with_tasks m r := Reg (heap r) (brk r) (queueCapacity r) (terminalLimit r) m (queue r)
  (terminalOrder r) (wake r) (paused r) (r_feed r) (lastError r) (pool r) (cumulative r).
Definition with_queue q r := Reg (heap r) (brk r) (queueCapacity r) (terminalLimit r) (tasks r) q
  (terminalOrder r) (wake r) (paused r) (r_feed r) (lastError r) (pool r) (cumulative r).
Definition with_order l r := Reg (heap r) (brk r) (queueCapacity r) (terminalLimit r) (tasks r) (queue r)
  l (wake r) (paused r) (r_feed r) (lastError r) (pool r) (cumulative r).
Definition with_wake b r := Reg (heap r) (brk r) (queueCapacity r) (terminalLimit r) (tasks r) (queue r)
  (terminalOrder r) b (paused r) (r_feed r) (lastError r) (pool r) (cumulative r).
Definition SetPaused b r := Reg (heap r) (brk r) (queueCapacity r) (terminalLimit r) (tasks r) (queue r)
  (terminalOrder r) true b (r_feed r) (lastError r) (pool r) (cumulative r).
Definition with_feed f r := Reg (heap r) (brk r) (queueCapacity r) (terminalLimit r) (tasks r) (queue r)
  (terminalOrder r) (wake r) (paused r) f (lastError r) (pool r) (cumulative r).
Definition SetLastError e r := Reg (heap r) (brk r) (queueCapacity r) (terminalLimit r) (tasks r) (queue r)
  (terminalOrder r) (wake r) (paused r) (r_feed r) e (pool r) (cumulative r).
Definition SetPool p r := Reg (heap r) (brk r) (queueCapacity r) (terminalLimit r) (tasks r) (queue r)
  (terminalOrder r) (wake r) (paused r) (r_feed r) (lastError r) p (cumulative r).
Definition with_cumulative c r := Reg (heap r) (brk r) (queueCapacity r) (terminalLimit r) (tasks r) (queue r)
  (terminalOrder r) (wake r) (paused r) (r_feed r) (lastError r) (pool r) c.
End Setters.

(** Updates of a cell. *)
Definition with_request q t := TState q (t_state t) (attemptGen t) (attemptCount t) (t_fileName t)
  (totalSize t) (dcID t) (createdAt t) (startedAt t) (canceled t) (t_meter t) (t_feed t) (t_outcome t).
Definition with_state s t := TState (t_request t) s (attemptGen t) (attemptCount t) (t_fileName t)
  (totalSize t) (dcID t) (createdAt t) (startedAt t) (canceled t) (t_meter t) (t_feed t) (t_outcome t).
Definition with_resolved name size dc t := TState (t_request t) (t_state t) (attemptGen t) (attemptCount t)
  name size dc (createdAt t) (startedAt t) (canceled t) (t_meter t) (t_feed t) (t_outcome t).
Definition with_started now t := TState (t_request t) (t_state t) (attemptGen t) (attemptCount t)
  (t_fileName t) (totalSize t) (dcID t) (createdAt t) (Some now) (canceled t) (t_meter t) (t_feed t) (t_outcome t).
Definition with_canceled t := TState (t_request t) (t_state t) (attemptGen t) (attemptCount t) (t_fileName t)
  (totalSize t) (dcID t) (createdAt t) (startedAt t) true (t_meter t) (t_feed t) (t_outcome t).
Definition with_meter m t := TState (t_request t) (t_state t) (attemptGen t) (attemptCount t) (t_fileName t)
  (totalSize t) (dcID t) (createdAt t) (startedAt t) (canceled t) m (t_feed t) (t_outcome t).
Definition with_tfeed f t := TState (t_request t) (t_state t) (attemptGen t) (attemptCount t) (t_fileName t)
  (totalSize t) (dcID t) (createdAt t) (startedAt t) (canceled t) (t_meter t) f (t_outcome t).
Definition with_outcome o t := TState (t_request t) (t_state t) (attemptGen t) (attemptCount t) (t_fileName t)
  (totalSize t) (dcID t) (createdAt t) (startedAt t) (canceled t) (t_meter t) (t_feed t) o.

(** [*p = f( *p )]. *)
Definition update_cell (p : ptr) (f : taskState → taskState) (r : Registry) : Registry :=
  with_heap (alter f p (heap r)) r.

(** ** Errors and results *)

Inductive regerr :=
| ErrQueueFull | ErrIDConflict | ErrTaskActive | ErrTaskNotFound
| ErrInvalid (text : string) | ErrDecider.

Inductive FinishResult :=
| FinishAcceptedNewTerminal | FinishAlreadySameTerminal | FinishConflictingTerminal
| FinishRejectedStale | FinishNotFound.

#[export] Instance FinishResult_eq_dec : EqDecision FinishResult.
Proof. solve_decision. Defined.

(** ** Requests *)

(** [strings.ContainsAny] and [strings.TrimSpace] on ASCII text. *)
Definition ContainsAny (s : string) (cs : list nat) : bool :=
  existsb (λ a, existsb (λ n, Nat.eqb (Ascii.nat_of_ascii a) n) cs) (String.list_ascii_of_string s).
Definition is_space (a : Ascii.ascii) : bool :=
  existsb (λ n, Nat.eqb (Ascii.nat_of_ascii a) n) [9; 10; 11; 12; 13; 32]%nat.
Definition is_blank (s : string) : bool := forallb is_space (String.list_ascii_of_string s).

Definition validateRequest (q : TaskRequest) : res regerr unit :=
  if bool_decide (ID q = "") || (256 <? Z.of_nat (String.length (ID q))) || ContainsAny (ID q) [47; 92; 0]%nat then
    Err (ErrInvalid "id must be 1-256 characters without slashes")
  else if is_blank (Peer q) then Err (ErrInvalid "peer is required")
  else if MessageID q <=? 0 then Err (ErrInvalid "message_id must be positive")
  else if ExpectedSize q <? 0 then Err (ErrInvalid "expected_size cannot be negative")
  else if decide (FinalPath q = "") then Ok tt
  else if ContainsAny (FinalPath q) [92; 0]%nat || HasPrefix (FinalPath q) "/" then
    Err (ErrInvalid "final_path must be a relative slash-separated path")
  else
    let cleaned := Clean (FinalPath q) in
    if bool_decide (cleaned ≠ FinalPath q) || bool_decide (cleaned = "..") || HasPrefix cleaned "../" then
      Err (ErrInvalid "final_path escapes output root")
    else Ok tt.

(** ** Snapshots *)

Definition ns_per_s : Z := 1000000000.

Fixpoint trimEvents (l : list (Z * Z)) (cutoff : Z) : list (Z * Z) :=
  match l with
  | (at_, b) :: l' => if at_ <? cutoff then trimEvents l' cutoff else l
  | [] => []
  end.

Definition trim_feed (now : Z) (f : feed) : feed :=
  Feed (trimEvents (events f) (now - 5 * ns_per_s)) (firstByte f) (lastByte f).

(** The copied cell, and the three fields that a snapshot computes. *)
Record TaskSnapshot := Snapshot {
  s_cell : taskState;
  s_NetDownloaded : Z;
  s_AttemptGeneration : string;
  s_AttemptCount : Z;
}.

Definition snapshot_of (t : taskState) : TaskSnapshot :=
  let m := t_meter t in
  Snapshot t (if netDownloaded m <? downloaded m then downloaded m else netDownloaded m)
    (or_else (attemptGen t) "1") (if attemptCount t <=? 0 then 1 else attemptCount t).

(** [snapshotTaskLocked]: trims the cell's events on the way. *)
Definition snapshotTaskLocked (p : ptr) (now : Z) (r : Registry) : option TaskSnapshot * Registry :=
  let r := update_cell p (λ t, with_tfeed (trim_feed now (t_feed t)) t) r in
  (snapshot_of <$> heap r !! p, r).

(** ** Submission *)

Definition signalLocked (r : Registry) : Registry := with_wake true r.

Definition archiveOldTaskMetricsLocked (old : option taskState) (r : Registry) : Registry :=
  match old with
  | None => r
  | Some t =>
      let c := cumulative r in
      with_cumulative (Metrics (m_wire c + wireBytes (t_meter t)) (m_payload c + downloaded (t_meter t))
        (m_retries c + physicalRetries (t_meter t))) r
  end.

Fixpoint remove_first (id : string) (l : list string) : list string :=
  match l with
  | [] => []
  | x :: l' => if decide (x = id) then l' else x :: remove_first id l'
  end.
Definition removeTerminalLocked (id : string) (r : Registry) : Registry :=
  with_order (remove_first id (terminalOrder r)) r.

(** Allocate [t], put it under [id] and at the end of the queue, and signal. *)
Definition enqueue_new (id : string) (t : taskState) (r : Registry) : ptr * Registry :=
  let p := brk r in
  (p, signalLocked (with_queue (queue r ++ [p]) (with_tasks (<[id := p]> (tasks r))
        (with_brk (S p) (with_heap (<[p := t]> (heap r)) r))))).

Definition Submit (request : TaskRequest) (now : Z) (r : Registry)
    : res regerr (option TaskSnapshot * bool) * Registry :=
  match validateRequest request with
  | Err e => (Err e, r)
  | Ok _ =>
      let retry := Retry request in
      let request := no_retry request in
      match tasks r !! ID request with
      | Some p =>
          match heap r !! p with
          | Some existing =>
              if decide (t_request existing ≠ request) then (Err ErrIDConflict, r)
              else if retry && (bool_decide (t_state existing = StateFailed) ||
                                bool_decide (t_state existing = StateUnavailable)) then
                if queueCapacity r <=? Z.of_nat (length (queue r)) then (Err ErrQueueFull, r)
                else
                  let t := new_task request (ExpectedSize request) now ("retry_" +:+ itoa now)
                             (attemptCount existing + 1) in
                  let r := archiveOldTaskMetricsLocked (Some existing) r in
                  let r := removeTerminalLocked (ID request) r in
                  let (p', r) := enqueue_new (ID request) t r in
                  let (snap, r) := snapshotTaskLocked p' now r in
                  (Ok (snap, true), r)
              else
                let (snap, r) := snapshotTaskLocked p now r in
                (Ok (snap, false), r)
          | None => (Err ErrDecider, r)     (* unreachable: every task has a cell *)
          end
      | None =>
          if queueCapacity r <=? Z.of_nat (length (queue r)) then (Err ErrQueueFull, r)
          else
            let (p, r) := enqueue_new (ID request) (new_task request (ExpectedSize request) now "1" 1) r in
            let (snap, r) := snapshotTaskLocked p now r in
            (Ok (snap, true), r)
      end
  end.

Definition QueuedBacklogBytes (r : Registry) : Z :=
  sumZ (λ p, match heap r !! p with
             | Some t => if isTerminal (t_state t) then 0 else totalSize t
             | None => 0
             end) (queue r).

(** [RetryTaskWithDecider]. The decider moves durable state (a database, [D]) from conflict
    to pending for the new generation. *)
Definition RetryTaskWithDecider {D E : Type} (id : string) (fallbackReq : option TaskRequest)
    (decider : string → D → res E unit * D) (now : Z) (r : Registry) (d : D)
    : res (regerr + E) (option TaskSnapshot) * Registry * D :=
  if queueCapacity r <=? Z.of_nat (length (queue r)) then (Err (inl ErrQueueFull), r, d)
  else
    let existing := match tasks r !! id with Some p => heap r !! p | None => None end in
    if match existing with Some t => negb (isTerminal (t_state t)) | None => false end then
      (Err (inl ErrTaskActive), r, d)
    else
      let newGen := "retry_" +:+ itoa now in
      let go q size count :=
        match decider newGen d with
        | (Err e, d') => (Err (inr e), r, d')
        | (Ok _, d') =>
            let r := match existing with
                     | Some t => removeTerminalLocked id (archiveOldTaskMetricsLocked (Some t) r)
                     | None => r
                     end in
            let (p, r) := enqueue_new id (new_task q size now newGen count) r in
            let (snap, r) := snapshotTaskLocked p now r in
            (Ok snap, r, d')
        end in
      match existing, fallbackReq with
      | Some t, _ => go (t_request t) (totalSize t) (attemptCount t + 1)
      | None, Some q => go q (ExpectedSize q) 1
      | None, None => (Err (inl ErrTaskNotFound), r, d)
      end.

(** ** The worker side *)

(** A [Task] handle: the address of its attempt's cell and the generation it was issued for. *)
Record Task := Handle { h_ptr : ptr; h_gen : string }.

(** One turn of the loop of [Next]: a task, or nothing while paused or empty. *)
Definition Next (now : Z) (r : Registry) : option Task * Registry :=
  match queue r with
  | p :: rest =>
      if paused r then (None, r)
      else
        let r := update_cell p (λ t, with_started now (with_state StateResolving t)) (with_queue rest r) in
        let r := match rest with [] => r | _ => signalLocked r end in
        (Some (Handle p (match heap r !! p with Some t => attemptGen t | None => "" end)), r)
  | [] => (None, r)
  end.

Definition Requeue (h : Task) (r : Registry) : bool * Registry :=
  match heap r !! h_ptr h with
  | Some t =>
      if isTerminal (t_state t) then (false, r)
      else (true, signalLocked (with_queue (queue r ++ [h_ptr h])
                    (update_cell (h_ptr h) (with_state StateQueued) r)))
  | None => (false, r)
  end.

Definition AttemptGen (h : Task) (r : Registry) : string :=
  if decide (h_gen h = "") then
    or_else (match heap r !! h_ptr h with Some t => attemptGen t | None => "" end) "1"
  else h_gen h.

Definition stale (h : Task) (t : taskState) : bool :=
  bool_decide (h_gen h ≠ "" ∧ attemptGen t ≠ h_gen h).

(** [Task.update]: only on the handle's own generation, and only while it runs. *)
Definition task_update (h : Task) (f : taskState → taskState) (r : Registry) : Registry :=
  update_cell (h_ptr h) (λ t, if stale h t || isTerminal (t_state t) then t else f t) r.

Definition SetResolved (h : Task) (name : string) (size dc : Z) : Registry → Registry :=
  task_update h (with_resolved name size dc).
Definition SetFinalPath (h : Task) (path : string) : Registry → Registry :=
  task_update h (λ t, with_request (set_final_path path (t_request t)) t).
Definition SetDownloading (h : Task) : Registry → Registry :=
  task_update h (with_state StateDownloading).
(** [SetPublishing] also says whether it was applied. *)
Definition SetPublishing (h : Task) (r : Registry) : bool * Registry :=
  (match heap r !! h_ptr h with
   | Some t => negb (stale h t || isTerminal (t_state t))
   | None => false
   end, task_update h (with_state StatePublishing) r).
Definition IsTerminal (h : Task) (r : Registry) : bool :=
  match heap r !! h_ptr h with Some t => stale h t || isTerminal (t_state t) | None => true end.

Definition RecordTransferTelemetry (h : Task) (written wire replay reqs retries : Z) (phys : string)
    (r : Registry) : Registry :=
  update_cell (h_ptr h) (λ t,
    let m := t_meter t in
    with_meter (Meter (if 0 <? written then written else downloaded m) wire replay reqs retries
      (or_else phys (physicalAttemptID m)) (ranges m) (hasNetworkProgress m) (netDownloaded m)) t) r.

(** Append one event to a window. *)
Definition feed_event (now bytes : Z) (f : feed) : feed :=
  Feed (events f ++ [(now, bytes)])
    (match firstByte f with Some z => Some z | None => Some now end) (Some now).

Definition RecordProgress (h : Task) (n now : Z) (r : Registry) : Registry :=
  if n <=? 0 then r
  else match heap r !! h_ptr h with
  | None => r
  | Some t =>
      if stale h t || isTerminal (t_state t) then r
      else
        let m := t_meter t in
        let n := if (0 <? totalSize t) && (totalSize t <? n) then totalSize t else n in
        let diff := n - netDownloaded m in
        let net := if diff <=? 0 then netDownloaded m else n in
        let m' := Meter (downloaded m) (wireBytes m) (replayBytes m) (requestCount m) (physicalRetries m)
                    (physicalAttemptID m) (ranges m) true net in
        if diff <=? 0 then update_cell (h_ptr h) (with_meter m') r
        else with_feed (feed_event now diff (r_feed r))
               (update_cell (h_ptr h) (λ t, with_tfeed (feed_event now diff (t_feed t)) (with_meter m' t)) r)
  end.

Definition RecordWrite (h : Task) (offset sz now : Z) (r : Registry) : Z * Registry :=
  if (sz <=? 0) || (offset <? 0) then (0, r)
  else match heap r !! h_ptr h with
  | None => (0, r)
  | Some t =>
      if stale h t then (0, r)
      else
        let end0 := wrap64 (offset + sz) in
        if end0 <? offset then (0, r)
        else
          let end_ := if (0 <? totalSize t) && (totalSize t <? end0) then totalSize t else end0 in
          if end_ <=? offset then (0, r)
          else
            let m := t_meter t in
            let (rs, unique) := TaskRanges.addRange (ranges m) offset end_ in
            let r1 := update_cell (h_ptr h)
                        (with_meter (Meter (downloaded m) (wireBytes m) (replayBytes m) (requestCount m)
                           (physicalRetries m) (physicalAttemptID m) rs (hasNetworkProgress m)
                           (netDownloaded m))) r in
            if unique =? 0 then (0, r1)
            else
              let r2 := update_cell (h_ptr h)
                          (with_meter (Meter (downloaded m + unique) (wireBytes m) (replayBytes m)
                             (requestCount m) (physicalRetries m) (physicalAttemptID m) rs
                             (hasNetworkProgress m) (netDownloaded m))) r in
              if hasNetworkProgress m then (unique, r2)
              else (unique, with_feed (feed_event now unique (r_feed r))
                      (update_cell (h_ptr h) (λ t, with_tfeed (feed_event now unique (t_feed t)) t) r2))
  end.

(** ** Ending a task *)

(** The loop of [pruneTerminalOrderLocked]. *)
Fixpoint prune_loop (fuel : nat) (r : Registry) : Registry :=
  match fuel, terminalOrder r with
  | S n, oldest :: rest =>
      if terminalLimit r <? Z.of_nat (length (terminalOrder r)) then
        let r := with_order rest r in
        match tasks r !! oldest with
        | Some p => prune_loop n (with_tasks (delete oldest (tasks r))
                      (archiveOldTaskMetricsLocked (heap r !! p) r))
        | None => prune_loop n r
        end
      else r
  | _, _ => r
  end.
Definition pruneTerminalOrderLocked (r : Registry) : Registry :=
  prune_loop (length (terminalOrder r)) r.

(** What the three finishing functions write into the cell. *)
Definition finish_cell (status : TaskState) (o : outcome) (finalPath : string) (t : taskState) : taskState :=
  let t := with_outcome o (with_state status t) in
  let t := if isTerminal status then with_canceled t else t in
  if decide (finalPath = "") then t else with_request (set_final_path finalPath (t_request t)) t.

(** ... and into the registry. *)
Definition finish_at (p : ptr) (id : string) (status : TaskState) (o : outcome) (finalPath : string)
    (r : Registry) : Registry :=
  let r := update_cell p (finish_cell status o finalPath) r in
  let r := if decide (errorText o = "") then r else SetLastError (errorText o) r in
  pruneTerminalOrderLocked (with_order (terminalOrder r ++ [id]) r).

Definition finishWithGen (h : Task) (status : TaskState) (stage op class message : string)
    (retryable : bool) (owner finalPath : string) (already : bool) (sha : string) (now : Z)
    (r : Registry) : bool * Registry :=
  match heap r !! h_ptr h with
  | None => (false, r)
  | Some t =>
      if stale h t then (false, r)
      else if isTerminal (t_state t) then (false, r)
      else (true, finish_at (h_ptr h) (ID (t_request t)) status
              (Outcome stage op class message retryable owner already sha (Some now)) finalPath r)
  end.

(** The two finishing functions that leave stage, op and retry fields alone. *)
Definition late_outcome (t : taskState) (class message : string) (already : bool) (sha : string)
    (now : Z) : outcome :=
  let o := t_outcome t in
  Outcome (errorStage o) (errorOp o) class message (retryable o) (retryOwner o) already sha (Some now).

Definition FinishTask (id gen : string) (status : TaskState) (class message finalPath : string)
    (already : bool) (sha : string) (now : Z) (r : Registry) : FinishResult * Registry :=
  match tasks r !! id with
  | None => (FinishNotFound, r)
  | Some p =>
      match heap r !! p with
      | None => (FinishNotFound, r)
      | Some t =>
          if decide (gen = "" ∨ attemptGen t ≠ gen) then (FinishRejectedStale, r)
          else if isTerminal (t_state t) then
            (if decide (t_state t = status) then FinishAlreadySameTerminal
             else FinishConflictingTerminal, r)
          else (FinishAcceptedNewTerminal,
                finish_at p (ID (t_request t)) status (late_outcome t class message already sha now)
                  finalPath r)
      end
  end.

(** Does the cell belong to this chat and message? *)
Definition peer_matches (chatID : string) (t : taskState) : bool :=
  let peer := TrimPrefix (Peer (t_request t)) "@" in
  bool_decide (peer = TrimPrefix chatID "@") || bool_decide (peer = chatID).

(** [FinishTaskByMessage]: [order] is the order in which the range over the map visits it. *)
Fixpoint FinishTaskByMessage (order : list string) (chatID : string) (messageID : Z) (gen : string)
    (status : TaskState) (class message finalPath : string) (already : bool) (sha : string) (now : Z)
    (r : Registry) : FinishResult * Registry :=
  match order with
  | [] => (FinishNotFound, r)
  | id :: rest =>
      let next := FinishTaskByMessage rest chatID messageID gen status class message finalPath already sha now r in
      match tasks r !! id with
      | None => next
      | Some p =>
          match heap r !! p with
          | None => next
          | Some t =>
              if peer_matches chatID t && (MessageID (t_request t) =? messageID) then
                if decide (gen ≠ "" ∧ attemptGen t ≠ gen) then (FinishRejectedStale, r)
                else if isTerminal (t_state t) then
                  (if decide (t_state t = status) then FinishAlreadySameTerminal
                   else FinishConflictingTerminal, r)
                else (FinishAcceptedNewTerminal,
                      finish_at p (ID (t_request t)) status
                        (late_outcome t class message already sha now) finalPath r)
              else next
          end
      end
  end.

Record PublishResult := Publish {
  pr_Path : string; pr_AlreadyExists : bool; pr_SHA256 : string;
  pr_WireBytes : Z; pr_ReplayBytes : Z; pr_RequestCount : Z; pr_PhysicalRetries : Z;
  pr_PhysicalAttemptID : string;
}.

Definition pos_or (v d : Z) : Z := if 0 <? v then v else d.

Definition SucceedResult (h : Task) (result : PublishResult) (now : Z) (r : Registry) : bool * Registry :=
  let r := update_cell (h_ptr h) (λ t,
    let m := t_meter t in
    with_meter (Meter (downloaded m) (pos_or (pr_WireBytes result) (wireBytes m))
      (pos_or (pr_ReplayBytes result) (replayBytes m)) (pos_or (pr_RequestCount result) (requestCount m))
      (pos_or (pr_PhysicalRetries result) (physicalRetries m))
      (or_else (pr_PhysicalAttemptID result) (physicalAttemptID m)) (ranges m) (hasNetworkProgress m)
      (netDownloaded m)) t) r in
  finishWithGen h StateSuccess "" "" "" "" false "" (pr_Path result) (pr_AlreadyExists result)
    (pr_SHA256 result) now r.

Definition FailDisposition (h : Task) (disp : FailureDisposition) (now : Z) (r : Registry) : bool * Registry :=
  let status := if Unavailable disp then StateUnavailable else StateFailed in
  let r := if decide (d_PhysicalAttemptID disp = "") then r
           else update_cell (h_ptr h) (λ t,
             let m := t_meter t in
             with_meter (Meter (downloaded m) (wireBytes m) (replayBytes m) (requestCount m)
               (physicalRetries m) (d_PhysicalAttemptID disp) (ranges m) (hasNetworkProgress m)
               (netDownloaded m)) t) r in
  finishWithGen h status (Stage disp) (Op disp) (Class_ disp) (disp_Error disp) (Retryable disp)
    (RetryOwner disp) "" false "" now r.

Definition Fail (h : Task) (class message : string) (unavailable : bool) (now : Z) (r : Registry)
    : bool * Registry :=
  FailDisposition h (Disp "" "" class unavailable false "" "" message None) now r.

(** ** Recovery and cancellation *)

Definition RegisterRecoveredTask (id gen finalPath : string) (expectedSize now : Z) (r : Registry) : Registry :=
  let t := TState (Request id "" 0 finalPath expectedSize false "" "" "" 0 0) StatePublishing gen 0 ""
             expectedSize 0 now (Some now) false zero_meter zero_feed zero_outcome in
  let p := brk r in
  with_tasks (<[id := p]> (tasks r)) (with_brk (S p) (with_heap (<[p := t]> (heap r)) r)).

Definition cancel_cell (text : string) (now : Z) (t : taskState) : taskState :=
  let o := t_outcome t in
  with_canceled (with_outcome (Outcome (errorStage o) (errorOp o) "canceled" text (retryable o)
    (retryOwner o) (alreadyExists o) (t_sha256 o) (Some now)) (with_state StateFailed t)).

(** The loop over the queue that [Cancel] and [CancelTasksByChatID] share: queued tasks that
    [hit] and that the decider lets go are canceled and leave the queue. *)
Fixpoint cancel_queued {D} (hit : taskState → bool) (decider : taskState → D → bool * D)
    (text : string) (now : Z) (q : list ptr) (h : gmap ptr taskState) (d : D)
    : list ptr * gmap ptr taskState * D :=
  match q with
  | [] => ([], h, d)
  | p :: q =>
      match h !! p with
      | Some t =>
          if hit t then
            let (ok, d) := decider t d in
            if ok then cancel_queued hit decider text now q (<[p := cancel_cell text now t]> h) d
            else let '(q', h', d') := cancel_queued hit decider text now q h d in (p :: q', h', d')
          else let '(q', h', d') := cancel_queued hit decider text now q h d in (p :: q', h', d')
      | None => let '(q', h', d') := cancel_queued hit decider text now q h d in (p :: q', h', d')
      end
  end.

Definition Cancel (id reason : string) (now : Z) (r : Registry) : Registry :=
  let text := or_else reason "task canceled" in
  let '(q, h, _) := cancel_queued (λ t, bool_decide (ID (t_request t) = id)) (λ _ d, (true, d)) text now
                      (queue r) (heap r) tt in
  let r := with_queue q (with_heap h r) in
  let r := match tasks r !! id with
           | Some p => update_cell p (λ t, if isTerminal (t_state t) then t else cancel_cell text now t) r
           | None => r
           end in
  signalLocked r.

(** The loop over the map, in the order [order]. *)
Fixpoint cancel_tasks {D} (chatID : string) (decider : string → Z → string → D → bool * D) (text : string)
    (now : Z) (order : list string) (r : Registry) (d : D) : Registry * D :=
  match order with
  | [] => (r, d)
  | id :: order =>
      match tasks r !! id with
      | Some p =>
          match heap r !! p with
          | Some t =>
              if negb (isTerminal (t_state t)) && peer_matches chatID t then
                let (ok, d) := decider (Peer (t_request t)) (MessageID (t_request t)) (attemptGen t) d in
                if ok then cancel_tasks chatID decider text now order
                             (update_cell p (cancel_cell text now) r) d
                else cancel_tasks chatID decider text now order r d
              else cancel_tasks chatID decider text now order r d
          | None => cancel_tasks chatID decider text now order r d
          end
      | None => cancel_tasks chatID decider text now order r d
      end
  end.

Definition CancelTasksByChatIDWithDecider {D} (chatID : string)
    (decider : string → Z → string → D → bool * D) (order : list string) (now : Z)
    (r : Registry) (d : D) : Registry * D :=
  let text := "target disabled by user" in
  let '(q, h, d) := cancel_queued (peer_matches chatID)
                      (λ t, decider (Peer (t_request t)) (MessageID (t_request t)) (attemptGen t))
                      text now (queue r) (heap r) d in
  let (r, d) := cancel_tasks chatID decider text now order (with_queue q (with_heap h r)) d in
  (signalLocked r, d).

(** ** Status *)

Definition cell_metric (f : meter → Z) (h : gmap ptr taskState) (p : ptr) : Z :=
  match h !! p with Some t => f (t_meter t) | None => 0 end.

(** The three totals of [Status]: what was archived plus every task held. *)
Definition totals (r : Registry) : metrics :=
  Metrics (m_wire (cumulative r) + map_sum (cell_metric wireBytes (heap r)) (tasks r))
          (m_payload (cumulative r) + map_sum (cell_metric downloaded (heap r)) (tasks r))
          (m_retries (cumulative r) + map_sum (cell_metric physicalRetries (heap r)) (tasks r)).

Definition is_active (s : TaskState) : bool :=
  match s with StateResolving | StateDownloading | StatePublishing => true | _ => false end.

(** The identifiers of the tasks [Status] reports as active, unsorted. *)
Definition active_ids (r : Registry) : list string :=
  omap (λ kp, match heap r !! kp.2 with
              | Some t => if is_active (t_state t) then Some (ID (t_request t)) else None
              | None => None
              end) (map_to_list (tasks r)).
