(* ===== verification/RegistryProps.v ===== *)
(** * What the registry guarantees

    Properties of the operations of Registry.v over every sequence of calls: the invariant
    of its maps, conservation of the byte and retry totals across retries and pruning,
    isolation of attempts, single acceptance of an ending, and the places where the code
    falls short of its comments. *)
From S2P Require Import Prelude Ranges Sql Downloads Paths Registry.

(** ** Calls *)

(** Calls on a task handle. *)
Inductive task_call :=
| CResolved (name : string) (size dc : Z)
| CFinalPath (path : string)
| CDownloading
| CPublishing
| CTelemetry (written wire replay reqs retries : Z) (phys : string)
| CProgress (n now : Z)
| CWrite (offset sz now : Z)
| CSucceed (result : PublishResult) (now : Z)
| CFail (disp : FailureDisposition) (now : Z).

Definition exec_task (h : Task) (c : task_call) (r : Registry) : Registry :=
  match c with
  | CResolved n s d => SetResolved h n s d r
  | CFinalPath p => SetFinalPath h p r
  | CDownloading => SetDownloading h r
  | CPublishing => (SetPublishing h r).2
  | CTelemetry a b c d e p => RecordTransferTelemetry h a b c d e p r
  | CProgress n now => RecordProgress h n now r
  | CWrite o s now => (RecordWrite h o s now r).2
  | CSucceed res now => (SucceedResult h res now r).2
  | CFail d now => (FailDisposition h d now r).2
  end.

(** Calls on the registry. A decider's answers are given by the call. *)
Inductive reg_call :=
| CSubmit (q : TaskRequest) (now : Z)
| CRetry (id : string) (fallback : option TaskRequest) (decision : bool) (now : Z)
| CNext (now : Z)
| CRequeue (h : Task)
| CFinishTask (id gen : string) (status : TaskState) (class message path : string) (already : bool)
    (sha : string) (now : Z)
| CFinishByMessage (order : list string) (chatID : string) (messageID : Z) (gen : string)
    (status : TaskState) (class message path : string) (already : bool) (sha : string) (now : Z)
| CCancel (id reason : string) (now : Z)
| CCancelChat (chatID : string) (decider : string → Z → string → bool) (order : list string) (now : Z)
| CPause (b : bool)
| CTask (h : Task) (c : task_call).

Definition yes_no (b : bool) : res unit unit := if b then Ok tt else Err tt.

Definition exec_reg (c : reg_call) (r : Registry) : Registry :=
  match c with
  | CSubmit q now => (Submit q now r).2
  | CRetry id fb ok now => (RetryTaskWithDecider id fb (λ _ d, (yes_no ok, d)) now r tt).1.2
  | CNext now => (Next now r).2
  | CRequeue h => (Requeue h r).2
  | CFinishTask id gen st cl m p a sha now => (FinishTask id gen st cl m p a sha now r).2
  | CFinishByMessage o ch mid gen st cl m p a sha now =>
      (FinishTaskByMessage o ch mid gen st cl m p a sha now r).2
  | CCancel id reason now => Cancel id reason now r
  | CCancelChat ch dec o now =>
      (CancelTasksByChatIDWithDecider ch (λ p m g (d : unit), (dec p m g, d)) o now r tt).1
  | CPause b => SetPaused b r
  | CTask h c => exec_task h c r
  end.

(** A fallback request carries the identifier it is submitted under. *)
Definition well_addressed (c : reg_call) : Prop :=
  match c with CRetry id (Some q) _ _ => ID q = id | _ => True end.

(** ** The invariant *)

Record reg_ok (r : Registry) : Prop := RegOk {
  ok_tasks : ∀ id p, tasks r !! id = Some p → ∃ t, heap r !! p = Some t ∧ ID (t_request t) = id;
  ok_queue : ∀ p, p ∈ queue r → is_Some (heap r !! p);
  ok_brk : ∀ p t, heap r !! p = Some t → (p < brk r)%nat;
  ok_order : Z.of_nat (length (terminalOrder r)) <= terminalLimit r;
  ok_limit : 1 <= terminalLimit r;
}.

(** Everything but the cells' contents and counters. *)
Lemma reg_ok_cells r p f :
  (∀ t, ID (t_request (f t)) = ID (t_request t)) → reg_ok r → reg_ok (update_cell p f r).
Proof.
  intros Hf [Ht Hq Hb Ho Hl]. split; simpl; try done.
  - intros id q Hid. destruct (Ht _ _ Hid) as (t & Hp & <-).
    destruct (decide (p = q)) as [->|]; [rewrite lookup_alter_eq, Hp|rewrite lookup_alter_ne, Hp by done]; simpl; eauto.
  - intros q Hin. destruct (Hq _ Hin) as [t Hp].
    destruct (decide (p = q)) as [->|]; [rewrite lookup_alter_eq, Hp|rewrite lookup_alter_ne, Hp by done]; simpl; eauto.
  - intros q t. destruct (decide (p = q)) as [->|]; [rewrite lookup_alter_eq|rewrite lookup_alter_ne by done; eauto].
    intros (t0 & ? & ?)%fmap_Some. eauto.
Qed.

Lemma reg_ok_same r r' :
  heap r' = heap r → brk r' = brk r → tasks r' = tasks r → queue r' = queue r →
  terminalOrder r' = terminalOrder r → terminalLimit r' = terminalLimit r → reg_ok r → reg_ok r'.
Proof. intros Hh Hb Ht Hq Ho Hl [? ? ? ? ?]. by split; rewrite ?Hh, ?Hb, ?Ht, ?Hq, ?Ho, ?Hl. Qed.

Lemma remove_first_length id l : (length (remove_first id l) <= length l)%nat.
Proof. induction l as [|x l IH]; simpl; [done|]. case_decide; simpl; lia. Qed.

Lemma reg_ok_enqueue r id t :
  reg_ok r → ID (t_request t) = id → reg_ok (enqueue_new id t r).2.
Proof.
  intros [Ht Hq Hb Ho Hl] Hid. split; simpl; try done.
  - intros id' q [[<- <-]|[Hne Hin]]%lookup_insert_Some; [rewrite lookup_insert_eq; eauto|].
    destruct (Ht _ _ Hin) as (t' & Hp & <-). pose proof (Hb _ _ Hp).
    rewrite lookup_insert_ne by lia. eauto.
  - intros q [Hin|Hin%list_elem_of_singleton]%elem_of_app.
    + destruct (Hq _ Hin) as [t' Hp]. pose proof (Hb _ _ Hp). rewrite lookup_insert_ne by lia. eauto.
    + subst. rewrite lookup_insert_eq. eauto.
  - intros q t' [[<- <-]|[Hne Hin]]%lookup_insert_Some; [lia|]. apply Hb in Hin. lia.
Qed.

Lemma reg_ok_prune_loop fuel r :
  (∀ id p, tasks r !! id = Some p → ∃ t, heap r !! p = Some t ∧ ID (t_request t) = id) →
  (∀ p, p ∈ queue r → is_Some (heap r !! p)) → (∀ p t, heap r !! p = Some t → (p < brk r)%nat) →
  1 <= terminalLimit r → (length (terminalOrder r) <= fuel)%nat → reg_ok (prune_loop fuel r).
Proof.
  revert r. induction fuel as [|fuel IH]; intros r Ht Hq Hb Hl Hf; simpl.
  { split; try done. lia. }
  destruct (terminalOrder r) as [|oldest rest] eqn:Ho; [split; rewrite ?Ho; simpl; try done; lia|].
  destruct (_ <? _) eqn:Hlt; go_bool; [|split; rewrite ?Ho; done].
  simpl in *. destruct (tasks r !! oldest) as [p|] eqn:Hp; (apply IH; simpl; try done; try lia).
  - destruct (heap r !! p); simpl; intros id q [_ ?]%lookup_delete_Some; eauto.
  - by destruct (heap r !! p).
  - by destruct (heap r !! p).
  - by destruct (heap r !! p).
  - destruct (heap r !! p); simpl; lia.
Qed.

Lemma finish_cell_ID st o path t : ID (t_request (finish_cell st o path t)) = ID (t_request t).
Proof. unfold finish_cell. case_decide; destruct (isTerminal st); done. Qed.

Lemma reg_ok_finish r p id st o path : reg_ok r → reg_ok (finish_at p id st o path r).
Proof.
  intros Hok. unfold finish_at.
  assert (reg_ok (update_cell p (finish_cell st o path) r)) as [Ht Hq Hb Ho Hl]
    by (apply reg_ok_cells; [apply finish_cell_ID|done]).
  apply reg_ok_prune_loop; case_decide; simpl in *; done || lia.
Qed.

(** Heaps that differ only in state and outcome: same cells, identifiers and meters. *)
Definition same_cells (h h' : gmap ptr taskState) : Prop :=
  ∀ p, option_Forall2 (λ t t', ID (t_request t') = ID (t_request t) ∧ t_meter t' = t_meter t)
         (h !! p) (h' !! p).

#[local] Instance same_cells_refl : Reflexive same_cells.
Proof. intros h p. destruct (h !! p); constructor; done. Qed.
#[local] Instance same_cells_trans : Transitive same_cells.
Proof.
  intros h1 h2 h3 H12 H23 p. specialize (H12 p). specialize (H23 p).
  inversion H12 as [t1 t2 [? ?] E1 E2|E1 E2]; rewrite <- E2 in H23; inversion H23 as [? t3 [? ?]|]; subst;
    constructor. split; congruence.
Qed.

Lemma same_cells_alter h p f :
  (∀ t, ID (t_request (f t)) = ID (t_request t) ∧ t_meter (f t) = t_meter t) → same_cells h (alter f p h).
Proof.
  intros Hf q. destruct (decide (p = q)) as [->|]; [rewrite lookup_alter_eq|by rewrite lookup_alter_ne; [apply same_cells_refl|]].
  destruct (h !! q); simpl; constructor. apply Hf.
Qed.

Lemma same_cells_metric h h' f p : same_cells h h' → cell_metric f h' p = cell_metric f h p.
Proof.
  intros Hs. unfold cell_metric. specialize (Hs p).
  inversion Hs as [t1 t2 [_ Hm] E1 E2|E1 E2]; [by rewrite Hm|done].
Qed.

Lemma map_sum_ext `{Countable K} {A} (f g : A → Z) (m : gmap K A) :
  (∀ k x, m !! k = Some x → f x = g x) → map_sum f m = map_sum g m.
Proof.
  intros Hfg. unfold map_sum, sumZ.
  assert (∀ kx, kx ∈ map_to_list m → f kx.2 = g kx.2) as Hl
    by (intros [k x] Hin%elem_of_map_to_list; simpl; eauto).
  induction (map_to_list m) as [|x l IH]; simpl; [done|].
  rewrite (Hl x), IH; [done|set_solver|set_solver].
Qed.

(** A step that keeps the map of tasks and the archived counters, and at most trims the
    queue. *)
Lemma same_cells_step r r' :
  same_cells (heap r) (heap r') → brk r' = brk r → tasks r' = tasks r →
  (∀ p, p ∈ queue r' → p ∈ queue r) →
  terminalOrder r' = terminalOrder r → terminalLimit r' = terminalLimit r →
  cumulative r' = cumulative r →
  totals r' = totals r ∧ (reg_ok r → reg_ok r').
Proof.
  intros Hs Hb Ht Hq Ho Hl Hc. split.
  - unfold totals. rewrite Ht, Hc. f_equal; f_equal; apply map_sum_ext; intros ? p _; by apply same_cells_metric.
  - intros [Hrt Hrq Hrb Hro Hrl]. split.
    + intros id p Hid. rewrite Ht in Hid. destruct (Hrt _ _ Hid) as (t & Hp & <-). specialize (Hs p).
      rewrite Hp in Hs. inversion Hs as [? t' [? _]|]; subst. eauto.
    + intros p Hin%Hq%Hrq. specialize (Hs p). destruct Hin as [t Hp]. rewrite Hp in Hs.
      inversion Hs; subst. eauto.
    + intros p t Hp. specialize (Hs p). rewrite Hp in Hs. inversion Hs; subst. rewrite Hb. by eapply Hrb.
    + by rewrite Ho, Hl.
    + by rewrite Hl.
Qed.

Lemma cancel_cell_same text now t :
  ID (t_request (cancel_cell text now t)) = ID (t_request t) ∧ t_meter (cancel_cell text now t) = t_meter t.
Proof. done. Qed.

Lemma cancel_queued_same {D} hit (dec : taskState → D → bool * D) text now q h d :
  let '(q', h', _) := cancel_queued hit dec text now q h d in
  same_cells h h' ∧ ∀ p, p ∈ q' → p ∈ q.
Proof.
  revert h d. induction q as [|p q IH]; intros h d; cbn [cancel_queued]; [done|].
  assert (∀ h0 d0, same_cells h h0 →
    let '(q', h', _) := (let '(q', h', d') := cancel_queued hit dec text now q h0 d0 in (p :: q', h', d')) in
    same_cells h h' ∧ ∀ x, x ∈ q' → x ∈ p :: q) as Hkeep.
  { intros h0 d0 H0. specialize (IH h0 d0). destruct (cancel_queued _ _ _ _ _ _ _) as [[q' h'] d'].
    destruct IH as [IH1 IH2]. split; [by etrans|]. set_solver. }
  destruct (h !! p) as [t|] eqn:Hp; [|by apply Hkeep].
  destruct (hit t); [|by apply Hkeep]. destruct (dec t d) as [[] d']; [|by apply Hkeep].
  specialize (IH (<[p := cancel_cell text now t]> h) d').
  destruct (cancel_queued _ _ _ _ _ _ _) as [[q' h'] d'']. destruct IH as [IH1 IH2].
  split; [|set_solver]. etrans; [|exact IH1]. intros x.
  destruct (decide (p = x)) as [<-|]; [rewrite lookup_insert_eq, Hp; by constructor|].
  rewrite lookup_insert_ne by done. apply same_cells_refl.
Qed.

(** A call that keeps the invariant and the totals. *)
Definition kept (r r' : Registry) : Prop := reg_ok r → reg_ok r' ∧ totals r' = totals r.

#[local] Instance kept_refl : Reflexive kept.
Proof. by intros r. Qed.
#[local] Instance kept_trans : Transitive kept.
Proof. intros r1 r2 r3 H12 H23 [H2 E2]%H12. destruct (H23 H2) as [H3 E3]. split; [done|congruence]. Qed.

Lemma kept_same_cells r r' :
  same_cells (heap r) (heap r') → brk r' = brk r → tasks r' = tasks r →
  (∀ p, p ∈ queue r' → p ∈ queue r) →
  terminalOrder r' = terminalOrder r → terminalLimit r' = terminalLimit r →
  cumulative r' = cumulative r → kept r r'.
Proof. intros. intros Hok. destruct (same_cells_step r r') as [? Hk]; auto. Qed.

(** Updating a cell without touching identifier and meter. *)
Lemma kept_update r p f :
  (∀ t, ID (t_request (f t)) = ID (t_request t) ∧ t_meter (f t) = t_meter t) → kept r (update_cell p f r).
Proof. intros Hf. apply kept_same_cells; try done. by apply same_cells_alter. Qed.

Lemma kept_snapshot r p now : kept r (snapshotTaskLocked p now r).2.
Proof. by apply kept_update. Qed.

(** Fields outside the invariant and the totals. *)
Lemma kept_fields r r' :
  heap r' = heap r → brk r' = brk r → tasks r' = tasks r → queue r' = queue r →
  terminalOrder r' = terminalOrder r → terminalLimit r' = terminalLimit r →
  cumulative r' = cumulative r → kept r r'.
Proof. intros Hh Hb Ht Hq Ho Hl Hc. apply kept_same_cells; rewrite ?Hh, ?Hq; try done. Qed.

Lemma cell_metric_insert_old f h p t q : p ≠ q → cell_metric f (<[p := t]> h) q = cell_metric f h q.
Proof. intros. unfold cell_metric. by rewrite lookup_insert_ne. Qed.

(** A new attempt under a free identifier. *)
Lemma kept_enqueue_new r id t :
  tasks r !! id = None → ID (t_request t) = id → t_meter t = zero_meter → kept r (enqueue_new id t r).2.
Proof.
  intros Hnone Hid Hm Hok. split; [by apply reg_ok_enqueue|].
  assert (∀ f, f zero_meter = 0 →
    map_sum (cell_metric f (<[brk r := t]> (heap r))) (<[id := brk r]> (tasks r)) =
    map_sum (cell_metric f (heap r)) (tasks r)) as Hsum.
  { intros f Hf. rewrite map_sum_insert_new by done. unfold cell_metric at 1.
    rewrite lookup_insert_eq, Hm, Hf. rewrite Z.add_0_l. apply map_sum_ext. intros k p Hp.
    destruct (ok_tasks _ Hok _ _ Hp) as (t' & Ht' & _). apply (ok_brk _ Hok) in Ht'.
    apply cell_metric_insert_old. lia. }
  unfold totals. simpl. by rewrite !Hsum by done.
Qed.

(** A retry: the old attempt's meter moves into the archived counters. *)
Lemma kept_enqueue_retry r id p old t :
  tasks r !! id = Some p → heap r !! p = Some old → ID (t_request t) = id → t_meter t = zero_meter →
  kept r (enqueue_new id t (removeTerminalLocked id (archiveOldTaskMetricsLocked (Some old) r))).2.
Proof.
  intros Hp Hold Hid Hm Hok. split.
  { apply reg_ok_enqueue; [|done]. destruct Hok as [? ? ? Ho ?]. split; try done. simpl.
    pose proof (remove_first_length id (terminalOrder r)). lia. }
  assert (∀ f, f zero_meter = 0 →
    map_sum (cell_metric f (<[brk r := t]> (heap r))) (<[id := brk r]> (tasks r)) =
    map_sum (cell_metric f (heap r)) (tasks r) - f (t_meter old)) as Hsum.
  { intros f Hf. rewrite (map_sum_insert _ _ _ _ _ Hp). unfold cell_metric at 3.
    rewrite lookup_insert_eq, Hm, Hf, Z.add_0_r.
    assert (∀ k q, tasks r !! k = Some q →
              cell_metric f (<[brk r := t]> (heap r)) q = cell_metric f (heap r) q) as Heq.
    { intros k q Hq. destruct (ok_tasks _ Hok _ _ Hq) as (t' & Ht' & _). apply (ok_brk _ Hok) in Ht'.
      apply cell_metric_insert_old. lia. }
    rewrite (map_sum_ext _ _ _ Heq), (Heq _ _ Hp). unfold cell_metric at 2. by rewrite Hold. }
  unfold totals. simpl. rewrite !Hsum by done. f_equal; lia.
Qed.

Lemma prune_loop_totals fuel r :
  (∀ id p, tasks r !! id = Some p → ∃ t, heap r !! p = Some t ∧ ID (t_request t) = id) →
  totals (prune_loop fuel r) = totals r.
Proof.
  revert r. induction fuel as [|fuel IH]; intros r Ht; simpl; [done|].
  destruct (terminalOrder r) as [|oldest rest]; [done|]. destruct (_ <? _); [|done].
  simpl. destruct (tasks r !! oldest) as [p|] eqn:Hp; [|by rewrite IH].
  destruct (Ht _ _ Hp) as (t & Hheap & _). rewrite Hheap. rewrite IH.
  - unfold totals. simpl. rewrite !(map_sum_delete _ _ _ _ Hp). unfold cell_metric at 2 4 6. rewrite Hheap.
    f_equal; lia.
  - simpl. intros id q [_ ?]%lookup_delete_Some. eauto.
Qed.

Lemma kept_finish r p id st o path : kept r (finish_at p id st o path r).
Proof.
  intros Hok. split; [by apply reg_ok_finish|]. unfold finish_at.
  assert (kept r (update_cell p (finish_cell st o path) r)) as Hk.
  { apply kept_update. intros t. split; [apply finish_cell_ID|].
    unfold finish_cell. case_decide; destruct (isTerminal st); done. }
  destruct (Hk Hok) as [Hok1 Htot]. rewrite <- Htot. unfold pruneTerminalOrderLocked.
  rewrite prune_loop_totals; [by case_decide|]. case_decide; apply Hok1.
Qed.

(** ** Every call *)

Lemma kept_Submit q now r : kept r (Submit q now r).2.
Proof.
  unfold Submit. destruct (validateRequest q); [|done]. simpl.
  destruct (tasks r !! ID q) as [p|] eqn:Hp.
  - destruct (heap r !! p) as [old|] eqn:Hold; [|done]. case_decide as Heq; [done|].
    destruct (_ && _)%bool; [|apply kept_snapshot].
    destruct (_ <=? _); [done|]. etrans; [|apply kept_snapshot].
    by eapply kept_enqueue_retry.
  - destruct (_ <=? _); [done|]. etrans; [|apply kept_snapshot]. by apply kept_enqueue_new.
Qed.

Lemma let_snapshot {E D} (e : ptr * Registry) now (d : D) :
  (let (p, r) := e in let (snap, r) := snapshotTaskLocked p now r in (@Ok E _ snap, r, d)).1.2 =
  (snapshotTaskLocked e.1 now e.2).2.
Proof. by destruct e. Qed.

Lemma kept_Retry {D E} id fb (dec : string → D → res E unit * D) now r d :
  match fb with Some q => ID q = id | None => True end →
  kept r (RetryTaskWithDecider id fb dec now r d).1.2.
Proof.
  intros Hfb. unfold RetryTaskWithDecider. destruct (_ <=? _); [done|].
  destruct (tasks r !! id) as [p|] eqn:Hp.
  - destruct (heap r !! p) as [old|] eqn:Hold.
    + destruct (negb _); [done|]. destruct (dec _ d) as [[|] d']; [|done].
      intros Hok. destruct (ok_tasks _ Hok _ _ Hp) as (t & Ht & Hid). simplify_eq. revert Hok.
      rewrite let_snapshot. match goal with |- _ → reg_ok ?r' ∧ _ => change (kept r r') end.
      etrans; [|apply kept_snapshot]. by eapply kept_enqueue_retry.
    + intros Hok. exfalso. destruct (ok_tasks _ Hok _ _ Hp) as (t & Ht & _). congruence.
  - destruct fb as [q|]; [|done]. destruct (dec _ d) as [[|] d']; [|done].
    rewrite let_snapshot.
    etrans; [|apply kept_snapshot]. by apply kept_enqueue_new.
Qed.

Lemma kept_Next now r : kept r (Next now r).2.
Proof.
  unfold Next. destruct (queue r) as [|p rest] eqn:Hq; [done|]. destruct (paused r); [done|].
  apply kept_same_cells; try (by destruct rest).
  - destruct rest; by apply same_cells_alter.
  - rewrite Hq. intros x. destruct rest; simpl; set_solver.
Qed.

Lemma kept_Requeue h r : kept r (Requeue h r).2.
Proof.
  unfold Requeue. destruct (heap r !! h_ptr h) as [t|] eqn:Hp; [|done]. destruct (isTerminal _); [done|].
  intros Hok. destruct (kept_update r (h_ptr h) (with_state StateQueued) ltac:(done) Hok) as [Hok' Ht].
  split; [|done]. destruct Hok'. split; try done. simpl.
  intros q [Hin|Hin%list_elem_of_singleton]%elem_of_app; [auto|]. subst.
  rewrite lookup_alter_eq, Hp. simpl. eauto.
Qed.

Lemma kept_FinishTask id gen st cl m p a sha now r : kept r (FinishTask id gen st cl m p a sha now r).2.
Proof.
  unfold FinishTask. destruct (tasks r !! id) as [q|]; [|done]. destruct (heap r !! q); [|done].
  case_decide; [done|]. destruct (isTerminal _); [done|]. apply kept_finish.
Qed.

Lemma kept_FinishByMessage o ch mid gen st cl m p a sha now r :
  kept r (FinishTaskByMessage o ch mid gen st cl m p a sha now r).2.
Proof.
  induction o as [|id o IH]; cbn [FinishTaskByMessage]; [done|].
  destruct (tasks r !! id) as [q|]; [|done]. destruct (heap r !! q); [|done].
  destruct (_ && _)%bool; [|done]. case_decide; [done|]. destruct (isTerminal _); [done|].
  apply kept_finish.
Qed.

Lemma kept_Cancel id reason now r : kept r (Cancel id reason now r).
Proof.
  unfold Cancel. pose proof (cancel_queued_same (λ t, bool_decide (ID (t_request t) = id))
    (λ _ (d : unit), (true, d)) (or_else reason "task canceled") now (queue r) (heap r) tt) as Hc.
  destruct (cancel_queued _ _ _ _ _ _ _) as [[q h] d]. destruct Hc as [Hs Hq].
  trans (with_queue q (with_heap h r)); [by apply kept_same_cells|].
  destruct (tasks _ !! id) as [p|]; [|by apply kept_fields].
  etrans; [apply (kept_update _ p (λ t, if isTerminal (t_state t) then t
             else cancel_cell (or_else reason "task canceled") now t))|by apply kept_fields].
  intros t. by destruct (isTerminal _).
Qed.

Lemma kept_cancel_tasks {D} ch (dec : string → Z → string → D → bool * D) text now order r d :
  kept r (cancel_tasks ch dec text now order r d).1.
Proof.
  revert r d. induction order as [|id order IH]; intros r d; cbn [cancel_tasks]; [done|].
  destruct (tasks r !! id) as [p|]; [|apply IH]. destruct (heap r !! p) as [t|]; [|apply IH].
  destruct (_ && _)%bool; [|apply IH]. destruct (dec _ _ _ d) as [[] d']; [|apply IH].
  etrans; [|apply IH]. by apply kept_update.
Qed.

Lemma kept_CancelChat {D} ch (dec : string → Z → string → D → bool * D) order now r d :
  kept r (CancelTasksByChatIDWithDecider ch dec order now r d).1.
Proof.
  unfold CancelTasksByChatIDWithDecider.
  pose proof (cancel_queued_same (peer_matches ch)
    (λ t, dec (Peer (t_request t)) (MessageID (t_request t)) (attemptGen t))
    "target disabled by user" now (queue r) (heap r) d) as Hc.
  destruct (cancel_queued _ _ _ _ _ _ _) as [[q h] d1]. destruct Hc as [Hs Hq].
  pose proof (kept_cancel_tasks ch dec "target disabled by user" now order (with_queue q (with_heap h r)) d1) as Ht.
  destruct (cancel_tasks _ _ _ _ _ _ _) as [r2 d2]. simpl in *.
  trans (with_queue q (with_heap h r)); [by apply kept_same_cells|].
  etrans; [exact Ht|by apply kept_fields].
Qed.

Lemma kept_finishWithGen h st a b c m rt ow fp al sha now r :
  kept r (finishWithGen h st a b c m rt ow fp al sha now r).2.
Proof.
  unfold finishWithGen. destruct (heap r !! h_ptr h); [|done]. destruct (stale h _); [done|].
  destruct (isTerminal _); [done|]. apply kept_finish.
Qed.

Lemma kept_task_update h f r :
  (∀ t, ID (t_request (f t)) = ID (t_request t) ∧ t_meter (f t) = t_meter t) → kept r (task_update h f r).
Proof. intros Hf. apply kept_update. intros t. by destruct (_ || _)%bool. Qed.

(** The invariant alone, for the calls that write meters. *)
Lemma reg_ok_task h c r : reg_ok r → reg_ok (exec_task h c r).
Proof.
  intros Hok. destruct c; simpl.
  - by apply kept_task_update.
  - by apply kept_task_update.
  - by apply kept_task_update.
  - by apply kept_task_update.
  - by apply reg_ok_cells.
  - unfold RecordProgress. destruct (_ <=? 0); [done|]. destruct (heap r !! h_ptr h) as [t|]; [|done].
    destruct (_ || _)%bool; [done|].
    destruct (_ <=? 0).
    { by apply reg_ok_cells. }
    eapply reg_ok_same; [..|apply (reg_ok_cells r (h_ptr h)); [|exact Hok]]; try done.
  - unfold RecordWrite. destruct (_ || _)%bool; [done|]. destruct (heap r !! h_ptr h) as [t|]; [|done].
    destruct (stale h t); [done|]. destruct (_ <? offset); [done|]. destruct (_ <=? offset); [done|].
    destruct (TaskRanges.addRange _ _ _) as [rs u]. destruct (u =? 0); [by apply reg_ok_cells|].
    destruct (hasNetworkProgress _); [by apply reg_ok_cells|].
    eapply reg_ok_same; [..|apply reg_ok_cells; [|apply (reg_ok_cells r (h_ptr h)); [|exact Hok]]]; try done.
  - unfold SucceedResult. apply kept_finishWithGen. by apply reg_ok_cells.
  - unfold FailDisposition. case_decide; apply kept_finishWithGen; [done|]. by apply reg_ok_cells.
Qed.

Lemma kept_reg c r : match c with CTask _ _ => False | _ => well_addressed c end → kept r (exec_reg c r).
Proof.
  destruct c; simpl; intros Hw.
  - apply kept_Submit.
  - apply kept_Retry. by destruct fallback.
  - apply kept_Next.
  - apply kept_Requeue.
  - apply kept_FinishTask.
  - apply kept_FinishByMessage.
  - apply kept_Cancel.
  - apply kept_CancelChat.
  - by apply kept_fields.
  - done.
Qed.

Definition exec_all (cs : list reg_call) (r : Registry) : Registry := foldl (λ r c, exec_reg c r) r cs.

Lemma reg_ok_new cap limit : reg_ok (NewRegistry cap limit).
Proof.
  split; simpl; try done; try set_solver; destruct (limit <? 1) eqn:?; go_bool; lia.
Qed.

Lemma reg_ok_reg c r : well_addressed c → reg_ok r → reg_ok (exec_reg c r).
Proof.
  intros Hw Hok. destruct c; try (apply kept_reg; [exact Hw|exact Hok]). by apply reg_ok_task.
Qed.

Lemma reg_ok_all cs r : Forall well_addressed cs → reg_ok r → reg_ok (exec_all cs r).
Proof.
  intros Hf. revert r. induction Hf as [|c cs Hc _ IH]; intros r Hr; [done|].
  by apply IH, reg_ok_reg.
Qed.

(** ** Properties *)


Definition sample (id : string) : TaskRequest := Request id "chat" 7 "a/7.mp4" 100 false "" "" "" 0 0.
Definition sample_retry (id : string) : TaskRequest := Request id "chat" 7 "a/7.mp4" 100 true "" "" "" 0 0.

(** Submit, run, record a write and telemetry, fail. *)
Definition first_attempt : list reg_call :=
  [CSubmit (sample "t") 5; CNext 6; CTask (Handle 0 "1") CDownloading;
   CTask (Handle 0 "1") (CWrite 0 40 7); CTask (Handle 0 "1") (CTelemetry 40 55 15 3 2 "1-p1");
   CTask (Handle 0 "1") (CFail (Disp "transfer" "download" "network" false true "gotd" "" "eof" None) 8)].


(** Retrying, pruning, cancelling, finishing and the other registry calls lose no
    statistics: the wire bytes, payload bytes and retries that [Status] reports are the
    same before and after, although the old attempt's cell is dropped. *)
Theorem totals_conserved (cap limit : Z) (cs : list reg_call) (c : reg_call) :
  Forall well_addressed cs → well_addressed c → (∀ h tc, c ≠ CTask h tc) →
  let r := exec_all cs (NewRegistry cap limit) in totals (exec_reg c r) = totals r.
Proof.
  intros Hf Hw Hc r. apply kept_reg; [|by apply reg_ok_all, reg_ok_new].
  destruct c; try done. by eapply Hc.
Qed.

Lemma totals_conserved_witness :
  let r := exec_all first_attempt (NewRegistry 4 2) in
  totals (exec_reg (CSubmit (sample_retry "t") 9) r) = totals r.
Proof.
  apply (totals_conserved 4 2 first_attempt (CSubmit (sample_retry "t") 9)); [|done|done].
  repeat constructor.
Defined.

(** The retry really moved the meters into the archived counters. *)
Example retry_archives_meters :
  let r := exec_all (first_attempt ++ [CSubmit (sample_retry "t") 9]) (NewRegistry 4 2) in
  cumulative r = Metrics 55 40 2 ∧ totals r = Metrics 55 40 2 ∧ queue r = [1%nat] ∧ terminalOrder r = [].
Proof. vm_compute. done. Qed.

(** What an attempt's end is made of. *)
Definition verdict (t : taskState) : TaskRequest * TaskState * outcome * bool :=
  (t_request t, t_state t, t_outcome t, canceled t).

Lemma finishWithGen_terminal h st a b c m rt ow fp al sha now r t :
  heap r !! h_ptr h = Some t → isTerminal (t_state t) = true →
  finishWithGen h st a b c m rt ow fp al sha now r = (false, r).
Proof. intros Hp Ht. unfold finishWithGen. rewrite Hp, Ht. by destruct (stale h t). Qed.

(** Calls on a handle touch the handle's cell only. *)
Lemma exec_task_frame h c r q :
  q ≠ h_ptr h → heap (exec_task h c r) !! q = heap r !! q.
Proof.
  intros Hne. assert (∀ f r, heap (update_cell (h_ptr h) f r) !! q = heap r !! q) as Hup
    by (intros; by apply lookup_alter_ne).
  assert (∀ fuel r, heap (prune_loop fuel r) = heap r) as Hprune.
  { induction fuel as [|fuel IH]; intros r0; simpl; [done|]. destruct (terminalOrder r0); [done|].
    destruct (_ <? _); [|done]. simpl. destruct (tasks r0 !! _) as [p|]; rewrite IH; [|done].
    by destruct (heap r0 !! p). }
  assert (∀ st a b c m rt ow fp al sha now r,
            heap (finishWithGen h st a b c m rt ow fp al sha now r).2 !! q = heap r !! q) as Hfin.
  { intros. unfold finishWithGen. destruct (heap r0 !! h_ptr h); [|done]. destruct (stale h _); [done|].
    destruct (isTerminal _); [done|]. simpl. unfold finish_at, pruneTerminalOrderLocked.
    rewrite Hprune. case_decide; apply Hup. }
  destruct c; simpl.
  - apply Hup.
  - apply Hup.
  - apply Hup.
  - apply Hup.
  - apply Hup.
  - unfold RecordProgress. repeat case_match; try done; apply Hup.
  - unfold RecordWrite. destruct (_ || _)%bool; [done|]. destruct (heap r !! h_ptr h); [|done].
    destruct (stale h _); [done|]. destruct (_ <? offset); [done|]. destruct (_ <=? offset); [done|].
    destruct (TaskRanges.addRange _ _ _) as [rs u]. destruct (u =? 0); [apply Hup|].
    destruct (hasNetworkProgress _); [apply Hup|]. cbn [heap with_feed snd]. by rewrite !Hup.
  - unfold SucceedResult. rewrite Hfin. apply Hup.
  - unfold FailDisposition. rewrite Hfin. case_decide; [done|apply Hup].
Qed.

(** An ended attempt is final: no call on a handle to a terminal cell changes its state,
    its request, its recorded outcome or the registry's maps and queue; late telemetry may
    only move its byte counters. *)
Theorem terminal_attempt_is_frozen (h : Task) (c : task_call) (r : Registry) (t : taskState) :
  heap r !! h_ptr h = Some t → isTerminal (t_state t) = true →
  tasks (exec_task h c r) = tasks r ∧ queue (exec_task h c r) = queue r ∧
  terminalOrder (exec_task h c r) = terminalOrder r ∧
  ∃ t', heap (exec_task h c r) !! h_ptr h = Some t' ∧ verdict t' = verdict t.
Proof.
  intros Hp Ht.
  assert (∀ f, (∀ t, verdict (f t) = verdict t) →
            ∃ t', alter f (h_ptr h) (heap r) !! h_ptr h = Some t' ∧ verdict t' = verdict t) as Hup.
  { intros f Hf. rewrite lookup_alter_eq, Hp. simpl. eauto. }
  assert (∀ f, ∃ t', alter (λ t, if stale h t || isTerminal (t_state t) then t else f t) (h_ptr h) (heap r)
                       !! h_ptr h = Some t' ∧ verdict t' = verdict t) as Htu.
  { intros f. rewrite lookup_alter_eq, Hp. simpl. rewrite Ht, orb_true_r. eauto. }
  destruct c; simpl; try (split_and!; [done|done|done|by first [apply Htu|apply Hup]]).
  - unfold RecordProgress. rewrite Hp, Ht, orb_true_r. destruct (_ <=? 0); split_and!; eauto.
  - unfold RecordWrite. rewrite Hp. destruct (_ || _)%bool; [split_and!; eauto|].
    destruct (stale h _); [split_and!; eauto|]. destruct (_ <? offset); [split_and!; eauto|].
    destruct (_ <=? offset); [split_and!; eauto|].
    destruct (TaskRanges.addRange _ _ _) as [rs u]. destruct (u =? 0).
    { split_and!; [done|done|done|by apply Hup]. }
    destruct (hasNetworkProgress _); (split_and!; [done|done|done|]); [by apply Hup|].
    cbn [heap with_feed snd update_cell with_heap]. rewrite lookup_alter_eq, lookup_alter_eq, Hp. simpl. eauto.
  - unfold SucceedResult. erewrite finishWithGen_terminal; [split_and!; [done|done|done|]|..].
    + by apply Hup.
    + simpl. rewrite lookup_alter_eq, Hp. reflexivity.
    + done.
  - unfold FailDisposition. case_decide.
    + erewrite finishWithGen_terminal; [split_and!; eauto|done|done].
    + erewrite finishWithGen_terminal; [split_and!; [done|done|done|by apply Hup]| |].
      * simpl. rewrite lookup_alter_eq, Hp. reflexivity.
      * done.
Qed.

Lemma terminal_attempt_is_frozen_witness :
  let r := exec_all first_attempt (NewRegistry 4 2) in
  let r' := exec_task (Handle 0 "1") (CSucceed (Publish "a/7.mp4" false "d" 9 0 0 0 "") 9) r in
  tasks r' = tasks r ∧ queue r' = queue r ∧ terminalOrder r' = terminalOrder r ∧
  ∃ t', heap r' !! 0%nat = Some t' ∧
        Some (verdict t') = verdict <$> heap r !! 0%nat.
Proof.
  cbv zeta. destruct (heap (exec_all first_attempt (NewRegistry 4 2)) !! 0%nat) as [t|] eqn:Ht;
    [|vm_compute in Ht; discriminate].
  destruct (terminal_attempt_is_frozen (Handle 0 "1") (CSucceed (Publish "a/7.mp4" false "d" 9 0 0 0 "") 9)
    (exec_all first_attempt (NewRegistry 4 2)) t Ht) as (H1 & H2 & H3 & t' & H4 & H5).
  - vm_compute in Ht. injection Ht as <-. reflexivity.
  - split; [exact H1|]. split; [exact H2|]. split; [exact H3|]. exists t'. split; [exact H4|].
    simpl. by rewrite H5.
Defined.

(** Attempts are isolated: a retry gets a cell of its own, and no call on any handle that
    existed before, in whatever number and order, changes that cell. *)
Theorem retry_isolates_attempts (q : TaskRequest) (now : Z) (r : Registry) (snap : option TaskSnapshot)
    (r' : Registry) (calls : list (Task * task_call)) :
  reg_ok r → Submit q now r = (Ok (snap, true), r') →
  Forall (λ hc, is_Some (heap r !! h_ptr hc.1)) calls →
  tasks r' !! ID q = Some (brk r) ∧ heap r !! brk r = None ∧
  (∃ t, heap r' !! brk r = Some t ∧ t_state t = StateQueued ∧ t_meter t = zero_meter) ∧
  heap (foldl (λ r hc, exec_task hc.1 hc.2 r) r' calls) !! brk r = heap r' !! brk r.
Proof.
  intros Hok Hsub Hcalls.
  assert (heap r !! brk r = None) as Hfresh.
  { destruct (heap r !! brk r) as [t|] eqn:Ht; [|done]. apply (ok_brk _ Hok) in Ht. lia. }
  assert (tasks r' !! ID q = Some (brk r) ∧
          ∃ t, heap r' !! brk r = Some t ∧ t_state t = StateQueued ∧ t_meter t = zero_meter) as [Htask Hcell].
  { revert Hsub. unfold Submit. destruct (validateRequest q); [|done]. simpl.
    destruct (tasks r !! ID q) as [p|]; [destruct (heap r !! p); [|done]; case_decide; [done|];
      destruct (_ && _)%bool; [|done]|]; (destruct (_ <=? _); [done|]); intros [= _ <-]; simpl;
      rewrite lookup_insert_eq, lookup_alter_eq, lookup_insert_eq; (split; [done|]);
      eexists; (split; [reflexivity|done]). }
  split_and!; [done|done|done|]. clear -Hfresh Hcalls. revert r'.
  induction Hcalls as [|[h c] calls [t Ht] _ IH]; intros r'; simpl; [done|].
  rewrite IH. apply exec_task_frame. simpl in *. intros Heq. congruence.
Qed.

Lemma retry_isolates_attempts_witness :
  let r := exec_all first_attempt (NewRegistry 4 2) in
  let r' := (Submit (sample_retry "t") 9 r).2 in
  tasks r' !! "t" = Some (brk r) ∧ heap r !! brk r = None ∧
  (∃ t, heap r' !! brk r = Some t ∧ t_state t = StateQueued ∧ t_meter t = zero_meter) ∧
  heap (foldl (λ r hc, exec_task hc.1 hc.2 r) r' [(Handle 0 "1", CWrite 50 10 9); (Handle 0 "1", CDownloading)])
    !! brk r = heap r' !! brk r.
Proof.
  cbv zeta. eapply (retry_isolates_attempts (sample_retry "t") 9 (exec_all first_attempt (NewRegistry 4 2))).
  - apply reg_ok_all; [repeat constructor|apply reg_ok_new].
  - vm_compute. reflexivity.
  - repeat constructor; vm_compute; eexists; reflexivity.
Defined.

Lemma prune_loop_tasks fuel r id p :
  tasks (prune_loop fuel r) !! id = Some p → tasks r !! id = Some p.
Proof.
  revert r. induction fuel as [|fuel IH]; intros r; simpl; [done|]. destruct (terminalOrder r); [done|].
  destruct (_ <? _); [|done]. simpl. destruct (tasks r !! _) as [q|] eqn:Hq; intros Hid%IH; [|done].
  destruct (heap r !! q); simpl in Hid; by apply lookup_delete_Some in Hid as [_ ?].
Qed.
Lemma prune_loop_heap fuel r : heap (prune_loop fuel r) = heap r.
Proof.
  revert r. induction fuel as [|fuel IH]; intros r; simpl; [done|]. destruct (terminalOrder r); [done|].
  destruct (_ <? _); [|done]. simpl. destruct (tasks r !! _) as [p|]; rewrite IH; [|done].
  by destruct (heap r !! p).
Qed.

(** An ending is accepted once: after [FinishTask] accepted a terminal status for an
    attempt, no later [FinishTask] for the same generation is accepted, so at most one
    caller is authorised to write the database. *)
Theorem finish_accepted_once (id gen : string) (st st2 : TaskState) (cl m path cl2 m2 path2 : string)
    (a a2 : bool) (sha sha2 : string) (now now2 : Z) (r r' : Registry) :
  isTerminal st = true →
  FinishTask id gen st cl m path a sha now r = (FinishAcceptedNewTerminal, r') →
  (FinishTask id gen st2 cl2 m2 path2 a2 sha2 now2 r').1 ∈
    [FinishAlreadySameTerminal; FinishConflictingTerminal; FinishNotFound].
Proof.
  intros Hst. unfold FinishTask. destruct (tasks r !! id) as [p|] eqn:Hp; [|done].
  destruct (heap r !! p) as [t|] eqn:Ht; [|done]. case_decide as Hg; [done|].
  destruct (isTerminal (t_state t)); [by case_decide|]. intros [= <-].
  unfold finish_at, pruneTerminalOrderLocked. set (r1 := if decide _ then _ else _).
  destruct (tasks (prune_loop _ _) !! id) as [p'|] eqn:Hp'; [|set_solver].
  apply prune_loop_tasks in Hp'. rewrite prune_loop_heap.
  assert (tasks r1 !! id = Some p ∧ heap r1 !! p = Some (finish_cell st (late_outcome t cl m a sha now) path t))
    as [Hp1 Hh1].
  { unfold r1. case_decide; simpl; rewrite lookup_alter_eq, Ht; done. }
  simpl in Hp'. rewrite Hp1 in Hp'. injection Hp' as <-. simpl. rewrite Hh1.
  assert (t_state (finish_cell st (late_outcome t cl m a sha now) path t) = st ∧
          attemptGen (finish_cell st (late_outcome t cl m a sha now) path t) = attemptGen t) as [-> ->].
  { unfold finish_cell. rewrite Hst. by case_decide. }
  rewrite decide_False by done. rewrite Hst. case_decide; set_solver.
Qed.

Lemma finish_accepted_once_witness :
  let r := exec_all [CSubmit (sample "t") 5; CNext 6] (NewRegistry 4 2) in
  let r' := (FinishTask "t" "1" StateSuccess "" "" "a/7.mp4" false "d" 7 r).2 in
  (FinishTask "t" "1" StateFailed "io" "late" "" false "" 8 r').1 ∈
    [FinishAlreadySameTerminal; FinishConflictingTerminal; FinishNotFound].
Proof.
  cbv zeta. eapply (finish_accepted_once "t" "1" StateSuccess StateFailed "" "" "a/7.mp4" "io" "late" ""
    false false "d" "" 7 8 (exec_all [CSubmit (sample "t") 5; CNext 6] (NewRegistry 4 2)));
    [reflexivity|vm_compute; reflexivity].
Defined.

(** Admission respects the queue's capacity: submitting or retrying never makes the queue
    longer than its capacity (if it was not), and on a full queue no attempt is created, no
    cell is touched beyond a snapshot, and the durable decision is not even asked for. *)
Theorem admission_respects_capacity {D E} (q : TaskRequest) (id : string) (fb : option TaskRequest)
    (dec : string → D → res E unit * D) (now : Z) (r : Registry) (d : D) :
  let r1 := (Submit q now r).2 in
  let '(res2, r2, d2) := RetryTaskWithDecider id fb dec now r d in
  (Z.of_nat (length (queue r)) <= queueCapacity r →
     Z.of_nat (length (queue r1)) <= queueCapacity r ∧ Z.of_nat (length (queue r2)) <= queueCapacity r) ∧
  (queueCapacity r <= Z.of_nat (length (queue r)) →
     brk r1 = brk r ∧ queue r1 = queue r ∧ tasks r1 = tasks r ∧
     res2 = Err (inl ErrQueueFull) ∧ r2 = r ∧ d2 = d).
Proof.
  assert (let '(res2, r2, d2) := RetryTaskWithDecider id fb dec now r d in
    (Z.of_nat (length (queue r)) <= queueCapacity r → Z.of_nat (length (queue r2)) <= queueCapacity r) ∧
    (queueCapacity r <= Z.of_nat (length (queue r)) → res2 = Err (inl ErrQueueFull) ∧ r2 = r ∧ d2 = d)) as Hretry.
  { unfold RetryTaskWithDecider. destruct (_ <=? _) eqn:Hf; go_bool; [done|].
    set (old := match tasks r !! id with Some p => heap r !! p | None => None end).
    destruct old as [t|]; simpl.
    - destruct (negb _); [split; [done|lia]|]. destruct (dec _ d) as [[|] d']; simpl; [|split; [done|lia]].
      split; [|lia]. intros _. rewrite length_app. simpl. lia.
    - destruct fb; simpl; [|split; [done|lia]]. destruct (dec _ d) as [[|] d']; simpl; [|split; [done|lia]].
      split; [|lia]. intros _. rewrite length_app. simpl. lia. }
  assert (let r1 := (Submit q now r).2 in
    (Z.of_nat (length (queue r)) <= queueCapacity r → Z.of_nat (length (queue r1)) <= queueCapacity r) ∧
    (queueCapacity r <= Z.of_nat (length (queue r)) → brk r1 = brk r ∧ queue r1 = queue r ∧ tasks r1 = tasks r))
    as Hsub.
  { unfold Submit. destruct (validateRequest q); [|done]. simpl.
    destruct (tasks r !! ID q) as [p|]; [destruct (heap r !! p); [|done]; case_decide; [done|];
      destruct (_ && _)%bool; [|done]|]; (destruct (_ <=? _) eqn:Hf; go_bool; [done|]); simpl;
      rewrite length_app; simpl; split; intros; lia. }
  destruct (RetryTaskWithDecider id fb dec now r d) as [[res2 r2] d2].
  destruct Hretry as [H1 H2], Hsub as [H3 H4]. split; [auto|]. intros Hfull.
  destruct (H2 Hfull) as (? & ? & ?), (H4 Hfull) as (? & ? & ?). done.
Qed.

(** A meter that counts what its ranges cover. *)
Definition counts_ranges (m : meter) : Prop :=
  wf (ranges m) ∧ downloaded m = Z.of_nat (size (bytes (ranges m))).

(** The part of a write that lies inside the file. *)
Definition clipped (total offset sz : Z) : Z :=
  if 0 <? total then Z.min total (offset + sz) else offset + sz.

(** [RecordWrite] counts unique bytes: as long as a task's counter is the number of
    distinct bytes its writes covered, a further write of any position and overlap keeps it
    so, clipped to the file, and the value returned is the number of bytes not seen before. *)
Theorem record_write_counts_unique_bytes (h : Task) (offset sz now : Z) (r : Registry) (t : taskState) :
  heap r !! h_ptr h = Some t → stale h t = false → counts_ranges (t_meter t) →
  0 <= offset → 0 < sz → offset + sz <= int64_max → offset < clipped (totalSize t) offset sz →
  let '(unique, r') := RecordWrite h offset sz now r in
  ∃ t', heap r' !! h_ptr h = Some t' ∧ counts_ranges (t_meter t') ∧
    bytes (ranges (t_meter t')) = bytes (ranges (t_meter t)) ∪ range_set offset (clipped (totalSize t) offset sz) ∧
    unique = downloaded (t_meter t') - downloaded (t_meter t).
Proof.
  intros Hp Hst [Hwf Hcount] Ho Hs Hmax Hclip. unfold RecordWrite. rewrite Hp, Hst.
  rewrite (proj2 (Z.leb_gt sz 0)), (proj2 (Z.ltb_ge offset 0)) by lia.
  cbn [orb]. rewrite wrap64_id by (unfold in_int64, int64_min; lia).
  rewrite (proj2 (Z.ltb_ge (offset + sz) offset)) by lia.
  assert ((if (0 <? totalSize t) && (totalSize t <? offset + sz) then totalSize t else offset + sz) =
          clipped (totalSize t) offset sz) as ->.
  { unfold clipped. destruct (0 <? totalSize t); simpl; [|done].
    destruct (_ <? _) eqn:?; go_bool; lia. }
  rewrite (proj2 (Z.leb_gt _ offset)) by done.
  pose proof (addRange_spec (ranges (t_meter t)) offset (clipped (totalSize t) offset sz) Hwf ltac:(lia)) as Hadd.
  destruct (TaskRanges.addRange _ _ _) as [rs u]. destruct Hadd as (_ & Hwf' & Hb & Hu).
  destruct (u =? 0) eqn:Hu0; go_bool.
  - eexists. cbn [heap update_cell with_heap]. rewrite lookup_alter_eq, Hp. split; [reflexivity|].
    unfold counts_ranges. simpl. split_and!; [done|lia|done|lia].
  - assert (∀ t0, t_meter t0 = Meter (downloaded (t_meter t) + u) (wireBytes (t_meter t)) (replayBytes (t_meter t))
        (requestCount (t_meter t)) (physicalRetries (t_meter t)) (physicalAttemptID (t_meter t)) rs
        (hasNetworkProgress (t_meter t)) (netDownloaded (t_meter t)) →
      counts_ranges (t_meter t0) ∧ bytes (ranges (t_meter t0)) =
        bytes (ranges (t_meter t)) ∪ range_set offset (clipped (totalSize t) offset sz) ∧
      u = downloaded (t_meter t0) - downloaded (t_meter t)) as Hdone.
    { intros t0 ->. unfold counts_ranges. simpl. split_and!; [done|lia|done|lia]. }
    destruct (hasNetworkProgress (t_meter t)); eexists;
      cbn [heap update_cell with_heap with_feed]; rewrite !lookup_alter_eq, Hp;
      (split; [reflexivity|by apply Hdone]).
Qed.

Lemma record_write_counts_unique_bytes_witness :
  let r := exec_all [CSubmit (sample "t") 5; CNext 6; CTask (Handle 0 "1") (CWrite 0 40 7)] (NewRegistry 4 2) in
  let '(unique, r') := RecordWrite (Handle 0 "1") 30 90 8 r in
  ∃ t t', heap r !! 0%nat = Some t ∧ heap r' !! 0%nat = Some t' ∧ counts_ranges (t_meter t') ∧
    bytes (ranges (t_meter t')) = bytes (ranges (t_meter t)) ∪ range_set 30 (clipped (totalSize t) 30 90) ∧
    unique = downloaded (t_meter t') - downloaded (t_meter t).
Proof.
  cbv zeta. destruct (heap (exec_all [CSubmit (sample "t") 5; CNext 6; CTask (Handle 0 "1") (CWrite 0 40 7)]
    (NewRegistry 4 2)) !! 0%nat) as [t|] eqn:Ht; [|vm_compute in Ht; discriminate].
  pose proof (record_write_counts_unique_bytes (Handle 0 "1") 30 90 8 _ t Ht) as Hr.
  vm_compute in Ht. injection Ht as <-.
  destruct (RecordWrite _ _ _ _ _) as [u r'].
  destruct Hr as (t' & H1 & H2); [reflexivity| |lia|lia|unfold int64_max; lia|vm_compute; reflexivity|].
  - split; [unfold wf; simpl; lia|reflexivity].
  - eexists _, t'. split; [reflexivity|]. split; [exact H1|exact H2].
Defined.

(** An accepted request cannot name a file outside the output directory: its path joined
    to an absolute root lies at or below the root, component by component. *)
Theorem accepted_path_stays_inside (q : TaskRequest) (root : string) :
  validateRequest q = Ok tt → FinalPath q ≠ "" → FinalPath q ≠ "." → IsAbs root = true →
  comps (Join root (FinalPath q)) = comps root ++ comps (FinalPath q) ∧
  Forall plain (comps (FinalPath q)).
Proof.
  intros Hv Hne Hdot Ha. unfold validateRequest in Hv.
  destruct (_ || ContainsAny (ID q) _)%bool; [discriminate Hv|]. destruct (is_blank _); [discriminate Hv|].
  destruct (MessageID q <=? 0); [discriminate Hv|]. destruct (ExpectedSize q <? 0); [discriminate Hv|].
  rewrite decide_False in Hv by done.
  destruct (_ || HasPrefix (FinalPath q) "/")%bool eqn:Hr; [discriminate Hv|]. go_bool.
  destruct (_ || HasPrefix (Clean _) "../")%bool eqn:Hc; [discriminate Hv|]. go_bool.
  assert (Clean (FinalPath q) = FinalPath q) as Hcl by (by apply dec_stable).
  assert (Forall plain (comps (FinalPath q))) as Hp by (by apply comps_rel_plain_strict).
  split; [|done]. assert (FinalPath q = join_slash (comps (FinalPath q))) as Hj.
  { rewrite <- Hcl at 1. unfold Clean. unfold IsAbs. rewrite H0. destruct (comps (FinalPath q)) eqn:He; [|done].
    exfalso. apply Hdot. rewrite <- Hcl. unfold Clean, IsAbs. by rewrite H0, He. }
  rewrite Hj at 1. apply Join_plain; [done| |done]. intros He. rewrite He in Hj. by rewrite Hj in Hne.
Qed.

Lemma accepted_path_stays_inside_witness :
  comps (Join "/srv/out" "a/..b/7.mp4") = comps "/srv/out" ++ comps "a/..b/7.mp4" ∧
  Forall plain (comps "a/..b/7.mp4").
Proof.
  apply (accepted_path_stays_inside (Request "t" "chat" 7 "a/..b/7.mp4" 100 false "" "" "" 0 0) "/srv/out");
    [vm_compute; reflexivity|done|done|reflexivity].
Defined.

(** ** Where the code falls short *)

(** Finishing a task that is still queued does not take it off the queue: the next worker
    gets it, and its terminal state is overwritten by 'resolving', after the ending was
    accepted. *)
Theorem finished_task_is_resurrected :
  let r := exec_all [CSubmit (sample "t") 5;
                     CFinishTask "t" "1" StateSuccess "" "" "a/7.mp4" true "d" 6] (NewRegistry 4 2) in
  t_state <$> heap r !! 0%nat = Some StateSuccess ∧
  (Next 7 r).1 = Some (Handle 0 "1") ∧
  t_state <$> heap (Next 7 r).2 !! 0%nat = Some StateResolving.
Proof. vm_compute. done. Qed.

(** Canceled tasks escape the bound on ended tasks: [Cancel] never enters them in the
    terminal order, so they are never pruned and the map grows with every cancellation. *)
Theorem canceled_tasks_are_never_pruned :
  let submit_cancel id now := [CSubmit (sample id) now; CCancel id "" now] in
  let r := exec_all (submit_cancel "a" 1 ++ submit_cancel "b" 2 ++ submit_cancel "c" 3) (NewRegistry 4 1) in
  size (tasks r) = 3%nat ∧ terminalLimit r = 1 ∧ terminalOrder r = [] ∧
  (∀ id, id ∈ ["a"; "b"; "c"] → ∃ p t, tasks r !! id = Some p ∧ heap r !! p = Some t ∧ isTerminal (t_state t) = true).
Proof.
  cbv zeta. split_and!; [vm_compute; reflexivity..|]. intros id Hid.
  apply elem_of_cons in Hid as [->|[->|[->|[]%elem_of_nil]%elem_of_cons]%elem_of_cons];
    vm_compute; eexists _, _; split_and!; reflexivity.
Qed.

(** [Requeue] does not look at the capacity: a worker that gives back its task while the
    queue has been refilled makes the queue longer than its capacity. *)
Theorem requeue_exceeds_capacity :
  let r := exec_all [CSubmit (sample "a") 1; CNext 2; CSubmit (sample "b") 3; CRequeue (Handle 0 "1")]
             (NewRegistry 1 1) in
  queueCapacity r = 1 ∧ length (queue r) = 2%nat.
Proof. vm_compute. done. Qed.
