(* ===== verification/World.v ===== *)
(** * The daemon's world

    The state that the archive worker, the recovery code and the orchestrator act on
    together: the file system, the database and the registry, with the lifts of the
    operations of each. Every system call and every SQL statement may fail on the way. *)
From S2P Require Import Prelude Paths Fscommit Sql Downloads Registry.

Record world := World { w_fs : fs; w_sql : sqlst; w_reg : option Registry }.

Definition W (A : Type) : Type := SM world A.

Definition on_fs {A} (m : FS A) : W A := λ w,
  let (a, f) := m (w_fs w) in (a, World f (w_sql w) (w_reg w)).
Definition on_db {A} (m : DB A) : W (res dberr A) := λ w,
  let (a, s) := m (w_sql w) in (a, World (w_fs w) s (w_reg w)).
(** A registry call whose result the caller drops; nothing when the registry is nil. *)
Definition on_reg (f : Registry → Registry) : W unit := λ w,
  (tt, World (w_fs w) (w_sql w) (f <$> w_reg w)).

(** The tables and files of a world. *)
Definition w_tabs (w : world) : db := tabs (w_sql w).
Definition w_files (w : world) : disk := files (w_fs w).

(** ** Error texts *)

Definition errno_text (e : errno) : string :=
  match e with
  | EEXIST => "file exists"
  | ENOENT => "no such file or directory"
  | ENOTDIR => "not a directory"
  | EISDIR => "is a directory"
  | ENOTEMPTY => "directory not empty"
  | ENOSYS => "function not implemented"
  | EINVAL => "invalid argument"
  | EOPNOTSUPP => "operation not supported"
  | EIO => "input/output error"
  | EPERM => "operation not permitted"
  | ENOSPC => "no space left on device"
  end.
(** The text of a commit error; the paths formatted into it are left out. *)
Definition commit_text (e : commit_err) : string :=
  match e with
  | ErrTargetExists => "file already exists"
  | ErrNotSibling => "partPath and finalPath must be siblings in the same directory"
  | CommitErr op e => op +:+ ": " +:+ errno_text e
  end.

(** ** Reading files *)

(** [os.Open] and reading to the end. *)
Definition ReadFile (p : string) : FS (res errno string) :=
  sys (λ d, (match d !! p with
             | Some (FileNode data) => Ok data
             | Some DirNode => Err EISDIR
             | None => Err ENOENT
             end, d)).

Section Digest.
Context (sha256Hex : string → string).

(** [ComputeSSDFileSHA256] and [ComputeArchiveFileSHA256] of storage_meter.go, which differ
    in the counter the bytes read are added to. *)
Definition ComputeFileSHA256 (p : string) : FS (res errno string) :=
  do! r := ReadFile p in
  done! (match r with Ok data => Ok (sha256Hex data) | Err e => Err e end).

(** A file with this size and digest is at the path. *)
Definition has_proof (p : string) (size : Z) (sha : string) (d : disk) : Prop :=
  ∃ data, d !! p = Some (FileNode data) ∧ Z.of_nat (String.length data) = size ∧ sha256Hex data = sha.

Lemma ReadFile_spec p s r s' :
  ReadFile p s = (r, s') →
  files s' = files s ∧ match r with Ok data => files s !! p = Some (FileNode data) | Err _ => True end.
Proof.
  intros [(e & -> & ?)|Heq]%sys_files; [done|]. injection Heq as <- <-. split; [done|].
  by destruct (files s !! p) as [[]|].
Qed.

Lemma ComputeFileSHA256_spec p s r s' :
  ComputeFileSHA256 p s = (r, s') →
  files s' = files s ∧
  match r with Ok h => ∃ data, files s !! p = Some (FileNode data) ∧ h = sha256Hex data | Err _ => True end.
Proof.
  unfold ComputeFileSHA256, sm_bind, sm_ret. destruct (ReadFile p s) as [r0 s0] eqn:Hr.
  apply ReadFile_spec in Hr as [Hf Hr]. intros [= <- <-]. split; [done|].
  destruct r0; [|done]. eauto.
Qed.

(** A stat and a digest that agree with a proof establish it. *)
Lemma stat_digest_proof p n d data :
  d !! p = Some n → d !! p = Some (FileNode data) → has_proof p (node_size n) (sha256Hex data) d.
Proof. intros H1 H2. exists data. simplify_eq. done. Qed.

End Digest.

(** ** Files that stay *)

(** What is at [q] stays there. *)
Definition fkeeps {A} (q : string) (m : FS A) : Prop :=
  ∀ s n, files s !! q = Some n → files (m s).2 !! q = Some n.

Section FKeeps.
Context (q : string).

Lemma fkeeps_same {A} (m : FS A) : (∀ s, files (m s).2 = files s) → fkeeps q m.
Proof. intros Hm s n. by rewrite Hm. Qed.
Lemma fkeeps_bind {A B} (m : FS A) (k : A → FS B) : fkeeps q m → (∀ x, fkeeps q (k x)) → fkeeps q (sm_bind m k).
Proof.
  intros Hm Hk s n Hn. unfold sm_bind. specialize (Hm s n Hn). destruct (m s) as [x s']. by apply Hk.
Qed.
Lemma fkeeps_sys {A} (f : disk → res errno A * disk) :
  (∀ d n, d !! q = Some n → (f d).2 !! q = Some n) → fkeeps q (sys f).
Proof.
  intros Hf s n Hn. destruct (sys f s) as [r s'] eqn:Hs. apply sys_files in Hs as [(e & _ & He)|Hs].
  { simpl. by rewrite He. }
  specialize (Hf (files s) n Hn). by rewrite Hs in Hf.
Qed.
Lemma fkeeps_Stat p : fkeeps q (Stat p).
Proof. by apply fkeeps_sys. Qed.
Lemma fkeeps_Fsync : fkeeps q Fsync.
Proof. by apply fkeeps_sys. Qed.
Lemma fkeeps_SHA sha p : fkeeps q (ComputeFileSHA256 sha p).
Proof. apply fkeeps_bind; [by apply fkeeps_sys|]. by intros x s. Qed.
Lemma fkeeps_Remove p : p ≠ q → fkeeps q (Remove p).
Proof.
  intros Hne s n Hn. destruct (Remove p s) as [r s'] eqn:Hr.
  apply Remove_spec in Hr as [Hr|[_ Hr]]; simpl; rewrite Hr; [done|]. by rewrite lookup_delete_ne.
Qed.
Lemma fkeeps_put p data : p ≠ q → fkeeps q (put_data p data).
Proof. intros Hne s n Hn. simpl. by rewrite lookup_insert_ne. Qed.
Lemma fkeeps_MkdirAll p : fkeeps q (MkdirAll p).
Proof. apply fkeeps_sys. intros d n. apply mkdir_all_persist. Qed.
Lemma fkeeps_commit p f : p ≠ q → fkeeps q (CommitSiblingPart p f).
Proof.
  intros Hne s n Hn. destruct (CommitSiblingPart p f s) as [r s'] eqn:Hc. apply CommitSiblingPart_spec in Hc.
  assert (files s' = files s ∨ committed p f (files s) (files s')) as [Heq|Hco]
    by (destruct r; [by right|destruct Hc as [?|[? _]]; auto]); simpl; [by rewrite Heq|].
  destruct Hco as (data & _ & Hf & _ & _ & Hq). rewrite Hq; [done|done|]. intros ->. congruence.
Qed.
End FKeeps.
