(* ===== verification/Archive.v ===== *)
(** * The archive worker (app/daemon/archive.go)

    [processJob] moves one finished file from the SSD root to the archive root: it
    verifies, copies through a ".moving" sibling, commits without replacing, marks the job
    in the database and only then deletes the source. [ProcessNext] claims a due job and
    runs it. *)
From S2P Require Import Prelude Paths Fscommit Sql ArchiveJobs Downloads Registry World.

Section Archive.
Context (sha256Hex : string → string).

(** ** The worker *)

Record ArchiveWorker := Worker { downloadDir : string; archiveDir : string }.

Inductive worker_err := SameDirectory | ArchiveInsideDownload | DownloadInsideArchive.

(** [filepath.Rel] succeeds and does not climb. *)
Definition inside (base p : string) : bool :=
  match Rel base p with Some rel => negb (HasPrefix rel "..") | None => false end.

(** [NewArchiveWorker] on directories made absolute. *)
Definition NewArchiveWorker (cleanDownload cleanArchive : string) : res worker_err ArchiveWorker :=
  if decide (cleanArchive = "") then Ok (Worker cleanDownload "")
  else if decide (cleanDownload = cleanArchive) then Err SameDirectory
  else if inside cleanDownload cleanArchive then Err ArchiveInsideDownload
  else if inside cleanArchive cleanDownload then Err DownloadInsideArchive
  else Ok (Worker cleanDownload cleanArchive).

Definition IsEnabled (w : option ArchiveWorker) : bool :=
  match w with Some w => bool_decide (archiveDir w ≠ "") | None => false end.

Definition job_key (j : ArchiveJob) : key := (j_ChatID j, j_MessageID j).

(** [filepath.Clean(filepath.FromSlash(...))] and its guard. *)
Definition bad_rel (cleanRel : string) : bool :=
  bool_decide (cleanRel = ".") || bool_decide (cleanRel = "/") || HasPrefix cleanRel ".." || IsAbs cleanRel.

(** The failures that end a job for now. *)
Definition fail_job (j : ArchiveJob) (msg : string) (now : Z) : W unit :=
  do! _ := on_db (FailArchiveJob (job_key j) (j_ClaimID j) msg now) in done! tt.
Definition conflict_job (j : ArchiveJob) (msg : string) (now : Z) : W unit :=
  do! _ := on_db (SetArchiveJobConflict (job_key j) (j_ClaimID j) msg now) in done! tt.

(** Mark the job archived and, if the database took it, delete the SSD source and sync its
    directory; [missing_ok] when a source that is already gone counts as deleted. *)
Definition complete_and_remove (missing_ok : bool) (j : ArchiveJob) (srcPath : string) (now : Z) : W unit :=
  do! c := on_db (CompleteArchiveJob (job_key j) (j_ClaimID j) (j_SHA256 j) now) in
  match c with
  | Err _ => done! tt
  | Ok _ =>
      do! r := on_fs (Remove srcPath) in
      if is_ok r || (missing_ok && bool_decide (r = Err ENOENT)) then
        do! _ := on_fs (FsyncDir (Dir srcPath)) in done! tt
      else done! tt
  end.

(** Step 1: the target exists. *)
Definition existing_target (j : ArchiveJob) (srcPath dstPath : string) (dst : node) (now : Z) : W unit :=
  let mismatch := conflict_job j "destination file exists with conflicting content" now in
  if node_size dst =? j_ExpectedSize j then
    do! h := on_fs (ComputeFileSHA256 sha256Hex dstPath) in
    match h with
    | Ok sha => if decide (sha = j_SHA256 j) then complete_and_remove true j srcPath now else mismatch
    | Err _ => mismatch
    end
  else mismatch.

(** Steps 4 to 8: copy to the ".moving" sibling, verify, commit, complete. [io] says how
    the streams behave. *)
Definition copy_and_commit (j : ArchiveJob) (srcPath dstPath : string) (io : stream_faults) (now : Z)
    : W unit :=
  let movingPath := dstPath +:+ ".moving" in
  do! src := on_fs (ReadFile srcPath) in
  match src with
  | Err e => fail_job j ("open SSD source: " +:+ errno_text e) now
  | Ok data =>
      do! op := on_fs (sys (λ d, match d !! movingPath with
                                 | Some DirNode => (Err EISDIR, d)
                                 | _ => (Ok tt, <[movingPath := FileNode ""]> d)
                                 end)) in
      match op with
      | Err e => fail_job j ("open archive destination: " +:+ errno_text e) now
      | Ok _ =>
          let '(out, written, r) := CopyStreamSequential sha256Hex data io in
          do! _ := on_fs (put_data movingPath out) in
          match r with
          | Err (op, e) =>
              do! _ := on_fs (Remove movingPath) in
              fail_job j ("copy file: " +:+ op +:+ ": " +:+ errno_text e) now
          | Ok actualSHA =>
              if decide (written ≠ j_ExpectedSize j ∨ actualSHA ≠ j_SHA256 j) then
                do! _ := on_fs (Remove movingPath) in
                fail_job j "copied file size or sha mismatch" now
              else
                do! c := on_fs (CommitSiblingPart movingPath dstPath) in
                match c with
                | Err e =>
                    if is_exist e then
                      conflict_job j "archive destination already exists during final commit" now
                    else fail_job j ("archive final commit: " +:+ commit_text e) now
                | Ok _ => complete_and_remove false j srcPath now
                end
          end
      end
  end.

(** Steps 2 and 3: the source must be there with the expected size. *)
Definition check_source (j : ArchiveJob) (srcPath dstPath : string) (io : stream_faults) (now : Z) : W unit :=
  do! st := on_fs (Stat srcPath) in
  match st with
  | Err ENOENT => fail_job j ("SSD source missing: " +:+ errno_text ENOENT) now
  | Err e => fail_job j ("stat SSD source: " +:+ errno_text e) now
  | Ok n =>
      if negb (node_size n =? j_ExpectedSize j) then
        conflict_job j ("SSD source size mismatch: got " +:+ itoa (node_size n) +:+ " want " +:+
                        itoa (j_ExpectedSize j)) now
      else
        do! mk := on_fs (MkdirAll (Dir dstPath)) in
        match mk with
        | Err e => fail_job j ("mkdir archive dir: " +:+ errno_text e) now
        | Ok _ => copy_and_commit j srcPath dstPath io now
        end
  end.

Definition processJob (w : ArchiveWorker) (j : ArchiveJob) (io : stream_faults) (now : Z) : W unit :=
  if is_blank (j_SHA256 j) then fail_job j "archive job rejected: empty SHA256 proof" now
  else
    let cleanRel := Clean (j_RelativePath j) in
    if bad_rel cleanRel then fail_job j "archive job rejected: invalid relative path" now
    else
      let srcPath := Join (downloadDir w) cleanRel in
      let dstPath := Join (archiveDir w) cleanRel in
      if negb (inside (downloadDir w) srcPath) then fail_job j "srcPath escapes downloadDir" now
      else if negb (inside (archiveDir w) dstPath) then fail_job j "dstPath escapes archiveDir" now
      else
        do! dst := on_fs (Stat dstPath) in
        match dst with
        | Ok n => existing_target j srcPath dstPath n now
        | Err _ => check_source j srcPath dstPath io now
        end.

(** [ProcessNext]; [claimID] is built from the clock and the process id. *)
Definition ProcessNext (w : option ArchiveWorker) (claimID : string) (io : stream_faults) (now : Z) : W bool :=
  match w with
  | Some w0 =>
      if IsEnabled w then
        do! js := on_db (GetDueArchiveJobs now 1) in
        match js with
        | Ok (j :: _) =>
            do! c := on_db (ClaimArchiveJob (job_key j) claimID now) in
            match c with
            | Ok true =>
                let j := Job (j_ChatID j) (j_MessageID j) (j_RelativePath j) (j_ExpectedSize j) (j_SHA256 j)
                           (j_State j) (j_Attempts j) (j_NextRetryAt j) claimID (j_LastError j)
                           (j_CreatedAt j) (j_UpdatedAt j) in
                do! _ := processJob w0 j io now in done! true
            | _ => done! false
            end
        | _ => done! false
        end
      else done! false
  | None => done! false
  end.

(** ** What a job may do to the files *)

(** Nodes present before are present after. *)
Definition persist (w w' : world) : Prop :=
  ∀ q n, w_files w !! q = Some n → w_files w' !! q = Some n.

Definition archived_at (j : ArchiveJob) (dst : string) (w : world) : Prop :=
  (∃ row, jobs (w_tabs w) !! job_key j = Some row ∧ state row = "archived" ∧ a_sha256 row = j_SHA256 j) ∧
  has_proof sha256Hex dst (j_ExpectedSize j) (j_SHA256 j) (w_files w).

(** Only the ".moving" file and, once the job is archived, the source may go. *)
Definition job_post (j : ArchiveJob) (src dst : string) (w w' : world) : Prop :=
  ∀ q n, q ≠ dst +:+ ".moving" → w_files w !! q = Some n →
    w_files w' !! q = Some n ∨ (q = src ∧ archived_at j dst w').

Lemma job_post_persist j src dst w w' : persist w w' → job_post j src dst w w'.
Proof. intros Hp q n _ Hq. left. by apply Hp. Qed.
Lemma persist_job_post j src dst w1 w2 w3 :
  persist w1 w2 → job_post j src dst w2 w3 → job_post j src dst w1 w3.
Proof. intros H12 H23 q n Hq Hn. eauto. Qed.

Lemma on_fs_reads {A} (m : FS A) w a w' :
  on_fs m w = (a, w') → (∀ s a s', m s = (a, s') → files s' = files s) →
  w_files w' = w_files w ∧ w_sql w' = w_sql w.
Proof.
  unfold on_fs, w_files. intros Heq Hm. destruct (m (w_fs w)) as [a0 s0] eqn:He. simplify_eq/=.
  split; [by eapply Hm|done].
Qed.

Lemma persist_fail j msg now w : persist w (fail_job j msg now w).2.
Proof.
  intros q n. unfold fail_job, sm_bind, on_db, w_files. destruct (FailArchiveJob _ _ _ _ _). simpl. auto.
Qed.
Lemma persist_conflict j msg now w : persist w (conflict_job j msg now w).2.
Proof.
  intros q n. unfold conflict_job, sm_bind, on_db, w_files. destruct (SetArchiveJobConflict _ _ _ _ _). simpl. auto.
Qed.

Lemma CompleteArchiveJob_ok k c sha now s s' :
  CompleteArchiveJob k c sha now s = (Ok tt, s') →
  ∃ row, jobs (tabs s') !! k = Some row ∧ state row = "archived" ∧ a_sha256 row = sha.
Proof.
  unfold CompleteArchiveJob, st_bind, update_job, query, stmt, st_ret, st_err.
  destruct (hd false (faults s)); simpl; [done|].
  destruct (jobs (tabs s) !! k) as [row|] eqn:Hk; simpl;
    [|destruct (hd false _); simpl; [done|]; by rewrite Hk].
  destruct (_ && _)%bool eqn:Hg; simpl.
  - intros [= <-]. simpl. rewrite lookup_insert_eq. eexists. split; [reflexivity|]. go_bool. done.
  - destruct (hd false (tl (faults s))); simpl; [done|]. rewrite Hk. simpl.
    clear Hg. repeat case_decide; intros Hx; simplify_eq/=; eauto.
Qed.

Lemma complete_and_remove_post ok j src dst now w :
  src ≠ dst → has_proof sha256Hex dst (j_ExpectedSize j) (j_SHA256 j) (w_files w) →
  job_post j src dst w (complete_and_remove ok j src now w).2.
Proof.
  intros Hne Hproof. unfold complete_and_remove, sm_bind, sm_ret, on_db.
  destruct (CompleteArchiveJob _ _ _ _ _) as [[[]|] s1] eqn:Hc;
    [|apply job_post_persist; by intros q n].
  apply CompleteArchiveJob_ok in Hc. simpl.
  destruct (on_fs (Remove src) _) as [r w1] eqn:Hr.
  assert (w_sql w1 = s1 ∧ (w_files w1 = w_files w ∨ w_files w1 = delete src (w_files w))) as [Hs Hf].
  { revert Hr. unfold on_fs. simpl. destruct (Remove src (w_fs w)) as [r0 f0] eqn:He.
    apply Remove_spec in He. intros [= <- <-]. split; [done|]. unfold w_files. simpl. tauto. }
  assert (∀ w2, w_sql w2 = w_sql w1 → w_files w2 = w_files w1 → job_post j src dst w w2) as Hgo.
  { intros w2 Hs2 Hf2 q n _ Hq. rewrite Hf2. destruct Hf as [Hf|Hf]; rewrite Hf; [by left|].
    destruct (decide (q = src)) as [->|]; [right|left; by rewrite lookup_delete_ne].
    split; [done|]. split; [unfold w_tabs; by rewrite Hs2, Hs|].
    rewrite Hf2, Hf. destruct Hproof as (data & Hd & ? & ?). exists data.
    by rewrite lookup_delete_ne. }
  destruct (is_ok r || _)%bool; [|by apply Hgo]. destruct (on_fs (FsyncDir _) w1) as [r2 w2] eqn:Hfs.
  apply on_fs_reads in Hfs as [Hf2 Hs2]; [by apply Hgo|].
  intros s x s'. unfold FsyncDir, syncDir, sm_bind. destruct (open_dir _ s) as [ro so] eqn:Ho.
  apply sys_reads in Ho. destruct ro; [|intros [= _ <-]; done]. intros Hx%sys_reads. congruence.
Qed.

Lemma existing_target_post j src dst n now w :
  src ≠ dst → w_files w !! dst = Some n → job_post j src dst w (existing_target j src dst n now w).2.
Proof.
  intros Hne Hn. unfold existing_target.
  destruct (_ =? _) eqn:Hsz; go_bool; [|apply job_post_persist, persist_conflict].
  unfold sm_bind. destruct (on_fs _ w) as [h w1] eqn:Hh.
  assert (w_files w1 = w_files w ∧
          match h with Ok x => ∃ data, w_files w !! dst = Some (FileNode data) ∧ x = sha256Hex data | Err _ => True end)
    as [Hf Hp].
  { revert Hh. unfold on_fs. destruct (ComputeFileSHA256 _ _ _) as [r f] eqn:Hc.
    apply ComputeFileSHA256_spec in Hc. intros [= <- <-]. exact Hc. }
  assert (persist w w1) as Hper by (intros q m; by rewrite Hf).
  destruct h as [x|]; [|apply (persist_job_post _ _ _ _ _ _ Hper), job_post_persist, persist_conflict].
  case_decide as Hx; [|apply (persist_job_post _ _ _ _ _ _ Hper), job_post_persist, persist_conflict].
  apply (persist_job_post _ _ _ _ _ _ Hper), complete_and_remove_post; [done|]. rewrite Hf, <- Hsz, <- Hx.
  destruct Hp as (data & Hd & ->). by apply stat_digest_proof.
Qed.

Lemma on_fs_persist {A} (m : FS (res errno A)) w r w' :
  on_fs m w = (r, w') → (∀ s r s', m s = (r, s') → ∀ q n, files s !! q = Some n → files s' !! q = Some n) →
  persist w w'.
Proof.
  unfold on_fs, persist, w_files. intros Heq Hm. destruct (m (w_fs w)) as [r0 s0] eqn:He. simplify_eq/=.
  by eapply Hm.
Qed.

(** Everything but the ".moving" file is as it was. *)
Definition but_moving (mv : string) (d d' : disk) : Prop := ∀ q, q ≠ mv → d' !! q = d !! q.

Lemma copy_and_commit_post j src dst io now w :
  src ≠ dst → src ≠ dst +:+ ".moving" → dst ≠ dst +:+ ".moving" →
  job_post j src dst w (copy_and_commit j src dst io now w).2.
Proof.
  intros Hne Hsm Hdm. set (mv := dst +:+ ".moving") in *.
  assert (∀ w1 w2, but_moving mv (w_files w) (w_files w1) → persist w1 w2 → job_post j src dst w w2) as Hgo.
  { intros w1 w2 H1 H2 q n Hq Hn. left. apply H2. fold mv in Hq. by rewrite H1. }
  unfold copy_and_commit, sm_bind. fold mv.
  destruct (on_fs (ReadFile src) w) as [r w1] eqn:Hr.
  assert (w_files w1 = w_files w) as Hf1.
  { apply on_fs_reads in Hr as [? _]; [done|]. by intros s x s' [? _]%ReadFile_spec. }
  destruct r as [data|e]; [|apply (Hgo w1); [intros q _; by rewrite Hf1|apply persist_fail]].
  destruct (on_fs (sys _) w1) as [op w2] eqn:Ho.
  assert (but_moving mv (w_files w) (w_files w2)) as Hf2.
  { revert Ho. unfold on_fs. destruct (sys _ (w_fs w1)) as [r f] eqn:Hs. intros [= <- <-].
    intros q Hq. unfold w_files in *. simpl. rewrite <- Hf1.
    apply sys_files in Hs as [(e & _ & ->)|Hs]; [done|].
    destruct (files (w_fs w1) !! mv) as [[]|]; injection Hs as _ Hs; rewrite <- Hs;
      by rewrite ?lookup_insert_ne by done. }
  destruct op as [u|e]; [|by apply (Hgo w2), persist_fail].
  destruct (CopyStreamSequential sha256Hex data io) as [[out written] r] eqn:Hcopy.
  destruct (on_fs (put_data mv out) w2) as [u3 w3'] eqn:Hw3.
  assert (but_moving mv (w_files w) (w_files w3') ∧ w_files w3' !! mv = Some (FileNode out)) as [Hf3 Hmv].
  { unfold on_fs in Hw3. injection Hw3 as _ <-. unfold w_files. simpl. rewrite lookup_insert_eq.
    split; [|done]. intros q Hq. rewrite lookup_insert_ne by done. by apply Hf2. }
  assert (∀ w4 rr, on_fs (Remove mv) w3' = (rr, w4) → but_moving mv (w_files w) (w_files w4)) as Hrm.
  { intros w4 rr. unfold on_fs. destruct (Remove mv (w_fs w3')) as [r0 f0] eqn:He.
    apply Remove_spec in He. intros [= <- <-]. intros q Hq. unfold w_files. simpl.
    destruct He as [->|[_ ->]]; [by apply Hf3|]. rewrite lookup_delete_ne by done. by apply Hf3. }
  destruct r as [sha|[op e]].
  2: { destruct (on_fs (Remove mv) w3') as [rr w4] eqn:He. by apply (Hgo w4), persist_fail; eapply Hrm. }
  case_decide as Hbad.
  { destruct (on_fs (Remove mv) w3') as [rr w4] eqn:He. by apply (Hgo w4), persist_fail; eapply Hrm. }
  apply Decidable.not_or in Hbad as [Hw%dec_stable Hs%dec_stable].
  destruct (on_fs (CommitSiblingPart mv dst) w3') as [c w4] eqn:Hcm.
  assert (match c with Ok _ => committed mv dst (w_files w3') (w_files w4)
          | Err e => w_files w4 = w_files w3' ∨ committed mv dst (w_files w3') (w_files w4) end) as Hc.
  { revert Hcm. unfold on_fs. destruct (CommitSiblingPart mv dst (w_fs w3')) as [c0 f0] eqn:He.
    apply CommitSiblingPart_spec in He. intros [= <- <-]. unfold w_files. simpl.
    destruct c0; [done|]. destruct He as [?|[? _]]; auto. }
  assert (∀ q n, q ≠ mv → w_files w !! q = Some n → w_files w4 !! q = Some n) as Hkeep.
  { intros q n Hq Hn. rewrite <- Hf3 in Hn by done.
    assert (w_files w4 = w_files w3' ∨ committed mv dst (w_files w3') (w_files w4)) as [->|Hcc]
      by (destruct c; auto); [done|].
    destruct Hcc as (dd & _ & Hnone & _ & _ & Hoth). destruct (decide (q = dst)) as [->|]; [congruence|].
    by rewrite Hoth. }
  destruct c as [u4|e].
  - intros q n Hq Hn. apply (complete_and_remove_post false j src dst now w4 Hne); [|done|by apply Hkeep].
    destruct Hc as (dd & Hd & _ & Hd' & _). rewrite Hmv in Hd. injection Hd as <-.
    exists out. unfold CopyStreamSequential in Hcopy. repeat case_match; simplify_eq. done.
  - intros q n Hq Hn. left.
    destruct (is_exist e); [apply persist_conflict|apply persist_fail]; by apply Hkeep.
Qed.

Lemma check_source_post j src dst io now w :
  src ≠ dst → src ≠ dst +:+ ".moving" → dst ≠ dst +:+ ".moving" →
  job_post j src dst w (check_source j src dst io now w).2.
Proof.
  intros Hne Hsm Hdm. unfold check_source, sm_bind. destruct (on_fs (Stat src) w) as [st w1] eqn:Hst.
  assert (persist w w1) as H1.
  { apply (on_fs_reads (Stat src)) in Hst as [Hf _]; [intros q n; by rewrite Hf|].
    by intros s x s' [? _]%Stat_spec. }
  apply (persist_job_post _ _ _ _ _ _ H1).
  destruct st as [n|e]; [|destruct e; apply job_post_persist, persist_fail].
  destruct (negb _); [apply job_post_persist, persist_conflict|].
  destruct (on_fs (MkdirAll _) w1) as [mk w2] eqn:Hmk.
  assert (persist w1 w2) as H2.
  { eapply on_fs_persist; [exact Hmk|]. intros s r s' Hs q m Hq.
    apply sys_files in Hs as [(e & _ & ->)|Hs]; [done|].
    pose proof (mkdir_all_persist (ancestors (Dir dst)) (files s) q m Hq) as Hp. by rewrite Hs in Hp. }
  apply (persist_job_post _ _ _ _ _ _ H2).
  destruct mk; [by apply copy_and_commit_post|apply job_post_persist, persist_fail].
Qed.

(** ** Paths of a worker *)

Lemma bad_rel_safe rel : bad_rel (Clean rel) = false → safe_rel rel.
Proof. unfold bad_rel, safe_rel. intros Hb. go_bool. split_and!; done. Qed.

Lemma moving_longer dst : dst ≠ dst +:+ ".moving".
Proof.
  intros Heq. apply (f_equal String.length) in Heq. rewrite string_length_app in Heq. simpl in Heq. lia.
Qed.

(** Disjoint roots give distinct source, target and ".moving" paths. *)
Lemma worker_paths_distinct dl ar wk rel :
  NewArchiveWorker dl ar = Ok wk → IsAbs dl = true → IsAbs ar = true → safe_rel rel →
  downloadDir wk = dl ∧ archiveDir wk = ar ∧
  Join dl (Clean rel) ≠ Join ar (Clean rel) ∧ Join dl (Clean rel) ≠ Join ar (Clean rel) +:+ ".moving".
Proof.
  intros Hw Hd Ha Hs. unfold NewArchiveWorker in Hw. rewrite decide_False in Hw by (by intros ->).
  case_decide as Hne; [done|]. destruct (inside dl ar) eqn:Hi; [done|]. destruct (inside ar dl); [done|].
  injection Hw as <-. split; [done|]. split; [done|].
  destruct (safe_rel_comps rel Hs) as (Hp & Hn & Hc). split; intros Heq.
  - apply (f_equal comps) in Heq. destruct (Join_contained dl rel Hd Hs) as [Hcd _].
    destruct (Join_contained ar rel Ha Hs) as [Hca _]. rewrite Hcd, Hca in Heq.
    apply app_inv_tail in Heq. unfold inside, Rel in Hi.
    rewrite (Clean_abs dl Hd), (Clean_abs ar Ha), Heq, decide_True in Hi by done. done.
  - apply (f_equal (λ s, last (split_on slash s))) in Heq. cbv beta in Heq.
    rewrite split_on_last in Heq by (intros Hin; vm_compute in Hin; set_solver).
    rewrite Hc, !last_Join_plain in Heq by done.
    destruct (last (comps rel)) as [c|] eqn:Hl; [|by apply last_None in Hl]. simpl in Heq.
    injection Heq as Heq. by apply moving_longer in Heq.
Qed.

Lemma processJob_post dl ar wk j io now w :
  NewArchiveWorker dl ar = Ok wk → IsAbs dl = true → IsAbs ar = true →
  job_post j (Join dl (Clean (j_RelativePath j))) (Join ar (Clean (j_RelativePath j))) w
    (processJob wk j io now w).2.
Proof.
  intros Hw Hd Ha. unfold processJob. destruct (is_blank _); [apply job_post_persist, persist_fail|].
  destruct (bad_rel _) eqn:Hb; [apply job_post_persist, persist_fail|]. apply bad_rel_safe in Hb.
  destruct (worker_paths_distinct dl ar wk _ Hw Hd Ha Hb) as (-> & -> & Hne & Hsm).
  destruct (negb _); [apply job_post_persist, persist_fail|].
  destruct (negb _); [apply job_post_persist, persist_fail|]. unfold sm_bind.
  destruct (on_fs (Stat _) w) as [st w1] eqn:Hst.
  assert (w_files w1 = w_files w ∧ match st with Ok n => w_files w !! Join ar (Clean (j_RelativePath j)) = Some n
          | Err _ => True end) as [Hf Hn].
  { revert Hst. unfold on_fs. destruct (Stat _ (w_fs w)) as [r f] eqn:Hs. apply Stat_spec in Hs.
    intros [= <- <-]. exact Hs. }
  assert (persist w w1) as H1 by (intros q n; by rewrite Hf).
  apply (persist_job_post _ _ _ _ _ _ H1). destruct st as [n|e].
  - apply existing_target_post; [done|by rewrite Hf].
  - apply check_source_post; [done|done|apply moving_longer].
Qed.

End Archive.

(** Archiving never loses or replaces a file, whatever system calls, SQL statements or
    copies fail: every file present before a job runs is there unchanged afterwards, except
    the job's own ".moving" residue and the SSD source; and the source is gone only when
    the database says the job is archived and a file of the expected size and digest is at
    the target. *)
Theorem archive_never_loses_a_file (sha256Hex : string → string) (dl ar : string) (wk : ArchiveWorker)
    (j : ArchiveJob) (io : stream_faults) (now : Z) (w : world) (q : string) (n : node) :
  NewArchiveWorker dl ar = Ok wk → IsAbs dl = true → IsAbs ar = true →
  let src := Join dl (Clean (j_RelativePath j)) in
  let dst := Join ar (Clean (j_RelativePath j)) in
  let w' := (processJob sha256Hex wk j io now w).2 in
  q ≠ dst +:+ ".moving" → w_files w !! q = Some n →
  w_files w' !! q = Some n ∨
  (q = src ∧ (∃ row, jobs (w_tabs w') !! job_key j = Some row ∧ state row = "archived" ∧ a_sha256 row = j_SHA256 j) ∧
   has_proof sha256Hex dst (j_ExpectedSize j) (j_SHA256 j) (w_files w')).
Proof. intros Hw Hd Ha src dst w' Hq Hn. by apply (processJob_post sha256Hex dl ar wk j io now w Hw Hd Ha). Qed.

(** A world with one file to archive; the digest is the text itself with a mark. *)
Definition toy_sha (s : string) : string := "sha:" +:+ s.
Definition toy_job : ArchiveJob := Job "chat" 7 "a/7.mp4" 4 "sha:data" "copying" 0 0 "c1" "" 1 1.
Definition toy_world : world :=
  World (Fs {[ "/ssd" := DirNode; "/hdd" := DirNode; "/" := DirNode; "/ssd/a" := DirNode;
               "/ssd/a/7.mp4" := FileNode "data" ]} [])
    (Sql (set_jobs {[ ("chat", 7) := ARow "a/7.mp4" 4 "sha:data" "copying" 0 0 "c1" None 1 1 ]} empty_db) [])
    None.
Definition no_faults : stream_faults := Streams None None None.

(** A job that meets no failure is carried out: its file is at the target, the source and
    the ".moving" file are gone, and the job is archived. *)
Theorem archive_job_happy_path :
  let w' := (processJob toy_sha (Worker "/ssd" "/hdd") toy_job no_faults 9 toy_world).2 in
  w_files w' = {[ "/ssd" := DirNode; "/hdd" := DirNode; "/" := DirNode; "/ssd/a" := DirNode;
                  "/hdd/a" := DirNode; "/hdd/a/7.mp4" := FileNode "data" ]} ∧
  (state <$> jobs (w_tabs w') !! ("chat", 7)) = Some "archived".
Proof. vm_compute. done. Qed.

Lemma archive_never_loses_a_file_witness :
  let w' := (processJob toy_sha (Worker "/ssd" "/hdd") toy_job no_faults 9 toy_world).2 in
  w_files w' !! "/ssd/a/7.mp4" = Some (FileNode "data") ∨
  ("/ssd/a/7.mp4" = Join "/ssd" (Clean "a/7.mp4") ∧
   (∃ row, jobs (w_tabs w') !! ("chat", 7) = Some row ∧ state row = "archived" ∧ a_sha256 row = "sha:data") ∧
   has_proof toy_sha (Join "/hdd" (Clean "a/7.mp4")) 4 "sha:data" (w_files w')).
Proof.
  apply (archive_never_loses_a_file toy_sha "/ssd" "/hdd" (Worker "/ssd" "/hdd") toy_job no_faults 9 toy_world
           "/ssd/a/7.mp4" (FileNode "data")); [vm_compute; reflexivity|reflexivity|reflexivity| |reflexivity].
  vm_compute. congruence.
Defined.
