(* ===== verification/Recovery.v ===== *)
(** * Crash recovery (app/daemon/recovery.go)

    [EvaluateCommitSiblingPart], which classifies the result of a commit for the worker and
    for recovery alike; [ReconcileCommittingRecord], the recovery of one record that was
    being committed; and [ReconcileOnStartup], the recovery of everything. *)
From S2P Require Import Prelude Paths Fscommit Sql ArchiveJobs Downloads Registry World Archive.

Section Recovery.
Context (sha256Hex : string → string).

(** ** Commit decisions *)

Inductive CommitDecision :=
| CommitDecisionSuccess (FinalSHA : string)
| CommitDecisionTargetConflict (Disposition : FailureDisposition) (Err : commit_err)
| CommitDecisionIOError (Disposition : FailureDisposition) (Err : commit_err).

Definition conflict_disposition (finalAbsPath : string) (cause : option string) : FailureDisposition :=
  Disp "commit" "target_exists" "target_conflict" false false "none" ""
    ("target exists with conflicting proof against valid part (" +:+ finalAbsPath +:+ ")") cause.

Definition EvaluateCommitSiblingPart (partAbsPath finalAbsPath : string) (authoritativeSize : Z)
    (expectedSHA : string) (commitErr : res commit_err unit) : FS CommitDecision :=
  match commitErr with
  | Ok _ => done! (CommitDecisionSuccess expectedSHA)
  | Err e =>
      let io := CommitDecisionIOError (Disp "commit" "rename" "io" false false "none" "" (commit_text e)
                  (Some (commit_text e))) e in
      let conflict := CommitDecisionTargetConflict
                        (conflict_disposition finalAbsPath (Some (commit_text e))) e in
      if is_exist e then
        do! st := Stat finalAbsPath in
        match st with
        | Ok n =>
            if is_dir n then done! io
            else if node_size n =? authoritativeSize then
              do! h := ComputeFileSHA256 sha256Hex finalAbsPath in
              match h with
              | Ok finSHA =>
                  if decide (finSHA = expectedSHA) then
                    do! _ := Remove partAbsPath in
                    done! (CommitDecisionSuccess finSHA)
                  else done! conflict
              | Err _ => done! conflict
              end
            else done! conflict
        | Err _ => done! io
        end
      else done! io
  end.

(** ** One committing record *)

Inductive recon_err :=
| RDB (e : dberr)
| RConflict                    (* target exists with conflicting proof against valid part *)
| RCommit (e : commit_err).    (* failed to commit valid sibling part *)

Definition rec_key (r : DownloadRecord) : key := (r_ChatID r, r_MessageID r).

(** How the surroundings of one call behave: the order in which a range over the registry's
    map goes, what a test hook (or another process) does to the files before a commit, and
    the clock. *)
Record surroundings := Env { e_order : list string; e_hook : disk → disk; e_now : Z }.

Definition run_hook (f : disk → disk) : FS unit := λ s, (tt, Fs (f (files s)) (osfaults s)).

(** [registry.FinishTaskByMessage(...)], when there is a registry. *)
Definition finish_in_registry (env : surroundings) (r : DownloadRecord) (status : TaskState)
    (class message : string) (sha : string) : W unit :=
  on_reg (λ g, (FinishTaskByMessage (e_order env) (r_ChatID r) (r_MessageID r) (r_AttemptGeneration r) status
                  class message (r_SavePath r) false sha (e_now env) g).2).

(** Complete in the database; an archive conflict counts as completion. *)
Definition complete_record (env : surroundings) (archiveEnabled : bool) (r : DownloadRecord) (sha : string)
    : W (res recon_err unit) :=
  do! c := on_db (CompleteDownloadAndQueueArchive (rec_key r) (r_AttemptGeneration r) (r_SavePath r)
                    (r_FileSize r) sha archiveEnabled (e_now env)) in
  match c with
  | Ok _ | Err ErrArchiveConflict =>
      do! _ := finish_in_registry env r StateSuccess "" "" sha in
      done! (Ok tt)
  | Err e => done! (Err (RDB e))
  end.

(** Record a durable conflict, preserving both files. *)
Definition conflict_record (env : surroundings) (r : DownloadRecord) (disp : FailureDisposition)
    : W (res recon_err unit) :=
  do! c := on_db (RecordTargetConflict (rec_key r) (r_AttemptGeneration r) (r_FileName r) (r_SavePath r)
                    (r_MediaType r) (r_FileSize r) disp (e_now env)) in
  match c with
  | Err e => done! (Err (RDB e))
  | Ok _ =>
      do! _ := finish_in_registry env r StateFailed (Class_ disp) (disp_Error disp) "" in
      done! (Err RConflict)
  end.

(** A stat and a digest: does the file carry the record's proof? *)
Definition file_valid (p : string) (r : DownloadRecord) (n : res errno node) : FS bool :=
  match n with
  | Ok n =>
      if node_size n =? r_FileSize r then
        do! h := ComputeFileSHA256 sha256Hex p in
        done! (match h with
               | Ok sha => bool_decide (r_SHA256 r ≠ "" ∧ sha = r_SHA256 r)
               | Err _ => false
               end)
      else done! false
  | Err _ => done! false
  end.

(** Step 2: the part file is committed when it is valid; [None] when it is not. *)
Definition commit_part (env : surroundings) (archiveEnabled : bool) (r : DownloadRecord)
    (partAbsPath finalAbsPath : string) : W (option (res recon_err unit)) :=
  do! st := on_fs (Stat partAbsPath) in
  do! valid := on_fs (file_valid partAbsPath r st) in
  if valid : bool then
    do! _ := on_fs (run_hook (e_hook env)) in
    do! c := on_fs (CommitSiblingPart partAbsPath finalAbsPath) in
    do! d := on_fs (EvaluateCommitSiblingPart partAbsPath finalAbsPath (r_FileSize r) (r_SHA256 r) c) in
    match d with
    | CommitDecisionSuccess sha =>
        do! x := complete_record env archiveEnabled r sha in done! (Some x)
    | CommitDecisionTargetConflict disp _ =>
        do! x := conflict_record env r disp in done! (Some x)
    | CommitDecisionIOError _ e => done! (Some (Err (RCommit e)))
    end
  else done! None.

(** Step 3: neither file is valid. *)
Definition reset_record (env : surroundings) (r : DownloadRecord) (partAbsPath : string) : W (res recon_err unit) :=
  do! _ := on_fs (Remove partAbsPath) in
  do! u := on_db (UpdateDownloadStatus (rec_key r) "pending" (r_FileName r) (r_SavePath r) (r_MediaType r)
                    (r_FileSize r) "" (e_now env)) in
  done! (match u with Ok _ => Ok tt | Err e => Err (RDB e) end).

Definition commit_or_reset (env : surroundings) (archiveEnabled : bool) (r : DownloadRecord)
    (partAbsPath finalAbsPath : string) : W (res recon_err unit) :=
  do! c := commit_part env archiveEnabled r partAbsPath finalAbsPath in
  match c with
  | Some x => done! x
  | None => reset_record env r partAbsPath
  end.

(** Step 1 found a final file: it is the record's, or it stands in the way of a valid part,
    or neither. The digest is taken before the size is compared. *)
Definition final_valid (p : string) (r : DownloadRecord) (n : node) : FS bool :=
  do! h := ComputeFileSHA256 sha256Hex p in
  done! (match h with
         | Ok sha => bool_decide (r_SHA256 r ≠ "" ∧ node_size n = r_FileSize r ∧ sha = r_SHA256 r)
         | Err _ => false
         end).

Definition ReconcileCommittingRecord (env : surroundings) (ssdDir : string) (archiveEnabled : bool)
    (r : DownloadRecord) : W (res recon_err unit) :=
  let finalAbsPath := Join ssdDir (r_SavePath r) in
  let partAbsPath := finalAbsPath +:+ ".part" in
  let rest := commit_or_reset env archiveEnabled r partAbsPath finalAbsPath in
  do! fin := on_fs (Stat finalAbsPath) in
  match fin with
  | Ok n =>
      if is_dir n then rest
      else
        do! ok := on_fs (final_valid finalAbsPath r n) in
        if ok : bool then
          do! _ := on_fs (Remove partAbsPath) in
          complete_record env archiveEnabled r (r_SHA256 r)
        else
          do! st := on_fs (Stat partAbsPath) in
          do! valid := on_fs (file_valid partAbsPath r st) in
          if valid : bool then
            conflict_record env r (conflict_disposition finalAbsPath None)
          else rest
  | Err _ => rest
  end.

(** ** Startup *)

(** Startup recovery runs before there is a registry: nil is passed. *)
Definition without_registry {A} (m : W A) : W A := λ w,
  let (a, w') := m (World (w_fs w) (w_sql w) None) in (a, World (w_fs w') (w_sql w') (w_reg w)).

(** Run [f] on every element and collect the errors. *)
Fixpoint for_each {A E} (f : A → W (res E unit)) (l : list A) : W (list E) :=
  match l with
  | [] => done! []
  | x :: l =>
      do! r := f x in
      do! es := for_each f l in
      done! (match r with Ok _ => es | Err e => e :: es end)
  end.

(** The errors [ReconcileOnStartup] joins. *)
Inductive startup_err := SRecord (e : recon_err) | SDB (e : dberr).

(** Step 2: an interrupted download loses its part file and goes back to pending. *)
Definition reset_downloading (ssdDir : string) (now : Z) (r : DownloadRecord) : W (res startup_err unit) :=
  do! _ := on_fs (Remove (Join ssdDir (r_SavePath r) +:+ ".part")) in
  do! u := on_db (UpdateDownloadStatus (rec_key r) "pending" (r_FileName r) (r_SavePath r) (r_MediaType r)
                    (r_FileSize r) "" now) in
  done! (match u with Ok _ => Ok tt | Err e => Err (SDB e) end).

(** [UPDATE download_records SET status = 'pending', error = '' WHERE p]. *)
Definition reset_where (p : download_row → bool) (d : db) : db :=
  set_records ((λ r, if p r then set_error (Some "") (set_status "pending" r) else r) <$> records d) d.

Definition is_legacy (r : download_row) : bool :=
  bool_decide (status r = "resolving" ∨ status r = "moving").
Definition is_cancellation (r : download_row) : bool :=
  bool_decide (status r = "failed") &&
  match error r with
  | None => false
  | Some e => like_contains e "context canceled" || like_contains e "context deadline exceeded" ||
              bool_decide (e = "canceled") || bool_decide (e = "task canceled") ||
              like_contains e "forcibly closed"
  end.

(** [INSERT OR IGNORE INTO archive_jobs ... SELECT ... FROM download_records]: a job for every
    success with a digest that has none. A NULL size violates NOT NULL and is ignored. *)
Definition backlog_job (r : download_row) : option archive_row :=
  match save_path r, file_size r, sha256 r with
  | Some p, Some n, Some sha =>
      if bool_decide (status r = "success" ∧ p ≠ "" ∧ sha ≠ "") then
        Some (ARow p n sha "pending" 0 0 "" None (created_at r) (updated_at r))
      else None
  | _, _, _ => None
  end.
Definition backlog_fill (d : db) : db :=
  set_jobs (jobs d ∪ omap backlog_job (records d)) d.

(** Step 5: a copy that was interrupted is completed when the archive holds the file, and
    otherwise queued again. *)
Definition recover_copy (ssdDir archDir : string) (now : Z) (j : ArchiveJob) : W (res startup_err unit) :=
  let dstFinal := Join archDir (j_RelativePath j) in
  let dstMoving := dstFinal +:+ ".moving" in
  let srcPath := Join ssdDir (j_RelativePath j) in
  let requeue :=
    do! _ := on_fs (Remove dstMoving) in
    do! u := on_db (RecoverStaleArchiveJob (job_key j) (j_ClaimID j) now) in
    done! (match u with Ok _ => Ok tt | Err e => Err (SDB e) end) in
  do! st := on_fs (Stat dstFinal) in
  match st with
  | Ok n =>
      if node_size n =? j_ExpectedSize j then
        do! h := on_fs (ComputeFileSHA256 sha256Hex dstFinal) in
        match h with
        | Ok sha =>
            if decide (j_SHA256 j ≠ "" ∧ sha = j_SHA256 j) then
              do! _ := on_fs (Remove dstMoving) in
              do! c := on_db (RecoverArchiveJobComplete (job_key j) (j_ClaimID j) (j_SHA256 j) now) in
              match c with
              | Err e => done! (Err (SDB e))
              | Ok _ => do! _ := on_fs (Remove srcPath) in done! (Ok tt)
              end
            else requeue
        | Err _ => requeue
        end
      else requeue
  | Err _ => requeue
  end.

(** A statement whose only result is an error to collect. *)
Definition startup_exec (f : db → db) : W (list startup_err) :=
  do! u := on_db (exec f) in
  done! (match u with Ok _ => [] | Err e => [SDB e] end).

Definition ReconcileOnStartup (env : surroundings) (ssdDir archDir : string) : W (list startup_err) :=
  let archiveEnabled := bool_decide (archDir ≠ "") in
  do! c := on_db GetPendingCommittingDownloads in
  do! es1 := match c with
             | Err e => done! [SDB e]
             | Ok recs =>
                 do! es := for_each (λ r, without_registry (ReconcileCommittingRecord env ssdDir archiveEnabled r)) recs in
                 done! (SRecord <$> es)
             end in
  do! c := on_db GetStaleDownloadingRecords in
  do! es2 := match c with
             | Err e => done! [SDB e]
             | Ok recs => for_each (reset_downloading ssdDir (e_now env)) recs
             end in
  do! es3 := startup_exec (reset_where is_legacy) in
  do! es4 := startup_exec (reset_where is_cancellation) in
  do! es5 := (if archiveEnabled then
                do! f := startup_exec backlog_fill in
                do! c := on_db GetStaleCopyingArchiveJobs in
                match c with
                | Err e => done! (f ++ [SDB e])
                | Ok js => do! es := for_each (recover_copy ssdDir archDir (e_now env)) js in done! (f ++ es)
                end
              else done! []) in
  done! (es1 ++ es2 ++ es3 ++ es4 ++ es5).

End Recovery.
