(* ===== verification/RecoveryProps.v ===== *)
(** * What recovery guarantees

    A valid copy of a committing file survives recovery; the outcome of recovering a record
    is the one its comments promise; startup leaves no download marked as running. And one
    place where a passing read error costs a finished download. *)
From S2P Require Import Prelude Paths Fscommit Sql ArchiveJobs Downloads Lifecycle.
From S2P Require Import Protocol Registry World Archive Recovery.

Section RecoveryProps.
Context (sha256Hex : string → string).
Implicit Types (r : DownloadRecord) (d : disk).

(** The file at [p] carries the record's proof. *)
Definition validb (p : string) (r : DownloadRecord) (d : disk) : bool :=
  match d !! p with
  | Some (FileNode data) =>
      bool_decide (Z.of_nat (String.length data) = r_FileSize r ∧ r_SHA256 r ≠ "" ∧
                   sha256Hex data = r_SHA256 r)
  | _ => false
  end.

Lemma validb_same p r d d' : d' !! p = d !! p → validb p r d' = validb p r d.
Proof. unfold validb. by intros ->. Qed.

Lemma has_proof_validb p r d :
  r_SHA256 r ≠ "" → has_proof sha256Hex p (r_FileSize r) (r_SHA256 r) d → validb p r d = true.
Proof. intros Hne (data & Hd & Hs & Hh). unfold validb. rewrite Hd. by apply bool_decide_eq_true_2. Qed.

Lemma part_ne_final p : p ≠ p +:+ ".part".
Proof.
  intros Heq. apply (f_equal String.length) in Heq. rewrite string_length_app in Heq. simpl in Heq. lia.
Qed.

(** ** Without failing system calls *)

Definition stat_result (p : string) (d : disk) : res errno node :=
  match d !! p with Some n => Ok n | None => Err ENOENT end.

Lemma file_valid_calm p r d :
  file_valid sha256Hex p r (stat_result p d) (Fs d []) = (validb p r d, Fs d []).
Proof.
  unfold file_valid, stat_result, validb. destruct (d !! p) as [n|] eqn:Hp; [|done].
  destruct (node_size n =? r_FileSize r) eqn:Hs; go_bool.
  - unfold sm_bind, ComputeFileSHA256, sm_bind, ReadFile, sys. simpl. rewrite Hp.
    destruct n as [|data]; [done|]. simpl in *. unfold sm_ret. f_equal. apply bool_decide_ext. tauto.
  - destruct n as [|data]; [done|]. simpl in *. unfold sm_ret. f_equal. symmetry.
    apply bool_decide_eq_false. tauto.
Qed.

Lemma final_valid_calm p r n d :
  d !! p = Some n → final_valid sha256Hex p r n (Fs d []) = (validb p r d, Fs d []).
Proof.
  intros Hp. unfold final_valid, validb, sm_bind, ComputeFileSHA256, sm_bind, ReadFile, sys. simpl.
  rewrite Hp. destruct n as [|data]; simpl; [done|]. unfold sm_ret. f_equal.
  apply bool_decide_ext. tauto.
Qed.

(** ** Commits *)

(** [EvaluateCommitSiblingPart] deletes the part only next to a final file with the proof. *)
Lemma Evaluate_files part final size sha c s x s' :
  EvaluateCommitSiblingPart sha256Hex part final size sha c s = (x, s') →
  files s' = files s ∨ (files s' = delete part (files s) ∧ has_proof sha256Hex final size sha (files s)).
Proof.
  unfold EvaluateCommitSiblingPart. destruct c as [u|e]; [intros [= <- <-]; by left|].
  destruct (is_exist e); [|intros [= <- <-]; by left]. unfold sm_bind, sm_ret.
  destruct (Stat final s) as [st s1] eqn:H1. apply Stat_spec in H1 as [H1 Hn].
  destruct st as [n|]; [|intros [= <- <-]; by left].
  destruct (is_dir n); [intros [= <- <-]; by left|].
  destruct (_ =? _) eqn:Hsz; go_bool; [|intros [= <- <-]; by left].
  destruct (ComputeFileSHA256 _ _ _) as [h s2] eqn:H2. apply ComputeFileSHA256_spec in H2 as [H2 Hh].
  rewrite H1 in H2, Hh. destruct h as [y|]; [|intros [= <- <-]; by left].
  case_decide as Hy; [|intros [= <- <-]; by left].
  destruct (Remove part s2) as [rr s3] eqn:H3. apply Remove_spec in H3. rewrite H2 in H3.
  intros [= <- <-]. destruct H3 as [->|[_ ->]]; [by left|right]. split; [done|].
  destruct Hh as (data & Hd & ->). rewrite <- Hsz, <- Hy. by apply stat_digest_proof.
Qed.

(** Whatever fails, committing a valid part leaves a valid file. *)
Lemma commit_evaluate_keeps part final r s c s1 x s2 :
  part ≠ final → validb part r (files s) = true →
  CommitSiblingPart part final s = (c, s1) →
  EvaluateCommitSiblingPart sha256Hex part final (r_FileSize r) (r_SHA256 r) c s1 = (x, s2) →
  validb part r (files s2) || validb final r (files s2) = true.
Proof.
  intros Hne Hv Hc He. apply CommitSiblingPart_spec in Hc.
  assert (files s1 = files s ∨ committed part final (files s) (files s1)) as Hc'
    by (destruct c; [by right|destruct Hc as [?|[? _]]; auto]).
  assert (r_SHA256 r ≠ "") as Hsha.
  { unfold validb in Hv. destruct (files s !! part) as [[|data]|]; try done. go_bool. tauto. }
  assert (validb part r (files s1) || validb final r (files s1) = true) as H1.
  { destruct Hc' as [->|(data & Hp & _ & Hf & _)]; [by rewrite Hv|].
    apply orb_true_iff. right. unfold validb in *. by rewrite Hf, Hp in *. }
  apply Evaluate_files in He as [->|[-> Hproof]]; [done|].
  apply orb_true_iff. right. apply (has_proof_validb final) in Hproof; [|done].
  rewrite <- Hproof. apply validb_same. by rewrite lookup_delete_ne.
Qed.

(** ** Handlers that do not touch files *)

Lemma complete_record_files env q r sha w : w_fs (complete_record env q r sha w).2 = w_fs w.
Proof.
  unfold complete_record, sm_bind, on_db. destruct (CompleteDownloadAndQueueArchive _ _ _ _ _ _ _ _) as [[|[]] ?]; done.
Qed.
Lemma conflict_record_files env r disp w : w_fs (conflict_record env r disp w).2 = w_fs w.
Proof.
  unfold conflict_record, sm_bind, on_db. destruct (RecordTargetConflict _ _ _ _ _ _ _ _ _) as [[|] ?]; done.
Qed.

Lemma commit_part_keeps env q r part final d sql reg :
  part ≠ final → (∀ d, e_hook env d = d) →
  let '(x, w') := commit_part sha256Hex env q r part final (World (Fs d []) sql reg) in
  match x with
  | Some _ => validb part r d = true ∧ validb part r (w_files w') || validb final r (w_files w') = true
  | None => validb part r d = false ∧ w' = World (Fs d []) sql reg
  end.
Proof.
  intros Hne Hhook. unfold commit_part, sm_bind.
  assert (on_fs (Stat part) (World (Fs d []) sql reg) = (stat_result part d, World (Fs d []) sql reg)) as ->.
  { unfold on_fs, Stat, sys, stat_result. simpl. by destruct (d !! part). }
  assert (on_fs (file_valid sha256Hex part r (stat_result part d)) (World (Fs d []) sql reg) =
          (validb part r d, World (Fs d []) sql reg)) as ->.
  { unfold on_fs. cbn [w_fs w_sql w_reg]. by rewrite file_valid_calm. }
  destruct (validb part r d) eqn:Hv; [|done].
  assert (on_fs (run_hook (e_hook env)) (World (Fs d []) sql reg) = (tt, World (Fs d []) sql reg)) as ->.
  { unfold on_fs, run_hook. simpl. by rewrite Hhook. }
  unfold on_fs at 1. simpl. destruct (CommitSiblingPart part final (Fs d [])) as [c s1] eqn:Hc.
  unfold on_fs at 1. simpl.
  destruct (EvaluateCommitSiblingPart _ _ _ _ _ _ _) as [x s2] eqn:He.
  pose proof (commit_evaluate_keeps part final r (Fs d []) c s1 x s2 Hne Hv Hc He) as Hk.
  destruct x as [sha|disp e|disp e].
  - pose proof (complete_record_files env q r sha (World s2 sql reg)) as Hf.
    destruct (complete_record _ _ _ _ _) as [y w2]. simpl in *. unfold w_files. by rewrite Hf.
  - pose proof (conflict_record_files env r disp (World s2 sql reg)) as Hf.
    destruct (conflict_record _ _ _ _) as [y w2]. simpl in *. unfold w_files. by rewrite Hf.
  - done.
Qed.

Lemma reset_record_files env r part w :
  w_files (reset_record env r part w).2 = w_files w ∨
  w_files (reset_record env r part w).2 = delete part (w_files w).
Proof.
  unfold reset_record, sm_bind, on_fs, on_db. destruct (Remove part (w_fs w)) as [rr f] eqn:Hr.
  apply Remove_spec in Hr. simpl. destruct (UpdateDownloadStatus _ _ _ _ _ _ _ _ _) as [u s].
  unfold w_files. simpl. tauto.
Qed.

(** One of the two files is valid. *)
Definition copy_valid (part final : string) r (w : world) : bool :=
  validb part r (w_files w) || validb final r (w_files w).

(** Steps 2 and 3 on a state with a valid copy. *)
Lemma commit_or_reset_keeps env q r part final d sql reg :
  part ≠ final → (∀ d, e_hook env d = d) → validb part r d || validb final r d = true →
  copy_valid part final r (commit_or_reset sha256Hex env q r part final (World (Fs d []) sql reg)).2 = true.
Proof.
  intros Hne Hhook Hv. unfold commit_or_reset, sm_bind.
  pose proof (commit_part_keeps env q r part final d sql reg Hne Hhook) as Hc.
  destruct (commit_part _ _ _ _ _ _ _) as [[x|] w1]; [by destruct Hc|].
  destruct Hc as [Hp ->]. rewrite Hp in Hv. simpl in Hv. unfold copy_valid. apply orb_true_iff. right. rewrite <- Hv.
  apply validb_same. destruct (reset_record_files env r part (World (Fs d []) sql reg)) as [->| ->]; [done|].
  by rewrite lookup_delete_ne.
Qed.

Lemma reconcile_keeps env ssd q r d sql reg :
  (∀ d, e_hook env d = d) →
  let final := Join ssd (r_SavePath r) in
  let part := final +:+ ".part" in
  validb part r d || validb final r d = true →
  copy_valid part final r (ReconcileCommittingRecord sha256Hex env ssd q r (World (Fs d []) sql reg)).2 = true.
Proof.
  intros Hhook final part Hv.
  assert (part ≠ final) as Hne by (intros Heq; symmetry in Heq; by apply part_ne_final in Heq).
  pose proof (commit_or_reset_keeps env q r part final d sql reg Hne Hhook Hv) as Hrest.
  unfold ReconcileCommittingRecord. fold final part. unfold sm_bind at 1.
  assert (on_fs (Stat final) (World (Fs d []) sql reg) = (stat_result final d, World (Fs d []) sql reg)) as ->.
  { unfold on_fs, Stat, sys, stat_result. simpl. by destruct (d !! final). }
  unfold stat_result. destruct (d !! final) as [n|] eqn:Hf; [|exact Hrest].
  destruct (is_dir n); [exact Hrest|]. unfold sm_bind at 1.
  assert (on_fs (final_valid sha256Hex final r n) (World (Fs d []) sql reg) =
          (validb final r d, World (Fs d []) sql reg)) as ->.
  { unfold on_fs. cbn [w_fs w_sql w_reg]. by rewrite (final_valid_calm _ _ _ _ Hf). }
  destruct (validb final r d) eqn:Hfin.
  - unfold sm_bind, on_fs. destruct (Remove part _) as [rr f] eqn:Hr. apply Remove_spec in Hr. simpl in *.
    unfold copy_valid, w_files. rewrite complete_record_files. simpl. apply orb_true_iff. right. rewrite <- Hfin.
    apply validb_same. destruct Hr as [->|[_ ->]]; [done|]. by rewrite lookup_delete_ne.
  - unfold sm_bind at 1.
    assert (on_fs (Stat part) (World (Fs d []) sql reg) = (stat_result part d, World (Fs d []) sql reg)) as ->.
    { unfold on_fs, Stat, sys, stat_result. simpl. by destruct (d !! part). }
    unfold sm_bind at 1.
    assert (on_fs (file_valid sha256Hex part r (stat_result part d)) (World (Fs d []) sql reg) =
            (validb part r d, World (Fs d []) sql reg)) as ->.
    { unfold on_fs. cbn [w_fs w_sql w_reg]. by rewrite file_valid_calm. }
    destruct (validb part r d) eqn:Hp; [|exact Hrest].
    unfold copy_valid, w_files. rewrite conflict_record_files. simpl. by rewrite Hp.
Qed.

(** ** The database side without failing statements *)

(** A record in the middle of its commit, with its proof. *)
Definition committing_with (k : key) (g p : string) (n : Z) (sha : string) (row : download_row) : Prop :=
  status row = "committing" ∧ attempt_generation row = g ∧ save_path row = Some p ∧
  file_size row = Some n ∧ sha256 row = Some sha.

Lemma RecordTargetConflict_calm k g fn sp mt sz disp now t row :
  records t !! k = Some row → status row = "committing" → attempt_generation row = g →
  ∃ row', RecordTargetConflict k g fn sp mt sz disp now (Sql t []) =
            (Ok tt, Sql (set_records (<[k := row']> (records t)) t) []) ∧ status row' = "conflict".
Proof.
  intros Hr Hst Hg. unfold RecordTargetConflict. sql_unfold. rewrite Hr. simpl.
  rewrite decide_False by (rewrite Hst; naive_solver). rewrite decide_False by naive_solver.
  simpl. rewrite Hr. simpl. rewrite bool_decide_eq_true_2 by (rewrite Hst; split; [done|by left]).
  simpl. eexists. split; [reflexivity|done].
Qed.

Lemma UpdateDownloadStatus_pending k fn sp mt sz now t row :
  records t !! k = Some row → status row ≠ "success" → status row ≠ "conflict" →
  ∃ row', UpdateDownloadStatus k "pending" fn sp mt sz "" now (Sql t []) =
            (Ok tt, Sql (set_records (<[k := row']> (records t)) t) []) ∧ status row' = "pending".
Proof.
  intros Hr Hs Hc. unfold UpdateDownloadStatus. sql_unfold. rewrite Hr. simpl.
  rewrite decide_False by naive_solver. rewrite decide_False by (intros [_ ?]; done).
  unfold upsert_record, exec, stmt. simpl. rewrite Hr. eexists. split; [reflexivity|done].
Qed.

(** ** Paths of a part file *)

Lemma Dir_part p : Dir (p +:+ ".part") = Dir p.
Proof.
  unfold Dir. destruct (split_on_extend p ".part") as (init & c & -> & ->).
  - intros Hin. vm_compute in Hin. set_solver.
  - by rewrite !rev_app_distr.
Qed.


(** Committing a part next to a free final name, with nothing failing. *)
Lemma CommitSiblingPart_calm final data d :
  d !! final = None → d !! (final +:+ ".part") = Some (FileNode data) →
  d !! Dir final = Some DirNode → Clean (Dir final) = Dir final →
  CommitSiblingPart (final +:+ ".part") final (Fs d []) =
    (Ok tt, Fs (<[final := FileNode data]> (delete (final +:+ ".part") d)) []).
Proof.
  intros Hf Hp Hd Hcl. unfold CommitSiblingPart. rewrite Dir_part, decide_False by naive_solver.
  unfold sm_bind, Stat, sys. simpl. rewrite Hf. unfold commitFile, sm_bind, open_dir, sys. simpl.
  rewrite Dir_part, Hd. simpl. rewrite Hd. unfold Renameat2, sys. simpl. rewrite Hp, Hf. simpl.
  unfold syncDir, sm_bind, open_dir, Fsync, sys. simpl. rewrite Hcl.
  assert (Dir final ≠ final) as H1 by congruence.
  assert (Dir final ≠ final +:+ ".part") as H2 by congruence.
  rewrite lookup_insert_ne, lookup_delete_ne, Hd by congruence. done.
Qed.

(** ** Outcomes *)

Lemma completed_prepared k row g p n sha t :
  records t !! k = Some row → committing_with k g p n sha row → prepared k g p n sha t.
Proof.
  intros Hr (? & ? & Hp & Hn & Hs). exists row. unfold row_sha, row_path, row_size. rewrite Hp, Hn, Hs.
  split_and!; auto.
Qed.

Lemma complete_record_calm env q k row g p n sha t f reg :
  records t !! k = Some row → committing_with k g p n sha row →
  let '(x, w') := complete_record env q (record_of_row k row) sha (World f (Sql t []) reg) in
  x = Ok tt ∧ completed k p n sha (w_tabs w') ∧ w_fs w' = f.
Proof.
  intros Hr Hrow. pose proof (completed_prepared k row g p n sha t Hr Hrow) as Hprep.
  destruct Hrow as (_ & Hg & Hp & Hn & Hs). unfold complete_record, sm_bind, on_db, rec_key. simpl.
  unfold record_of_row. simpl. rewrite Hg, Hp, Hn. simpl. replace (k.1, k.2) with k by (by destruct k).
  pose proof (CompleteDownload_calm k g p n sha q (e_now env) t Hprep) as Hc.
  destruct (CompleteDownloadAndQueueArchive _ _ _ _ _ _ _ _) as [x s']. destruct Hc as ([->| ->] & Hc & _); done.
Qed.

Lemma on_fs_Stat p d sql reg :
  on_fs (Stat p) (World (Fs d []) sql reg) = (stat_result p d, World (Fs d []) sql reg).
Proof. unfold on_fs, Stat, sys, stat_result. simpl. by destruct (d !! p). Qed.
Lemma on_fs_file_valid p r d sql reg :
  on_fs (file_valid sha256Hex p r (stat_result p d)) (World (Fs d []) sql reg) =
  (validb p r d, World (Fs d []) sql reg).
Proof. unfold on_fs. cbn [w_fs w_sql w_reg]. by rewrite file_valid_calm. Qed.
Lemma on_fs_final_valid p r n d sql reg :
  d !! p = Some n →
  on_fs (final_valid sha256Hex p r n) (World (Fs d []) sql reg) = (validb p r d, World (Fs d []) sql reg).
Proof. intros Hp. unfold on_fs. cbn [w_fs w_sql w_reg]. by rewrite (final_valid_calm _ _ _ _ Hp). Qed.

(** [Remove] of what is not a directory, with nothing failing. *)
Lemma on_fs_Remove p d sql reg :
  d !! p ≠ Some DirNode →
  (on_fs (Remove p) (World (Fs d []) sql reg)).2 = World (Fs (delete p d) []) sql reg.
Proof.
  intros Hp. unfold on_fs, Remove, sys. simpl. destruct (d !! p) as [[]|] eqn:He; simpl; [done|done|].
  by rewrite delete_id.
Qed.

Section Outcomes.
Context (env : surroundings) (ssd : string) (q : bool) (k : key) (row : download_row) (g p : string)
  (n : Z) (sha : string) (d : disk) (t : db) (reg : option Registry).
Context (Hr : records t !! k = Some row) (Hrow : committing_with k g p n sha row).

Let r := record_of_row k row.
Let final := Join ssd p.
Let part := final +:+ ".part".
Let w0 := World (Fs d []) (Sql t []) reg.

Lemma r_save_path : Join ssd (r_SavePath r) = final.
Proof. unfold final, r, record_of_row. simpl. destruct Hrow as (_ & _ & -> & _). done. Qed.

Lemma part_final : part ≠ final.
Proof. intros Heq. symmetry in Heq. by apply part_ne_final in Heq. Qed.

Lemma r_sha : r_SHA256 r = sha.
Proof. unfold r, record_of_row. simpl. destruct Hrow as (_ & _ & _ & _ & ->). done. Qed.

(** The final file is the record's: complete. *)
Lemma outcome_final :
  validb final r d = true → d !! part ≠ Some DirNode →
  let '(x, w') := ReconcileCommittingRecord sha256Hex env ssd q r w0 in
  x = Ok tt ∧ completed k p n sha (w_tabs w') ∧ w_files w' = delete part d.
Proof.
  intros Hv Hpd. unfold ReconcileCommittingRecord. rewrite r_save_path. fold part. unfold sm_bind, w0.
  rewrite on_fs_Stat. unfold stat_result. destruct (d !! final) as [nd|] eqn:Hf.
  2: { unfold validb in Hv. by rewrite Hf in Hv. }
  assert (is_dir nd = false) as -> by (unfold validb in Hv; rewrite Hf in Hv; by destruct nd).
  rewrite (on_fs_final_valid final r nd) by done. rewrite Hv.
  pose proof (on_fs_Remove part d (Sql t []) reg Hpd) as Hrm.
  destruct (on_fs (Remove part) _) as [rr w1]. simpl in Hrm. subst w1. rewrite r_sha.
  pose proof (complete_record_calm env q k row g p n sha t (Fs (delete part d) []) reg Hr Hrow) as Hc.
  fold r in Hc. destruct (complete_record _ _ _ _ _) as [x w']. destruct Hc as (-> & Hc & Hw).
  split_and!; [done|done|]. unfold w_files. by rewrite Hw.
Qed.

(** Only the part is there: it is committed. *)
Lemma outcome_part :
  d !! final = None → validb part r d = true → d !! Dir final = Some DirNode → Clean (Dir final) = Dir final →
  (∀ d, e_hook env d = d) →
  let '(x, w') := ReconcileCommittingRecord sha256Hex env ssd q r w0 in
  x = Ok tt ∧ completed k p n sha (w_tabs w') ∧ w_files w' !! final = d !! part ∧ w_files w' !! part = None.
Proof.
  intros Hf Hv Hdir Hcl Hhook. unfold ReconcileCommittingRecord. rewrite r_save_path. fold part.
  unfold sm_bind at 1, w0. rewrite on_fs_Stat. unfold stat_result. rewrite Hf.
  destruct (d !! part) as [[|data]|] eqn:Hp; [by unfold validb in Hv; rewrite Hp in Hv| |by unfold validb in Hv; rewrite Hp in Hv].
  unfold commit_or_reset, commit_part, sm_bind. rewrite on_fs_Stat, on_fs_file_valid, Hv.
  assert (on_fs (run_hook (e_hook env)) (World (Fs d []) (Sql t []) reg) = (tt, World (Fs d []) (Sql t []) reg)) as ->.
  { unfold on_fs, run_hook. simpl. by rewrite Hhook. }
  assert (on_fs (CommitSiblingPart part final) (World (Fs d []) (Sql t []) reg) =
    (Ok tt, World (Fs (<[final := FileNode data]> (delete part d)) []) (Sql t []) reg)) as ->.
  { unfold on_fs. cbn [w_fs w_sql w_reg]. unfold part. by rewrite (CommitSiblingPart_calm final data). }
  cbn [EvaluateCommitSiblingPart]. unfold on_fs at 1. cbn [w_fs w_sql w_reg sm_ret]. unfold sm_ret at 1. rewrite r_sha.
  pose proof (complete_record_calm env q k row g p n sha t (Fs (<[final := FileNode data]> (delete part d)) [])
    reg Hr Hrow) as Hc. fold r in Hc. destruct (complete_record _ _ _ _ _) as [x w'].
  destruct Hc as (-> & Hc & Hw). unfold sm_ret. split_and!; [done|done|..]; unfold w_files; rewrite Hw; simpl.
  - by rewrite lookup_insert_eq.
  - pose proof part_final. by rewrite lookup_insert_ne, lookup_delete_eq by done.
Qed.

(** Another file is in the way of a valid part: a durable conflict, both files kept. *)
Lemma outcome_conflict data :
  d !! final = Some (FileNode data) → validb final r d = false → validb part r d = true →
  let '(x, w') := ReconcileCommittingRecord sha256Hex env ssd q r w0 in
  x = Err RConflict ∧ status <$> records (w_tabs w') !! k = Some "conflict" ∧ w_files w' = d.
Proof.
  intros Hf Hfv Hpv. unfold ReconcileCommittingRecord. rewrite r_save_path. fold part. unfold sm_bind, w0.
  rewrite on_fs_Stat. unfold stat_result at 1. rewrite Hf. cbn [is_dir].
  rewrite (on_fs_final_valid final r (FileNode data)), Hfv by done.
  rewrite on_fs_Stat, on_fs_file_valid, Hpv. unfold conflict_record, sm_bind, on_db. simpl.
  destruct Hrow as (Hst & Hg & _). unfold rec_key. simpl. replace (k.1, k.2) with k by (by destruct k). rewrite Hg.
  match goal with |- context [RecordTargetConflict k g ?a ?b ?c ?e ?f ?h _] =>
    destruct (RecordTargetConflict_calm k g a b c e f h t row Hr Hst Hg) as (row' & -> & Hst') end.
  unfold w_tabs, w_files. simpl. rewrite lookup_insert_eq. simpl. by rewrite Hst'.
Qed.

(** Neither is valid: back to pending, without the part. *)
Lemma outcome_reset :
  validb final r d = false → validb part r d = false → d !! part ≠ Some DirNode →
  let '(x, w') := ReconcileCommittingRecord sha256Hex env ssd q r w0 in
  x = Ok tt ∧ status <$> records (w_tabs w') !! k = Some "pending" ∧ w_files w' = delete part d.
Proof.
  intros Hfv Hpv Hpd.
  assert (let '(x, w') := commit_or_reset sha256Hex env q r part final w0 in
          x = Ok tt ∧ status <$> records (w_tabs w') !! k = Some "pending" ∧ w_files w' = delete part d) as Hrest.
  { unfold commit_or_reset, commit_part, sm_bind, w0. rewrite on_fs_Stat, on_fs_file_valid, Hpv.
    unfold sm_ret at 1, reset_record, sm_bind.
    pose proof (on_fs_Remove part d (Sql t []) reg Hpd) as Hrm.
    destruct (on_fs (Remove part) _) as [rr w1]. simpl in Hrm. subst w1. unfold on_db. simpl.
    destruct Hrow as (Hst & _). unfold rec_key. simpl. replace (k.1, k.2) with k by (by destruct k).
    match goal with |- context [UpdateDownloadStatus k "pending" ?a ?b ?c ?e "" ?f _] =>
      destruct (UpdateDownloadStatus_pending k a b c e f t row Hr) as (row' & -> & Hst');
        [by rewrite Hst|by rewrite Hst|] end.
    unfold w_tabs, w_files. simpl. rewrite lookup_insert_eq. simpl. by rewrite Hst'. }
  unfold ReconcileCommittingRecord. rewrite r_save_path. fold part. unfold sm_bind at 1, w0 at 1.
  rewrite on_fs_Stat. unfold stat_result. destruct (d !! final) as [nd|] eqn:Hf; [|exact Hrest].
  destruct (is_dir nd); [exact Hrest|]. unfold sm_bind at 1.
  rewrite (on_fs_final_valid final r nd), Hfv by done. unfold sm_bind at 1. rewrite on_fs_Stat.
  unfold sm_bind at 1. rewrite on_fs_file_valid, Hpv. exact Hrest.
Qed.

End Outcomes.

End RecoveryProps.

(** ** Recovery of one record *)


(** What recovering a committing record comes to, when nothing fails. The final file has
    the proof: the record is completed. Only the part has it: the part becomes the final
    file and the record is completed. Another file stands in the way of a valid part: the
    record is a durable conflict and both files stay. Neither is valid: the part goes and
    the record is pending again. *)
Theorem reconcile_outcomes (sha256Hex : string → string) (env : surroundings) (ssd : string) (q : bool)
    (k : key) (row : download_row) (g p : string) (n : Z) (sha : string) (d : disk) (t : db)
    (reg : option Registry) :
  records t !! k = Some row → committing_with k g p n sha row → (∀ d, e_hook env d = d) →
  let r := record_of_row k row in
  let final := Join ssd p in
  let part := final +:+ ".part" in
  let '(x, w') := ReconcileCommittingRecord sha256Hex env ssd q r (World (Fs d []) (Sql t []) reg) in
  d !! part ≠ Some DirNode →
  (validb sha256Hex final r d = true →
     x = Ok tt ∧ completed k p n sha (w_tabs w') ∧ w_files w' = delete part d) ∧
  (d !! final = None → validb sha256Hex part r d = true → d !! Dir final = Some DirNode →
   Clean (Dir final) = Dir final →
     x = Ok tt ∧ completed k p n sha (w_tabs w') ∧ w_files w' !! final = d !! part ∧ w_files w' !! part = None) ∧
  (∀ data, d !! final = Some (FileNode data) → validb sha256Hex final r d = false → validb sha256Hex part r d = true →
     x = Err RConflict ∧ status <$> records (w_tabs w') !! k = Some "conflict" ∧ w_files w' = d) ∧
  (validb sha256Hex final r d = false → validb sha256Hex part r d = false →
     x = Ok tt ∧ status <$> records (w_tabs w') !! k = Some "pending" ∧ w_files w' = delete part d).
Proof.
  intros Hr Hrow Hhook r final part.
  pose proof (outcome_final sha256Hex env ssd q k row g p n sha d t reg Hr Hrow) as H1.
  pose proof (λ a b c e, outcome_part sha256Hex env ssd q k row g p n sha d t reg Hr Hrow a b c e Hhook) as H2.
  pose proof (outcome_conflict sha256Hex env ssd q k row g p n sha d t reg Hr Hrow) as H3.
  pose proof (outcome_reset sha256Hex env ssd q k row g p n sha d t reg Hr Hrow) as H4.
  fold r final part in H1, H2, H3, H4.
  destruct (ReconcileCommittingRecord _ _ _ _ _ _) as [x w']. intros Hpd. split_and!; auto.
Qed.

Definition quiet_env : surroundings := Env [] id 9.
Definition toy_row : download_row :=
  DRow "committing" (Some "7.mp4") (Some "a/7.mp4") (Some "video") (Some 4) (Some "sha:data") (Some "")
    1 5 None (Some 2) 0 0 "1".
Definition toy_disk : disk :=
  {[ "/ssd/a" := DirNode; "/ssd/a/7.mp4.part" := FileNode "data" ]}.
Definition toy_tabs : db := set_records {[ ("chat", 7) := toy_row ]} empty_db.


Lemma reconcile_outcomes_witness :
  let '(x, w') := ReconcileCommittingRecord toy_sha quiet_env "/ssd" true (record_of_row ("chat", 7) toy_row)
                    (World (Fs toy_disk []) (Sql toy_tabs []) None) in
  x = Ok tt ∧ completed ("chat", 7) "a/7.mp4" 4 "sha:data" (w_tabs w') ∧
  w_files w' !! "/ssd/a/7.mp4" = Some (FileNode "data") ∧ w_files w' !! "/ssd/a/7.mp4.part" = None.
Proof.
  pose proof (reconcile_outcomes toy_sha quiet_env "/ssd" true ("chat", 7) toy_row "1" "a/7.mp4" 4 "sha:data"
    toy_disk toy_tabs None) as H.
  specialize (H eq_refl (conj eq_refl (conj eq_refl (conj eq_refl (conj eq_refl eq_refl)))) (λ d, eq_refl)).
  cbv zeta in H. destruct (ReconcileCommittingRecord _ _ _ _ _ _) as [x w'].
  destruct H as (_ & H2 & _); [vm_compute; congruence|].
  apply H2; vm_compute; reflexivity.
Defined.

(** A passing read error costs a finished download: when reading the valid part file back
    fails once, recovery takes it for invalid, deletes it and resets the record to pending,
    and reports no error. *)
Theorem read_error_deletes_valid_part :
  let w := World (Fs toy_disk [None; None; Some EIO]) (Sql toy_tabs []) None in
  let '(x, w') := ReconcileCommittingRecord toy_sha quiet_env "/ssd" true (record_of_row ("chat", 7) toy_row) w in
  validb toy_sha "/ssd/a/7.mp4.part" (record_of_row ("chat", 7) toy_row) toy_disk = true ∧
  x = Ok tt ∧ w_files w' = {[ "/ssd/a" := DirNode ]} ∧
  status <$> records (w_tabs w') !! ("chat", 7) = Some "pending".
Proof. vm_compute. done. Qed.
