(* ===== verification/Planner.v ===== *)
(** * Path planning ([PathPlanner] of app/daemon/orchestrator.go)

    Where a download goes: folder of the channel, month of the message, and a file name led
    by the message number. Names come from Telegram, so the planner must not be led out of
    the download root.

    [filenamify] is not part of the repository: the text it returns is a parameter, and what
    is used of it is what it documents, that no reserved or control character is left. *)
From S2P Require Import Prelude Paths Fscommit Sql Downloads Registry World Archive.

(** ** Text *)

Fixpoint trim_left (l : list Ascii.ascii) : list Ascii.ascii :=
  match l with
  | a :: l' => if is_space a then trim_left l' else l
  | [] => []
  end.
(** [strings.TrimSpace] on ASCII text. *)
Definition TrimSpace (s : string) : string :=
  String.string_of_list_ascii (rev (trim_left (rev (trim_left (String.list_ascii_of_string s))))).

Definition backslash : Ascii.ascii := Ascii.ascii_of_nat 92.
(** [strings.ReplaceAll] of the backslash by the slash. *)
Definition to_slashes (s : string) : string :=
  string_map (λ a, if decide (a = backslash) then slash else a) s.

(** ** The month of a Unix time *)

(** Year and month of the proleptic Gregorian calendar, by eras of 400 years that start in
    March. *)
Definition civil_month (days : Z) : Z * Z :=
  let z := days + 719468 in
  let era := z / 146097 in
  let doe := z mod 146097 in
  let yoe := (doe - doe / 1460 + doe / 36524 - doe / 146096) / 365 in
  let doy := doe - (365 * yoe + yoe / 4 - yoe / 100) in
  let mp := (5 * doy + 2) / 153 in
  let m := if mp <? 10 then mp + 3 else mp - 9 in
  ((yoe + era * 400) + (if m <=? 2 then 1 else 0), m).

Fixpoint zeros (n : nat) : string := match n with O => "" | S n => "0" +:+ zeros n end.
Definition pad (width : nat) (n : Z) : string :=
  let s := itoa n in zeros (width - String.length s) +:+ s.

(** [time.Unix(d, 0).UTC().Format("2006_01")]. *)
Definition year_month (d : Z) : string :=
  let (y, m) := civil_month (d / 86400) in pad 4 y +:+ "_" +:+ pad 2 m.

(** ** The planner *)

Section Plan.
Context (Filenamify : string → string).

(** The extension by media type, with the fallback of the switch. *)
Definition media_ext (mediaType : string) : string :=
  if decide (mediaType = "photo") then ".jpg"
  else if decide (mediaType = "audio") then ".mp3"
  else if decide (mediaType = "video") then ".mp4"
  else ".bin".

Definition plan_folder (peer channelTitle : string) : string :=
  let f := TrimSpace channelTitle in
  let f := if decide (f = "") then f else Filenamify f in
  let f := if decide (f = "") then Filenamify peer else f in
  let f := Clean (TrimSpace f) in
  if bool_decide (f = "") || bool_decide (f = ".") || bool_decide (f = "/") || HasPrefix f ".." then "default"
  else f.

Definition plan_file (msgID : Z) (rawName mediaType : string) : string :=
  let c := TrimSpace rawName in
  let generated := itoa msgID +:+ media_ext mediaType in
  let c := if bool_decide (c = "") || bool_decide (c = ".") || bool_decide (c = itoa msgID +:+ ".bin") ||
              bool_decide (c = itoa msgID +:+ ".unknown") || bool_decide (c = "unknown.bin") ||
              HasSuffix c ".unknown" then generated else c in
  let s := TrimSpace (Filenamify c) in
  if bool_decide (s = "") || bool_decide (s = ".") || HasPrefix s ".." then generated else s.

(** [Plan]; [now] is the clock, for messages without a date. *)
Definition Plan (peer channelTitle : string) (msgID : Z) (rawName mediaType : string) (msgDate now : Z)
    : string :=
  let safeFolder := plan_folder peer channelTitle in
  let yearMonth := year_month (if msgDate <=? 86400 then now else msgDate) in
  let safeFileName := plan_file msgID rawName mediaType in
  let leaf := itoa msgID +:+ " - " +:+ safeFileName in
  let p := to_slashes (Clean (Join safeFolder (yearMonth +:+ "/" +:+ leaf))) in
  if HasPrefix p ".." || HasPrefix p "/" then "default/" +:+ yearMonth +:+ "/" +:+ leaf else p.

End Plan.

(** ** What the planner promises *)

Abbreviation chars := String.list_ascii_of_string.

(** Text that can stand in a path component of a valid request. *)
Definition safe_char (a : Ascii.ascii) : Prop :=
  a ≠ slash ∧ a ≠ backslash ∧ a ≠ Ascii.ascii_of_nat 0.
Definition safe_text (s : string) : Prop := Forall safe_char (chars s).

Lemma chars_app s t : chars (s +:+ t) = chars s ++ chars t.
Proof. induction s as [|a s IH]; [done|]. simpl. f_equal. exact IH. Qed.

Lemma safe_text_app s t : safe_text (s +:+ t) ↔ safe_text s ∧ safe_text t.
Proof. unfold safe_text. by rewrite chars_app, Forall_app. Qed.

Lemma trim_left_suffix l : ∃ k, l = k ++ trim_left l.
Proof.
  induction l as [|a l [k IH]]; [by exists []|]. simpl. destruct (is_space a); [|by exists []].
  exists (a :: k). simpl. by f_equal.
Qed.

Lemma safe_text_TrimSpace s : safe_text s → safe_text (TrimSpace s).
Proof.
  unfold safe_text, TrimSpace. rewrite String.list_ascii_of_string_of_list_ascii.
  rewrite !List.Forall_forall. intros Hs a Ha%in_rev. apply Hs.
  destruct (trim_left_suffix (chars s)) as [k ->]. apply in_or_app. right. apply in_rev.
  destruct (trim_left_suffix (rev (trim_left (chars s)))) as [k' ->]. apply in_or_app. by right.
Qed.

Lemma safe_text_no_slash s : safe_text s → no_slash s.
Proof. unfold safe_text, no_slash. rewrite Forall_forall. intros Hs Hin. by apply Hs in Hin as [? _]. Qed.

Lemma to_slashes_id s : safe_text s ∨ backslash ∉ chars s → to_slashes s = s.
Proof.
  intros Hs. assert (backslash ∉ chars s) as Hn.
  { destruct Hs as [Hs|]; [|done]. intros Hin. unfold safe_text in Hs. rewrite Forall_forall in Hs.
    by apply Hs in Hin as (_ & ? & _). }
  clear Hs. induction s as [|a s IH]; [done|]. cbn [to_slashes string_map] in *. simpl in Hn.
  rewrite decide_False by set_solver. f_equal. apply IH. set_solver.
Qed.

Lemma safe_text_itoa n : safe_text (itoa n).
Proof.
  apply Forall_forall. intros a [Ha|[_ ->]]%itoa_digits; [|done].
  split_and!; intros ->; revert Ha; rewrite list_elem_of_In; vm_compute; intuition discriminate.
Qed.

Lemma safe_text_pad w n : safe_text (pad w n).
Proof.
  apply safe_text_app. split; [|apply safe_text_itoa].
  induction (w - _)%nat as [|k IH]; [constructor|]. by constructor.
Qed.

(** A component that holds a character other than a dot is not a dot component. *)
Lemma plain_with c s t u : s = t +:+ String c u → c ≠ Ascii.ascii_of_nat 46 → safe_text s → plain s.
Proof.
  intros Hs Hc Hsafe.
  assert (c ∈ chars s) as Hin by (rewrite Hs, chars_app; simpl; set_solver).
  split_and!; [..|by apply safe_text_no_slash]; intros ->; simpl in Hin; set_solver.
Qed.

Lemma year_month_safe d : safe_text (year_month d) ∧ plain (year_month d).
Proof.
  unfold year_month. destruct (civil_month _) as [y m].
  assert (safe_text (pad 4 y +:+ "_" +:+ pad 2 m)) as Hs.
  { apply safe_text_app. split; [apply safe_text_pad|]. apply safe_text_app.
    split; [by constructor|apply safe_text_pad]. }
  split; [done|]. by eapply (plain_with (Ascii.ascii_of_nat 95) _ (pad 4 y)).
Qed.

Lemma leaf_safe n name :
  safe_text name → safe_text (itoa n +:+ " - " +:+ name) ∧ plain (itoa n +:+ " - " +:+ name).
Proof.
  intros Hn. assert (safe_text (itoa n +:+ " - " +:+ name)) as Hs.
  { apply safe_text_app. split; [apply safe_text_itoa|]. apply safe_text_app. split; [|done].
    by repeat constructor. }
  split; [done|]. by eapply (plain_with (Ascii.ascii_of_nat 32) _ (itoa n)).
Qed.

(** [Clean] of a single component. *)
Lemma Clean_single c :
  no_slash c → Clean c = "." ∨ Clean c = ".." ∨ (Clean c = c ∧ plain c).
Proof.
  intros Hc. destruct (decide (c = "" ∨ c = "." ∨ c = "..")) as [[->|[->| ->]]|Hn]; [by left..|by right; left|].
  assert (plain c) as Hp by (split_and!; [intros ?; tauto..|exact Hc]).
  right; right. split; [|done]. unfold Clean. assert (IsAbs c = false) as Ha.
  { destruct c as [|a c]; [done|]. unfold IsAbs, HasPrefix. simpl. case_match eqn:Hd; [|done].
    exfalso. apply Hc. simpl. clear Hd. subst a. set_solver. }
  unfold comps. rewrite Ha, split_on_no_slash by done. by rewrite norm_plain by (by constructor).
Qed.

Lemma HasPrefix_dots_app f t :
  f ≠ "" → f ≠ "." → HasPrefix f ".." = false → HasPrefix (f +:+ t) ".." = false.
Proof.
  unfold HasPrefix. intros Hne Hd. destruct f as [|a f]; [done|].
  change (String a f +:+ t) with (String a (f +:+ t)). cbn [String.prefix].
  destruct (Ascii.ascii_dec _ a) as [<-|]; [|done].
  destruct f as [|b f]; [by destruct Hd|]. change (String b f +:+ t) with (String b (f +:+ t)).
  cbn [String.prefix]. destruct (Ascii.ascii_dec _ b) as [<-|]; [|done]. by destruct f.
Qed.

Lemma HasPrefix_dots_weaken s : HasPrefix s "../" = true → HasPrefix s ".." = true.
Proof.
  unfold HasPrefix. destruct s as [|a [|b s]]; [done| |]; cbn [String.prefix];
    destruct (Ascii.ascii_dec _ a); try done. destruct (Ascii.ascii_dec _ b); [|done]. by destruct s.
Qed.

Lemma itoa_no_space n : Ascii.ascii_of_nat 32 ∉ chars (itoa n).
Proof. intros [Hd|[_ ?]]%itoa_digits; [|done]. revert Hd. rewrite list_elem_of_In. vm_compute. intuition discriminate. Qed.

(** A separator that occurs in neither first part determines both parts. *)
Lemma string_sep_inj_l c s1 s2 t1 t2 :
  c ∉ chars s1 → c ∉ chars s2 → s1 +:+ String c t1 = s2 +:+ String c t2 → s1 = s2.
Proof.
  revert s2. induction s1 as [|a s1 IH]; intros [|b s2] H1 H2 Heq; simplify_eq/=; [done|set_solver..|].
  f_equal. eapply (IH s2); [set_solver..|done].
Qed.

Section PlanFacts.
Context (Filenamify : string → string).
(** What filenamify documents: reserved characters, among them both slashes, and control
    characters are replaced. *)
Hypothesis filenamify_safe : ∀ s, safe_text (Filenamify s).

Lemma plan_folder_spec peer title :
  plain (plan_folder Filenamify peer title) ∧ safe_text (plan_folder Filenamify peer title) ∧
  HasPrefix (plan_folder Filenamify peer title) ".." = false.
Proof.
  unfold plan_folder. set (f0 := if decide (TrimSpace title = "") then _ else _).
  assert (safe_text (if decide (f0 = "") then Filenamify peer else f0)) as Hs.
  { case_decide as He; [done|]. subst f0. by case_decide. }
  apply safe_text_TrimSpace in Hs. destruct (Clean_single _ (safe_text_no_slash _ Hs)) as [->|[->|[-> Hp]]];
    [simpl; split_and!; [by vm_compute; set_solver|by repeat constructor|done]..|].
  destruct (_ || _)%bool eqn:Hb; go_bool; [split_and!; [by vm_compute; set_solver|by repeat constructor|done]|].
  done.
Qed.

Lemma plan_file_safe n raw mt : safe_text (plan_file Filenamify n raw mt).
Proof.
  assert (safe_text (itoa n +:+ media_ext mt)) as Hg.
  { apply safe_text_app. split; [apply safe_text_itoa|]. unfold media_ext.
    repeat case_decide; by repeat constructor. }
  unfold plan_file. case_match; [done|]. by apply safe_text_TrimSpace.
Qed.

(** The planned path is exactly folder, month and file. *)
Lemma Plan_shape peer title n raw mt date now :
  ∃ folder ym name,
    Plan Filenamify peer title n raw mt date now = join_slash [folder; ym; itoa n +:+ " - " +:+ name] ∧
    Forall plain [folder; ym; itoa n +:+ " - " +:+ name] ∧
    Forall safe_text [folder; ym; itoa n +:+ " - " +:+ name] ∧ HasPrefix folder ".." = false.
Proof.
  destruct (plan_folder_spec peer title) as (Hfp & Hfs & Hdd).
  destruct (year_month_safe (if date <=? 86400 then now else date)) as [Hys Hyp].
  destruct (leaf_safe n _ (plan_file_safe n raw mt)) as [Hls Hlp].
  unfold Plan. set (folder := plan_folder _ _ _) in *. set (ym := year_month _) in *.
  set (leaf := itoa n +:+ " - " +:+ plan_file _ _ _ _) in *.
  exists folder, ym, (plan_file Filenamify n raw mt). fold leaf.
  assert (join_slash [folder; ym; leaf] = folder +:+ "/" +:+ (ym +:+ "/" +:+ leaf)) as Hj by done.
  assert (Forall plain [folder; ym; leaf]) as Hpl by (repeat (constructor; [done|]); constructor).
  assert (Clean (Join folder (ym +:+ "/" +:+ leaf)) = join_slash [folder; ym; leaf]) as ->.
  { unfold Join. rewrite decide_False by (by destruct Hfp). rewrite decide_False.
    - by rewrite <- Hj, !Clean_join_plain.
    - destruct Hyp as [Hyne _]. by destruct ym. }
  rewrite to_slashes_id.
  - rewrite Hj at 1 2. rewrite HasPrefix_dots_app by (by destruct Hfp as (? & ? & _)).
    rewrite <- Hj. pose proof (IsAbs_join_plain _ Hpl) as Ha. unfold IsAbs in Ha. rewrite Ha. simpl orb.
    split_and!; [done|done|repeat (constructor; [done|]); constructor|done].
  - right. rewrite Hj, !chars_app. rewrite !elem_of_app.
    assert (∀ s, safe_text s → backslash ∉ chars s) as Hb.
    { intros s Hs Hin. unfold safe_text in Hs. rewrite Forall_forall in Hs. by apply Hs in Hin as (_ & ? & _). }
    intros [?|[?|[?|[?|?]]]]; [by apply (Hb folder)| |by apply (Hb ym)| |by apply (Hb leaf)];
      apply list_elem_of_singleton in H; discriminate H.
Qed.

Lemma ContainsAny_join cs bad :
  Forall safe_text cs → bad = [92; 0]%nat → ContainsAny (join_slash cs) bad = false.
Proof.
  intros Hf ->. unfold ContainsAny. apply not_true_iff_false. intros (a & Ha & Hb)%existsb_exists.
  assert (a = slash ∨ safe_char a) as Hs.
  { revert Ha. induction Hf as [|c cs Hc Hf IH]; [done|]. unfold safe_text in Hc.
    rewrite List.Forall_forall in Hc.
    destruct cs as [|c' cs]; [by right; apply Hc|].
    change (join_slash (c :: c' :: cs)) with (c +:+ String slash (join_slash (c' :: cs))).
    rewrite chars_app. intros [?|[<-|?]]%in_app_or; [by right; apply Hc|by left|by apply IH]. }
  rewrite <- (Ascii.ascii_nat_embedding a) in Hs. simpl in Hb.
  repeat rewrite orb_true_iff in Hb. rewrite !Nat.eqb_eq in Hb.
  destruct Hb as [Hb|[Hb|Hb]]; [rewrite Hb in Hs..|done];
    destruct Hs as [Hs|(_ & Hs1 & Hs2)]; [discriminate Hs|by apply Hs1|discriminate Hs|by apply Hs2].
Qed.

(** C6. A planned path is accepted everywhere: whatever names Telegram sends, the path has
    three plain components, joined to the download root it stays inside it, a request with
    it is still valid, and the archive worker does not reject it. *)
Theorem planned_path_is_safe (peer title raw mt root : string) (n date now : Z) (q : TaskRequest) :
  IsAbs root = true → validateRequest q = Ok tt →
  let p := Plan Filenamify peer title n raw mt date now in
  length (comps p) = 3%nat ∧ Forall plain (comps p) ∧
  comps (Join root p) = comps root ++ comps p ∧
  validateRequest (set_final_path p q) = Ok tt ∧ bad_rel (Clean p) = false.
Proof.
  intros Hroot Hq p. subst p.
  destruct (Plan_shape peer title n raw mt date now) as (folder & ym & name & -> & Hp & Hs & Hdd).
  set (cs := [folder; ym; _]) in *. assert (cs ≠ []) as Hne by done.
  assert (Clean (join_slash cs) = join_slash cs) as Hc by (by apply Clean_join_plain).
  assert (IsAbs (join_slash cs) = false) as Ha by (by apply IsAbs_join_plain).
  assert (HasPrefix (join_slash cs) ".." = false) as Hd.
  { subst cs. simpl. inversion Hp as [|? ? (? & ? & _)]; subst. by apply HasPrefix_dots_app. }
  assert (length cs = 3%nat) as Hlen by done. clearbody cs.
  rewrite comps_join_slash by done. split_and!; [done|done|by apply Join_plain| |].
  - unfold validateRequest in *. cbn [set_final_path ID Peer MessageID ExpectedSize FinalPath].
    destruct (_ || ContainsAny (ID q) _)%bool; [done|]. destruct (is_blank _); [done|].
    destruct (MessageID q <=? 0); [done|]. destruct (ExpectedSize q <? 0); [done|].
    rewrite decide_False by (intros He; by rewrite He in Hc). rewrite ContainsAny_join by done. unfold IsAbs in Ha. rewrite Ha. simpl orb.
    rewrite Hc, bool_decide_false by auto. simpl orb. rewrite bool_decide_false.
    + destruct (HasPrefix (join_slash cs) "../") eqn:Hx; [|done]. apply HasPrefix_dots_weaken in Hx. congruence.
    + intros He. by rewrite He in Hd.
  - rewrite Hc. unfold bad_rel. rewrite Hd, Ha, !bool_decide_false; [done| |].
    + intros He. by rewrite He in Ha.
    + intros He%(f_equal comps). rewrite comps_join_slash in He by done. by subst cs.
Qed.

(** Messages do not share a file: two planned paths are equal only for the same message
    number, whatever the titles, names, types and dates. *)
Theorem plan_separates_messages (peer title raw mt peer' title' raw' mt' : string) (n date now n' date' now' : Z) :
  Plan Filenamify peer title n raw mt date now = Plan Filenamify peer' title' n' raw' mt' date' now' → n = n'.
Proof.
  destruct (Plan_shape peer title n raw mt date now) as (f & ym & name & -> & Hp & _).
  destruct (Plan_shape peer' title' n' raw' mt' date' now') as (f' & ym' & name' & -> & Hp' & _).
  intros Heq%(f_equal comps). rewrite !comps_join_slash in Heq by done.
  injection Heq as _ _ Heq. by apply itoa_inj, (string_sep_inj_l (Ascii.ascii_of_nat 32) _ _ _ _ (itoa_no_space _) (itoa_no_space _) Heq).
Qed.

End PlanFacts.

(** A filenamify that replaces what the library documents as reserved. *)
Definition toy_filenamify (s : string) : string :=
  string_map (λ a, if decide (a = slash ∨ a = backslash ∨ a = Ascii.ascii_of_nat 0) then Ascii.ascii_of_nat 95 else a) s.

Lemma toy_filenamify_safe s : safe_text (toy_filenamify s).
Proof.
  induction s as [|a s IH]; [constructor|]. simpl. constructor; [|exact IH].
  unfold safe_char. case_decide; [done|tauto].
Qed.

Lemma planned_path_is_safe_witness :
  Plan toy_filenamify "-100" "../../etc" 7 "..\x" "photo" 0 1700000000 =
    "default/2023_11/7 - 7.jpg" ∧
  validateRequest (set_final_path (Plan toy_filenamify "-100" "../../etc" 7 "..\x" "photo" 0 1700000000)
    (Request "a:7" "a" 7 "" 1 false "" "" "" 0 0)) = Ok tt.
Proof.
  split; [vm_compute; reflexivity|].
  apply (planned_path_is_safe toy_filenamify toy_filenamify_safe "-100" "../../etc" "..\x" "photo" "/srv" 7 0
           1700000000); vm_compute; reflexivity.
Defined.

Lemma plan_separates_messages_witness :
  Plan toy_filenamify "-100" "News" 7 "x" "photo" 0 1700000000 =
    Plan toy_filenamify "-100" " News" 7 " x " "audio" 1700000000 0 ∧ (7 : Z) = 7.
Proof.
  split; [vm_compute; reflexivity|].
  apply (plan_separates_messages toy_filenamify toy_filenamify_safe "-100" "News" "x" "photo"
           "-100" " News" " x " "audio" 7 0 1700000000 7 1700000000 0); vm_compute; reflexivity.
Defined.
