(* ===== verification/Gate.v ===== *)
(** * The data gate (core/transfer/gate.go)

    [DataGate] bounds the data RPCs in flight over all files and data centres and keeps
    the FloodWait cooldown of each data centre. [Acquire] runs in many goroutines at once:
    it is a state machine per caller whose steps are the atomic sections of the code (a
    locked section, a semaphore operation, an atomic addition), interleaved in any order
    with the clock, cancellations and [TriggerFloodWait] calls.

    The weighted semaphore is golang.org/x/sync/semaphore, an interface with laws here; a
    counter discharges them. *)
From S2P Require Import Prelude.

(** ** The semaphore interface *)

(** [acquire1] is the grant of [Acquire(ctx, 1)], [None] while it has to block; [release1]
    is [Release(1)], [None] when it panics for releasing more than is held. *)
Class Semaphore (S : Type) := {
  NewWeighted : Z → S;
  acquire1 : S → option S;
  release1 : S → option S;
}.

(** What the package documents: at most [cap] permits are out at once, a free permit can
    be had, and a permit that is out can be given back. *)
Class SemaphoreLaws (S : Type) `{!Semaphore S} := {
  held : S → Z;
  cap : S → Z;
  new_held n : 0 < n → held (NewWeighted n) = 0;
  new_cap n : 0 < n → cap (NewWeighted n) = n;
  acquire1_some s s' :
    acquire1 s = Some s' → held s' = held s + 1 ∧ cap s' = cap s ∧ held s' <= cap s;
  acquire1_free s : held s < cap s → is_Some (acquire1 s);
  release1_held s : 0 < held s →
    ∃ s', release1 s = Some s' ∧ held s' = held s - 1 ∧ cap s' = cap s;
}.

(** ** The gate *)

Definition DefaultMaxDataInFlight : Z := 40.

Record DataGate (S : Type) := Gate_ {
  sem : S;
  maxInFlight : Z;
  inFlight : Z;
  dcCooldowns : gmap Z Z;      (* data centre to the instant its cooldown ends *)
}.
Arguments Gate_ {S}. Arguments sem {S}. Arguments maxInFlight {S}.
Arguments inFlight {S}. Arguments dcCooldowns {S}.

Section Gate.
Context {S : Type} `{!Semaphore S}.

Definition NewDataGate (n : Z) : DataGate S :=
  let n := if n <=? 0 then DefaultMaxDataInFlight else n in
  Gate_ (NewWeighted n) n 0 ∅.

(** The accessors answer on a nil gate ([None]) too. *)
Definition InFlight (g : option (DataGate S)) : Z :=
  match g with None => 0 | Some g => inFlight g end.
Definition MaxInFlight (g : option (DataGate S)) : Z :=
  match g with None => DefaultMaxDataInFlight | Some g => maxInFlight g end.
Definition IsDCCooledDown (g : option (DataGate S)) (dc now : Z) : bool :=
  match g with
  | None => false
  | Some g => match dcCooldowns g !! dc with Some nb => now <? nb | None => false end
  end.

Definition with_sem (s : S) (g : DataGate S) : DataGate S :=
  Gate_ s (maxInFlight g) (inFlight g) (dcCooldowns g).
Definition with_inFlight (n : Z) (g : DataGate S) : DataGate S :=
  Gate_ (sem g) (maxInFlight g) n (dcCooldowns g).
Definition with_cooldowns (m : gmap Z Z) (g : DataGate S) : DataGate S :=
  Gate_ (sem g) (maxInFlight g) (inFlight g) m.

Definition TriggerFloodWait (g : DataGate S) (dc d now : Z) : DataGate S :=
  if d <=? 0 then g
  else
    let notBefore := now + d in
    match dcCooldowns g !! dc with
    | Some current =>
        if current <? notBefore then with_cooldowns (<[dc := notBefore]> (dcCooldowns g)) g else g
    | None => with_cooldowns (<[dc := notBefore]> (dcCooldowns g)) g
    end.

(** The first locked section of [Acquire]: drop the cooldowns that are over, and say until
    when this caller has to wait, if at all. *)
Definition purge (now : Z) (m : gmap Z Z) : gmap Z Z := filter (λ kv, ¬ kv.2 < now) m.
Definition wait_until (now : Z) (m : gmap Z Z) (dc : Z) : option Z :=
  match m !! dc with
  | Some notBefore => if now <? notBefore then Some notBefore else None
  | None => None
  end.
Definition check_cooldown (g : DataGate S) (dc now : Z) : DataGate S * option Z :=
  let m := purge now (dcCooldowns g) in
  (with_cooldowns m g, wait_until now m dc).

(** ** Callers of [Acquire] *)

(** Where a caller stands. *)
Inductive acq :=
| Check                     (* at the top of the loop *)
| Waiting (until : Z)       (* in a select on ctx.Done() and time.After *)
| Queued                    (* in sem.Acquire *)
| Permit                    (* holds a permit, before the second locked section *)
| GiveBack (until : Z)      (* cooled down meanwhile: about to release the permit *)
| Cleared                   (* verified, before the in-flight counter *)
| Granted                   (* returned with a release function not yet called *)
| Releasing                 (* inside release, before sem.Release *)
| Released                  (* release has run *)
| Canceled.                 (* returned an error *)

Record caller := Caller { c_dc : Z; c_pc : acq }.

Record world := World {
  gate : DataGate S;
  clock : Z;
  callers : list caller;
  panicked : bool;
}.

Inductive event :=
| Tick (d : Z)                 (* time passes *)
| Call (dc : Z)                (* a goroutine calls Acquire(ctx, dc) *)
| Flood (dc d : Z)             (* TriggerFloodWait *)
| Run (i : nat)                (* caller i runs to its next atomic section *)
| Cancel (i : nat)             (* the context of caller i is done while it blocks *)
| Release (i : nat).           (* the release function of caller i is called *)

Definition goto (i : nat) (pc : acq) (w : world) : world :=
  World (gate w) (clock w)
    (match callers w !! i with
     | Some c => <[i := Caller (c_dc c) pc]> (callers w)
     | None => callers w
     end) (panicked w).
Definition set_gate (g : DataGate S) (w : world) : world :=
  World g (clock w) (callers w) (panicked w).

(** [g.sem.Release(1)], then [pc]. *)
Definition sem_release (i : nat) (pc : acq) (w : world) : world :=
  match release1 (sem (gate w)) with
  | Some s => goto i pc (set_gate (with_sem s (gate w)) w)
  | None => World (gate w) (clock w) (callers w) true
  end.

(** One step of [Acquire] (and of the release it returned) by caller [i]; [None] while the
    caller blocks or has returned. *)
Definition run_caller (i : nat) (c : caller) (w : world) : option world :=
  match c_pc c with
  | Check =>
      let (g, wait) := check_cooldown (gate w) (c_dc c) (clock w) in
      Some (goto i (match wait with Some t => Waiting t | None => Queued end) (set_gate g w))
  | Waiting t => if t <=? clock w then Some (goto i Check w) else None
  | Queued =>
      match acquire1 (sem (gate w)) with
      | Some s => Some (goto i Permit (set_gate (with_sem s (gate w)) w))
      | None => None
      end
  | Permit =>
      Some (goto i (match wait_until (clock w) (dcCooldowns (gate w)) (c_dc c) with
                    | Some t => GiveBack t
                    | None => Cleared
                    end) w)
  | GiveBack t => Some (sem_release i (Waiting t) w)
  | Cleared => Some (goto i Granted (set_gate (with_inFlight (inFlight (gate w) + 1) (gate w)) w))
  | Releasing => Some (sem_release i Released w)
  | Granted | Released | Canceled => None
  end.

Definition gate_step (w : world) (e : event) : option world :=
  match e with
  | Tick d => if 0 <=? d then Some (World (gate w) (clock w + d) (callers w) (panicked w)) else None
  | Call dc => Some (World (gate w) (clock w) (callers w ++ [Caller dc Check]) (panicked w))
  | Flood dc d => Some (set_gate (TriggerFloodWait (gate w) dc d (clock w)) w)
  | Run i => match callers w !! i with Some c => run_caller i c w | None => None end
  | Cancel i =>
      match callers w !! i with
      | Some (Caller _ (Waiting _)) | Some (Caller _ Queued) => Some (goto i Canceled w)
      | _ => None
      end
  | Release i =>
      match callers w !! i with
      | Some (Caller _ Granted) =>
          Some (goto i Releasing (set_gate (with_inFlight (inFlight (gate w) - 1) (gate w)) w))
      | Some (Caller _ Released) => Some w                      (* once.Do has run *)
      | _ => None
      end
  end.

Fixpoint gate_run (w : world) (es : list event) : option world :=
  match es with
  | [] => Some w
  | e :: es => match gate_step w e with Some w' => gate_run w' es | None => None end
  end.

Definition new_world (n now : Z) : world := World (NewDataGate n) now [] false.

(** [w] is reached from a fresh gate. *)
Inductive reach (n : Z) : world → Prop :=
| reach_new now : reach n (new_world n now)
| reach_step w e w' : reach n w → gate_step w e = Some w' → reach n w'.

(** ** Accounting *)

Definition has_permit (c : caller) : bool :=
  match c_pc c with
  | Permit | GiveBack _ | Cleared | Granted | Releasing => true
  | _ => false
  end.
Definition is_granted (c : caller) : bool :=
  match c_pc c with Granted => true | _ => false end.

Definition max_permits (n : Z) : Z := if n <=? 0 then DefaultMaxDataInFlight else n.

Context `{!SemaphoreLaws S}.

(** The semaphore and the counter agree with the callers. *)
Record inv (n : Z) (w : world) : Prop := Inv {
  inv_max : maxInFlight (gate w) = max_permits n;
  inv_cap : cap (sem (gate w)) = max_permits n;
  inv_held : held (sem (gate w)) = tally has_permit (callers w);
  inv_bound : held (sem (gate w)) <= max_permits n;
  inv_flight : inFlight (gate w) = tally is_granted (callers w);
  inv_calm : panicked w = false;
}.

Lemma tally_goto p i pc c w :
  callers w !! i = Some c →
  tally p (callers (goto i pc w)) =
  tally p (callers w) - Z.b2z (p c) + Z.b2z (p (Caller (c_dc c) pc)).
Proof. intros Hi. unfold goto. simpl. rewrite Hi. by apply tally_insert. Qed.

(** Moving one caller, with a gate that accounts for the move. *)
Lemma inv_goto n w i c pc g :
  inv n w → callers w !! i = Some c →
  maxInFlight g = maxInFlight (gate w) → cap (sem g) = cap (sem (gate w)) →
  held (sem g) = held (sem (gate w)) - Z.b2z (has_permit c) + Z.b2z (has_permit (Caller (c_dc c) pc)) →
  held (sem g) <= max_permits n →
  inFlight g = inFlight (gate w) - Z.b2z (is_granted c) + Z.b2z (is_granted (Caller (c_dc c) pc)) →
  inv n (goto i pc (set_gate g w)).
Proof.
  intros [Hm Hc Hh Hb Hf Hp] Hi ? ? Hh' ? Hf'.
  split; simpl; [congruence|congruence| |done| |done].
  - rewrite Hh', Hh. symmetry. by apply (tally_goto has_permit i pc c (set_gate g w)).
  - rewrite Hf', Hf. symmetry. by apply (tally_goto is_granted i pc c (set_gate g w)).
Qed.

(** The common case: the gate keeps its semaphore and its counter. *)
Lemma inv_move n w i c pc :
  inv n w → callers w !! i = Some c →
  has_permit (Caller (c_dc c) pc) = has_permit c → is_granted (Caller (c_dc c) pc) = is_granted c →
  inv n (goto i pc w).
Proof.
  intros Hinv Hi Hp Hg. destruct w as [g t cs p]. destruct Hinv as [Hm Hc Hh Hb Hf Hpn].
  apply (inv_goto n (World g t cs p) i c pc g); simpl in *;
    first [by split|done|rewrite Hp; lia|rewrite Hg; lia].
Qed.

Lemma inv_cooldowns n w m : inv n w → inv n (set_gate (with_cooldowns m (gate w)) w).
Proof. intros []. by split. Qed.

Lemma inv_sem_release n w i c pc :
  inv n w → callers w !! i = Some c → has_permit c = true → is_granted c = false →
  has_permit (Caller (c_dc c) pc) = false → is_granted (Caller (c_dc c) pc) = false →
  inv n (sem_release i pc w).
Proof.
  intros Hinv Hi Hp Hg Hp' Hg'. unfold sem_release.
  destruct (release1_held (sem (gate w))) as (s' & -> & Hh & Hc).
  { rewrite (inv_held _ _ Hinv). by eapply tally_pos. }
  pose proof (inv_bound _ _ Hinv).
  apply (inv_goto _ _ _ c); try done; simpl; rewrite ?Hp, ?Hp', ?Hg, ?Hg'; simpl; lia.
Qed.

Lemma max_permits_pos n : 0 < max_permits n.
Proof. unfold max_permits. destruct (n <=? 0) eqn:He; go_bool; [done|lia]. Qed.

Lemma inv_run_caller n w i c w' :
  inv n w → callers w !! i = Some c → run_caller i c w = Some w' → inv n w'.
Proof.
  intros Hinv Hi. destruct c as [dc []]; unfold run_caller; simpl; intros Hr; simplify_eq.
  - apply (inv_move _ _ _ (Caller dc Check)); [by apply inv_cooldowns|done|by case_match..].
  - case_match; simplify_eq. by eapply inv_move.
  - destruct (acquire1 _) as [s|] eqn:Ha; simplify_eq.
    apply acquire1_some in Ha as (Hh & Hc & Hle). rewrite (inv_cap _ _ Hinv) in Hle.
    eapply inv_goto; [done|done|simpl; done || lia..].
  - eapply inv_move; [done..|by case_match|by case_match].
  - by eapply inv_sem_release.
  - pose proof (inv_bound _ _ Hinv). eapply inv_goto; [done|done|simpl; done || lia..].
  - by eapply inv_sem_release.
Qed.

Lemma inv_step n w e w' : inv n w → gate_step w e = Some w' → inv n w'.
Proof.
  intros Hinv. pose proof (inv_bound _ _ Hinv). destruct e; simpl; intros Hs.
  - case_match; simplify_eq. by destruct Hinv.
  - simplify_eq. destruct Hinv; split; simpl; rewrite ?tally_app; unfold tally; simpl; try done;
      rewrite Z.add_0_r; done.
  - simplify_eq. unfold TriggerFloodWait. repeat case_match; try apply inv_cooldowns;
      try done; by destruct Hinv.
  - case_match; [|done]. by eapply inv_run_caller.
  - destruct (callers w !! i) as [[dc []]|] eqn:Hi; simplify_eq; by eapply inv_move.
  - destruct (callers w !! i) as [[dc []]|] eqn:Hi; simplify_eq; [|done].
    eapply inv_goto; [done|done|simpl; done || lia..].
Qed.

Lemma inv_reach n w : reach n w → inv n w.
Proof.
  induction 1 as [now|w e w' Hr IH Hs]; [|by eapply inv_step].
  pose proof (max_permits_pos n) as Hpos.
  split; simpl; fold (max_permits n); rewrite ?new_held, ?new_cap by done; try done. lia.
Qed.

(** ** Cooldowns *)

(** The post-acquire verification is behind this caller. *)
Definition verified (c : caller) : bool :=
  match c_pc c with Cleared | Granted | Releasing | Released => true | _ => false end.

Definition cooled_until (dc t : Z) (w : world) : Prop :=
  ∃ nb, dcCooldowns (gate w) !! dc = Some nb ∧ t <= nb.

Lemma clock_mono w e w' : gate_step w e = Some w' → clock w <= clock w'.
Proof.
  destruct e; simpl; unfold run_caller, sem_release; intros; repeat case_match; go_bool;
    simplify_eq; simpl; lia.
Qed.

Lemma cooled_step dc t w e w' :
  cooled_until dc t w → clock w' < t → gate_step w e = Some w' → cooled_until dc t w'.
Proof.
  intros (nb & Hnb & Hle) Hclk Hs. pose proof (clock_mono _ _ _ Hs) as Hmono.
  assert (dcCooldowns (gate w') = dcCooldowns (gate w) → cooled_until dc t w') as Hkeep.
  { intros Heq. exists nb. by rewrite Heq. }
  destruct e; simpl in Hs.
  - case_match; simplify_eq. by apply Hkeep.
  - simplify_eq. by apply Hkeep.
  - simplify_eq. clear Hkeep. unfold cooled_until, TriggerFloodWait in *. simpl in *.
    destruct (decide (dc = dc0)) as [<-|]; [rewrite Hnb|];
      repeat case_match; go_bool; simplify_eq; simpl;
      rewrite ?lookup_insert_eq, ?lookup_insert_ne by done;
      first [by exists nb | eexists; split; [reflexivity|lia]].
  - case_match; [|done]. unfold run_caller, sem_release in Hs.
    repeat case_match; simplify_eq; try (by apply Hkeep).
    all: unfold check_cooldown in *; simplify_eq; exists nb; split; [|done]; apply map_lookup_filter_Some; split; [done|]; simpl in *; lia.
  - repeat case_match; simplify_eq; by apply Hkeep.
  - repeat case_match; simplify_eq; by apply Hkeep.
Qed.

(** While a data centre cools down, no caller for it gets past the verification. *)
Lemma verified_step dc t w e w' i c' :
  cooled_until dc t w → clock w' < t → gate_step w e = Some w' →
  callers w' !! i = Some c' → c_dc c' = dc → verified c' = true →
  ∃ c, callers w !! i = Some c ∧ c_dc c = dc ∧ verified c = true.
Proof.
  intros (nb & Hnb & Hle) Hclk Hs Hi' Hdc Hv. pose proof (clock_mono _ _ _ Hs) as Hmono.
  assert (∀ j pc g, w' = goto j pc (set_gate g w) ∨ w' = goto j pc w →
            (∀ c, callers w !! j = Some c → c_dc c = dc → verified (Caller dc pc) = true →
               verified c = true) →
            ∃ c, callers w !! i = Some c ∧ c_dc c = dc ∧ verified c = true) as Hmove.
  { intros j pc g Hw Hok.
    assert (callers w' = match callers w !! j with
              | Some c => <[j := Caller (c_dc c) pc]> (callers w) | None => callers w end) as Hc
      by (destruct Hw as [->| ->]; done).
    rewrite Hc in Hi'. destruct (callers w !! j) as [c|] eqn:Hj; [|eauto].
    destruct (decide (i = j)) as [->|]; [|rewrite list_lookup_insert_ne in Hi' by done; eauto].
    rewrite list_lookup_insert_eq in Hi' by (by eapply lookup_lt_Some). simplify_eq.
    exists c. eauto. }
  destruct e; simpl in Hs.
  - case_match; simplify_eq. eauto.
  - simplify_eq. simpl in Hi'. apply lookup_app_Some in Hi' as [?|[_ Hi']]; [eauto|].
    apply list_lookup_singleton_Some in Hi' as [_ <-]. done.
  - simplify_eq. eauto.
  - destruct (callers w !! i0) as [[dc0 pc]|] eqn:Hj; [|done]. unfold run_caller in Hs.
    destruct pc; unfold sem_release in Hs; simpl in Hs;
      repeat match type of Hs with
      | context [match ?x with _ => _ end] => destruct x eqn:?
      end; simplify_eq; try (by eauto);
      (first [eapply Hmove; [by left|]|eapply (Hmove _ _ (gate w)); [by right|]]); simpl; intros c Hc ? ?;
      rewrite Hj in Hc; simplify_eq/=; try done.
    assert (wait_until (clock w) (dcCooldowns (gate w)) (c_dc c') = Some nb) as Hwait; [|congruence].
    unfold wait_until. rewrite Hnb. by rewrite (proj2 (Z.ltb_lt _ _)) by (simpl in *; lia).
  - repeat case_match; simplify_eq; (eapply (Hmove _ _ (gate w)); [by right|]); by intros ? ? ? ?.
  - repeat case_match; simplify_eq; [|by eauto].
    eapply Hmove; [by left|]. intros c Hc. simplify_eq. done.
Qed.

Lemma flood_wait_holds dc t w es w' :
  cooled_until dc t w → gate_run w es = Some w' → clock w' < t →
  cooled_until dc t w' ∧
  ∀ i c', callers w' !! i = Some c' → c_dc c' = dc → verified c' = true →
    ∃ c, callers w !! i = Some c ∧ c_dc c = dc ∧ verified c = true.
Proof.
  revert w. induction es as [|e es IH]; intros w Hcool Hrun Hclk; simplify_eq/=; [eauto|].
  destruct (gate_step w e) as [w1|] eqn:Hs; [|done].
  assert (clock w1 <= clock w') as Hle.
  { clear - Hrun. revert w1 Hrun. induction es as [|e es IH]; intros w1 Hrun; simplify_eq/=; [done|].
    destruct (gate_step w1 e) as [w2|] eqn:Hs; [|done].
    apply clock_mono in Hs. specialize (IH _ Hrun). lia. }
  assert (cooled_until dc t w1) as Hcool1 by (eapply cooled_step; [done| |done]; lia).
  destruct (IH w1 Hcool1 Hrun Hclk) as [Hc' Hv']. split; [done|].
  intros i c' Hi Hdc Hv. destruct (Hv' i c' Hi Hdc Hv) as (c & Hc & <- & Hvc).
  eapply verified_step; [done| |done..]. lia.
Qed.

Lemma flood_cools w dc d :
  0 < d → cooled_until dc (clock w + d) (set_gate (TriggerFloodWait (gate w) dc d (clock w)) w).
Proof.
  intros Hd. unfold cooled_until, TriggerFloodWait. simpl.
  rewrite (proj2 (Z.leb_gt d 0)) by done.
  destruct (dcCooldowns (gate w) !! dc) as [nb|] eqn:Hnb; [destruct (nb <? clock w + d) eqn:Hlt|];
    go_bool; simpl; rewrite ?lookup_insert_eq, ?Hnb; eexists; (split; [reflexivity|]); lia.
Qed.

End Gate.

Arguments world : clear implicits.

(** ** Properties *)

(** C18. The gate bounds the data RPCs in flight: whatever calls, cancellations, cooldowns and
    releases are interleaved on a gate built for [n], the in-flight counter is the number
    of callers that returned with a permit they have not given back, it never exceeds the
    configured limit, and no release panics. *)
Theorem gate_bounds_in_flight {S} `{SemaphoreLaws S} (n : Z) (w : world S) :
  reach n w →
  InFlight (Some (gate w)) = tally is_granted (callers w) ∧
  0 <= InFlight (Some (gate w)) <= MaxInFlight (Some (gate w)) ∧
  MaxInFlight (Some (gate w)) = (if n <=? 0 then 40 else n) ∧ panicked w = false.
Proof.
  intros Hinv%inv_reach. destruct Hinv as [Hm Hc Hh Hb Hf Hp]. simpl.
  rewrite Hm, Hf. split_and!; try done; [apply tally_nonneg|].
  pose proof (tally_le is_granted has_permit (callers w)) as Hle.
  enough (tally is_granted (callers w) <= tally has_permit (callers w)) by lia.
  apply Hle. intros [dc []]; done.
Qed.

(** Permits are never leaked: when no caller is between acquiring a permit and the end of
    its release (every one waits, was canceled or has released), all permits of the
    semaphore are free and nothing is counted in flight. *)
Theorem gate_leaks_no_permit {S} `{SemaphoreLaws S} (n : Z) (w : world S) :
  reach n w → Forall (λ c, has_permit c = false) (callers w) →
  held (sem (gate w)) = 0 ∧ InFlight (Some (gate w)) = 0 ∧ is_Some (acquire1 (sem (gate w))).
Proof.
  intros Hinv%inv_reach Hfree. rewrite Forall_forall in Hfree.
  destruct Hinv as [Hm Hc Hh Hb Hf Hp]. rewrite (tally_zero _ _ Hfree) in Hh.
  split_and!; [done| |].
  - simpl. rewrite Hf. apply tally_zero. intros c Hin%Hfree. by destruct c as [dc []].
  - apply acquire1_free. rewrite Hh, Hc. apply max_permits_pos.
Qed.

(** A FloodWait is respected: after [TriggerFloodWait(dc, d)] at time [t], as long as the
    clock is short of [t + d] the data centre is reported as cooling down, however many
    shorter waits are registered and however often [Acquire] purges the table, and no
    caller for that data centre, present or later, gets a permit that it did not already
    have verified before. *)
Theorem flood_wait_respected {S} `{Semaphore S} (w : world S) (dc d : Z) (es : list event) (w' : world S) :
  0 < d →
  gate_run (set_gate (TriggerFloodWait (gate w) dc d (clock w)) w) es = Some w' →
  clock w' < clock w + d →
  IsDCCooledDown (Some (gate w')) dc (clock w') = true ∧
  ∀ i c', callers w' !! i = Some c' → c_dc c' = dc → verified c' = true →
    ∃ c, callers w !! i = Some c ∧ c_dc c = dc ∧ verified c = true.
Proof.
  intros Hd Hrun Hclk.
  destruct (flood_wait_holds dc (clock w + d) _ es w' (flood_cools w dc d Hd) Hrun Hclk)
    as [(nb & Hnb & Hle) Hv].
  split; [|exact Hv]. simpl. rewrite Hnb. apply Z.ltb_lt. lia.
Qed.

Lemma gate_run_Run {S} `{Semaphore S} (w : world S) i c w1 es :
  callers w !! i = Some c → run_caller i c w = Some w1 → gate_run w (Run i :: es) = gate_run w1 es.
Proof. intros Hi Hr. simpl. by rewrite Hi, Hr. Qed.

Lemma goto_lookup {S} (w : world S) i c pc g :
  callers w !! i = Some c → callers (goto i pc (set_gate g w)) !! i = Some (Caller (c_dc c) pc).
Proof.
  intros Hi. simpl. rewrite Hi. apply list_lookup_insert_eq. by eapply lookup_lt_Some.
Qed.

(** C23. [Acquire] succeeds when it can: from any reachable state in which a caller is at the top
    of the loop, a permit is free and its data centre is not cooling down, running that
    caller through four atomic sections returns it a permit. *)
Theorem acquire_grants_when_free {S} `{SemaphoreLaws S} (n : Z) (w : world S) (i : nat) (dc : Z) :
  reach n w → callers w !! i = Some (Caller dc Check) →
  IsDCCooledDown (Some (gate w)) dc (clock w) = false →
  tally has_permit (callers w) < MaxInFlight (Some (gate w)) →
  ∃ w', gate_run w [Run i; Run i; Run i; Run i] = Some w' ∧
        callers w' !! i = Some (Caller dc Granted) ∧
        InFlight (Some (gate w')) = InFlight (Some (gate w)) + 1.
Proof.
  intros Hinv%inv_reach Hi Hcool Hfree. destruct Hinv as [Hm Hc Hh Hb Hf Hp]. simpl in Hfree, Hcool.
  assert (i < length (callers w))%nat as Hlt by (by eapply lookup_lt_Some).
  assert (wait_until (clock w) (purge (clock w) (dcCooldowns (gate w))) dc = None) as Hw.
  { unfold wait_until. destruct (purge _ _ !! dc) as [nb|] eqn:He; [|done].
    apply map_lookup_filter_Some in He as [He _]. rewrite He in Hcool. by rewrite Hcool. }
  destruct (acquire1_free (sem (gate w))) as [s' Hs]; [lia|].
  set (w1 := goto i Queued (set_gate (with_cooldowns (purge (clock w) (dcCooldowns (gate w))) (gate w)) w)).
  set (w2 := goto i Permit (set_gate (with_sem s' (gate w1)) w1)).
  set (w3 := goto i Cleared w2).
  pose proof (goto_lookup w i _ Queued (gate w1) Hi) as H1.
  pose proof (goto_lookup w1 i _ Permit (gate w2) H1) as H2.
  pose proof (goto_lookup w2 i _ Cleared (gate w2) H2) as H3.
  pose proof (goto_lookup w3 i _ Granted (with_inFlight (inFlight (gate w) + 1) (gate w3)) H3) as H4.
  eexists. split; [|split; [exact H4|done]].
  rewrite (gate_run_Run w i _ w1 _ Hi) by (unfold run_caller, check_cooldown; cbv [c_pc c_dc]; by rewrite Hw).
  rewrite (gate_run_Run w1 i _ w2 _ H1) 
    by (unfold run_caller; cbv [c_pc]; change (sem (gate w1)) with (sem (gate w)); by rewrite Hs).
  rewrite (gate_run_Run w2 i _ w3 _ H2) 
    by (unfold run_caller; cbv [c_pc c_dc];
        change (dcCooldowns (gate w2)) with (purge (clock w) (dcCooldowns (gate w)));
        change (clock w2) with (clock w); by rewrite Hw).
  by rewrite (gate_run_Run w3 i _ _ _ H3 eq_refl).
Qed.

(** ** A counting semaphore *)

Record counter := Counter { c_held : Z; c_cap : Z }.

#[export] Instance counter_semaphore : Semaphore counter := {
  NewWeighted n := Counter 0 n;
  acquire1 s := if c_held s <? c_cap s then Some (Counter (c_held s + 1) (c_cap s)) else None;
  release1 s := if 0 <? c_held s then Some (Counter (c_held s - 1) (c_cap s)) else None;
}.

#[export] Program Instance counter_laws : SemaphoreLaws counter := {
  held := c_held;
  cap := c_cap;
}.
Next Obligation. done. Qed.
Next Obligation. done. Qed.
Next Obligation. intros s s'. simpl. case_match; intros; go_bool; simplify_eq/=. lia. Qed.
Next Obligation. intros s Hlt. simpl. apply Z.ltb_lt in Hlt. rewrite Hlt. eauto. Qed.
Next Obligation. intros s Hlt. simpl. apply Z.ltb_lt in Hlt. rewrite Hlt. eauto. Qed.

(** Two callers on a gate of one permit, a FloodWait, a release and a cancellation. *)
Definition two_callers : list event :=
  [Call 2; Call 4; Run 0; Run 0; Run 1; Run 0; Run 0; Flood 4 100; Tick 30; Flood 4 10].
Definition two_callers_end : world counter :=
  World (Gate_ (Counter 1 1) 1 1 {[ 4 := 100 ]}) 30
    [Caller 2 Granted; Caller 4 Queued] false.

Lemma reach_run {S} `{Semaphore S} n w es w' : reach n w → gate_run w es = Some w' → reach (S:=S) n w'.
Proof.
  revert w. induction es as [|e es IH]; intros w Hr Hrun; simplify_eq/=; [done|].
  destruct (gate_step w e) eqn:Hs; [|done]. eapply IH; [|done]. by eapply reach_step.
Qed.

Lemma two_callers_reach : reach 1 two_callers_end.
Proof. eapply (reach_run 1 (new_world 1 0) two_callers); [constructor|vm_compute; reflexivity]. Qed.

Lemma gate_bounds_in_flight_witness :
  InFlight (Some (gate two_callers_end)) = tally is_granted (callers two_callers_end) ∧
  0 <= InFlight (Some (gate two_callers_end)) <= MaxInFlight (Some (gate two_callers_end)) ∧
  MaxInFlight (Some (gate two_callers_end)) = (if 1 <=? 0 then 40 else 1) ∧
  panicked two_callers_end = false.
Proof. apply (gate_bounds_in_flight 1 two_callers_end two_callers_reach). Defined.

Definition drained : world counter :=
  World (Gate_ (Counter 0 1) 1 0 {[ 4 := 100 ]}) 30 [Caller 2 Released; Caller 4 Canceled] false.

Lemma gate_leaks_no_permit_witness :
  held (sem (gate drained)) = 0 ∧ InFlight (Some (gate drained)) = 0 ∧
  is_Some (acquire1 (sem (gate drained))).
Proof.
  apply (gate_leaks_no_permit 1 drained).
  - eapply (reach_run 1 two_callers_end [Release 0; Run 0; Cancel 1]);
      [exact two_callers_reach|vm_compute; reflexivity].
  - repeat constructor.
Defined.

Definition flooded_end : world counter :=
  World (Gate_ (Counter 1 1) 1 1 {[ 4 := 100 ]}) 90
    [Caller 2 Granted; Caller 4 Queued; Caller 4 (Waiting 100)] false.

Lemma flood_wait_respected_witness :
  IsDCCooledDown (Some (gate flooded_end)) 4 90 = true ∧
  ∀ i c', callers flooded_end !! i = Some c' → c_dc c' = 4 → verified c' = true →
    ∃ c, callers two_callers_end !! i = Some c ∧ c_dc c = 4 ∧ verified c = true.
Proof.
  apply (flood_wait_respected two_callers_end 4 65 [Call 4; Run 2; Flood 4 1; Tick 60] flooded_end);
    [done|vm_compute; reflexivity|done].
Defined.

Lemma acquire_grants_when_free_witness :
  ∃ w', gate_run (World (Gate_ (Counter 0 1) 1 0 ∅) 0 [Caller 2 Check] false)
          [Run 0; Run 0; Run 0; Run 0] = Some w' ∧
        callers w' !! 0%nat = Some (Caller 2 Granted) ∧ InFlight (Some (gate w')) = 0 + 1.
Proof.
  apply (acquire_grants_when_free 1 (World (Gate_ (Counter 0 1) 1 0 ∅) 0 [Caller 2 Check] false) 0 2);
    [|done..].
  eapply (reach_run 1 (new_world 1 0) [Call 2]); [constructor|vm_compute; reflexivity].
Defined.
