(* ===== verification/Transfer.v ===== *)
(** * The transfer layer (core/transfer)

    [GatedInvoker.Invoke] of adapter.go with the task context of manager.go, as a state
    machine that many goroutines run on shared cells; [CountingWriterAt] of writer.go; and
    [DownloadFileWithResult] of manager.go, which runs gotd's parallel downloader and
    classifies what comes back.

    gotd itself is not part of the repository: the RPC and the downloader are described by
    what they do at the boundary (an RPC returns an error and a number of payload bytes;
    the downloader makes a list of [WriteAt] calls and returns an error). *)
From S2P Require Import Prelude Ranges Gate.

(** ** Errors *)

(** Go errors by the wrapping that [errors.Is] and [errors.As] look through. *)
Inductive goerr :=
| ErrRequestBudgetExhausted
| CtxErr (text : string)                              (* ctx.Err() *)
| OtherErr (text : string)                            (* an error of another package *)
| WrapErr (text : string) (cause : goerr)             (* fmt.Errorf with the %w verb *)
| InvocationErr (cause : goerr) (PhysicalAttemptID RangeLabel : string)
| TransferErr (Stage Op Class RetryOwner : string) (Unavailable Retryable : bool) (Cause : goerr).

Definition Unwrap (e : goerr) : option goerr :=
  match e with
  | WrapErr _ c | InvocationErr c _ _ | TransferErr _ _ _ _ _ _ c => Some c
  | _ => None
  end.

(** The errors of a chain, outermost first. *)
Fixpoint chain (e : goerr) : list goerr :=
  e :: match e with
       | WrapErr _ c | InvocationErr c _ _ | TransferErr _ _ _ _ _ _ c => chain c
       | _ => []
       end.

(** [errors.Is(err, ErrRequestBudgetExhausted)]. *)
Definition is_budget_error (e : goerr) : bool :=
  existsb (λ x, match x with ErrRequestBudgetExhausted => true | _ => false end) (chain e).

(** [ExtractPhysicalAttempt]: the outermost [InvocationError]. *)
Definition ExtractPhysicalAttempt (e : goerr) : option (string * string) :=
  head (omap (λ x, match x with InvocationErr _ p r => Some (p, r) | _ => None end) (chain e)).

(** ** Sizes, budgets, threads *)

Definition GotdPartSize : Z := 512 * 1024.
Definition DefaultMaxRetryAttempts : Z := 20.
Definition DefaultFileConcurrency : Z := 5.
Definition DefaultMaxFileThreads : Z := 8.

Definition ComputeChunkCount (size : Z) : Z :=
  if size <=? 0 then 1
  else
    let chunks := Z.quot (wrap64 (size + GotdPartSize - 1)) GotdPartSize in
    if chunks <=? 0 then 1 else chunks.

Definition ComputeRequestBudget (expectedSize maxRetriesPerChunk : Z) : Z :=
  let maxRetriesPerChunk :=
    if maxRetriesPerChunk <=? 0 then DefaultMaxRetryAttempts else maxRetriesPerChunk in
  wrap64 (ComputeChunkCount expectedSize * wrap64 (1 + maxRetriesPerChunk)).

Record TransferManager := Manager {
  fileCapacity : Z;
  activeFiles : Z;
  maxFileThreads : Z;
  physicalRetries : Z;
}.

Definition NewTransferManager (FileConcurrency MaxFileThreads : Z) : TransferManager :=
  Manager (if FileConcurrency <=? 0 then DefaultFileConcurrency else FileConcurrency) 0
    (if MaxFileThreads <=? 0 then DefaultMaxFileThreads else MaxFileThreads) 0.

Definition SetFileConcurrency (m : option TransferManager) (n : Z)
    : res string unit * option TransferManager :=
  match m with
  | None => (Err "transfer manager is nil", None)
  | Some m' =>
      if (n <? 1) || (64 <? n) then (Err "file concurrency must be between 1 and 64", m)
      else (Ok tt, Some (Manager n (activeFiles m') (maxFileThreads m') (physicalRetries m')))
  end.

Definition FileConcurrency (m : option TransferManager) : Z :=
  match m with None => 0 | Some m => fileCapacity m end.

Definition ComputeFileThreads (m : TransferManager) (expectedSize : Z) : Z :=
  if expectedSize <=? 0 then 1
  else
    let chunkCount := Z.quot (wrap64 (expectedSize + GotdPartSize - 1)) GotdPartSize in
    let threads := if chunkCount <? maxFileThreads m then chunkCount else maxFileThreads m in
    if threads <? 1 then 1 else threads.

(** ** The task context *)

(** The cells that all goroutines of one download share; a nil pointer is [None]. *)
Record task := Task {
  AttemptID : string;
  MaxRetries : Z;
  RequestBudget : Z;
  RequestCount : option Z;
  WireBytes : option Z;
  PhysicalRetries : option Z;
  RangeAttempts : option (gmap string Z);
  FailedAttempts : option (gmap string string);
  LastPhysicalID : option (option string);
  Invocations : option (list (string * option goerr));   (* calls of OnInvocation, latest first *)
}.

Definition set_count (n : Z) (tc : task) : task :=
  Task (AttemptID tc) (MaxRetries tc) (RequestBudget tc) (Some n) (WireBytes tc) (PhysicalRetries tc)
    (RangeAttempts tc) (FailedAttempts tc) (LastPhysicalID tc) (Invocations tc).
Definition set_budget (n : Z) (tc : task) : task :=
  Task (AttemptID tc) (MaxRetries tc) n (RequestCount tc) (WireBytes tc) (PhysicalRetries tc)
    (RangeAttempts tc) (FailedAttempts tc) (LastPhysicalID tc) (Invocations tc).
Definition set_wire (n : Z) (tc : task) : task :=
  Task (AttemptID tc) (MaxRetries tc) (RequestBudget tc) (RequestCount tc) (Some n) (PhysicalRetries tc)
    (RangeAttempts tc) (FailedAttempts tc) (LastPhysicalID tc) (Invocations tc).
Definition set_retries (n : Z) (tc : task) : task :=
  Task (AttemptID tc) (MaxRetries tc) (RequestBudget tc) (RequestCount tc) (WireBytes tc) (Some n)
    (RangeAttempts tc) (FailedAttempts tc) (LastPhysicalID tc) (Invocations tc).
Definition set_ranges (m : gmap string Z) (tc : task) : task :=
  Task (AttemptID tc) (MaxRetries tc) (RequestBudget tc) (RequestCount tc) (WireBytes tc) (PhysicalRetries tc)
    (Some m) (FailedAttempts tc) (LastPhysicalID tc) (Invocations tc).
Definition set_failed (m : gmap string string) (tc : task) : task :=
  Task (AttemptID tc) (MaxRetries tc) (RequestBudget tc) (RequestCount tc) (WireBytes tc) (PhysicalRetries tc)
    (RangeAttempts tc) (Some m) (LastPhysicalID tc) (Invocations tc).
Definition set_last (id : string) (tc : task) : task :=
  Task (AttemptID tc) (MaxRetries tc) (RequestBudget tc) (RequestCount tc) (WireBytes tc) (PhysicalRetries tc)
    (RangeAttempts tc) (FailedAttempts tc) (Some (Some id)) (Invocations tc).
Definition log_invocation (id : string) (e : option goerr) (tc : task) : task :=
  Task (AttemptID tc) (MaxRetries tc) (RequestBudget tc) (RequestCount tc) (WireBytes tc) (PhysicalRetries tc)
    (RangeAttempts tc) (FailedAttempts tc) (LastPhysicalID tc)
    (match Invocations tc with Some l => Some ((id, e) :: l) | None => None end).

(** [tc.LastPhysicalID.Store(&id)], where the pointer is set. *)
Definition store_last (id : string) (tc : task) : task :=
  match LastPhysicalID tc with Some _ => set_last id tc | None => tc end.

Definition invocation_id (gen label : string) (attempt : Z) : string :=
  (if decide (gen = "") then "1" else gen) +:+ "-" +:+ label +:+ "-a" +:+ itoa attempt.

Definition NextInvocationID (tc : task) (rangeLabel : string) : (string * Z) * task :=
  match RangeAttempts tc with
  | Some m =>
      let attempt := default 0 (m !! rangeLabel) + 1 in
      let id := invocation_id (AttemptID tc) rangeLabel attempt in
      ((id, attempt), store_last id (set_ranges (<[rangeLabel := attempt]> m) tc))
  | None =>
      let id := invocation_id (AttemptID tc) rangeLabel 1 in
      ((id, 1), store_last id tc)
  end.

Definition RecordFailedAttempt (rangeLabel invID : string) (tc : task) : task :=
  store_last invID
    (match FailedAttempts tc with
     | Some m => set_failed (<[rangeLabel := invID]> m) tc
     | None => tc
     end).

Definition GetFailedAttempt (tc : task) (rangeLabel : string) : string :=
  match FailedAttempts tc with Some m => default "" (m !! rangeLabel) | None => "" end.

Definition GetLatestPhysicalAttemptID (tc : task) : string :=
  let fallback := if decide (AttemptID tc = "") then "p0" else AttemptID tc +:+ "-p0" in
  match LastPhysicalID tc with
  | Some (Some id) => if decide (id = "") then fallback else id
  | _ => fallback
  end.

Definition PhysicalAttemptID_ (tc : task) (retry : Z) : string :=
  if decide (AttemptID tc = "") then "p" +:+ itoa retry
  else AttemptID tc +:+ "-p" +:+ itoa retry.

(** ** [GatedInvoker.Invoke] *)

(** The requests [extractRequestRange] tells apart. *)
Inductive request :=
| UploadGetFile (Offset Limit : Z)
| UploadGetCDNFile (Offset Limit : Z)
| OtherRPC.

Definition extractRequestRange (r : request) : string * Z * Z :=
  match r with
  | UploadGetFile off lim => ("chunk-" +:+ itoa off, off, lim)
  | UploadGetCDNFile off lim => ("cdn-" +:+ itoa off, off, lim)
  | OtherRPC => ("rpc", 0, 0)
  end.

Definition range_label (r : request) : string := (extractRequestRange r).1.1.

(** An error on its way out: bound to the physical attempt when there is one. *)
Definition bind_error (physID rangeLabel : string) (e : goerr) : goerr :=
  if decide (physID = "") then e else InvocationErr e physID rangeLabel.

(** Where a goroutine stands in [Invoke]; its locals are kept with the point. A step runs
    to the next operation on a cell whose interleaving matters: the budget loop is split
    at its load and its compare-and-swap, while the bookkeeping stores around one atomic
    addition ([LastPhysicalID], [FailedAttempts]) go with it. *)
Inductive ipc :=
| IEnter
| ILoad (phys : string)                 (* at the top of the budget loop *)
| ICas (phys : string) (cur : Z)        (* loaded [cur], before the compare-and-swap *)
| IAcquire (phys : string)              (* in g.gate.Acquire *)
| ISend (phys : string)                 (* in g.raw.Invoke *)
| IRefused (phys : string) (r : goerr)  (* returned from the budget loop *)
| IReturn (phys : string) (r : option goerr).

Record invoker := Invoker { i_req : request; i_pc : ipc }.

(** [i_task] is the task context of the goroutines, [None] when there is none. *)
Record ishared := IShared {
  i_gated : bool;              (* g.gate != nil *)
  i_task : option task;
  i_invokers : list invoker;
  i_floods : list Z;           (* durations passed to TriggerFloodWait, latest first *)
}.

Inductive ievent :=
| INew (r : request)
| IStep (i : nat)
| IAcquired (i : nat) (r : option goerr)                         (* what Acquire returned *)
| IAnswer (i : nat) (r : option goerr) (wire : Z) (flood : option Z).  (* what the RPC returned *)

Definition with_task (f : task → task) (t : option task) : option task := f <$> t.

Definition istep (s : ishared) (ev : ievent) : option ishared :=
  let move i inv pc t fl :=
    Some (IShared (i_gated s) t (<[i := Invoker (i_req inv) pc]> (i_invokers s)) fl) in
  match ev with
  | INew r => Some (IShared (i_gated s) (i_task s) (i_invokers s ++ [Invoker r IEnter]) (i_floods s))
  | IStep i =>
      match i_invokers s !! i with
      | Some inv =>
          let label := range_label (i_req inv) in
          match i_pc inv with
          | IEnter =>
              match i_task s with
              | Some tc =>
                  let '((id, _), tc') := NextInvocationID tc label in
                  move i inv (ILoad id) (Some tc') (i_floods s)
              | None => move i inv (ILoad "") None (i_floods s)
              end
          | ILoad phys =>
              match i_task s with
              | Some tc =>
                  match RequestCount tc with
                  | Some cur =>
                      if (0 <? RequestBudget tc) && (RequestBudget tc <=? cur) then
                        move i inv (IRefused phys (bind_error phys label ErrRequestBudgetExhausted))
                          (Some (RecordFailedAttempt label phys tc)) (i_floods s)
                      else move i inv (ICas phys cur) (i_task s) (i_floods s)
                  | None => move i inv (IAcquire phys) (i_task s) (i_floods s)
                  end
              | None => move i inv (IAcquire phys) (i_task s) (i_floods s)
              end
          | ICas phys cur =>
              match i_task s with
              | Some tc =>
                  if decide (RequestCount tc = Some cur) then
                    move i inv (IAcquire phys) (Some (set_count (cur + 1) tc)) (i_floods s)
                  else move i inv (ILoad phys) (i_task s) (i_floods s)
              | None => None
              end
          | _ => None
          end
      | None => None
      end
  | IAcquired i r =>
      match i_invokers s !! i with
      | Some inv =>
          match i_pc inv with
          | IAcquire phys =>
              let label := range_label (i_req inv) in
              match r with
              | Some e =>
                  if i_gated s then
                    move i inv (IReturn phys (Some (bind_error phys label e)))
                      (with_task (RecordFailedAttempt label phys) (i_task s)) (i_floods s)
                  else None
              | None => move i inv (ISend phys) (i_task s) (i_floods s)
              end
          | _ => None
          end
      | None => None
      end
  | IAnswer i r wire flood =>
      match i_invokers s !! i with
      | Some inv =>
          match i_pc inv with
          | ISend phys =>
              let label := range_label (i_req inv) in
              let note tc := match r with Some _ => RecordFailedAttempt label phys tc | None => tc end in
              let count_wire tc :=
                match WireBytes tc with
                | Some b => if 0 <? wire then set_wire (b + wire) tc else tc
                | None => tc
                end in
              move i inv (IReturn phys (bind_error phys label <$> r))
                (with_task (λ tc, count_wire (log_invocation phys r (note tc))) (i_task s))
                (match flood with
                 | Some d => if i_gated s then d :: i_floods s else i_floods s
                 | None => i_floods s
                 end)
          | _ => None
          end
      | None => None
      end
  end.

Fixpoint irun (s : ishared) (evs : list ievent) : option ishared :=
  match evs with
  | [] => Some s
  | ev :: evs => match istep s ev with Some s' => irun s' evs | None => None end
  end.

Definition past_budget (inv : invoker) : bool :=
  match i_pc inv with IAcquire _ | ISend _ | IReturn _ _ => true | _ => false end.
Definition on_wire (inv : invoker) : bool :=
  match i_pc inv with ISend _ => true | _ => false end.

Definition phys_of (inv : invoker) : option string :=
  match i_pc inv with
  | IEnter => None
  | ILoad p | ICas p _ | IAcquire p | ISend p | IRefused p _ | IReturn p _ => Some p
  end.

(** ** Counting requests *)

Section Budget.
Context (b c0 : Z) (Hpos : 0 < b).

(** Every pass through the budget loop is counted once, and nothing passes at the limit. *)
Record binv (s : ishared) : Prop := BInv {
  binv_count : ∃ tc c, i_task s = Some tc ∧ RequestCount tc = Some c ∧ RequestBudget tc = b ∧
                       c = c0 + tally past_budget (i_invokers s) ∧ c <= b;
  binv_cas : Forall (λ inv, match i_pc inv with ICas _ cur => cur < b | _ => True end) (i_invokers s);
}.

Lemma store_last_count id tc :
  RequestCount (store_last id tc) = RequestCount tc ∧ RequestBudget (store_last id tc) = RequestBudget tc.
Proof. unfold store_last. by destruct (LastPhysicalID tc). Qed.
Lemma NextInvocationID_count tc l id n tc' :
  NextInvocationID tc l = (id, n, tc') →
  RequestCount tc' = RequestCount tc ∧ RequestBudget tc' = RequestBudget tc.
Proof.
  unfold NextInvocationID, store_last.
  destruct (RangeAttempts tc), (LastPhysicalID tc) eqn:Hl; intros ?; simplify_eq; simpl; rewrite ?Hl; done.
Qed.
Lemma RecordFailedAttempt_count l id tc :
  RequestCount (RecordFailedAttempt l id tc) = RequestCount tc ∧
  RequestBudget (RecordFailedAttempt l id tc) = RequestBudget tc.
Proof.
  unfold RecordFailedAttempt. destruct (FailedAttempts tc) as [m|]; [|apply store_last_count].
  apply (store_last_count id (set_failed _ tc)).
Qed.

(** A move that does not change the count. *)
Lemma binv_move s i req pc0 pc tc tc' fl :
  binv s → i_invokers s !! i = Some (Invoker req pc0) → i_task s = Some tc →
  RequestCount tc' = RequestCount tc ∧ RequestBudget tc' = RequestBudget tc →
  past_budget (Invoker req pc) = past_budget (Invoker req pc0) →
  match pc with ICas _ cur => cur < b | _ => True end →
  binv (IShared (i_gated s) (Some tc') (<[i := Invoker req pc]> (i_invokers s)) fl).
Proof.
  intros [(tc0 & c & Ht & Hc & Hb & Hsum & Hle) Hcas] Hi Htc [Hc' Hb'] Hp Hpc.
  rewrite Ht in Htc. injection Htc as ->. split; simpl.
  - exists tc', c. rewrite Hc', Hb', (tally_insert _ _ _ _ _ Hi), Hp. split_and!; try done; lia.
  - apply Forall_insert; [done|]. by destruct pc.
Qed.

Lemma binv_step s ev s' : binv s → istep s ev = Some s' → binv s'.
Proof.
  intros Hb. destruct (binv_count _ Hb) as (tc & c & Ht & Hc & Hbud & Hsum & Hle).
  destruct ev as [r|i|i r|i r wire flood]; simpl; intros Hs.
  - injection Hs as <-. destruct Hb as [_ Hcas]. split; simpl.
    + exists tc, c. rewrite tally_app. split_and!; try done. unfold tally in *. simpl. lia.
    + apply Forall_app. by repeat constructor.
  - destruct (i_invokers s !! i) as [[req []]|] eqn:Hi; simpl in Hs; try done; rewrite Ht in Hs.
    + destruct (NextInvocationID tc _) as [[id n] tc'] eqn:Hn. simplify_eq.
      eapply binv_move; [done|done|done|by eapply NextInvocationID_count|done|done].
    + rewrite Hc in Hs. destruct (_ && _)%bool eqn:Hex; simplify_eq.
      * eapply binv_move; [done|done|done|apply RecordFailedAttempt_count|done|done].
      * eapply binv_move; [done|done|done|done|done|].
        apply andb_false_iff in Hex as [?|?]; go_bool; lia.
    + destruct (decide _) as [Hcur|]; simplify_eq.
      * pose proof (binv_cas _ Hb) as Hcas. rewrite Forall_lookup in Hcas.
        specialize (Hcas _ _ Hi). simpl in Hcas. split; simpl.
        -- eexists _, _. rewrite (tally_insert _ _ _ _ _ Hi). simpl.
           split_and!; [done|done|done|simplify_eq; lia|simplify_eq; lia].
        -- apply Forall_insert; [apply Hb|done].
      * by eapply binv_move.
  - destruct (i_invokers s !! i) as [[req []]|] eqn:Hi; simpl in Hs; try done; rewrite Ht in Hs.
    destruct r; [destruct (i_gated s) eqn:Hg; [|done]|]; simpl in Hs; simplify_eq.
    + rewrite <- Hg. eapply binv_move; [done|done|done|apply RecordFailedAttempt_count|done|done].
    + by eapply binv_move.
  - destruct (i_invokers s !! i) as [[req []]|] eqn:Hi; simpl in Hs; try done; rewrite Ht in Hs.
    simplify_eq. simpl. eapply binv_move; [done|done|done| |done|done].
    set (tc1 := match r with Some _ => _ | None => _ end).
    assert (RequestCount tc1 = RequestCount tc ∧ RequestBudget tc1 = RequestBudget tc) as Htc1.
    { destruct r; [apply RecordFailedAttempt_count|done]. }
    repeat case_match; done.
Qed.

Lemma binv_run s evs s' : binv s → irun s evs = Some s' → binv s'.
Proof.
  revert s. induction evs as [|ev evs IH]; intros s Hb Hr; simplify_eq/=; [done|].
  destruct (istep s ev) eqn:Hs; [|done]. eapply IH; [|done]. by eapply binv_step.
Qed.

End Budget.

(** ** Physical attempt identities *)

Lemma invocation_id_inj gen l1 l2 n1 n2 :
  0 <= n1 → 0 <= n2 → invocation_id gen l1 n1 = invocation_id gen l2 n2 → l1 = l2 ∧ n1 = n2.
Proof.
  unfold invocation_id. intros Hn1 Hn2 Heq%string_app_inj_l. apply (string_app_inj_l "-") in Heq.
  apply string_sep_inj in Heq as [-> Heq]; [|simpl; intros [[=]|[?|[? _]]%itoa_digits]%elem_of_cons; [set_solver|lia]..].
  split; [done|]. apply itoa_inj. by simplify_eq/=.
Qed.

Section Identities.
Context (gen : string).

Definition same_ids (tc tc' : task) : Prop :=
  AttemptID tc' = AttemptID tc ∧ RangeAttempts tc' = RangeAttempts tc.

Lemma store_last_ids id tc : same_ids tc (store_last id tc).
Proof. unfold store_last. by destruct (LastPhysicalID tc). Qed.
Lemma RecordFailedAttempt_ids l id tc : same_ids tc (RecordFailedAttempt l id tc).
Proof.
  unfold RecordFailedAttempt. destruct (FailedAttempts tc) as [m|]; [|apply store_last_ids].
  apply (store_last_ids id (set_failed _ tc)).
Qed.

(** Every identity in use was drawn from its range's counter, and no two are the same. *)
Record idinv (s : ishared) : Prop := IdInv {
  id_cells : ∃ tc m, i_task s = Some tc ∧ AttemptID tc = gen ∧ RangeAttempts tc = Some m ∧
    (∀ l, 0 <= default 0 (m !! l)) ∧
    ∀ i inv p, i_invokers s !! i = Some inv → phys_of inv = Some p →
      ∃ a, 1 <= a <= default 0 (m !! range_label (i_req inv)) ∧
           p = invocation_id gen (range_label (i_req inv)) a;
  id_distinct : ∀ i j inv inv' p, i ≠ j → i_invokers s !! i = Some inv →
    i_invokers s !! j = Some inv' → phys_of inv = Some p → phys_of inv' ≠ Some p;
}.

Lemma idinv_move s i req pc0 pc tc tc' fl :
  idinv s → i_invokers s !! i = Some (Invoker req pc0) → i_task s = Some tc → same_ids tc tc' →
  phys_of (Invoker req pc) = phys_of (Invoker req pc0) →
  idinv (IShared (i_gated s) (Some tc') (<[i := Invoker req pc]> (i_invokers s)) fl).
Proof.
  intros [(tc0 & m & Ht & Hgen & Hm & Hpos & Hids) Hd] Hi Htc [Ha Hr] Hp.
  rewrite Ht in Htc. injection Htc as ->.
  assert (∀ j inv, <[i := Invoker req pc]> (i_invokers s) !! j = Some inv →
            ∃ inv', i_invokers s !! j = Some inv' ∧ phys_of inv' = phys_of inv ∧ i_req inv' = i_req inv) as Hback.
  { intros j inv [(-> & <- & _)|[? ?]]%list_lookup_insert_Some; eauto. }
  split; simpl.
  - exists tc', m. rewrite Ha, Hr. split_and!; try done. intros j inv p (inv' & Hj & <- & <-)%Hback.
    eauto.
  - intros j k inv inv' p Hne (x & Hj & <- & _)%Hback (y & Hk & <- & _)%Hback. eauto.
Qed.

Lemma idinv_enter s i req tc fl :
  idinv s → i_invokers s !! i = Some (Invoker req IEnter) → i_task s = Some tc →
  let '((id, _), tc') := NextInvocationID tc (range_label req) in
  idinv (IShared (i_gated s) (Some tc') (<[i := Invoker req (ILoad id)]> (i_invokers s)) fl).
Proof.
  intros [(tc0 & m & Ht & Hgen & Hm & Hpos & Hids) Hd] Hi Htc.
  rewrite Ht in Htc. injection Htc as ->. unfold NextInvocationID. rewrite Hm.
  set (l := range_label req) in *. set (n := default 0 (m !! l) + 1).
  set (id := invocation_id (AttemptID tc) l n).
  assert (∀ j inv p, j ≠ i → i_invokers s !! j = Some inv → phys_of inv = Some p → p ≠ id) as Hfresh.
  { intros j inv p Hne Hj Hp ->. destruct (Hids _ _ _ Hj Hp) as (a & Ha & Heq). unfold id in Heq.
    rewrite Hgen in Heq. pose proof (Hpos l).
    apply invocation_id_inj in Heq as [Hl Hn]; [|lia..]. rewrite <- Hl in Ha. lia. }
  destruct (store_last_ids id (set_ranges (<[l := n]> m) tc)) as [Ha Hr].
  split; simpl.
  - eexists _, _. rewrite Ha, Hr. split_and!; [done|done|done| |].
    + intros l'. destruct (decide (l = l')) as [<-|]; [rewrite lookup_insert_eq|rewrite lookup_insert_ne by done; done].
      simpl. pose proof (Hpos l). lia.
    + intros j inv p [(-> & <- & _)|[Hne Hj]]%list_lookup_insert_Some; simpl; intros Hp.
      * injection Hp as <-. exists n. fold l. rewrite lookup_insert_eq. simpl. rewrite <- Hgen.
        pose proof (Hpos l). split; [lia|done].
      * destruct (Hids _ _ _ Hj Hp) as (a & Hb & ->). exists a. split; [|done].
        destruct (decide (l = range_label (i_req inv))) as [Hl|];
          [rewrite <- Hl in *; rewrite lookup_insert_eq; simpl; lia|by rewrite lookup_insert_ne].
  - intros j k inv inv' p Hne [(-> & <- & _)|[Hnj Hj]]%list_lookup_insert_Some
      [(-> & <- & _)|[Hnk Hk]]%list_lookup_insert_Some Hp; [done|..].
    + intros Hp'. apply (Hfresh k inv' p); [done..|]. by injection Hp.
    + intros Hp'. apply (Hfresh j inv p); [done..|]. by injection Hp'.
    + exact (Hd j k inv inv' p Hne Hj Hk Hp).
Qed.

Lemma idinv_step s ev s' : idinv s → istep s ev = Some s' → idinv s'.
Proof.
  intros Hb. destruct (id_cells _ Hb) as (tc & m & Ht & _).
  destruct ev as [r|i|i r|i r wire flood]; simpl; intros Hs.
  - injection Hs as <-. destruct Hb as [(tc0 & m0 & ? & ? & ? & ? & Hids) Hd]. split; simpl.
    + exists tc0, m0. split_and!; try done.
      intros j inv p [Hj|[_ Hj]]%lookup_app_Some Hp; [eauto|].
      by apply list_lookup_singleton_Some in Hj as [_ <-].
    + intros j k inv inv' p Hne [Hj|[_ Hj]]%lookup_app_Some [Hk|[_ Hk]]%lookup_app_Some Hp; [eauto|..].
      * by apply list_lookup_singleton_Some in Hk as [_ <-].
      * by apply list_lookup_singleton_Some in Hj as [_ <-].
      * by apply list_lookup_singleton_Some in Hk as [_ <-].
  - destruct (i_invokers s !! i) as [[req []]|] eqn:Hi; simpl in Hs; try done; rewrite Ht in Hs.
    + pose proof (idinv_enter s i req tc (i_floods s) Hb Hi Ht) as He.
      destruct (NextInvocationID tc _) as [[id n] tc']. by simplify_eq.
    + repeat case_match; simplify_eq; (eapply idinv_move; [done|done|done| |done]); try done.
      apply RecordFailedAttempt_ids.
    + repeat case_match; simplify_eq; by eapply idinv_move.
  - destruct (i_invokers s !! i) as [[req []]|] eqn:Hi; simpl in Hs; try done; rewrite Ht in Hs.
    destruct r; [destruct (i_gated s) eqn:Hg; [|done]|]; simpl in Hs; simplify_eq.
    + rewrite <- Hg. eapply idinv_move; [done|done|done|apply RecordFailedAttempt_ids|done].
    + by eapply idinv_move.
  - destruct (i_invokers s !! i) as [[req []]|] eqn:Hi; simpl in Hs; try done; rewrite Ht in Hs.
    simplify_eq. simpl. eapply idinv_move; [done|done|done| |done].
    set (tc1 := match r with Some _ => _ | None => _ end).
    assert (same_ids tc tc1) as [? ?] by (destruct r; [apply RecordFailedAttempt_ids|done]).
    by repeat case_match.
Qed.

Lemma idinv_run s evs s' : idinv s → irun s evs = Some s' → idinv s'.
Proof.
  revert s. induction evs as [|ev evs IH]; intros s Hb Hr; simplify_eq/=; [done|].
  destruct (istep s ev) eqn:Hs; [|done]. eapply IH; [|done]. by eapply idinv_step.
Qed.

End Identities.

(** ** Properties of [Invoke] *)

(** The context DownloadFileWithResult is called with: fresh cells. *)
Definition fresh_task (gen : string) (budget : Z) : task :=
  Task gen 0 budget (Some 0) (Some 0) (Some 0) (Some ∅) (Some ∅) (Some None) (Some []).
Definition start (gated : bool) (tc : task) : ishared := IShared gated (Some tc) [] [].

(** C17. The request budget is never exceeded: however the goroutines of a download interleave
    their loads and compare-and-swaps, the request counter equals the number of requests
    let through the budget loop and stays within a positive budget, so no more RPCs than
    that are ever sent. *)
Theorem request_budget_never_exceeded (gated : bool) (tc : task) (c0 : Z) (evs : list ievent) (s : ishared) :
  0 < RequestBudget tc → RequestCount tc = Some c0 → c0 <= RequestBudget tc →
  irun (start gated tc) evs = Some s →
  ∃ tc', i_task s = Some tc' ∧
    RequestCount tc' = Some (c0 + tally past_budget (i_invokers s)) ∧
    tally on_wire (i_invokers s) <= tally past_budget (i_invokers s) <= RequestBudget tc - c0.
Proof.
  intros Hpos Hc Hle Hrun.
  assert (binv (RequestBudget tc) c0 (start gated tc)) as Hb.
  { split; [|constructor]. exists tc, c0. simpl. unfold tally. simpl. split_and!; try done; lia. }
  destruct (binv_count _ _ _ (binv_run _ c0 Hpos _ _ _ Hb Hrun)) as (tc' & c & Ht & Hc' & _ & -> & Hc'').
  exists tc'. split_and!; [done|done| |lia].
  apply tally_le. by intros [req []].
Qed.

(** Physical attempt identities are unique within a download: whatever ranges the
    goroutines request and however they interleave, no two invocations get the same
    identity, and each is made of the attempt, its own range and a number from 1. *)
Theorem invocation_ids_unique (gated : bool) (gen : string) (budget : Z) (evs : list ievent) (s : ishared) :
  irun (start gated (fresh_task gen budget)) evs = Some s →
  (∀ i inv p, i_invokers s !! i = Some inv → phys_of inv = Some p →
     ∃ a, 1 <= a ∧ p = invocation_id gen (range_label (i_req inv)) a) ∧
  (∀ i j inv inv' p, i ≠ j → i_invokers s !! i = Some inv → i_invokers s !! j = Some inv' →
     phys_of inv = Some p → phys_of inv' ≠ Some p).
Proof.
  intros Hrun.
  assert (idinv gen (start gated (fresh_task gen budget))) as Hb.
  { split; simpl; [|intros ?????? Hi; done].
    exists (fresh_task gen budget), ∅. split_and!; try done. }
  destruct (idinv_run _ _ _ _ Hb Hrun) as [(tc & m & _ & _ & _ & _ & Hids) Hd].
  split; [|exact Hd]. intros i inv p Hi Hp. destruct (Hids _ _ _ Hi Hp) as (a & Ha & ->).
  exists a. split; [lia|done].
Qed.

(** Two goroutines race for the last request of a budget of one. *)
Definition race : list ievent :=
  [INew (UploadGetFile 0 524288); INew (UploadGetFile 524288 524288);
   IStep 0; IStep 1; IStep 0; IStep 1; IStep 1; IStep 0; IStep 0].
Definition race_end : ishared :=
  IShared true (Some (Task "7" 0 1 (Some 1) (Some 0) (Some 0)
      (Some {[ "chunk-0" := 1; "chunk-524288" := 1 ]}) (Some {[ "chunk-0" := "7-chunk-0-a1" ]})
      (Some (Some "7-chunk-0-a1")) (Some [])))
    [Invoker (UploadGetFile 0 524288)
       (IRefused "7-chunk-0-a1" (InvocationErr ErrRequestBudgetExhausted "7-chunk-0-a1" "chunk-0"));
     Invoker (UploadGetFile 524288 524288) (IAcquire "7-chunk-524288-a1")] [].

Lemma request_budget_never_exceeded_witness :
  ∃ tc', i_task race_end = Some tc' ∧
    RequestCount tc' = Some (0 + tally past_budget (i_invokers race_end)) ∧
    tally on_wire (i_invokers race_end) <= tally past_budget (i_invokers race_end) <=
      RequestBudget (fresh_task "7" 1) - 0.
Proof.
  apply (request_budget_never_exceeded true (fresh_task "7" 1) 0 race race_end);
    [done|done|done|vm_compute; reflexivity].
Defined.

Lemma invocation_ids_unique_witness :
  (∀ i inv p, i_invokers race_end !! i = Some inv → phys_of inv = Some p →
     ∃ a, 1 <= a ∧ p = invocation_id "7" (range_label (i_req inv)) a) ∧
  (∀ i j inv inv' p, i ≠ j → i_invokers race_end !! i = Some inv →
     i_invokers race_end !! j = Some inv' → phys_of inv = Some p → phys_of inv' ≠ Some p).
Proof. apply (invocation_ids_unique true "7" 1 race race_end). vm_compute. reflexivity. Defined.

(** ** [CountingWriterAt] *)

Record CountingWriterAt (T : Type) := Writer {
  tracker : T;
  totalSize : Z;
  maxWritten : Z;
  downloaded : Z;
  writeErr : option goerr;
  progress : option (list Z);      (* onProgress and the counts it was called with, latest first *)
}.
Arguments Writer {T}. Arguments tracker {T}. Arguments totalSize {T}. Arguments maxWritten {T}.
Arguments downloaded {T}. Arguments writeErr {T}. Arguments progress {T}.

(** A completed [w.WriteAt(p, off)] of the destination: offset, bytes written, error. *)
Record write := Write { w_off : Z; w_n : Z; w_err : option goerr }.

Section CountingWriter.
Context {T : Type} `{!CoverageTracker T}.
Implicit Types (c : CountingWriterAt T).

Definition NewCountingWriterAt (size : Z) (hasProgress : bool) : CountingWriterAt T :=
  Writer ct_new size 0 0 None (if hasProgress then Some [] else None).

(** [WriteAt] up to the addition to [downloaded]; the new count is the local [curr]. *)
Definition write_add (w : write) c : CountingWriterAt T :=
  let e := match writeErr c with Some e => Some e | None => w_err w end in
  if 0 <? w_n w then
    Writer (ct_add (tracker c) (w_off w) (wrap64 (w_off w + w_n w))) (totalSize c) (maxWritten c)
      (downloaded c + w_n w) e (progress c)
  else Writer (tracker c) (totalSize c) (maxWritten c) (downloaded c) e (progress c).

(** The locked section that reports progress. *)
Definition write_report (curr : Z) c : CountingWriterAt T :=
  match progress c with
  | Some calls =>
      if maxWritten c <? curr then
        Writer (tracker c) (totalSize c) curr (downloaded c) (writeErr c) (Some (curr :: calls))
      else c
  | None => c
  end.

(** [WriteAt] by one goroutine, uninterrupted. *)
Definition WriteAt c (w : write) : CountingWriterAt T :=
  let c' := write_add w c in
  if 0 <? w_n w then write_report (downloaded c') c' else c'.

(** [WriteAt] by many goroutines: [pending] holds the counts between the two sections. *)
Inductive wstep : CountingWriterAt T * list Z → CountingWriterAt T * list Z → Prop :=
| wstep_add c pending w :
    0 < w_n w →
    wstep (c, pending) (write_add w c, pending ++ [downloaded (write_add w c)])
| wstep_none c pending w :
    w_n w <= 0 → wstep (c, pending) (write_add w c, pending)
| wstep_report c p1 curr p2 :
    wstep (c, p1 ++ curr :: p2) (write_report curr c, p1 ++ p2).

(** Reports so far go up, and what is pending or reported was downloaded. *)
Definition winv (st : CountingWriterAt T * list Z) : Prop :=
  let (c, pending) := st in
  0 <= maxWritten c ∧ 0 <= downloaded c ∧
  Forall (λ x, 0 < x <= downloaded c) pending ∧
  (downloaded c = 0 ∨ downloaded c ∈ pending ∨ (progress c ≠ None → downloaded c = maxWritten c)) ∧
  ∀ calls, progress c = Some calls →
    StronglySorted (λ x y, y < x) calls ∧ maxWritten c = default 0 (head calls) ∧
    maxWritten c <= downloaded c ∧ Forall (λ x, 0 < x <= downloaded c) calls.

Lemma winv_step st st' : winv st → wstep st st' → winv st'.
Proof.
  intros Hinv Hstep. destruct Hstep as [c pending w Hn|c pending w Hn|c p1 curr p2]; simpl in *.
  - destruct Hinv as (Hm & H0 & Hp & Hd & Hr). unfold write_add.
    rewrite (proj2 (Z.ltb_lt _ _)) by done. simpl. split_and!; [done|lia| | |].
    + apply Forall_app. split; [|constructor; [lia|constructor]].
      eapply Forall_impl; [exact Hp|]. simpl. lia.
    + right. left. set_solver.
    + intros calls Hc. destruct (Hr _ Hc) as (? & ? & ? & Hf). split_and!; try done; [lia|].
      eapply Forall_impl; [exact Hf|]. simpl. lia.
  - unfold write_add. rewrite (proj2 (Z.ltb_ge _ _)) by lia. simpl. done.
  - destruct Hinv as (Hm & H0 & Hp & Hd & Hr). rewrite Forall_app, Forall_cons in Hp.
    destruct Hp as (Hp1 & Hcurr & Hp2). unfold write_report.
    destruct (progress c) as [calls|] eqn:Hc.
    + destruct (Hr _ eq_refl) as (Hs & Hmax & Hmd & Hf).
      destruct (maxWritten c <? curr) eqn:Hlt; go_bool; simpl; split_and!; try lia; try (by apply Forall_app).
      * rewrite elem_of_app, elem_of_cons in Hd. rewrite elem_of_app.
        destruct Hd as [?|[[?|[?|?]]|Hd]]; [by left|tauto|right; right; done|tauto|].
        rewrite Hd in * by done. lia.
      * intros calls' [= <-]. split_and!; [|done|lia|by constructor].
        constructor; [done|]. destruct calls as [|x calls]; [constructor|]. simpl in Hmax.
        inversion Hs as [|? ? ? Hx]; subst. constructor; [lia|].
        eapply Forall_impl; [exact Hx|]. simpl. lia.
      * rewrite elem_of_app, elem_of_cons in Hd. rewrite elem_of_app, Hc.
        destruct Hd as [?|[[?|[?|?]]|Hd]]; [by left|tauto| |tauto|right; right; done].
        right; right. intros _. lia.
      * by rewrite Hc.
    + simpl. rewrite Hc. split_and!; [done|done|by apply Forall_app| |done]. right. right. done.
Qed.

Lemma winv_new size hp : winv (NewCountingWriterAt size hp, []).
Proof.
  simpl. split_and!; [lia|lia|constructor|by left|]. destruct hp; [|done].
  intros calls [= <-]. split_and!; [constructor|done|lia|constructor].
Qed.

Lemma winv_steps size hp st : rtc wstep (NewCountingWriterAt size hp, []) st → winv st.
Proof.
  generalize (winv_new size hp). intros Hw Hs. revert Hw.
  induction Hs as [|st st1 st2 Hst _ IH]; [done|]. intros Hw. by eapply IH, winv_step.
Qed.

End CountingWriter.

(** Progress is monotone under concurrency: however the writers interleave, the counts
    passed to [onProgress] strictly increase, none exceeds what was downloaded, and once no
    writer is between its two sections the last count reported is the total. *)
Theorem progress_reports_monotone {T} `{CoverageTracker T} (size : Z) (c : CountingWriterAt T) (pending : list Z) :
  rtc wstep (NewCountingWriterAt size true, []) (c, pending) →
  ∃ calls, progress c = Some calls ∧ StronglySorted (λ x y, y < x) calls ∧
    Forall (λ x, 0 < x <= downloaded c) calls ∧
    (pending = [] → downloaded c = default 0 (head calls)).
Proof.
  intros Hs. assert (progress c ≠ None) as Hsome.
  { remember (c, pending) as st' eqn:Hst. remember (NewCountingWriterAt size true, []) as st0 eqn:Hst0.
    assert (progress st0.1 ≠ None) as H0 by (rewrite Hst0; simpl; congruence).
    replace c with st'.1 by (by rewrite Hst).
    clear -Hs H0. induction Hs as [|st0 st1 st2 Hst _ IH]; [done|]. apply IH.
    destruct Hst; simpl in *; unfold write_add, write_report; repeat case_match; simpl; congruence. }
  apply winv_steps in Hs as (Hm & H0 & Hp & Hd & Hr).
  destruct (progress c) as [calls|]; [|done]. destruct (Hr _ eq_refl) as (Hs & Hmax & Hmd & Hf).
  exists calls. split_and!; try done. intros ->. rewrite <- Hmax.
  destruct Hd as [?|[?|Hd]]; [lia|set_solver|by apply Hd].
Qed.

Lemma progress_reports_monotone_witness :
  ∃ calls, progress (Writer (T:=RangeTracker) [Interval 0 8] 8 8 8 None (Some [8])) = Some calls ∧
    StronglySorted (λ x y, y < x) calls ∧ Forall (λ x, 0 < x <= 8) calls ∧
    ((@nil Z) = [] → 8 = default 0 (head calls)).
Proof.
  apply (progress_reports_monotone 8 (Writer (T:=RangeTracker) [Interval 0 8] 8 8 8 None (Some [8])) []).
  eapply rtc_l; [apply (wstep_add _ [] (Write 4 4 None)); done|].
  eapply rtc_l; [apply (wstep_add _ [4] (Write 0 4 None)); done|].
  eapply rtc_l; [apply (wstep_report _ [4] 8 [])|].
  eapply rtc_l; [apply (wstep_report _ [] 4 [])|].
  apply rtc_refl.
Defined.

(** ** [DownloadFileWithResult] *)

Record DownloadResult := Result {
  d_Written : Z;
  d_WireBytes : Z;
  d_ReplayBytes : Z;
  d_RequestCount : Z;
  d_PhysicalRetries : Z;
  d_RequestBudget : Z;
  d_PhysicalAttemptID : string;
}.

(** What [builder.Parallel(ctx, writer)] did: its RPCs through the gated invoker, its calls of
    [writer.WriteAt], how often the retry handler ran, its error, and [ctx.Err()] after. *)
Record parallel := Parallel_ {
  p_rpcs : list ievent;
  p_writes : list write;
  p_retries : Z;
  p_err : option goerr;
  p_ctx : option goerr;
}.

Section Download.
(** [tgerr.Is] of gotd. *)
Context (tgerr_Is : goerr → list string → bool).
Context {T : Type} `{!CoverageTracker T}.

Definition unavailable_types : list string :=
  ["FILE_REFERENCE_EXPIRED"; "FILEREF_INVALID"; "FILE_ID_INVALID"; "LOCATION_INVALID"].

(** The budget in force, and the task context with it. *)
Definition effective_budget (tc : option task) (expectedSize : Z) : Z :=
  let maxRetries :=
    match tc with
    | Some tc => if 0 <? MaxRetries tc then MaxRetries tc else DefaultMaxRetryAttempts
    | None => DefaultMaxRetryAttempts
    end in
  let budget := match tc with Some tc => RequestBudget tc | None => 0 end in
  if budget <=? 0 then ComputeRequestBudget expectedSize maxRetries else budget.

(** The classification of an error of the downloader. *)
Definition classify (err : goerr) (writeErr ctxErr : option goerr) : goerr :=
  if is_budget_error err then
    TransferErr "transfer" "invoke" "network" "gotd" false false ErrRequestBudgetExhausted
  else match writeErr with
  | Some we => TransferErr "transfer" "write_chunk" "io" "none" false false we
  | None =>
      match ctxErr with
      | Some ce => TransferErr "transfer" "download" "canceled" "none" false false ce
      | None =>
          if tgerr_Is err unavailable_types then
            TransferErr "transfer" "download" "unavailable" "none" true false err
          else TransferErr "transfer" "download" "network" "gotd" false false err
      end
  end.

Definition coverage_error (covered expectedSize : Z) : goerr :=
  TransferErr "transfer" "verify_coverage" "corrupt" "none" false false
    (OtherErr ("incomplete download coverage: covered " +:+ itoa covered +:+ " of " +:+
               itoa expectedSize +:+ " expected bytes")).

(** [None] when the RPC events are not a run of the invoker. *)
Definition DownloadFileWithResult (m : TransferManager) (tc : option task) (expectedSize : Z)
    (hasProgress : bool) (p : parallel)
    : option (TransferManager * option task * CountingWriterAt T * DownloadResult * option goerr) :=
  let budget := effective_budget tc expectedSize in
  match irun (IShared true (with_task (set_budget budget) tc) [] []) (p_rpcs p) with
  | None => None
  | Some s =>
      let writer := foldl WriteAt (NewCountingWriterAt expectedSize hasProgress) (p_writes p) in
      let tc' := with_task (λ tc, match PhysicalRetries tc with
                                  | Some n => set_retries (n + p_retries p) tc
                                  | None => tc
                                  end) (i_task s) in
      let m' := Manager (fileCapacity m) (activeFiles m + 1 - 1) (maxFileThreads m)
                  (physicalRetries m + p_retries p) in
      let wire0 := match tc' with Some tc => default 0 (WireBytes tc) | None => 0 end in
      let reqCount := match tc' with Some tc => default 0 (RequestCount tc) | None => 0 end in
      let wireBytes := if wire0 <? downloaded writer then downloaded writer else wire0 in
      let replayBytes := if downloaded writer <? wireBytes then wireBytes - downloaded writer else 0 in
      let res := Result (downloaded writer) wireBytes replayBytes reqCount (p_retries p) budget
                   (match tc' with Some tc => GetLatestPhysicalAttemptID tc | None => "p0" end) in
      let err :=
        match p_err p with
        | Some e => Some (classify e (writeErr writer) (p_ctx p))
        | None =>
            if (0 <? expectedSize) && negb (ct_complete (tracker writer) expectedSize) then
              Some (coverage_error (ct_covered (tracker writer)) expectedSize)
            else None
        end in
      Some (m', tc', writer, res, err)
  end.

(** ** What the writer has seen *)

Definition sane (w : write) : Prop := 0 <= w_off w ∧ 0 <= w_n w ∧ w_off w + w_n w <= int64_max.

Lemma WriteAt_tracker (c : CountingWriterAt T) w :
  sane w → tracker (WriteAt c w) =
    if 0 <? w_n w then ct_add (tracker c) (w_off w) (w_off w + w_n w) else tracker c.
Proof.
  intros (Ho & Hn & Hmax). unfold WriteAt, write_add, write_report.
  destruct (0 <? w_n w) eqn:Hp; [|done]. simpl.
  rewrite wrap64_id by (unfold in_int64, int64_min; lia).
  repeat case_match; done.
Qed.

Lemma WriteAt_downloaded (c : CountingWriterAt T) w :
  downloaded (WriteAt c w) = downloaded c + Z.max 0 (w_n w).
Proof.
  unfold WriteAt, write_add, write_report. destruct (0 <? w_n w) eqn:Hp; go_bool; simpl; [|lia].
  repeat case_match; simpl; lia.
Qed.

Lemma WriteAt_writeErr (c : CountingWriterAt T) w :
  writeErr (WriteAt c w) = match writeErr c with Some e => Some e | None => w_err w end.
Proof.
  unfold WriteAt, write_add, write_report. destruct (0 <? w_n w) eqn:Hp; simpl; [|done].
  repeat case_match; simpl; done.
Qed.

Definition write_range (w : write) : Z * Z := (w_off w, w_off w + w_n w).

Lemma writes_tracker (c : CountingWriterAt T) ws :
  Forall sane ws →
  tracker (foldl WriteAt c ws) =
  record_all (tracker c) (write_range <$> filter (λ w, 0 < w_n w) ws).
Proof.
  intros Hs. revert c. induction Hs as [|w ws Hw Hs IH]; intros c; [done|].
  change (foldl WriteAt c (w :: ws)) with (foldl WriteAt (WriteAt c w) ws).
  rewrite IH, WriteAt_tracker by done.
  destruct (decide (0 < w_n w)) as [Hn|Hn].
  - rewrite filter_cons_True by done. apply Z.ltb_lt in Hn. by rewrite Hn.
  - rewrite filter_cons_False by done. apply Z.ltb_nlt in Hn. by rewrite Hn.
Qed.

Lemma writes_downloaded (c : CountingWriterAt T) ws :
  downloaded (foldl WriteAt c ws) = downloaded c + sumZ (λ w, Z.max 0 (w_n w)) ws.
Proof.
  revert c. induction ws as [|w ws IH]; intros c; simpl; [unfold sumZ; simpl; lia|].
  rewrite IH, WriteAt_downloaded. unfold sumZ. simpl. lia.
Qed.

Lemma record_all_size (t : T) ws :
  ct_valid t → Forall (λ w, 0 <= w.1 <= w.2) ws →
  Z.of_nat (size (ct_bytes (record_all t ws))) <=
  Z.of_nat (size (ct_bytes t)) + sumZ (λ w, w.2 - w.1) ws.
Proof.
  intros Hv Hs. revert t Hv. induction Hs as [|[a b] ws [? ?] Hs IH]; intros t Hv; simpl in *.
  { unfold sumZ. simpl. lia. }
  etrans; [apply IH; by apply ct_add_valid|]. rewrite ct_add_bytes by done.
  assert (size (ct_bytes t ∪ range_set a b) ≤ size (ct_bytes t) + size (range_set a b))%nat.
  { rewrite size_union_alt. apply Nat.add_le_mono_l, subseteq_size. set_solver. }
  pose proof (size_range_set a b ltac:(done)). unfold sumZ. simpl. lia.
Qed.

(** What has been written bounds what is covered. *)
Lemma writes_cover (c : CountingWriterAt T) ws :
  ct_valid (tracker c) → Forall sane ws →
  Z.of_nat (size (ct_bytes (tracker (foldl WriteAt c ws)))) - Z.of_nat (size (ct_bytes (tracker c))) <=
  downloaded (foldl WriteAt c ws) - downloaded c.
Proof.
  intros Hv Hs. rewrite writes_tracker, writes_downloaded by done.
  pose proof (record_all_size (tracker c) (write_range <$> filter (λ w, 0 < w_n w) ws) Hv) as Hle.
  enough (sumZ (λ w, w.2 - w.1) (write_range <$> filter (λ w, 0 < w_n w) ws) =
          sumZ (λ w, Z.max 0 (w_n w)) ws) as Heq.
  { rewrite Heq in Hle. enough (Forall (λ w, 0 <= w.1 <= w.2) (write_range <$> filter (λ w, 0 < w_n w) ws)) as Hf
      by (specialize (Hle Hf); lia).
    apply Forall_fmap, Forall_forall. intros w [_ Hw]%list_elem_of_filter.
    rewrite Forall_forall in Hs. destruct (Hs w Hw) as (? & ? & _). simpl. lia. }
  clear. induction ws as [|w ws IH]; [done|]. rewrite (sumZ_cons _ w).
  destruct (decide (0 < w_n w)).
  - rewrite filter_cons_True, fmap_cons, sumZ_cons, IH by done. simpl. lia.
  - rewrite filter_cons_False, IH by done. lia.
Qed.

End Download.

(** C16. A download that returns nil is complete: for a file of positive size, every byte of it
    was written to the destination by a call that wrote it, whatever the downloader did and
    in whatever order and overlap it wrote. *)
Theorem download_ok_is_fully_written (tgerr_Is : goerr → list string → bool)
    (m : TransferManager) (tc : option task) (n : Z) (hp : bool) (p : parallel)
    m' tc' (writer : CountingWriterAt RangeTracker) (res : DownloadResult) (x : Z) :
  Forall sane (p_writes p) →
  DownloadFileWithResult tgerr_Is m tc n hp p = Some (m', tc', writer, res, None) →
  0 <= x < n →
  p_err p = None ∧ (∃ w, w ∈ p_writes p ∧ w_off w <= x < w_off w + w_n w) ∧ n <= d_Written res.
Proof.
  intros Hs Hd Hx. unfold DownloadFileWithResult in Hd.
  destruct (irun _ _) as [s|]; [|done]. destruct (p_err p); simplify_eq.
  set (writer := foldl WriteAt _ (p_writes p)) in *.
  rewrite (proj2 (Z.ltb_lt 0 n)) in * by lia.
  destruct (ct_complete (tracker writer) n) eqn:Hc; [|done].
  assert (∀ y, 0 <= y < n → y ∈ ct_bytes (tracker writer)) as Hall
    by (intros y Hy; by eapply ct_complete_sound).
  split_and!; [done| |].
  - specialize (Hall x Hx). unfold writer in Hall. rewrite writes_tracker in Hall by done.
    apply (record_all_bytes ct_new) in Hall as [Hin|(a & b & Hin & Ha & Hab)];
      [by rewrite ct_new_bytes in Hin| |apply ct_new_valid].
    apply list_elem_of_fmap in Hin as (w & [= -> ->] & Hw).
    apply list_elem_of_filter in Hw as [_ Hw]. eauto.
  - pose proof (writes_cover (T:=RangeTracker) (NewCountingWriterAt n hp) (p_writes p) ct_new_valid Hs) as Hcov.
    fold writer in Hcov. change (tracker (NewCountingWriterAt n hp)) with (ct_new (T:=RangeTracker)) in Hcov.
    rewrite ct_new_bytes, size_empty in Hcov. simpl in *.
    assert (size (range_set 0 n) ≤ size (bytes (tracker writer)))%nat as Hsub.
    { apply subseteq_size. intros y Hy%elem_of_range_set. by apply Hall. }
    pose proof (size_range_set 0 n ltac:(lia)). lia.
Qed.

Definition two_writes : parallel :=
  Parallel_ [] [Write 4 4 None; Write 0 5 None] 0 None None.

Lemma download_ok_is_fully_written_witness :
  p_err two_writes = None ∧ (∃ w, w ∈ p_writes two_writes ∧ w_off w <= 6 < w_off w + w_n w) ∧
  8 <= d_Written (Result 9 9 0 0 0 21 "p0").
Proof.
  eapply (download_ok_is_fully_written (λ _ _, false) (NewTransferManager 0 0) None 8 false
            two_writes _ _ _ (Result 9 9 0 0 0 21 "p0") 6);
    [repeat constructor; vm_compute; congruence|vm_compute; reflexivity|lia].
Defined.

(** What a download reports: it returns nil exactly when the downloader did and the file is
    covered; it calls a file unavailable only for one of the four RPC errors, and never
    when the budget ran out, the disk failed or the context ended; no error is marked
    retryable; and the byte counts add up, replayed bytes included. *)
Theorem download_result_contract (tgerr_Is : goerr → list string → bool)
    (m : TransferManager) (tc : option task) (n : Z) (hp : bool) (p : parallel)
    m' tc' (writer : CountingWriterAt RangeTracker) (res : DownloadResult) (err : option goerr) :
  DownloadFileWithResult tgerr_Is m tc n hp p = Some (m', tc', writer, res, err) →
  (err = None ↔ p_err p = None ∧ (n <= 0 ∨ Tracker.IsComplete (tracker writer) n = true)) ∧
  (∀ e, err = Some e → ∃ stage op class owner un cause,
     e = TransferErr stage op class owner un false cause ∧
     (un = true → ∃ e0, p_err p = Some e0 ∧ tgerr_Is e0 unavailable_types = true ∧
        is_budget_error e0 = false ∧ writeErr writer = None ∧ p_ctx p = None)) ∧
  d_WireBytes res = d_Written res + d_ReplayBytes res ∧ 0 <= d_ReplayBytes res ∧
  activeFiles m' = activeFiles m.
Proof.
  unfold DownloadFileWithResult. destruct (irun _ _) as [s|]; [|done]. intros Hd. simplify_eq. simpl.
  set (writer := foldl WriteAt _ _). split; [|split; [|split_and!]].
  - destruct (p_err p); [naive_solver|].
    destruct (0 <? n) eqn:Hn, (Tracker.IsComplete _ n) eqn:Hc; go_bool; simpl; naive_solver lia.
  - intros e. destruct (p_err p) as [e0|];
      [|case_match; intros [= <-]; eexists _, _, _, _, _, _; split; [reflexivity|done]].
    intros [= <-]. unfold classify. repeat case_match; eexists _, _, _, _, _, _;
      (split; [reflexivity|]); try done. intros _. by exists e0.
  - repeat case_match; go_bool; lia.
  - repeat case_match; go_bool; lia.
  - lia.
Qed.

Lemma download_result_contract_witness :
  (Some (coverage_error 4 8) = None ↔ (@None goerr) = None ∧ (8 <= 0 ∨ Tracker.IsComplete [Interval 4 8] 8 = true)) ∧
  (∀ e, Some (coverage_error 4 8) = Some e → ∃ stage op class owner un cause,
     e = TransferErr stage op class owner un false cause ∧
     (un = true → ∃ e0 : goerr, None = Some e0 ∧ (λ (_ : goerr) (_ : list string), false) e0 unavailable_types = true ∧
        is_budget_error e0 = false ∧ (@None goerr) = None ∧ (@None goerr) = None)) ∧
  d_WireBytes (Result 4 4 0 0 0 21 "p0") = 4 + 0 ∧ 0 <= 0 ∧ 0 = 0.
Proof.
  apply (download_result_contract (λ _ _, false) (NewTransferManager 0 0) None 8 false
           (Parallel_ [] [Write 4 4 None] 0 None None) (NewTransferManager 0 0) None
           (Writer [Interval 4 8] 8 0 4 None None) (Result 4 4 0 0 0 21 "p0") (Some (coverage_error 4 8))).
  vm_compute. reflexivity.
Defined.

(** ** Sizes *)

Lemma ComputeChunkCount_ceil n :
  0 < n → n + GotdPartSize - 1 <= int64_max →
  ComputeChunkCount n = (n + GotdPartSize - 1) / GotdPartSize ∧
  (ComputeChunkCount n - 1) * GotdPartSize < n <= ComputeChunkCount n * GotdPartSize.
Proof.
  intros Hn Hmax. unfold ComputeChunkCount. rewrite (proj2 (Z.leb_gt n 0)) by done.
  rewrite wrap64_id by (unfold in_int64, int64_min, GotdPartSize in *; lia).
  unfold GotdPartSize in *. rewrite Z.quot_div_nonneg by lia.
  pose proof (Z.div_mod (n + 512 * 1024 - 1) (512 * 1024) ltac:(lia)).
  pose proof (Z.mod_pos_bound (n + 512 * 1024 - 1) (512 * 1024) ltac:(lia)).
  destruct (_ <=? 0) eqn:He; go_bool; lia.
Qed.

(** Work splits as documented: for every size that does not overflow, the chunks are just
    enough 512 KiB parts to hold the file; the worker threads are at least one, at most
    the configured maximum and never more than the chunks; and the request budget allows
    each chunk its first request and its retries. *)
Theorem work_split_spec (m : TransferManager) (n retries : Z) :
  0 < n → n + GotdPartSize - 1 <= int64_max → 1 <= maxFileThreads m →
  1 <= retries → (1 + retries) * ComputeChunkCount n <= int64_max →
  (ComputeChunkCount n - 1) * GotdPartSize < n <= ComputeChunkCount n * GotdPartSize ∧
  1 <= ComputeFileThreads m n <= maxFileThreads m ∧ ComputeFileThreads m n <= ComputeChunkCount n ∧
  ComputeRequestBudget n retries = ComputeChunkCount n * (1 + retries).
Proof.
  intros Hn Hmax Hm Hr Hb. destruct (ComputeChunkCount_ceil n Hn Hmax) as [Heq Hc].
  assert (1 <= ComputeChunkCount n) by (unfold GotdPartSize in *; lia).
  assert (ComputeFileThreads m n = Z.min (ComputeChunkCount n) (maxFileThreads m)) as ->.
  { unfold ComputeFileThreads. rewrite (proj2 (Z.leb_gt n 0)) by done.
    rewrite wrap64_id by (unfold in_int64, int64_min, GotdPartSize in *; lia).
    rewrite Z.quot_div_nonneg, <- Heq by (unfold GotdPartSize; lia).
    destruct (_ <? maxFileThreads m) eqn:?; go_bool; destruct (_ <? 1) eqn:?; go_bool; lia. }
  split_and!; try lia. unfold ComputeRequestBudget. rewrite (proj2 (Z.leb_gt retries 0)) by lia.
  rewrite (wrap64_id (1 + retries)) by (unfold in_int64, int64_min; nia).
  apply wrap64_id. unfold in_int64, int64_min. nia.
Qed.

Lemma work_split_spec_witness :
  (ComputeChunkCount 1048577 - 1) * GotdPartSize < 1048577 <= ComputeChunkCount 1048577 * GotdPartSize ∧
  1 <= ComputeFileThreads (NewTransferManager 5 8) 1048577 <= 8 ∧
  ComputeFileThreads (NewTransferManager 5 8) 1048577 <= ComputeChunkCount 1048577 ∧
  ComputeRequestBudget 1048577 20 = ComputeChunkCount 1048577 * (1 + 20).
Proof.
  apply (work_split_spec (NewTransferManager 5 8) 1048577 20); vm_compute; congruence.
Defined.
