(* ===== verification/Orchestrator.v ===== *)
(** * The orchestrator (app/daemon/orchestrator.go)

    [downloadOne] takes a task through the whole pipeline: durable admission, resolution of
    the message, path planning, space reservation, transfer into a part file, verification,
    durable commit intent, atomic rename and completion. It is modelled with every early
    return and every deferred action. [SubmitRecord], [ResolveTargetConflict],
    [CancelTasksByChatID], [ReconcileCommitting] and one turn of the dispatch and scan loops
    are here as well.

    Goroutines that run beside [downloadOne] (the finalizer, cancellations, other workers,
    the test hooks) act at the points where it waits or calls a hook: an [ambient] says what
    they do there, what the network and the clock answer, and which system calls fail.
    Logging and lifecycle events are left out. *)
From S2P Require Import Ranges Gate Transfer.
From S2P Require Import Prelude Paths Fscommit Sql ArchiveJobs Downloads Registry World Archive.
From S2P Require Import Recovery Planner.

(** ** Errors of the daemon (errors.go) *)

(** Errors as [errors.Is], [errors.As] and [tgerr.AsFloodWait] see them. *)
Inductive derr :=
| DCanceled
| DDeadline
| DFlood (text : string)
| DOther (text : string)
| DTask (Stage Op Class : string) (Unavailable Retryable : bool) (Cause : derr).

(** [NewTaskError]; a nil cause is replaced by the class. *)
Definition NewTaskError (stage op class : string) (unavailable retryable : bool) (cause : option derr) : derr :=
  DTask stage op class unavailable retryable (default (DOther class) cause).
Definition NewSimpleTaskError (class : string) (unavailable : bool) (err : option derr) : derr :=
  NewTaskError "download" "" class unavailable (negb unavailable) err.

Fixpoint derr_Error (e : derr) : string :=
  match e with
  | DCanceled => "context canceled"
  | DDeadline => "context deadline exceeded"
  | DFlood t | DOther t => t
  | DTask stage op class _ _ c =>
      if decide (op ≠ "") then "[" +:+ stage +:+ ":" +:+ op +:+ "] " +:+ class +:+ ": " +:+ derr_Error c
      else if decide (stage ≠ "") then "[" +:+ stage +:+ "] " +:+ class +:+ ": " +:+ derr_Error c
      else class +:+ ": " +:+ derr_Error c
  end.

(** The root cause: only task errors wrap. *)
Fixpoint root_cause (e : derr) : derr := match e with DTask _ _ _ _ _ c => root_cause c | _ => e end.
Definition is_flood (e : derr) : bool := match root_cause e with DFlood _ => true | _ => false end.
Definition is_ctx_error (e : derr) : bool :=
  match root_cause e with DCanceled | DDeadline => true | _ => false end.

Definition ErrorClass (e : derr) : string :=
  match e with DTask _ _ c _ _ _ => or_else c "download" | _ => "download" end.
Definition IsUnavailable (e : derr) : bool :=
  match e with DTask _ _ _ u _ _ => u | _ => false end.

(** The text of a database error; the operands formatted into it are left out. *)
Definition dberr_text (e : dberr) : string :=
  match e with
  | ErrStateConflict m => "state conflict: invalid state transition: " +:+ m
  | ErrStaleAttempt m => "stale attempt: generation mismatch: " +:+ m
  | AlreadySuccessError _ => "download already completed successfully"
  | ErrArchiveConflict =>
      "state conflict: invalid state transition: archive identity mismatch on duplicate completion"
  | ErrConflictRecordNotFound => "conflict record not found"
  | ErrSQL => "database error"
  end.

(** The text of an error of the transfer layer. *)
Fixpoint goerr_text (e : goerr) : string :=
  match e with
  | ErrRequestBudgetExhausted => "request budget exhausted"
  | CtxErr t | OtherErr t => t
  | WrapErr t c => t +:+ ": " +:+ goerr_text c
  | InvocationErr c _ _ => goerr_text c
  | TransferErr stage op class owner _ _ c =>
      "[" +:+ stage +:+ ":" +:+ op +:+ "] " +:+ class +:+ " (owner: " +:+ owner +:+ "): " +:+ goerr_text c
  end.
(** [errors.Is(err, context.Canceled)]. *)
Definition is_canceled (e : goerr) : bool :=
  existsb (λ x, match x with CtxErr t => bool_decide (t = "context canceled") | _ => false end) (chain e).

(** ** State *)

Record ResolvedMedia := Media {
  rm_File : bool;           (* File != nil *)
  rm_Name : string;
  rm_Size : Z;
  rm_DCID : Z;
  rm_Date : Z;
  rm_MediaType : string;
}.

Record ost := OSt {
  o_world : World.world;            (* files, database, registry *)
  o_adm : SSDAdmission;
  o_transfer : TransferManager;
  o_running : bool;
  o_active : Z;                        (* activeTasks *)
  o_inFlight : gset string;
  o_publishers : gmap string string;   (* activePublishers: "chatID:msgID" -> generation *)
  o_finalizer : bool;                  (* finalizerWakeCh holds a token *)
  o_archiver : bool;                   (* the archive worker's wakeCh holds a token *)
}.

Definition with_world w o := OSt w (o_adm o) (o_transfer o) (o_running o) (o_active o) (o_inFlight o)
  (o_publishers o) (o_finalizer o) (o_archiver o).
Definition with_adm a o := OSt (o_world o) a (o_transfer o) (o_running o) (o_active o) (o_inFlight o)
  (o_publishers o) (o_finalizer o) (o_archiver o).
Definition with_transfer m o := OSt (o_world o) (o_adm o) m (o_running o) (o_active o) (o_inFlight o)
  (o_publishers o) (o_finalizer o) (o_archiver o).
Definition SetRunning b o := OSt (o_world o) (o_adm o) (o_transfer o) b (o_active o) (o_inFlight o)
  (o_publishers o) (o_finalizer o) (o_archiver o).
Definition with_active n o := OSt (o_world o) (o_adm o) (o_transfer o) (o_running o) n (o_inFlight o)
  (o_publishers o) (o_finalizer o) (o_archiver o).
Definition with_inFlight_ s o := OSt (o_world o) (o_adm o) (o_transfer o) (o_running o) (o_active o) s
  (o_publishers o) (o_finalizer o) (o_archiver o).
Definition with_publishers p o := OSt (o_world o) (o_adm o) (o_transfer o) (o_running o) (o_active o)
  (o_inFlight o) p (o_finalizer o) (o_archiver o).
Definition wakeFinalizer o := OSt (o_world o) (o_adm o) (o_transfer o) (o_running o) (o_active o)
  (o_inFlight o) (o_publishers o) true (o_archiver o).
Definition Wake o := OSt (o_world o) (o_adm o) (o_transfer o) (o_running o) (o_active o) (o_inFlight o)
  (o_publishers o) (o_finalizer o) true.

Definition M (A : Type) : Type := SM ost A.

Definition in_world {A} (m : W A) : M A := λ o, let (a, w) := m (o_world o) in (a, with_world w o).
Definition o_fs {A} (m : FS A) : M A := in_world (on_fs m).
Definition o_db {A} (m : DB A) : M (res dberr A) := in_world (on_db m).
Definition o_reg (f : Registry → Registry) : M unit := in_world (on_reg f).
Definition modify (f : ost → ost) : M unit := λ o, (tt, f o).
Definition ask {A} (f : ost → A) : M A := λ o, (f o, o).
(** A question to the registry, [d] where there is none. *)
Definition ask_reg {A} (f : Registry → A) (d : A) : M A :=
  ask (λ o, match w_reg (o_world o) with Some r => f r | None => d end).

(** ** The surroundings of one call *)

(** Where other goroutines and hooks act. *)
Inductive point :=
| AtResolve | AtTransfer | BeforePrepareCommit | AfterPrepareCommit | AfterSetPublishing
| BeforeRename | AfterRename | BeforeCompleteDB.

Record ambient := Ambient {
  a_nano : Z;                                   (* the clock, in nanoseconds *)
  a_answers : list (res derr ResolvedMedia);    (* what [access.Resolve] returns, call by call *)
  a_space : option (Z * Z);                     (* what statfs returns *)
  a_parallel : parallel;                        (* what the downloader does *)
  a_data : string;                              (* what the part file holds after it *)
  a_stop_open : bool;                           (* taskCtx.Err() != nil before opening the part *)
  a_stop_transfer : bool;                       (* ... after a failed transfer *)
  a_stop_commit : bool;                         (* ... before the commit intent *)
  a_close : option errno;                       (* the error of closing the part file *)
  a_act : point → ost → ost;
}.

Record config := Config { saveDir : string; worker : option ArchiveWorker }.

Definition IsArchiveEnabled (c : config) : bool := IsEnabled (worker c).

(** ** The pipeline *)

Section Pipeline.
Context (sha256Hex : string → string) (tgerr_Is : goerr → list string → bool) (Filenamify : string → string).
Context (c : config) (a : ambient).

(** The database's clock, in seconds. *)
Definition o_now : Z := a_nano a / ns_per_s.
Definition act (p : point) : M unit := modify (a_act a p).

(** What the call works on: the handle, its request and its generation. *)
Record attempt := Attempt { at_task : Task; at_req : TaskRequest; at_gen : string }.
Implicit Types (t : attempt).
Definition at_key t : key := (Peer (at_req t), MessageID (at_req t)).
(** The planned file, as the later steps record it. *)
Record target := Target { tg_name : string; tg_rel : string; tg_media : string; tg_size : Z }.
Definition final_path (g : target) : string := Join (saveDir c) (tg_rel g).
Definition part_path (g : target) : string := final_path g +:+ ".part".

Definition fail_task t (disp : FailureDisposition) : M unit :=
  o_reg (λ r, (FailDisposition (at_task t) disp (a_nano a) r).2).
Definition succeed_task t (pr : PublishResult) : M unit :=
  o_reg (λ r, (SucceedResult (at_task t) pr (a_nano a) r).2).
Definition fail_record t (g : target) (disp : FailureDisposition) : M (res dberr unit) :=
  o_db (FailDownloadDisposition (at_key t) (at_gen t) (tg_name g) (tg_rel g) (tg_media g) (tg_size g) disp o_now).
(** Fail the task and record it; an error of the database is dropped. *)
Definition fail_both t (g : target) (disp : FailureDisposition) : M unit :=
  do! _ := fail_task t disp in
  do! _ := fail_record t g disp in
  done! tt.

(** A disposition without retry, owner or attempt. *)
Definition plain_disp (stage op class msg : string) (cause : option string) : FailureDisposition :=
  Disp stage op class false false "none" "" msg cause.

(** [o.archiveWorker.Wake()], where there is a worker. *)
Definition wake_archiver (o : ost) : ost := match worker c with Some _ => Wake o | None => o end.

(** The record is already a success: believe it only with the file on disk. [planned] says
    which of the two calls of [BeginDownload] found it. *)
Definition already_success t (planned : bool) (proof : SuccessProof) : M unit :=
  let where_ := if planned then " with planned path" else "" in
  let path := Join (saveDir c) (SavePath proof) in
  let fail class msg cause := fail_task t (plain_disp "admission" "db_begin_download" class msg cause) in
  let missing cause :=
    fail "missing_file"
      ("record is success in DB" +:+ where_ +:+ " but file missing " +:+
       (if planned then "" else "or invalid ") +:+ "on disk (" +:+ SavePath proof +:+ ")") cause in
  let corrupt cause :=
    fail "corrupt"
      ("record is success in DB" +:+ where_ +:+ " but file corrupted on disk (" +:+ SavePath proof +:+
       "): sha mismatch") cause in
  do! st := o_fs (Stat path) in
  match st with
  | Err e => missing (Some (errno_text e))
  | Ok n =>
      if negb (node_size n =? FileSize proof) then missing None
      else
        do! h := o_fs (ComputeFileSHA256 sha256Hex path) in
        match h with
        | Err e => corrupt (Some (errno_text e))
        | Ok sha =>
            if decide (sha = SHA256 proof) then
              succeed_task t (Publish (SavePath proof) true "" 0 0 0 0 "")
            else corrupt None
        end
  end.

(** [BeginDownload] and what a refusal comes to; [true] to go on. *)
Definition begin_or_stop t (planned : bool) (g : target) : M bool :=
  do! b := o_db (BeginDownload (at_key t) (at_gen t) (tg_name g) (tg_rel g) (tg_media g) (tg_size g) o_now) in
  match b with
  | Ok _ => done! true
  | Err (AlreadySuccessError proof) => do! _ := already_success t planned proof in done! false
  | Err e =>
      do! _ := fail_task t (plain_disp "admission" "db_begin_download" "db_conflict" (dberr_text e)
                              (Some (dberr_text e))) in
      done! false
  end.

(** Up to [n] calls of [Resolve]; only a context error ends the loop early. A "break" inside
    the select of the flood wait leaves the select, not the loop. *)
Fixpoint resolve_loop (n : nat) (answers : list (res derr ResolvedMedia)) (last : derr)
    : res derr ResolvedMedia :=
  match n, answers with
  | S n, Ok m :: _ => Ok m
  | S n, Err e :: rest => if is_ctx_error e then Err e else resolve_loop n rest e
  | _, _ => Err last
  end.

Definition resolve_failed t (e : derr) : M unit :=
  let u := IsUnavailable e in
  let q := at_req t in
  fail_both t (Target (FileName q) (FinalPath q) (MediaType q) (ExpectedSize q))
    (Disp "resolve" "get_message" (if u then "unavailable" else ErrorClass e) u (negb u) "none" ""
       (derr_Error e) (Some (derr_Error e))).

Definition no_media t : M unit :=
  let q := at_req t in
  fail_both t (Target (FileName q) (FinalPath q) (MediaType q) 0)
    (Disp "resolve" "validate_media" "unavailable" true false "none" "" "message has no downloadable media" None).

(** [GetTargetTitle]: an error reads as the empty title. *)
Definition GetTargetTitle (chatID : string) : DB string :=
  try! r := query (λ d, targets d !! chatID) in
  return! (match r with Ok (Some row) => title row | _ => "" end).

(** Step 2: the path, from the request or planned. *)
Definition plan_target t (m : ResolvedMedia) : M target :=
  let q := at_req t in
  do! targetTitle := (if decide (TargetTitle q = "") then
                        do! x := o_db (GetTargetTitle (Peer q)) in
                        done! (match x with Ok s => s | Err _ => "" end)
                      else done! (TargetTitle q)) in
  let mediaType := or_else (rm_MediaType m) (MediaType q) in
  let fileName := or_else (rm_Name m) (FileName q) in
  let msgDate := if rm_Date m <=? 0 then Date q else rm_Date m in
  let rel := if decide (FinalPath q = "") then
               Plan Filenamify (Peer q) targetTitle (MessageID q) fileName mediaType msgDate o_now
             else FinalPath q in
  let rel := to_slashes rel in
  do! _ := o_reg (SetFinalPath (at_task t) rel) in
  done! (Target fileName rel mediaType (rm_Size m)).

(** Step 3: a file at the final path is either this record's, proved, or a collision.
    [true] to go on. *)
Definition existing_final t (g : target) : M bool :=
  let collision :=
    do! _ := fail_both t g (plain_disp "admission" "check_file" "target_conflict"
               "destination exists with conflicting content or without task commit proof" None) in
    done! false in
  do! st := o_fs (Stat (final_path g)) in
  match st with
  | Err _ => done! true
  | Ok n =>
      do! rec := o_db (GetDownloadRecord (at_key t)) in
      match rec with
      | Ok (Some r) =>
          if decide ((r_Status r = "committing" ∨ r_Status r = "success" ∨ r_Status r = "archived") ∧
                     r_SavePath r = tg_rel g ∧ r_FileSize r = node_size n ∧ r_SHA256 r ≠ "") then
            do! h := o_fs (ComputeFileSHA256 sha256Hex (final_path g)) in
            match h with
            | Ok sha =>
                if decide (sha = r_SHA256 r) then
                  do! e := o_db (CompleteExistingDownload (at_key t) (at_gen t) (tg_rel g) (node_size n) sha
                                   (IsArchiveEnabled c) o_now) in
                  match e with
                  | Err e =>
                      do! _ := fail_task t (plain_disp "admission" "db_complete_existing" "db_conflict"
                                 (dberr_text e) (Some (dberr_text e))) in
                      done! false
                  | Ok _ =>
                      do! _ := modify wake_archiver in
                      do! _ := succeed_task t (Publish (tg_rel g) true sha 0 0 0 0 "") in
                      done! false
                  end
                else collision
            | Err _ => collision
            end
          else collision
      | _ => collision
      end
  end.

(** Step 6: the handle on a fresh part file. *)
Definition create_part (g : target) : FS (res errno unit) :=
  sys (λ d, match d !! part_path g with
            | Some DirNode => (Err EISDIR, d)
            | _ => (Ok tt, <[part_path g := FileNode ""]> d)
            end).

(** The context handed to the transfer layer. *)
Definition task_context t (g : target) : task :=
  let maxRetries := if 0 <? MaxRetries_ (at_req t) then MaxRetries_ (at_req t) else DefaultMaxRetryAttempts in
  Transfer.Task (at_gen t) maxRetries (ComputeRequestBudget (tg_size g) maxRetries) (Some 0) (Some 0) (Some 0)
    (Some ∅) (Some ∅) (Some None) None.

(** The transfer: the downloader runs, progress is reported, the part file holds [a_data],
    and the telemetry is recorded. [None] when [a_parallel] is not a run of the invoker. *)
Definition run_transfer t (g : target) : M (option (DownloadResult * option goerr)) :=
  do! m := ask o_transfer in
  match DownloadFileWithResult tgerr_Is (T := RangeTracker) m (Some (task_context t g)) (tg_size g) true
          (a_parallel a) with
  | None => done! None
  | Some (m', _, writer, res, err) =>
      do! _ := modify (with_transfer m') in
      do! _ := o_reg (λ r, foldr (λ n r, RecordProgress (at_task t) n (a_nano a) r) r
                             (default [] (Transfer.progress writer))) in
      do! _ := act AtTransfer in
      do! _ := o_fs (put_data (part_path g) (a_data a)) in
      let phys := or_else (Transfer.d_PhysicalAttemptID res)
                    (at_gen t +:+ "-p" +:+ itoa (d_PhysicalRetries res)) in
      let res := Result (d_Written res) (d_WireBytes res) (d_ReplayBytes res) (d_RequestCount res)
                   (d_PhysicalRetries res) (d_RequestBudget res) phys in
      do! _ := o_reg (RecordTransferTelemetry (at_task t) (d_Written res) (d_WireBytes res) (d_ReplayBytes res)
                        (d_RequestCount res) (d_PhysicalRetries res) phys) in
      done! (Some (res, err))
  end.

(** The disposition of a failed transfer. *)
Definition transfer_disp (phys : string) (e : goerr) : FailureDisposition :=
  match head (omap (λ x, match x with TransferErr s o cl ow u r ca => Some (s, o, cl, ow, u, r, ca) | _ => None end)
                (chain e)) with
  | Some (s, o, cl, ow, u, r, ca) =>
      Disp s o cl u r ow phys (goerr_text (TransferErr s o cl ow u r ca)) (Some (goerr_text ca))
  | None => Disp "transfer" "download_file" "network" false false "gotd" phys (goerr_text e) (Some (goerr_text e))
  end.

Definition transfer_failed t (g : target) (phys : string) (e : goerr) : M unit :=
  do! _ := o_fs (Remove (part_path g)) in
  do! ended := ask_reg (IsTerminal (at_task t)) true in
  if ended || a_stop_transfer a || is_canceled e then
    do! _ := o_db (CancelDownload (at_key t) (at_gen t) "task canceled during transfer" o_now) in
    fail_task t (Disp "transfer" "download_file" "canceled" false false "none" phys
                   "task canceled during transfer" (Some (goerr_text e)))
  else fail_both t g (transfer_disp phys e).

(** An unsound part is removed and the attempt fails. *)
Definition discard_part t (g : target) (disp : FailureDisposition) : M (option (Z * string)) :=
  do! _ := o_fs (Remove (part_path g)) in
  do! _ := fail_both t g disp in
  done! None.

(** Step 9: size, fsync, close, digest. The digest when the part is sound. *)
Definition verify_part t (g : target) (written : Z) : M (option (Z * string)) :=
  let io stage op e := plain_disp stage op "io" (errno_text e) (Some (errno_text e)) in
  do! st := o_fs (Stat (part_path g)) in
  let bad_size := match st with
                  | Err _ => true
                  | Ok n => negb (node_size n =? tg_size g) || negb (written =? tg_size g)
                  end in
  if bad_size then
    discard_part t g (plain_disp "transfer" "verify_size" "corrupt"
               ("short write: got " +:+ itoa written +:+ ", want " +:+ itoa (tg_size g)) None)
  else
    do! sy := o_fs Fsync in
    match sy with
    | Err e => discard_part t g (io "commit" "fsync" e)
    | Ok _ =>
        match a_close a with
        | Some e => discard_part t g (io "commit" "close" e)
        | None =>
            do! h := o_fs (ComputeFileSHA256 sha256Hex (part_path g)) in
            match h with
            | Err e => discard_part t g (io "hash" "sha256" e)
            | Ok sha => done! (Some (tg_size g, sha))
            end
        end
    end.

(** Step 13 to 15: the transaction, and the task's success; a failure is handed to the
    finalizer and the task keeps publishing. *)
Definition complete_download t (g : target) (size : Z) (shaHex finalSHA : string) (res : DownloadResult) : M unit :=
  do! _ := act AfterRename in
  do! _ := act BeforeCompleteDB in
  do! r := o_db (CompleteDownloadAndQueueArchive (at_key t) (at_gen t) (tg_rel g) size finalSHA
                   (IsArchiveEnabled c) o_now) in
  let finish :=
    do! _ := modify wake_archiver in
    succeed_task t (Publish (tg_rel g) false shaHex (d_WireBytes res) (d_ReplayBytes res) (d_RequestCount res)
                      (d_PhysicalRetries res) (Transfer.d_PhysicalAttemptID res)) in
  match r with
  | Ok _ | Err ErrArchiveConflict => finish
  | Err _ =>
      modify (λ o, wakeFinalizer (with_publishers
        (delete (CanonicalTaskID (Peer (at_req t)) (MessageID (at_req t))) (o_publishers o)) o))
  end.

(** Step 12: the rename and its verdict. [true] when the part file is to be left alone. *)
Definition publish t (g : target) (size : Z) (shaHex : string) (res : DownloadResult) : M bool :=
  do! _ := o_reg (λ r, (SetPublishing (at_task t) r).2) in
  do! _ := act AfterSetPublishing in
  do! _ := act BeforeRename in
  do! e := o_fs (CommitSiblingPart (part_path g) (final_path g)) in
  do! d := o_fs (EvaluateCommitSiblingPart sha256Hex (part_path g) (final_path g) (tg_size g) shaHex e) in
  match d with
  | CommitDecisionSuccess finalSHA =>
      do! _ := complete_download t g size shaHex finalSHA res in
      done! true
  | CommitDecisionTargetConflict disp _ =>
      do! r := o_db (RecordTargetConflict (at_key t) (at_gen t) (tg_name g) (tg_rel g) (tg_media g) (tg_size g)
                       disp o_now) in
      do! _ := (match r with Ok _ => fail_task t disp | Err _ => done! tt end) in
      done! true
  | CommitDecisionIOError disp _ =>
      do! r := fail_record t g disp in
      do! _ := (match r with Ok _ => fail_task t disp | Err _ => done! tt end) in
      done! true
  end.

(** Steps 10 to 12: the durable intent, under the exclusion of the finalizer. *)
Definition commit_download t (g : target) (size : Z) (shaHex : string) (res : DownloadResult) : M bool :=
  do! _ := act BeforePrepareCommit in
  do! ended := ask_reg (IsTerminal (at_task t)) true in
  if ended || a_stop_commit a then
    do! _ := o_fs (Remove (part_path g)) in
    do! _ := o_db (CancelDownload (at_key t) (at_gen t) "canceled before commit" o_now) in
    do! ended := ask_reg (IsTerminal (at_task t)) true in
    do! _ := (if ended then done! tt
              else fail_task t (plain_disp "commit" "check_cancellation" "canceled"
                                  "task canceled before commit" None)) in
    done! false
  else
    let pubKey := CanonicalTaskID (Peer (at_req t)) (MessageID (at_req t)) in
    do! _ := modify (λ o, with_publishers (<[pubKey := at_gen t]> (o_publishers o)) o) in
    do! p := o_db (PrepareDownloadCommit (at_key t) (at_gen t) (tg_rel g) size shaHex o_now) in
    do! keep := match p with
                | Err e =>
                    do! _ := o_fs (Remove (part_path g)) in
                    do! _ := fail_task t (plain_disp "commit" "prepare" "db_conflict" (dberr_text e)
                                            (Some (dberr_text e))) in
                    done! false
                | Ok _ =>
                    do! _ := act AfterPrepareCommit in
                    publish t g size shaHex res
                end in
    do! _ := modify (λ o, with_publishers (delete pubKey (o_publishers o)) o) in
    done! keep.

(** Steps 6 to 12 on an open part file, whose deferred removal [transfer_and_commit] performs:
    [true] when the part was committed or must be preserved. *)
Definition with_open_part t (g : target) : M bool :=
  do! x := run_transfer t g in
  match x with
  | None => done! false
  | Some (res, Some e) =>
      do! _ := transfer_failed t g (Transfer.d_PhysicalAttemptID res) e in done! false
  | Some (res, None) =>
      do! v := verify_part t g (d_Written res) in
      match v with
      | None => done! false
      | Some (size, sha) => commit_download t g size sha res
      end
  end.

Definition transfer_and_commit t (g : target) : M unit :=
  do! mk := o_fs (MkdirAll (Dir (final_path g))) in
  match mk with
  | Err e => fail_both t g (plain_disp "path" "mkdir" "io" (errno_text e) (Some (errno_text e)))
  | Ok _ =>
      do! ended := ask_reg (IsTerminal (at_task t)) true in
      if ended || a_stop_open a then done! tt
      else
        do! op := o_fs (create_part g) in
        match op with
        | Err e => fail_both t g (plain_disp "download" "open_part" "io" (errno_text e) (Some (errno_text e)))
        | Ok _ =>
            do! keep := with_open_part t g in
            if keep : bool then done! tt
            else do! _ := o_fs (Remove (part_path g)) in done! tt
        end
  end.

(** Steps 4 and 5: reserve, and accept the plan durably. *)
Definition reserve_and_run t (g : target) : M unit :=
  let id := ID (at_req t) in
  do! adm := ask o_adm in
  let (r, adm') := Reserve adm id (tg_size g) (a_space a) in
  do! _ := modify (with_adm adm') in
  match r with
  | Err _ => o_reg (λ r, (Requeue (at_task t) r).2)
  | Ok _ =>
      do! ok := begin_or_stop t true g in
      do! _ := (if ok : bool then
                  do! _ := o_reg (SetDownloading (at_task t)) in
                  transfer_and_commit t g
                else done! tt) in
      modify (λ o, with_adm (drop_reservation (o_adm o) id) o)
  end.

(** Steps 1 to 3. *)
Definition admit_and_run t : M unit :=
  let q := at_req t in
  do! ok := begin_or_stop t false (Target (FileName q) (FinalPath q) (MediaType q) (ExpectedSize q)) in
  if negb ok then done! tt
  else
    do! _ := act AtResolve in
    match resolve_loop 3 (a_answers a) DCanceled with
    | Err e => resolve_failed t e
    | Ok m =>
        if negb (rm_File m) || (rm_Size m <=? 0) then no_media t
        else
          do! _ := o_reg (SetResolved (at_task t) (rm_Name m) (rm_Size m) (rm_DCID m)) in
          do! g := plan_target t m in
          do! go := existing_final t g in
          if go : bool then reserve_and_run t g else done! tt
    end.

Definition downloadOne (h : Task) : M unit :=
  do! cell := ask_reg (λ r, heap r !! h_ptr h) None in
  do! gen := ask_reg (AttemptGen h) "1" in
  match cell with
  | None => done! tt                  (* unreachable: a handle's cell is never freed *)
  | Some cell =>
      let id := ID (t_request cell) in
      do! busy := ask (λ o, bool_decide (id ∈ o_inFlight o)) in
      if busy : bool then done! tt
      else
        do! _ := modify (λ o, with_inFlight_ (o_inFlight o ∪ {[id]}) o) in
        do! _ := admit_and_run (Attempt h (t_request cell) gen) in
        modify (λ o, with_inFlight_ (o_inFlight o ∖ {[id]}) o)
  end.

End Pipeline.

(** ** Submission, conflicts, cancellation *)

Inductive submit_err := NotRunning | NoRegistry | Rejected (e : regerr).

Definition record_request (rec : DownloadRecord) : TaskRequest :=
  Request (CanonicalTaskID (r_ChatID rec) (r_MessageID rec)) (r_ChatID rec) (r_MessageID rec) (r_SavePath rec)
    (r_FileSize rec) (0 <? r_Attempts rec) (r_TargetTitle rec) (r_MediaType rec) (r_FileName rec)
    (r_CreatedAt rec) 0.

Definition SubmitRecord (rec : DownloadRecord) (nano : Z) : M (res submit_err unit) := λ o,
  if negb (o_running o) then (Err NotRunning, o)
  else match w_reg (o_world o) with
  | None => (Err NoRegistry, o)
  | Some r =>
      let (x, r') := Submit (record_request rec) nano r in
      (match x with Ok _ => Ok tt | Err e => Err (Rejected e) end,
       with_world (World.World (w_fs (o_world o)) (w_sql (o_world o)) (Some r')) o)
  end.

(** One tick of [scanLoop]: submit the pending records, as long as the orchestrator runs. *)
Fixpoint submit_all (recs : list DownloadRecord) (nano : Z) : M unit :=
  match recs with
  | [] => done! tt
  | rec :: recs =>
      do! running := ask o_running in
      if running : bool then
        do! _ := SubmitRecord rec nano in
        submit_all recs nano
      else done! tt
  end.
Definition scan_tick (nano : Z) : M unit :=
  do! running := ask o_running in
  if running : bool then
    do! x := o_db (GetPendingDownloads 50 (nano / ns_per_s)) in
    match x with Ok recs => submit_all recs nano | Err _ => done! tt end
  else done! tt.

(** One turn of [dispatchLoop]: a task, when the orchestrator runs and a slot is free. The
    goroutine it starts runs [downloadOne] and gives the slot back. *)
Definition max_concurrency (o : ost) : Z :=
  let n := FileConcurrency (Some (o_transfer o)) in if 0 <? n then n else 5.
Definition dispatch_turn (nano : Z) : M (option Task) := λ o,
  if negb (o_running o) || (max_concurrency o <=? o_active o) then (None, o)
  else match w_reg (o_world o) with
  | None => (None, o)
  | Some r =>
      let (h, r') := Next nano r in
      let o := with_world (World.World (w_fs (o_world o)) (w_sql (o_world o)) (Some r')) o in
      match h with
      | None => (None, o)
      | Some h => (Some h, with_active (o_active o + 1) o)
      end
  end.
Definition slot_freed (o : ost) : ost := with_active (o_active o - 1) o.

(** [ResolveTargetConflict]: the conflict leaves the database only together with the new
    attempt's admission to the registry. *)
Definition conflict_request (rec : DownloadRecord) : TaskRequest :=
  Request (CanonicalTaskID (r_ChatID rec) (r_MessageID rec)) (r_ChatID rec) (r_MessageID rec) (r_SavePath rec)
    (r_FileSize rec) true (r_TargetTitle rec) (r_MediaType rec) (r_FileName rec) (r_CreatedAt rec) 0.

Definition resolve_conflict (k : key) (nano : Z) : M (res (regerr + dberr) unit) :=
  let now := nano / ns_per_s in
  do! rec := o_db (GetDownloadRecord k) in
  match rec with
  | Err e => done! (Err (inr e))
  | Ok None => done! (Err (inr ErrConflictRecordNotFound))
  | Ok (Some rec) =>
      if decide (r_Status rec ≠ "conflict") then done! (Err (inr ErrConflictRecordNotFound))
      else λ o,
        let w := o_world o in
        match w_reg w with
        | None =>
            let (x, s) := ResolveTargetConflict k None nano now (w_sql w) in
            (match x with Ok _ => Ok tt | Err e => Err (inr e) end, with_world (World.World (w_fs w) s None) o)
        | Some r =>
            let '(x, r', s) := RetryTaskWithDecider (CanonicalTaskID k.1 k.2) (Some (conflict_request rec))
                                 (λ newGen, ResolveTargetConflict k (Some newGen) nano now) nano r (w_sql w) in
            (match x with Ok _ => Ok tt | Err e => Err e end,
             with_world (World.World (w_fs w) s (Some r')) o)
        end
  end.

(** [CancelTasksByChatID]: a task is canceled when the database lets it go. [order] is the
    order of the range over the registry's map. *)
Definition cancel_decider (now : Z) (peer : string) (messageID : Z) (gen : string) (s : sqlst) : bool * sqlst :=
  let (x, s) := CancelDownload (peer, messageID) gen "target disabled by user" now s in (is_ok x, s).
Definition CancelTasksByChatID (chatID : string) (order : list string) (nano : Z) : M unit := λ o,
  let w := o_world o in
  match w_reg w with
  | None => (tt, o)
  | Some r =>
      let (r', s) := CancelTasksByChatIDWithDecider chatID (cancel_decider (nano / ns_per_s)) order nano r
                       (w_sql w) in
      (tt, with_world (World.World (w_fs w) s (Some r')) o)
  end.

(** ** The online finalizer *)

Section Finalizer.
Context (sha256Hex : string → string) (c : config).

(** The loop of [ReconcileCommitting]: records of active publishers are skipped, and the
    context ends before the record number [alive]. *)
Fixpoint reconcile_all (env : surroundings) (alive : nat) (recs : list DownloadRecord) : M (res unit unit) :=
  match recs with
  | [] => done! (Ok tt)
  | rec :: recs =>
      match alive with
      | O => done! (Err tt)
      | S alive =>
          do! busy := ask (λ o, o_publishers o !! CanonicalTaskID (r_ChatID rec) (r_MessageID rec)) in
          match busy with
          | Some _ => reconcile_all env alive recs
          | None =>
              do! _ := in_world (ReconcileCommittingRecord sha256Hex env (saveDir c) (IsArchiveEnabled c) rec) in
              reconcile_all env alive recs
          end
      end
  end.

Definition ReconcileCommitting (env : surroundings) (alive : nat) : M (res (option dberr) unit) :=
  do! x := o_db GetPendingCommittingDownloads in
  match x with
  | Err e => done! (Err (Some e))
  | Ok recs =>
      do! y := reconcile_all env alive recs in
      done! (match y with Ok _ => Ok tt | Err _ => Err None end)
  end.

End Finalizer.

(** ** A run *)

Definition toy_request : TaskRequest := Request "chat:7" "chat" 7 "" 4 false "News" "photo" "x" 0 0.
Definition toy_registry : Registry := (Submit toy_request 1000 (NewRegistry 8 8)).2.
Definition toy_start : ost :=
  OSt (World.World (Fs {[ "/" := DirNode; "/ssd" := DirNode ]} []) (Sql empty_db []) (Some (Next 2000 toy_registry).2))
    (NewSSDAdmission "/ssd" 1) (NewTransferManager 0 0) true 1 ∅ ∅ false false.
Definition toy_task : Task := default (Handle 0%nat "") (Next 2000 toy_registry).1.
Definition toy_cell : taskState :=
  default (new_task toy_request 0 0 "" 0) (match w_reg (o_world toy_start) with Some r => heap r !! h_ptr toy_task | None => None end).
Definition toy_config : config := Config "/ssd" (Some (Worker "/ssd" "/hdd")).
(** The network answers, the transfer delivers "data", and nobody else acts. *)
Definition toy_ambient : ambient :=
  Ambient (1700000000 * ns_per_s) [Err (DOther "timeout"); Ok (Media true "x" 4 2 0 "photo")] (Some (1000000, 2000000))
    (Parallel_ [] [Write 0 4 None] 0 None None) "data" false false false None (λ _ o, o).
Definition toy_end : ost := (downloadOne toy_sha (λ _ _, false) toy_filenamify toy_config toy_ambient toy_task toy_start).2.

Definition toy_attempt : attempt := Attempt toy_task (t_request toy_cell) (h_gen toy_task).
