(* ===== verification/OrchestratorProps.v ===== *)
(** * What the orchestrator guarantees

    Judgements on computations over the orchestrator's state, and what a run of [downloadOne]
    keeps whatever system call, SQL statement or network call fails and whatever other
    goroutines do at its waiting points: it touches no file but its own part, and gives back
    what it took. *)
From S2P Require Import Ranges Gate Transfer.
From S2P Require Import Prelude Paths Fscommit Sql ArchiveJobs Downloads Lifecycle Protocol.
From S2P Require Import Registry RegistryProps World Archive Recovery RecoveryProps Planner Orchestrator.

(** ** Judgements on computations *)

Definition ofiles (o : ost) : disk := w_files (o_world o).
Definition otabs (o : ost) : db := w_tabs (o_world o).

(** [triple P m Q]: from a state with [P], [m] ends with a result and a state with [Q]. *)
Definition triple {A} (P : ost → Prop) (m : M A) (Q : A → ost → Prop) : Prop :=
  ∀ o, P o → Q (m o).1 (m o).2.

(** [along R m]: [m] takes the state along the relation [R]. *)
Definition along {A} (R : ost → ost → Prop) (m : M A) : Prop := ∀ o, R o (m o).2.

Section Judgements.
Context {A B : Type}.

Lemma triple_ret P (x : A) (Q : A → ost → Prop) : (∀ o, P o → Q x o) → triple P (sm_ret x) Q.
Proof. intros H o Ho. by apply H. Qed.
Lemma triple_bind P (m : M A) (R : A → ost → Prop) (k : A → M B) (Q : B → ost → Prop) :
  triple P m R → (∀ x, triple (R x) (k x) Q) → triple P (sm_bind m k) Q.
Proof.
  intros Hm Hk o Ho. unfold sm_bind. specialize (Hm o Ho). destruct (m o) as [x o']. by apply Hk.
Qed.
Lemma triple_conseq P P' (m : M A) (Q Q' : A → ost → Prop) :
  (∀ o, P' o → P o) → (∀ x o, Q x o → Q' x o) → triple P m Q → triple P' m Q'.
Proof. intros HP HQ Hm o Ho. apply HQ, Hm, HP, Ho. Qed.

Lemma along_ret (R : ost → ost → Prop) `{!Reflexive R} (x : A) : along R (sm_ret x).
Proof. intros o. reflexivity. Qed.
Lemma along_bind (R : ost → ost → Prop) `{!Transitive R} (m : M A) (k : A → M B) :
  along R m → (∀ x, along R (k x)) → along R (sm_bind m k).
Proof.
  intros Hm Hk o. unfold sm_bind. specialize (Hm o). destruct (m o) as [x o']. simpl in *.
  transitivity o'; [done|apply Hk].
Qed.
Lemma along_ask (R : ost → ost → Prop) `{!Reflexive R} (f : ost → A) : along R (ask f).
Proof. intros o. reflexivity. Qed.
End Judgements.

Lemma along_run {A} (R : ost → ost → Prop) (m : M A) o x o' : along R m → m o = (x, o') → R o o'.
Proof. intros Hm He. specialize (Hm o). by rewrite He in Hm. Qed.

Lemma along_modify (R : ost → ost → Prop) f : (∀ o, R o (f o)) → along R (modify f).
Proof. intros Hf o. apply Hf. Qed.

(** Follow the structure of a handler; [base] closes its commands. *)
Ltac along_step base :=
  lazymatch goal with
  | |- along _ (sm_bind _ _) => apply along_bind; [apply _| |intros ?]
  | |- along _ (sm_ret _) => apply along_ret; apply _
  | |- along _ (ask _) => apply along_ask; apply _
  | |- along _ (ask_reg _ _) => apply along_ask; apply _
  | |- along _ (match ?x with _ => _ end) => destruct x
  | |- _ => base
  end.
Ltac along_auto base := repeat (along_step base).

(** Run the first command of the outermost sequence. *)
Tactic Notation "step_bind" "as" simple_intropattern(pat) ident(H) :=
  match goal with
  | |- context [@sm_bind ?S ?A ?B ?m ?k ?o] =>
      change (@sm_bind S A B m k o) with (let (x, s) := m o in k x s); destruct (m o) as pat eqn:H
  end.

(** ** Files *)

(** What is at [q] stays there. *)
Definition keeps (q : string) (o o' : ost) : Prop :=
  ∀ n, ofiles o !! q = Some n → ofiles o' !! q = Some n.

#[export] Instance keeps_refl q : Reflexive (keeps q).
Proof. by intros o n. Qed.
#[export] Instance keeps_trans q : Transitive (keeps q).
Proof. intros o1 o2 o3 H1 H2 n Hn. by apply H2, H1. Qed.

Lemma keeps_fs {A} q (m : FS A) : fkeeps q m → along (keeps q) (o_fs m).
Proof.
  intros Hm o n Hn. unfold o_fs, in_world, on_fs. specialize (Hm (w_fs (o_world o)) n Hn).
  destruct (m _) as [x s]. exact Hm.
Qed.
Lemma keeps_db {A} q (m : DB A) : along (keeps q) (o_db m).
Proof. intros o n Hn. unfold o_db, in_world, on_db. by destruct (m _). Qed.
Lemma keeps_reg q f : along (keeps q) (o_reg f).
Proof. by intros o n Hn. Qed.

Lemma fkeeps_evaluate q sha p f size x r : p ≠ q → fkeeps q (EvaluateCommitSiblingPart sha p f size x r).
Proof.
  intros Hne s n Hn. destruct (EvaluateCommitSiblingPart sha p f size x r s) as [y s'] eqn:He.
  apply Evaluate_files in He as [He|[He _]]; simpl; rewrite He; [done|]. by rewrite lookup_delete_ne.
Qed.

Create HintDb orch.
#[export] Hint Resolve keeps_fs keeps_db keeps_reg fkeeps_Stat fkeeps_Fsync fkeeps_SHA fkeeps_Remove fkeeps_put
  fkeeps_MkdirAll fkeeps_commit fkeeps_evaluate : orch.

Section Clobber.
Context (sha256Hex : string → string) (tgerr_Is : goerr → list string → bool) (Filenamify : string → string).
Context (c : config) (a : ambient) (q : string).
Hypothesis act_keeps : ∀ p o, keeps q o (a_act a p o).

Lemma keeps_act p : along (keeps q) (act a p).
Proof. apply along_modify. intros o. apply act_keeps. Qed.

Lemma keeps_create g : part_path c g ≠ q → fkeeps q (create_part c g).
Proof.
  intros Hne. apply fkeeps_sys. intros d n Hn. destruct (d !! part_path c g) as [[]|]; simpl; [done|..];
    by rewrite lookup_insert_ne.
Qed.

Hint Resolve keeps_act keeps_create : orch.
Ltac keep_base :=
  first [ done
        | solve [apply along_modify; unfold wake_archiver; intros ? ? ?; repeat case_match; assumption]
        | solve [eauto with orch] ].
Ltac keep := along_auto keep_base.

Lemma keeps_fail_both t g d : along (keeps q) (fail_both a t g d).
Proof. unfold fail_both, fail_task, fail_record. keep. Qed.
Hint Resolve keeps_fail_both : orch.
Lemma keeps_already t b pr : along (keeps q) (already_success sha256Hex c a t b pr).
Proof. unfold already_success, fail_task, succeed_task. keep. Qed.
Hint Resolve keeps_already : orch.
Lemma keeps_begin t b g : along (keeps q) (begin_or_stop sha256Hex c a t b g).
Proof. unfold begin_or_stop, fail_task. keep. Qed.
Lemma keeps_existing t g : along (keeps q) (existing_final sha256Hex c a t g).
Proof. unfold existing_final, fail_task, succeed_task. keep. Qed.
Lemma keeps_plan t m : along (keeps q) (plan_target Filenamify a t m).
Proof. unfold plan_target. keep. Qed.
Hint Resolve keeps_begin keeps_existing keeps_plan : orch.

Section Part.
Context (g : target) (Hne : part_path c g ≠ q).

Lemma keeps_complete t n s1 s2 r : along (keeps q) (complete_download c a t g n s1 s2 r).
Proof. unfold complete_download, succeed_task. keep. Qed.
Hint Resolve keeps_complete : orch.
Lemma keeps_publish t n s r : along (keeps q) (publish sha256Hex c a t g n s r).
Proof. unfold publish, fail_task, fail_record. keep. Qed.
Hint Resolve keeps_publish : orch.
Lemma keeps_commit t n s r : along (keeps q) (commit_download sha256Hex c a t g n s r).
Proof. unfold commit_download, fail_task. keep. Qed.
Lemma keeps_run t : along (keeps q) (run_transfer tgerr_Is c a t g).
Proof. unfold run_transfer. keep. Qed.
Lemma keeps_failed t p e : along (keeps q) (transfer_failed c a t g p e).
Proof. unfold transfer_failed, fail_task. keep. Qed.
Lemma keeps_verify t w : along (keeps q) (verify_part sha256Hex c a t g w).
Proof. unfold verify_part, discard_part. keep. Qed.
Hint Resolve keeps_commit keeps_run keeps_failed keeps_verify : orch.
Lemma keeps_open t : along (keeps q) (with_open_part sha256Hex tgerr_Is c a t g).
Proof. unfold with_open_part. keep. Qed.
Hint Resolve keeps_open : orch.
Lemma keeps_transfer t : along (keeps q) (transfer_and_commit sha256Hex tgerr_Is c a t g).
Proof. unfold transfer_and_commit. keep. Qed.
Hint Resolve keeps_transfer : orch.
Lemma keeps_reserve t : along (keeps q) (reserve_and_run sha256Hex tgerr_Is c a t g).
Proof. unfold reserve_and_run. keep. Qed.
End Part.

End Clobber.

Section NoClobber.
Context (sha256Hex : string → string) (tgerr_Is : goerr → list string → bool) (Filenamify : string → string).
Context (c : config) (a : ambient).


Lemma admit_one_part t o : ∃ g, ∀ q,
  (∀ p o, keeps q o (a_act a p o)) → part_path c g ≠ q →
  keeps q o (admit_and_run sha256Hex tgerr_Is Filenamify c a t o).2.
Proof.
  unfold admit_and_run, sm_bind at 1. generalize (resolve_loop 3 (a_answers a) DCanceled). intros ans.
  destruct (begin_or_stop _ _ _ _ _ _ o) as [ok o1] eqn:H1.
  assert (∀ q, keeps q o o1) as K1 by (intros q; eapply along_run; [apply keeps_begin|exact H1]).
  destruct ok; cbn [negb]; [|exists (Target "" "" "" 0); intros q _ _; apply K1].
  step_bind as [u2 o2] H2.
  assert (∀ q, (∀ p o, keeps q o (a_act a p o)) → keeps q o1 o2) as K2
    by (intros q Hq; eapply along_run; [by apply keeps_act|exact H2]).
  destruct ans as [m|e];
    [|exists (Target "" "" "" 0); intros q Hact _; transitivity o2; [transitivity o1; [apply K1|by apply K2]|apply keeps_fail_both]].
  destruct (negb (rm_File m) || (rm_Size m <=? 0))%bool.
  { exists (Target "" "" "" 0). intros q Hact _. transitivity o2; [transitivity o1; [apply K1|by apply K2]|]. apply keeps_fail_both. }
  step_bind as [u o3] H3. step_bind as [g o4] H4.
  exists g. intros q Hact Hq.
  transitivity o2; [transitivity o1; [apply K1|by apply K2]|].
  transitivity o3; [eapply along_run; [apply keeps_reg|exact H3]|].
  transitivity o4; [eapply along_run; [apply keeps_plan|exact H4]|].
  apply along_bind; [apply _|apply keeps_existing|]. intros []; [by apply keeps_reserve|apply along_ret, _].
Qed.


End NoClobber.

(** ** Resources *)

Lemma along_weaken {A} (R R' : ost → ost → Prop) (m : M A) :
  (∀ o o', R o o' → R' o o') → along R m → along R' m.
Proof. intros H Hm o. apply H, Hm. Qed.

Section Resources.
Context (sha256Hex : string → string) (tgerr_Is : goerr → list string → bool) (Filenamify : string → string).
Context (c : config) (a : ambient) (t : attempt).

(** What a task holds in the orchestrator: its place in flight, its publisher's mark, its
    reservation. *)
Definition pub_key : string := CanonicalTaskID (Peer (at_req t)) (MessageID (at_req t)).
Definition flying (o : ost) : bool := bool_decide (ID (at_req t) ∈ o_inFlight o).
Definition marked (o : ost) : option string := o_publishers o !! pub_key.
Definition reserved (o : ost) : option Z := reservations (o_adm o) !! ID (at_req t).

Definition same_own (o o' : ost) : Prop :=
  flying o' = flying o ∧ marked o' = marked o ∧ reserved o' = reserved o.
(** ... up to the mark; and with nothing held in the end that was not held before. *)
Definition own_but_mark (o o' : ost) : Prop := flying o' = flying o ∧ reserved o' = reserved o.
Definition own_unmarked (o o' : ost) : Prop :=
  flying o' = flying o ∧ reserved o' = reserved o ∧ (marked o = None → marked o' = None).
Definition own_freed (o o' : ost) : Prop :=
  flying o' = flying o ∧ (reserved o = None → reserved o' = None) ∧ (marked o = None → marked o' = None).

#[local] Instance same_own_refl : Reflexive same_own.
Proof. by intros o. Qed.
#[local] Instance same_own_trans : Transitive same_own.
Proof. unfold same_own. intros o1 o2 o3. intuition congruence. Qed.
#[local] Instance own_but_mark_refl : Reflexive own_but_mark.
Proof. by intros o. Qed.
#[local] Instance own_but_mark_trans : Transitive own_but_mark.
Proof. unfold own_but_mark. intros o1 o2 o3. intuition congruence. Qed.
#[local] Instance own_unmarked_refl : Reflexive own_unmarked.
Proof. by intros o. Qed.
#[local] Instance own_unmarked_trans : Transitive own_unmarked.
Proof. unfold own_unmarked. intros o1 o2 o3. intuition congruence. Qed.
#[local] Instance own_freed_refl : Reflexive own_freed.
Proof. by intros o. Qed.
#[local] Instance own_freed_trans : Transitive own_freed.
Proof. unfold own_freed. intros o1 o2 o3. intuition congruence. Qed.

Lemma same_but_mark o o' : same_own o o' → own_but_mark o o'.
Proof. unfold same_own, own_but_mark. tauto. Qed.
Lemma same_unmarked o o' : same_own o o' → own_unmarked o o'.
Proof. unfold same_own, own_unmarked. intuition congruence. Qed.
Lemma unmarked_freed o o' : own_unmarked o o' → own_freed o o'.
Proof. unfold own_unmarked, own_freed. intuition congruence. Qed.

Hypothesis act_own : ∀ p o, same_own o (a_act a p o).

Lemma own_act p : along same_own (act a p).
Proof. apply along_modify. intros o. apply act_own. Qed.
Lemma own_world {A} (m : W A) : along same_own (in_world m).
Proof. intros o. unfold in_world. by destruct (m (o_world o)). Qed.

Lemma own_fail_both g d : along same_own (fail_both a t g d).
Proof.
  unfold fail_both, fail_task, fail_record, o_reg, o_db.
  repeat (apply along_bind; [apply _|apply own_world|intros ?]). apply along_ret, _.
Qed.
Lemma own_already b pr : along same_own (already_success sha256Hex c a t b pr).
Proof.
  unfold already_success, fail_task, succeed_task, o_reg, o_fs. along_auto ltac:(apply own_world).
Qed.
Ltac own_base :=
  unfold fail_record, fail_task, succeed_task, o_fs, o_db, o_reg in *;
  first [ apply own_act | apply own_fail_both | apply own_already | apply own_world
        | solve [apply along_modify; unfold wake_archiver; intros ?; repeat case_match; by split_and!] ].
Ltac own := along_auto own_base.

Lemma own_begin b g : along same_own (begin_or_stop sha256Hex c a t b g).
Proof. unfold begin_or_stop. own. Qed.
Lemma own_existing g : along same_own (existing_final sha256Hex c a t g).
Proof. unfold existing_final. own. Qed.
Lemma own_plan m : along same_own (plan_target Filenamify a t m).
Proof. unfold plan_target. own. Qed.
Lemma own_run g : along same_own (run_transfer tgerr_Is c a t g).
Proof. unfold run_transfer. own. Qed.
Lemma own_failed g p e : along same_own (transfer_failed c a t g p e).
Proof. unfold transfer_failed. own. Qed.
Lemma own_verify g w : along same_own (verify_part sha256Hex c a t g w).
Proof. unfold verify_part, discard_part. own. Qed.

(** The mark may go while the download completes, and is gone after the commit. *)
Lemma own_complete g n s1 s2 r : along own_but_mark (complete_download c a t g n s1 s2 r).
Proof.
  unfold complete_download, succeed_task.
  along_auto ltac:(first [apply (along_weaken _ _ _ same_but_mark); own_base
                         |apply along_modify; intros ?; by split]).
Qed.
Lemma own_publish g n s r : along own_but_mark (publish sha256Hex c a t g n s r).
Proof.
  unfold publish.
  along_auto ltac:(first [apply own_complete|apply (along_weaken _ _ _ same_but_mark); own_base]).
Qed.
Lemma own_commit g n s r : along own_unmarked (commit_download sha256Hex c a t g n s r).
Proof.
  unfold commit_download. apply along_bind; [apply _|apply (along_weaken _ _ _ same_unmarked), own_act|intros _].
  apply along_bind; [apply _|apply along_ask, _|intros ended].
  destruct (_ || _)%bool; [apply (along_weaken _ _ _ same_unmarked); own|].
  intros o. unfold sm_bind at 1. cbn [modify]. set (o1 := with_publishers _ o).
  step_bind as [p o2] H2.
  assert (own_but_mark o1 o2) as K2.
  { apply same_but_mark. pose proof (own_world (on_db (PrepareDownloadCommit (at_key t) (at_gen t) (tg_rel g) n s
      (o_now a))) o1) as K. unfold o_db in H2. by rewrite H2 in K. }
  step_bind as [keep o3] H3.
  assert (own_but_mark o2 o3) as K3.
  { destruct p as [u|e].
    - revert H3. intros H3. pose proof (along_bind own_but_mark _ _ (along_weaken _ _ _ same_but_mark
        (own_act AfterPrepareCommit)) (λ _, own_publish g n s r) o2) as K. by rewrite H3 in K.
    - match type of H3 with ?m _ = _ => assert (along own_but_mark m) as K end.
      { apply (along_weaken _ _ _ same_but_mark). own. }
      specialize (K o2). by rewrite H3 in K. }
  assert (own_but_mark o o1) as K1 by done.
  assert (own_but_mark o o3) as [Hf Hr] by (transitivity o1; [|transitivity o2]; done).
  split_and!; [exact Hf|exact Hr|]. intros _. unfold marked. simpl. apply lookup_delete_eq.
Qed.

Lemma own_open g : along own_unmarked (with_open_part sha256Hex tgerr_Is c a t g).
Proof.
  unfold with_open_part.
  along_auto ltac:(first [apply own_commit|apply (along_weaken _ _ _ same_unmarked);
                          first [apply own_run|apply own_failed|apply own_verify]]).
Qed.
Lemma own_transfer g : along own_unmarked (transfer_and_commit sha256Hex tgerr_Is c a t g).
Proof.
  unfold transfer_and_commit.
  along_auto ltac:(first [apply own_open|apply (along_weaken _ _ _ same_unmarked); own_base]).
Qed.

(** The reservation is there while the transfer runs, and gone after. *)
Lemma drop_reservation_lookup ad id : reservations (drop_reservation ad id) !! id = None.
Proof. unfold drop_reservation. destruct (reservations ad !! id) eqn:He; [apply lookup_delete_eq|done]. Qed.

Lemma own_reserve g : along own_freed (reserve_and_run sha256Hex tgerr_Is c a t g).
Proof.
  intros o. unfold reserve_and_run, sm_bind at 1. cbn [ask].
  destruct (Reserve _ _ _ _) as [r ad] eqn:Hres. unfold sm_bind at 1. cbn [modify].
  set (o1 := with_adm ad o). assert (flying o1 = flying o ∧ marked o1 = marked o) as [Hf Hm] by done.
  destruct r as [u|e].
  - match goal with |- own_freed o (sm_bind ?m ?k o1).2 =>
      assert (along own_unmarked m) as K1 by (apply (along_weaken _ _ _ same_unmarked), own_begin) end.
    step_bind as [ok o2] H2. specialize (K1 o1). rewrite H2 in K1. simpl in K1.
    step_bind as [u' o3] H3.
    assert (own_unmarked o2 o3) as K2.
    { destruct ok; [|injection H3 as _ <-; reflexivity].
      pose proof (along_bind own_unmarked _ _ (along_weaken _ _ _ same_unmarked
        (own_world (on_reg (SetDownloading (at_task t))))) (λ _, own_transfer g) o2) as K.
      unfold o_reg in H3. by rewrite H3 in K. }
    destruct K1 as (K1 & _ & M1), K2 as (K2 & _ & M2).
    split_and!; [simpl; unfold flying in *; simpl; congruence| |intros Hn; apply M2, M1; by rewrite Hm].
    intros _. unfold reserved. simpl. apply drop_reservation_lookup.
  - apply (transitivity (R := own_freed)) with o1.
    + split_and!; [done| |done]. intros Hn. unfold reserved, o1. simpl. revert Hres. unfold Reserve.
      destruct (a_space a) as [[fr to]|]; [|by intros [= _ <-]].
      destruct (_ <? _); [|done]. intros [= _ <-]. apply drop_reservation_lookup.
    + apply unmarked_freed, same_unmarked, own_world.
Qed.

Lemma own_admit : along own_freed (admit_and_run sha256Hex tgerr_Is Filenamify c a t).
Proof.
  unfold admit_and_run. generalize (resolve_loop 3 (a_answers a) DCanceled). intros ans.
  along_auto ltac:(first [apply own_reserve|apply (along_weaken _ _ _ unmarked_freed), (along_weaken _ _ _ same_unmarked);
                          first [apply own_begin|apply own_existing|apply own_plan|apply own_fail_both|own_base]]).
Qed.
End Resources.

(** A run whose task is not in flight yet. *)
Lemma downloadOne_run sha256Hex tgerr_Is Filenamify c a h o r cell :
  w_reg (o_world o) = Some r → heap r !! h_ptr h = Some cell →
  let t := Attempt h (t_request cell) (AttemptGen h r) in
  flying t o = false →
  (downloadOne sha256Hex tgerr_Is Filenamify c a h o).2 =
  (λ o2, with_inFlight_ (o_inFlight o2 ∖ {[ID (t_request cell)]}) o2)
    (admit_and_run sha256Hex tgerr_Is Filenamify c a t
       (with_inFlight_ (o_inFlight o ∪ {[ID (t_request cell)]}) o)).2.
Proof.
  intros Hr Hc t Hf. unfold downloadOne, sm_bind, ask_reg, ask, modify. rewrite Hr, Hc.
  change (bool_decide (ID (t_request cell) ∈ o_inFlight o)) with (flying t o). rewrite Hf. subst t.
  by destruct (admit_and_run _ _ _ _ _ _ _).
Qed.

(** C3. A run gives back what it takes, on every path: when it ends, its task is not in
    flight, no publisher's mark is left for its message, and no SSD space is reserved for it,
    provided the goroutines beside it leave these entries of the task alone. *)
Theorem download_releases_everything (sha256Hex : string → string) (tgerr_Is : goerr → list string → bool)
    (Filenamify : string → string) (c : config) (a : ambient) (h : Task) (o : ost) (r : Registry)
    (cell : taskState) (gen : string) :
  w_reg (o_world o) = Some r → heap r !! h_ptr h = Some cell → AttemptGen h r = gen →
  let t := Attempt h (t_request cell) gen in
  (∀ p o, same_own t o (a_act a p o)) →
  flying t o = false → marked t o = None → reserved t o = None →
  let o' := (downloadOne sha256Hex tgerr_Is Filenamify c a h o).2 in
  flying t o' = false ∧ marked t o' = None ∧ reserved t o' = None.
Proof.
  intros Hr Hc <- t Hact Hf Hm Hres o'. subst o'. rewrite (downloadOne_run _ _ _ _ _ _ _ _ _ Hr Hc Hf).
  set (o1 := with_inFlight_ (_ ∪ _) o).
  pose proof (own_admit sha256Hex tgerr_Is Filenamify c a t Hact o1) as (_ & K2 & K3).
  fold t. set (o2 := (admit_and_run _ _ _ _ _ _ _).2) in *.
  split_and!; [|by apply K3|by apply K2].
  unfold flying. apply bool_decide_eq_false. simpl. set_solver.
Qed.

Lemma download_releases_everything_witness :
  flying toy_attempt toy_end = false ∧ marked toy_attempt toy_end = None ∧ reserved toy_attempt toy_end = None.
Proof.
  apply (download_releases_everything toy_sha (λ _ _, false) toy_filenamify toy_config toy_ambient toy_task toy_start
           (Next 2000 toy_registry).2 toy_cell (h_gen toy_task));
    first [by intros ? ?|vm_compute; reflexivity].
Defined.
