(* ===== verification/OrchestratorSuccess.v ===== *)
(** * Success means durable

    A run of [downloadOne] that ends with its task marked successful leaves a completed record
    whose file is on disk with the recorded size and digest. The proof goes through the
    pipeline step by step: [fresh] states (the task is not marked) are kept by every step but
    the last, which is taken only where the file is [durable]. A concrete run shows that
    success is reached. *)
From S2P Require Import Ranges Gate Transfer.
From S2P Require Import Prelude Paths Fscommit Sql ArchiveJobs Downloads Lifecycle Protocol.
From S2P Require Import Registry RegistryProps World Archive Recovery RecoveryProps Planner Orchestrator.
From S2P Require Import OrchestratorProps.

(** What the store says when it refuses to begin, and when it completes. *)
Lemma BeginDownload_already k gen name path mt n now s proof s' :
  BeginDownload k gen name path mt n now s = (Err (AlreadySuccessError proof), s') →
  tabs s' = tabs s ∧ completed k (SavePath proof) (FileSize proof) (SHA256 proof) (tabs s).
Proof.
  unfold BeginDownload, st_bind, query, stmt. destruct (hd false (faults s)); simpl; [done|].
  destruct (records (tabs s) !! k) as [r|] eqn:Hr; simpl.
  2:{ unfold insert_record, exec, stmt. by destruct (hd false _). }
  case_decide as Hst; [|sql_unfold; repeat (case_match; simplify_eq/=; try done)].
  repeat (case_decide; [done|]). intros [= <- <-]. split; [done|]. exists r. done.
Qed.

Lemma with_tx_ok body s u s' :
  with_tx body s = (Ok u, s') →
  (∃ s2, body (Sql (tabs s) (tl (faults s))) = (Ok (Commit (Ok u)), s2) ∧ tabs s' = tabs s2) ∨
  (∃ s2, body (Sql (tabs s) (tl (faults s))) = (Ok (Rollback (Ok u)), s2) ∧ tabs s' = tabs s).
Proof.
  unfold with_tx, query, exec, stmt. destruct (hd false (faults s)); simpl; [done|].
  destruct (body _) as [[[r|r]|e] s2]; simpl; [|intros [= -> <-]; eauto|done].
  destruct (hd false (faults s2)); simpl; [done|]. intros [= -> <-]. eauto.
Qed.

(** A body that returns nil leaves the record complete. *)
Definition nil_completes (k : key) (p : string) (n : Z) (sha : string) (d : db) (x : res dberr txout * sqlst) : Prop :=
  match x.1 with
  | Ok (Commit (Ok _)) => completed k p n sha (tabs x.2)
  | Ok (Rollback (Ok _)) => completed k p n sha d
  | _ => True
  end.

Lemma queue_nil_completes k p n sha q now d s :
  completed k p n sha (tabs s) → nil_completes k p n sha d (queue_and_commit q k p n sha now s).
Proof.
  intros (r & Hr & Hp). pose proof (queue_and_commit_spec q k p n sha now s) as Hs. unfold nil_completes.
  destruct (queue_and_commit _ _ _ _ _ _ _) as [[[[u|e]|[u|e]]|e] s2]; simpl in *; try done;
    destruct Hs as [Hs ?]; [|done]. exists r. by rewrite Hs.
Qed.

Lemma CompleteExisting_ok k gen p n sha q now s u s' :
  CompleteExistingDownload k gen p n sha q now s = (Ok u, s') → completed k p n sha (tabs s').
Proof.
  unfold CompleteExistingDownload. set (body := st_bind _ _). intros Htx.
  assert (∀ s1, nil_completes k p n sha (tabs s1) (body s1)) as Hb.
  { intros s1. unfold body, st_bind at 1, query, stmt. destruct (hd false (faults s1)); simpl; [done|].
    destruct (records (tabs s1) !! k) as [r|] eqn:Hr; simpl.
    - case_decide.
      { case_decide; [done|]. case_decide as Hm; [done|]. exists r.
        apply Decidable.not_or in Hm as [? [? ?]%Decidable.not_or].
        split_and!; [done|done|by apply dec_stable..]. }
      case_decide; [|done]. case_decide; [done|].
      unfold st_bind, update_record, stmt. simpl. destruct (hd false _); simpl; [done|]. rewrite Hr.
      case_bool_decide; simpl; [|done]. apply queue_nil_completes. eexists. simpl. by rewrite lookup_insert_eq.
    - unfold st_bind, insert_record, exec, stmt. simpl. destruct (hd false _); simpl; [done|].
      apply queue_nil_completes. eexists. simpl. by rewrite lookup_insert_eq. }
  apply with_tx_ok in Htx as [(s2 & He & ->)|(s2 & He & ->)];
    specialize (Hb (Sql (tabs s) (tl (faults s)))); by rewrite He in Hb.
Qed.

Section Success.
Context (sha256Hex : string → string) (tgerr_Is : goerr → list string → bool) (Filenamify : string → string).
Context (c : config) (a : ambient) (t : attempt).

(** The task is marked successful. *)
Definition cell_success (r : Registry) : Prop :=
  ∃ cell, heap r !! h_ptr (at_task t) = Some cell ∧ t_state cell = StateSuccess.
Definition succeeded (o : ost) : Prop := ∃ r, w_reg (o_world o) = Some r ∧ cell_success r.
(** The file is durable: a completed record, and its file under the download directory with
    the recorded size and digest. *)
Definition durable (o : ost) : Prop :=
  ∃ rel size sha, completed (at_key t) rel size sha (otabs o) ∧
    has_proof sha256Hex (Join (saveDir c) rel) size sha (ofiles o).
Definition fresh (o : ost) : Prop := ¬ succeeded o.
Definition honest (o : ost) : Prop := succeeded o → durable o.

Lemma fresh_honest o : fresh o → honest o.
Proof. intros Hf Hs. by destruct Hf. Qed.

(** Steps that do not mark success. *)
Definition stays_fresh (o o' : ost) : Prop := fresh o → fresh o'.
#[local] Instance stays_fresh_refl : Reflexive stays_fresh.
Proof. intros o Ho. exact Ho. Qed.
#[local] Instance stays_fresh_trans : Transitive stays_fresh.
Proof. intros o1 o2 o3. unfold stays_fresh. auto. Qed.

Definition no_success (f : Registry → Registry) : Prop := ∀ r, cell_success (f r) → cell_success r.

Lemma fresh_reg f : no_success f → along stays_fresh (o_reg f).
Proof.
  intros Hf o Hfresh (r' & Hr' & Hs). apply Hfresh. simpl in Hr'.
  destruct (w_reg (o_world o)) as [r|] eqn:Hr; [|done]. simpl in Hr'. injection Hr' as <-.
  exists r. split; [done|]. by apply Hf.
Qed.
Lemma fresh_same {A} (m : M A) : (∀ o, w_reg (o_world (m o).2) = w_reg (o_world o)) → along stays_fresh m.
Proof. intros Hm o Hf (r & Hr & Hs). apply Hf. exists r. by rewrite <- Hm. Qed.
Lemma fresh_fs {A} (m : FS A) : along stays_fresh (o_fs m).
Proof. apply fresh_same. intros o. unfold o_fs, in_world, on_fs. by destruct (m _). Qed.
Lemma fresh_db {A} (m : DB A) : along stays_fresh (o_db m).
Proof. apply fresh_same. intros o. unfold o_db, in_world, on_db. by destruct (m _). Qed.

Lemma no_success_update p f : (∀ x, t_state (f x) = StateSuccess → t_state x = StateSuccess) →
  no_success (update_cell p f).
Proof.
  intros Hf r (cell & Hc & Hs). unfold update_cell in Hc. simpl in Hc.
  destruct (decide (p = h_ptr (at_task t))) as [->|Hne].
  - rewrite lookup_alter_eq in Hc. destruct (heap r !! _) as [x|] eqn:Hx; [|done]. simpl in Hc.
    injection Hc as <-. exists x. auto.
  - rewrite lookup_alter_ne in Hc by done. by exists cell.
Qed.
Lemma no_success_comp f g : no_success f → no_success g → no_success (λ r, f (g r)).
Proof. intros Hf Hg r Hs. by apply Hg, Hf. Qed.
Lemma no_success_heap f : (∀ r, heap (f r) = heap r) → no_success f.
Proof. intros Hf r (cell & Hc & Hs). rewrite Hf in Hc. by exists cell. Qed.

Lemma no_success_task_update h f : (∀ x, t_state (f x) = StateSuccess → t_state x = StateSuccess) →
  no_success (task_update h f).
Proof. intros Hf. apply no_success_update. intros x. destruct (_ || _)%bool; auto. Qed.

Lemma no_success_finish h st s1 s2 s3 s4 b1 s5 s6 b2 s7 n :
  st ≠ StateSuccess → no_success (λ r, (finishWithGen h st s1 s2 s3 s4 b1 s5 s6 b2 s7 n r).2).
Proof.
  intros Hst r. unfold finishWithGen. destruct (heap r !! h_ptr h) as [x|] eqn:Hx; [|done].
  destruct (stale h x); [done|]. destruct (isTerminal _); [done|]. simpl. unfold finish_at.
  intros (cell & Hc & Hs). unfold pruneTerminalOrderLocked in Hc. rewrite prune_loop_heap in Hc. simpl in Hc.
  apply (no_success_update (h_ptr h) (finish_cell st (Outcome s1 s2 s3 s4 b1 s5 b2 s7 (Some n)) s6)).
  - intros y Hy. exfalso. apply Hst. unfold finish_cell in Hy. destruct (isTerminal st), (decide (s6 = "")); exact Hy.
  - exists cell. split; [|done]. by destruct (decide (s4 = "")).
Qed.

Lemma no_success_fail h d n : no_success (λ r, (FailDisposition h d n r).2).
Proof.
  intros r Hs. unfold FailDisposition in Hs.
  apply (no_success_finish h (if Unavailable d then StateUnavailable else StateFailed)) in Hs;
    [|by destruct (Unavailable d)].
  case_decide; [done|]. by eapply no_success_update in Hs.
Qed.

Lemma no_success_progress h l n :
  no_success (λ r, foldr (λ m r, RecordProgress h m n r) r l).
Proof.
  induction l as [|m l IH]; [by intros r|]. intros r Hs. apply IH. revert Hs. simpl.
  generalize (foldr (λ m r, RecordProgress h m n r) r l). clear r. intros r. unfold RecordProgress.
  destruct (m <=? 0); [done|]. destruct (heap r !! h_ptr h) as [x|]; [|done].
  destruct (_ || _)%bool; [done|].
  repeat match goal with |- cell_success (if ?b then _ else _) → _ => destruct b end.
  all: intros Hs; by eapply (no_success_update (h_ptr h)) in Hs.
Qed.

Lemma no_success_requeue h : no_success (λ r, (Requeue h r).2).
Proof.
  intros r. unfold Requeue. destruct (heap r !! h_ptr h) as [x|]; [|done]. destruct (isTerminal _); [done|].
  intros Hs. by eapply (no_success_update (h_ptr h) (with_state StateQueued)) in Hs.
Qed.

Hypothesis act_fresh : ∀ p o, stays_fresh o (a_act a p o).

Lemma fresh_act p : along stays_fresh (act a p).
Proof. apply along_modify. intros o. apply act_fresh. Qed.
Lemma fresh_modify f : (∀ o, o_world (f o) = o_world o) → along stays_fresh (modify f).
Proof. intros Hf. apply fresh_same. intros o. simpl. by rewrite Hf. Qed.
Lemma fresh_fail d : along stays_fresh (fail_task a t d).
Proof. apply fresh_reg, no_success_fail. Qed.

Ltac fresh_base :=
  first [ apply fresh_fs | apply fresh_db | apply fresh_fail | apply fresh_act
        | solve [apply fresh_modify; by intros ?]
        | solve [apply fresh_reg; first [apply no_success_task_update; done
                                        |apply no_success_requeue|apply no_success_progress
                                        |apply no_success_update; done]] ].
Ltac go_fresh := along_auto fresh_base.

Lemma fresh_fail_both g d : along stays_fresh (fail_both a t g d).
Proof. unfold fail_both, fail_record. go_fresh. Qed.
Lemma fresh_run g : along stays_fresh (run_transfer tgerr_Is c a t g).
Proof. unfold run_transfer. go_fresh. Qed.
Lemma fresh_failed g p e : along stays_fresh (transfer_failed c a t g p e).
Proof. unfold transfer_failed. along_auto ltac:(first [apply fresh_fail_both|fresh_base]). Qed.
Lemma fresh_plan m : along stays_fresh (plan_target Filenamify a t m).
Proof. unfold plan_target. go_fresh. Qed.

(** One command at a time. *)
Lemma o_fs_run {A} (m : FS A) o x o1 :
  o_fs m o = (x, o1) →
  m (w_fs (o_world o)) = (x, w_fs (o_world o1)) ∧ otabs o1 = otabs o ∧ stays_fresh o o1.
Proof.
  intros He. pose proof (fresh_fs m o) as Hf. rewrite He in Hf. revert He. unfold o_fs, in_world, on_fs.
  destruct (m (w_fs (o_world o))) as [y s]. intros [= <- <-]. done.
Qed.
Lemma o_db_run {A} (m : DB A) o x o1 :
  o_db m o = (x, o1) →
  m (w_sql (o_world o)) = (x, w_sql (o_world o1)) ∧ ofiles o1 = ofiles o ∧ stays_fresh o o1.
Proof.
  intros He. pose proof (fresh_db m o) as Hf. rewrite He in Hf. revert He. unfold o_db, in_world, on_db.
  destruct (m (w_sql (o_world o))) as [y s]. intros [= <- <-]. done.
Qed.
Lemma o_read_sha p o x o1 :
  o_fs (ComputeFileSHA256 sha256Hex p) o = (x, o1) →
  ofiles o1 = ofiles o ∧ otabs o1 = otabs o ∧ stays_fresh o o1 ∧
  match x with Ok h => ∃ data, ofiles o !! p = Some (FileNode data) ∧ h = sha256Hex data | Err _ => True end.
Proof. intros (Hs & Ht & Hf)%o_fs_run. by apply ComputeFileSHA256_spec in Hs as [? ?]. Qed.
Lemma o_stat p o x o1 :
  o_fs (Stat p) o = (x, o1) →
  ofiles o1 = ofiles o ∧ otabs o1 = otabs o ∧ stays_fresh o o1 ∧
  match x with Ok n => ofiles o !! p = Some n | Err _ => True end.
Proof. intros (Hs & Ht & Hf)%o_fs_run. by apply Stat_spec in Hs as [? ?]. Qed.

Lemma stop_fresh {A} (m : M A) o : along stays_fresh m → fresh o → honest (m o).2.
Proof. intros Hm Hf. by apply fresh_honest, Hm. Qed.

(** Marking success changes neither files nor tables. *)
Lemma succeed_world pr o : ofiles (succeed_task a t pr o).2 = ofiles o ∧ otabs (succeed_task a t pr o).2 = otabs o.
Proof. done. Qed.
Lemma succeed_honest pr o : durable o → honest (succeed_task a t pr o).2.
Proof. intros Hd _. exact Hd. Qed.

Lemma honest_already b pr o :
  fresh o → completed (at_key t) (SavePath pr) (FileSize pr) (SHA256 pr) (otabs o) →
  honest (already_success sha256Hex c a t b pr o).2.
Proof.
  intros Hf Hc. unfold already_success. step_bind as [st o1] H1. apply o_stat in H1 as (E1 & T1 & F1 & Hn).
  destruct st as [n|e]; [|apply stop_fresh; [apply fresh_fail|auto]].
  destruct (_ =? _) eqn:Hsz; cbn [negb]; go_bool; [|apply stop_fresh; [apply fresh_fail|auto]].
  step_bind as [x o2] H2. apply o_read_sha in H2 as (E2 & T2 & F2 & Hx).
  destruct x as [sha|e]; [|apply stop_fresh; [apply fresh_fail|auto]].
  case_decide as Hsha; [|apply stop_fresh; [apply fresh_fail|auto]].
  apply succeed_honest. exists (SavePath pr), (FileSize pr), (SHA256 pr). rewrite T2, T1, E2, E1.
  split; [done|]. rewrite <- Hsz, <- Hsha. destruct Hx as (data & Hd & ->). rewrite E1 in Hd.
  by apply stat_digest_proof.
Qed.

Lemma honest_begin b g :
  triple fresh (begin_or_stop sha256Hex c a t b g) (λ go o, if go : bool then fresh o else honest o).
Proof.
  intros o Hf. unfold begin_or_stop. step_bind as [x o1] H1. apply o_db_run in H1 as (Hb & E1 & F1).
  destruct x as [u|e]; [by apply F1|].
  destruct e; try (step_bind as [u o2] H2; simpl; apply fresh_honest;
    refine (along_run _ _ _ _ _ (fresh_fail _) H2 _); by apply F1).
  step_bind as [u o2] H2. simpl. apply BeginDownload_already in Hb as [Ht Hc].
  replace o2 with (already_success sha256Hex c a t b proof o1).2 by (by rewrite H2).
  apply honest_already; [by apply F1|]. unfold otabs, w_tabs. by rewrite Ht.
Qed.

(** Leaving with [false] after a step that marks nothing. *)
Definition go_or_honest (go : bool) (o : ost) : Prop := if go then fresh o else honest o.
Lemma stop_with {A} (m : M A) o :
  along stays_fresh m → fresh o →
  go_or_honest (sm_bind m (λ _, sm_ret false) o).1 (sm_bind m (λ _, sm_ret false) o).2.
Proof.
  intros Hm Hf. unfold sm_bind. specialize (Hm o Hf). destruct (m o) as [x o']. by apply fresh_honest.
Qed.

Lemma honest_existing g : triple fresh (existing_final sha256Hex c a t g) go_or_honest.
Proof.
  intros o Hf. unfold existing_final. step_bind as [st o1] H1. apply o_stat in H1 as (E1 & T1 & F1 & Hn).
  specialize (F1 Hf). destruct st as [n|e]; [|done].
  step_bind as [x o2] H2. apply o_db_run in H2 as (_ & E2 & F2). specialize (F2 F1).
  destruct x as [[r|]|e]; [|apply stop_with; [apply fresh_fail_both|done]..].
  case_decide as Hr; [|apply stop_with; [apply fresh_fail_both|done]].
  step_bind as [x o3] H3. apply o_read_sha in H3 as (E3 & T3 & F3 & Hx). specialize (F3 F2).
  destruct x as [sha|]; [|apply stop_with; [apply fresh_fail_both|done]].
  case_decide as Hsha; [|apply stop_with; [apply fresh_fail_both|done]].
  step_bind as [y o4] H4. apply o_db_run in H4 as (Hy & E4 & F4). specialize (F4 F3).
  destruct y as [u|e]; [|apply stop_with; [apply fresh_fail|done]].
  apply CompleteExisting_ok in Hy. step_bind as [u5 o5] H5. step_bind as [u6 o6] H6. simpl.
  assert (durable o5) as Hd.
  { assert (o_world o5 = o_world o4) as Hw
      by (injection H5 as _ <-; unfold wake_archiver; by destruct (worker c)).
    exists (tg_rel g), (node_size n), sha. unfold otabs, ofiles. rewrite Hw. split; [done|].
    change (w_files (o_world o4)) with (ofiles o4). rewrite E4, E3, E2, E1.
    destruct Hx as (data & Hd & ->). rewrite E2, E1 in Hd. by apply stat_digest_proof. }
  pose proof (succeed_honest (Publish (tg_rel g) true sha 0 0 0 0 "") o5 Hd) as K. by rewrite H6 in K.
Qed.

(** A commit decided as success leaves a proved final file. *)
Lemma commit_success part final n sha s e s4 sha' s5 :
  part ≠ final → has_proof sha256Hex part n sha (files s) →
  CommitSiblingPart part final s = (e, s4) →
  EvaluateCommitSiblingPart sha256Hex part final n sha e s4 = (CommitDecisionSuccess sha', s5) →
  has_proof sha256Hex final n sha' (files s5).
Proof.
  intros Hne (data & Hd & Hn & Hs) Hc. unfold EvaluateCommitSiblingPart. destruct e as [u|e].
  { intros [= <- <-]. apply CommitSiblingPart_spec in Hc as (data' & Hp & _ & Hf & _).
    exists data'. rewrite Hp in Hd. by simplify_eq. }
  destruct (is_exist e); [|done]. unfold sm_bind, sm_ret.
  destruct (Stat final s4) as [st s1] eqn:H1. apply Stat_spec in H1 as [H1 Hst].
  destruct st as [m|]; [|done]. destruct (is_dir m); [done|]. destruct (_ =? _) eqn:Hsz; go_bool; [|done].
  destruct (ComputeFileSHA256 _ _ _) as [h s2] eqn:H2. apply ComputeFileSHA256_spec in H2 as [H2 Hh].
  destruct h as [y|]; [|done]. case_decide as Hy; [|done].
  destruct (Remove part s2) as [rr s3] eqn:H3. apply Remove_spec in H3. intros [= <- <-].
  destruct Hh as (data' & Hd' & ->). rewrite H1 in Hd'. simplify_eq.
  exists data'. split; [|split; [done|done]].
  destruct H3 as [->|[_ ->]]; [by rewrite H2, H1|]. by rewrite lookup_delete_ne, H2, H1.
Qed.

(** The files this run works on, which nobody else touches while it runs. *)
Definition own_path (q : string) : Prop :=
  ∃ rel, q = Join (saveDir c) rel ∨ q = Join (saveDir c) rel +:+ ".part".
Hypothesis act_files : ∀ p o q, own_path q → keeps q o (a_act a p o).

Lemma own_final g : own_path (final_path c g).
Proof. exists (tg_rel g). by left. Qed.
Lemma own_part g : own_path (part_path c g).
Proof. exists (tg_rel g). by right. Qed.

Lemma proof_kept q n sha o o' :
  has_proof sha256Hex q n sha (ofiles o) → keeps q o o' → has_proof sha256Hex q n sha (ofiles o').
Proof. intros (data & Hd & Hn) Hk. exists data. split; [by apply Hk|done]. Qed.

(** An action of others, from a fresh state with a file proved. *)
Lemma act_proof p q n sha o u o' :
  own_path q → act a p o = (u, o') → fresh o → has_proof sha256Hex q n sha (ofiles o) →
  fresh o' ∧ has_proof sha256Hex q n sha (ofiles o').
Proof.
  intros Hq Ha Hf Hp. injection Ha as _ <-. split; [by apply act_fresh|]. by eapply proof_kept, act_files.
Qed.

Lemma honest_complete g n s1 s2 res o :
  fresh o → has_proof sha256Hex (final_path c g) n s2 (ofiles o) →
  honest (complete_download c a t g n s1 s2 res o).2.
Proof.
  intros Hf Hp. unfold complete_download.
  step_bind as [u1 o1] H1. destruct (act_proof _ _ _ _ _ _ _ (own_final g) H1 Hf Hp) as [F1 P1].
  step_bind as [u2 o2] H2. destruct (act_proof _ _ _ _ _ _ _ (own_final g) H2 F1 P1) as [F2 P2].
  step_bind as [x o3] H3. apply o_db_run in H3 as (Hc & E3 & F3). specialize (F3 F2).
  pose proof (CompleteDownload_post (at_key t) (at_gen t) (tg_rel g) n s2 (IsArchiveEnabled c) (o_now a)
    (w_sql (o_world o2))) as Hpost. rewrite Hc in Hpost.
  assert (x = Ok tt ∨ x = Err ErrArchiveConflict → durable o3) as Hd.
  { intros Hx. exists (tg_rel g), n, s2. rewrite E3. split; [|done].
    destruct Hx as [->| ->]; by destruct Hpost as (_ & ? & _). }
  assert (∀ o4, o_world o4 = o_world o3 → durable o3 → durable o4) as Hsame.
  { intros o4 Hw. unfold durable, otabs, ofiles. by rewrite Hw. }
  assert (durable o3 → ∀ pr, honest (sm_bind (modify (wake_archiver c)) (λ _, succeed_task a t pr) o3).2) as Hfin.
  { intros Hd3 pr. unfold sm_bind. cbn [modify]. apply succeed_honest. eapply Hsame; [|done].
    unfold wake_archiver. by destruct (worker c). }
  destruct x as [[]|[]]; try (apply Hfin; auto); apply fresh_honest; exact F3.
Qed.

Lemma honest_publish g n sha res :
  n = tg_size g →
  triple (λ o, fresh o ∧ has_proof sha256Hex (part_path c g) n sha (ofiles o))
    (publish sha256Hex c a t g n sha res) (λ keep o, keep = true ∧ honest o).
Proof.
  intros -> o [Hf Hp]. unfold publish.
  step_bind as [u1 o1] H1. assert (fresh o1 ∧ ofiles o1 = ofiles o) as [F1 E1].
  { injection H1 as _ <-. split; [|done]. revert Hf. apply fresh_reg. by apply no_success_task_update. }
  rewrite <- E1 in Hp.
  step_bind as [u2 o2] H2. destruct (act_proof _ _ _ _ _ _ _ (own_part g) H2 F1 Hp) as [F2 P2].
  step_bind as [u3 o3] H3. destruct (act_proof _ _ _ _ _ _ _ (own_part g) H3 F2 P2) as [F3 P3].
  step_bind as [e o4] H4. apply o_fs_run in H4 as (C4 & T4 & F4). specialize (F4 F3).
  step_bind as [d o5] H5. apply o_fs_run in H5 as (C5 & T5 & F5). specialize (F5 F4).
  destruct d as [finalSHA|disp e'|disp e'].
  - assert (has_proof sha256Hex (final_path c g) (tg_size g) finalSHA (ofiles o5)) as Pf.
    { eapply commit_success; [|exact P3|exact C4|exact C5]. apply not_eq_sym, part_ne_final. }
    pose proof (honest_complete g (tg_size g) sha finalSHA res o5 F5 Pf) as K.
    step_bind as [u6 o6] H6. split; [done|exact K].
  - step_bind as [r o6] H6. apply o_db_run in H6 as (_ & _ & F6). specialize (F6 F5).
    step_bind as [u7 o7] H7. split; [done|]. simpl. apply fresh_honest.
    destruct r; [exact (along_run _ _ _ _ _ (fresh_fail _) H7 F6)|by injection H7 as _ <-].
  - step_bind as [r o6] H6. apply o_db_run in H6 as (_ & _ & F6). specialize (F6 F5).
    step_bind as [u7 o7] H7. split; [done|]. simpl. apply fresh_honest.
    destruct r; [exact (along_run _ _ _ _ _ (fresh_fail _) H7 F6)|by injection H7 as _ <-].
Qed.

Lemma honest_commit g sha res :
  triple (λ o, fresh o ∧ has_proof sha256Hex (part_path c g) (tg_size g) sha (ofiles o))
    (commit_download sha256Hex c a t g (tg_size g) sha res) (λ keep o, if keep : bool then honest o else fresh o).
Proof.
  intros o [Hf Hp]. unfold commit_download.
  step_bind as [u1 o1] H1. destruct (act_proof _ _ _ _ _ _ _ (own_part g) H1 Hf Hp) as [F1 P1].
  step_bind as [ended o2] H2. injection H2 as _ <-.
  destruct (ended || _)%bool.
  { match goal with |- (if (?m o1).1 then _ else _) => assert (along stays_fresh m) as K by go_fresh;
      assert ((m o1).1 = false) as -> end; [|by apply K].
    unfold sm_bind. repeat (case_match; simplify_eq/=; try done). }
  step_bind as [u3 o3] H3.
  assert (fresh o3 ∧ has_proof sha256Hex (part_path c g) (tg_size g) sha (ofiles o3)) as [F3 P3]
    by (injection H3 as _ <-; done).
  step_bind as [p o4] H4. apply o_db_run in H4 as (_ & E4 & F4). specialize (F4 F3). rewrite <- E4 in P3.
  step_bind as [keep o5] H5. step_bind as [u6 o6] H6.
  assert (o_world o6 = o_world o5) as Hw by (by injection H6 as _ <-).
  assert (if keep then honest o5 else fresh o5) as K5.
  { destruct p as [u|e].
    - revert H5. step_bind as [u7 o7] H7. destruct (act_proof _ _ _ _ _ _ _ (own_part g) H7 F4 P3) as [F7 P7].
      intros H8. pose proof (honest_publish g (tg_size g) sha res eq_refl o7 (conj F7 P7)) as [K1 K2].
      rewrite H8 in K1, K2. simpl in K1, K2. by rewrite K1.
    - match type of H5 with ?m _ = _ => assert (along stays_fresh m) as K by go_fresh end.
      specialize (K o4 F4). rewrite H5 in K. simpl in K. destruct keep; [by apply fresh_honest|done]. }
  simpl. destruct keep; revert K5; unfold honest, fresh, succeeded, durable, otabs, ofiles; by rewrite Hw.
Qed.

Lemma honest_verify g w :
  triple fresh (verify_part sha256Hex c a t g w)
    (λ v o, fresh o ∧ match v with
                      | Some (n, sha) => n = tg_size g ∧ has_proof sha256Hex (part_path c g) n sha (ofiles o)
                      | None => True
                      end).
Proof.
  assert (∀ disp o, fresh o → fresh (discard_part c a t g disp o).2 ∧
    match (discard_part c a t g disp o).1 with
    | Some (n, sha) => n = tg_size g ∧
        has_proof sha256Hex (part_path c g) n sha (ofiles (discard_part c a t g disp o).2)
    | None => True
    end) as Hstop.
  { intros disp o Hf. assert (along stays_fresh (discard_part c a t g disp)) as K
      by (unfold discard_part; along_auto ltac:(first [apply fresh_fail_both|fresh_base])).
    split; [by apply K|]. unfold discard_part, sm_bind. by repeat (case_match; simplify_eq/=). }
  intros o Hf. unfold verify_part.
  step_bind as [st o1] H1. apply o_stat in H1 as (E1 & T1 & F1 & Hn). specialize (F1 Hf).
  destruct st as [n|e]; [|by apply Hstop].
  destruct (node_size n =? tg_size g) eqn:Hsz; cbn [negb orb]; go_bool; [|by apply Hstop].
  destruct (negb _); [by apply Hstop|].
  step_bind as [sy o2] H2. apply o_fs_run in H2 as (S2 & T2 & F2). specialize (F2 F1).
  apply sys_reads in S2. destruct sy as [u|e]; [|by apply Hstop].
  destruct (a_close a); [by apply Hstop|].
  step_bind as [h o3] H3. apply o_read_sha in H3 as (E3 & T3 & F3 & Hh). specialize (F3 F2).
  destruct h as [sha|e]; [|by apply Hstop]. simpl. split_and!; [done|done|].
  assert (ofiles o2 = ofiles o) as E2 by (unfold ofiles, w_files in *; congruence).
  destruct Hh as (data & Hd & ->). rewrite E3, E2 in *. rewrite <- Hsz. by apply stat_digest_proof.
Qed.

Lemma honest_open g :
  triple fresh (with_open_part sha256Hex tgerr_Is c a t g) (λ keep o, if keep : bool then honest o else fresh o).
Proof.
  intros o Hf. unfold with_open_part.
  step_bind as [x o1] H1. pose proof (along_run _ _ _ _ _ (fresh_run g) H1 Hf) as F1.
  destruct x as [[res [e|]]|]; [|..|done].
  - step_bind as [u o2] H2. exact (along_run _ _ _ _ _ (fresh_failed g _ e) H2 F1).
  - step_bind as [v o2] H2. pose proof (honest_verify g (d_Written res) o1 F1) as [F2 P2].
    rewrite H2 in F2, P2. simpl in F2, P2. destruct v as [[n sha]|]; [|done].
    destruct P2 as [-> P2]. by apply honest_commit.
Qed.

Lemma honest_transfer g : triple fresh (transfer_and_commit sha256Hex tgerr_Is c a t g) (λ _, honest).
Proof.
  intros o Hf. unfold transfer_and_commit.
  step_bind as [mk o1] H1. apply o_fs_run in H1 as (_ & _ & F1). specialize (F1 Hf).
  destruct mk as [u|e]; [|apply stop_fresh; [apply fresh_fail_both|done]].
  step_bind as [ended o2] H2. injection H2 as _ <-.
  destruct (ended || _)%bool; [by apply fresh_honest|].
  step_bind as [op o3] H3. apply o_fs_run in H3 as (_ & _ & F3). specialize (F3 F1).
  destruct op as [u'|e]; [|apply stop_fresh; [apply fresh_fail_both|done]].
  step_bind as [keep o4] H4. pose proof (honest_open g o3 F3) as K. rewrite H4 in K. simpl in K.
  destruct keep; [done|]. apply stop_fresh; [go_fresh|done].
Qed.

Lemma honest_reserve g : triple fresh (reserve_and_run sha256Hex tgerr_Is c a t g) (λ _, honest).
Proof.
  intros o Hf. unfold reserve_and_run. step_bind as [ad o1] H1. injection H1 as _ <-.
  destruct (Reserve _ _ _ _) as [r ad'].
  step_bind as [u1 o2] H2. assert (fresh o2) as F2 by (by injection H2 as _ <-).
  destruct r as [u|e]; [|apply stop_fresh; [apply fresh_reg, no_success_requeue|done]].
  step_bind as [ok o3] H3. pose proof (honest_begin true g o2 F2) as K3. rewrite H3 in K3. simpl in K3.
  step_bind as [u4 o4] H4. cbn [modify snd]. change (honest o4).
  destruct ok; [|by injection H4 as _ <-].
  revert H4. step_bind as [u5 o5] H5.
  assert (along stays_fresh (o_reg (SetDownloading (at_task t)))) as Kd by fresh_base.
  pose proof (along_run _ _ _ _ _ Kd H5 K3) as F5.
  intros H6. pose proof (honest_transfer g o5 F5) as K. by rewrite H6 in K.
Qed.

Lemma honest_admit : triple fresh (admit_and_run sha256Hex tgerr_Is Filenamify c a t) (λ _, honest).
Proof.
  intros o Hf. unfold admit_and_run. generalize (resolve_loop 3 (a_answers a) DCanceled). intros ans.
  step_bind as [ok o1] H1. pose proof (honest_begin false
    (Target (FileName (at_req t)) (FinalPath (at_req t)) (MediaType (at_req t)) (ExpectedSize (at_req t))) o Hf) as K1. rewrite H1 in K1. simpl in K1.
  destruct ok; cbn [negb]; [|done].
  step_bind as [u2 o2] H2. pose proof (along_run _ _ _ _ _ (fresh_act _) H2 K1) as F2.
  destruct ans as [m|e]; [|apply stop_fresh; [apply fresh_fail_both|done]].
  destruct (_ || _)%bool; [apply stop_fresh; [apply fresh_fail_both|done]|].
  step_bind as [u3 o3] H3.
  assert (along stays_fresh (o_reg (SetResolved (at_task t) (rm_Name m) (rm_Size m) (rm_DCID m)))) as Kd
    by fresh_base.
  pose proof (along_run _ _ _ _ _ Kd H3 F2) as F3.
  step_bind as [g o4] H4. pose proof (along_run _ _ _ _ _ (fresh_plan m) H4 F3) as F4.
  step_bind as [go o5] H5. pose proof (honest_existing g o4 F4) as K5. rewrite H5 in K5. simpl in K5.
  destruct go; [by apply honest_reserve|done].
Qed.

End Success.

(** C1. Success is never reported early: whatever system calls, SQL statements and network
    calls fail, if a run ends with its task marked successful, then the store holds the
    message as a success and the file recorded there is under the download directory with the
    recorded size and digest, provided the goroutines beside it neither mark the task nor
    touch files under that directory. *)
Theorem download_success_is_durable (sha256Hex : string → string) (tgerr_Is : goerr → list string → bool)
    (Filenamify : string → string) (c : config) (a : ambient) (h : Task) (o : ost) (r : Registry)
    (cell : taskState) (gen : string) :
  w_reg (o_world o) = Some r → heap r !! h_ptr h = Some cell → AttemptGen h r = gen →
  let t := Attempt h (t_request cell) gen in
  (∀ p o, stays_fresh t o (a_act a p o)) → (∀ p o q, own_path c q → keeps q o (a_act a p o)) →
  isTerminal (t_state cell) = false → flying t o = false →
  let o' := (downloadOne sha256Hex tgerr_Is Filenamify c a h o).2 in
  succeeded t o' → durable sha256Hex c t o'.
Proof.
  intros Hr Hc <- t Hact Hfiles Hcell Hf o'. subst o'. rewrite (downloadOne_run _ _ _ _ _ _ _ _ _ Hr Hc Hf).
  fold t. set (o1 := with_inFlight_ (_ ∪ _) o). set (o2 := (admit_and_run _ _ _ _ _ _ _).2).
  assert (fresh t o1) as Hfresh.
  { intros (r' & Hr' & cell' & Hc' & Hs). simpl in Hr'. rewrite Hr in Hr'. simplify_eq.
    simpl in Hc'. rewrite Hc in Hc'. simplify_eq. by rewrite Hs in Hcell. }
  exact (honest_admit sha256Hex tgerr_Is Filenamify c a t Hact Hfiles o1 Hfresh).
Qed.

(** ** A run that succeeds *)

(** The run ends with the file at its planned path, the record a success with its digest, and
    an archive job. *)
Example toy_run :
  ofiles toy_end !! "/ssd/News/2023_11/7 - x" = Some (FileNode "data") ∧
  (status <$> records (otabs toy_end) !! ("chat", 7)) = Some "success" ∧
  is_Some (jobs (otabs toy_end) !! ("chat", 7)) ∧ o_archiver toy_end = true.
Proof. vm_compute. repeat split; try reflexivity. by eexists. Qed.

Lemma download_success_is_durable_witness :
  succeeded toy_attempt toy_end ∧ durable toy_sha toy_config toy_attempt toy_end.
Proof.
  assert (succeeded toy_attempt toy_end) as Hs
    by (unfold succeeded; eexists; split; [vm_compute; reflexivity|]; eexists; split; vm_compute; reflexivity).
  split; [exact Hs|].
  refine (download_success_is_durable toy_sha (λ _ _, false) toy_filenamify toy_config toy_ambient toy_task toy_start
           (Next 2000 toy_registry).2 toy_cell (h_gen toy_task) _ _ _ _ _ _ _ Hs);
    first [by intros ? ? ?|vm_compute; reflexivity].
Defined.
