(* ===== verification/OrchestratorSteps.v ===== *)
(** * The orchestrator's loops and commands

    The finalizer leaves the records of active publishers alone; resolving a conflict moves
    the database and the registry together or not at all; the dispatcher keeps the number of
    running downloads within the file concurrency. Concrete runs show where the pipeline
    falls short of what its comments say. *)
From S2P Require Import Ranges Gate Transfer.
From S2P Require Import Prelude Paths Fscommit Sql ArchiveJobs Downloads Lifecycle Protocol.
From S2P Require Import Registry RegistryProps World Archive Recovery RecoveryProps Planner Orchestrator.
From S2P Require Import OrchestratorProps.

(** ** Other rows *)

(** Only the rows of [k] may differ. *)
Definition only_key (k : key) (d d' : db) : Prop :=
  ∀ k', k' ≠ k → records d' !! k' = records d !! k' ∧ jobs d' !! k' = jobs d !! k'.

#[export] Instance only_key_refl k : Reflexive (only_key k).
Proof. by intros d k' _. Qed.
#[export] Instance only_key_trans k : Transitive (only_key k).
Proof. intros d1 d2 d3 H1 H2 k' Hk. destruct (H1 k' Hk), (H2 k' Hk). split; congruence. Qed.

Section OnlyKey.
Context (k : key).

Lemma only_key_stmt {A} (f : db → A * db) : (∀ d, only_key k d (f d).2) → effect (only_key k) (stmt f).
Proof.
  intros Hf s. unfold stmt. destruct (hd false (faults s)); simpl; [done|].
  specialize (Hf (tabs s)). by destruct (f (tabs s)).
Qed.
Lemma only_key_quiet {A} (m : DB A) : quiet m → effect (only_key k) m.
Proof. intros Hm s. by rewrite Hm. Qed.
Lemma only_key_record d r : only_key k d (set_records (<[k := r]> (records d)) d).
Proof. intros k' Hk. simpl. by rewrite lookup_insert_ne. Qed.
Lemma only_key_job d r : only_key k d (set_jobs (<[k := r]> (jobs d)) d).
Proof. intros k' Hk. simpl. by rewrite lookup_insert_ne. Qed.

Lemma only_key_update_record p f : effect (only_key k) (update_record k p f).
Proof.
  apply only_key_stmt. intros d. destruct (records d !! k); [|done].
  destruct (p _); [apply only_key_record|done].
Qed.
Lemma only_key_update_job p f : effect (only_key k) (update_job k p f).
Proof.
  apply only_key_stmt. intros d. destruct (jobs d !! k); [|done].
  destruct (p _); [apply only_key_job|done].
Qed.
Lemma only_key_insert_record r : effect (only_key k) (insert_record k r).
Proof. apply only_key_stmt. intros d. apply only_key_record. Qed.
Lemma only_key_insert_job r : effect (only_key k) (insert_job k r).
Proof. apply only_key_stmt. intros d. apply only_key_job. Qed.
Lemma only_key_upsert f : effect (only_key k) (upsert_record k f).
Proof. apply only_key_stmt. intros d. apply only_key_record. Qed.
Lemma only_key_try {A B} (m : DB A) (K : res dberr A → DB B) :
  effect (only_key k) m → (∀ x, effect (only_key k) (K x)) → effect (only_key k) (st_try m K).
Proof.
  intros Hm HK s. unfold st_try. specialize (Hm s). destruct (m s) as [x s']. etransitivity; [exact Hm|apply HK].
Qed.
Lemma only_key_bind {A B} (m : DB A) (K : A → DB B) :
  effect (only_key k) m → (∀ x, effect (only_key k) (K x)) → effect (only_key k) (st_bind m K).
Proof. apply effect_bind_trans. intros ? ? ?. apply transitivity. Qed.
End OnlyKey.

Ltac only_key :=
  repeat lazymatch goal with
  | |- effect _ (st_bind _ _) => apply only_key_bind; [|intros ?]
  | |- effect _ (st_try _ _) => apply only_key_try; [|intros ?]
  | |- effect _ (with_tx _) => apply effect_with_tx; [intros ?; reflexivity|]
  | |- effect _ (update_record _ _ _) => apply only_key_update_record
  | |- effect _ (update_job _ _ _) => apply only_key_update_job
  | |- effect _ (insert_record _ _) => apply only_key_insert_record
  | |- effect _ (insert_job _ _) => apply only_key_insert_job
  | |- effect _ (upsert_record _ _) => apply only_key_upsert
  | |- effect _ (match ?x with _ => _ end) => destruct x
  | |- effect _ _ => apply only_key_quiet; quiet
  end.

Lemma CompleteDownload_only k g p n sha q now :
  effect (only_key k) (CompleteDownloadAndQueueArchive k g p n sha q now).
Proof. unfold CompleteDownloadAndQueueArchive, queue_and_commit, ensureArchiveJobLocked. only_key. Qed.
Lemma RecordTargetConflict_only k g fn sp mt n disp now :
  effect (only_key k) (RecordTargetConflict k g fn sp mt n disp now).
Proof. unfold RecordTargetConflict. only_key. Qed.
Lemma UpdateDownloadStatus_only k st fn sp mt n e now :
  effect (only_key k) (UpdateDownloadStatus k st fn sp mt n e now).
Proof. unfold UpdateDownloadStatus. only_key. Qed.

(** ** The finalizer *)

(** The same for computations over the world. *)
Definition world_only {A} (k : key) (m : W A) : Prop := ∀ w, only_key k (w_tabs w) (w_tabs (m w).2).

Section WorldOnly.
Context (k : key).

Lemma world_only_bind {A B} (m : W A) (K : A → W B) :
  world_only k m → (∀ x, world_only k (K x)) → world_only k (sm_bind m K).
Proof.
  intros Hm HK w. unfold sm_bind. specialize (Hm w). destruct (m w) as [x w']. etransitivity; [exact Hm|apply HK].
Qed.
Lemma world_only_ret {A} (x : A) : world_only k (sm_ret x).
Proof. intros w. reflexivity. Qed.
Lemma world_only_fs {A} (m : FS A) : world_only k (on_fs m).
Proof. intros w. unfold on_fs. by destruct (m (w_fs w)). Qed.
Lemma world_only_reg f : world_only k (on_reg f).
Proof. intros w. reflexivity. Qed.
Lemma world_only_db {A} (m : DB A) : effect (only_key k) m → world_only k (on_db m).
Proof. intros Hm w. unfold on_db. specialize (Hm (w_sql w)). by destruct (m (w_sql w)). Qed.
End WorldOnly.

Ltac world_only :=
  repeat lazymatch goal with
  | |- world_only _ (sm_bind _ _) => apply world_only_bind; [|intros ?]
  | |- world_only _ (sm_ret _) => apply world_only_ret
  | |- world_only _ (on_fs _) => apply world_only_fs
  | |- world_only _ (on_reg _) => apply world_only_reg
  | |- world_only _ (on_db _) => apply world_only_db;
      first [apply CompleteDownload_only|apply RecordTargetConflict_only|apply UpdateDownloadStatus_only]
  | |- world_only _ (match ?x with _ => _ end) => destruct x
  end.

Lemma reconcile_only sha256Hex env ssd q rec :
  world_only (rec_key rec) (ReconcileCommittingRecord sha256Hex env ssd q rec).
Proof.
  unfold ReconcileCommittingRecord, commit_or_reset, commit_part, reset_record, complete_record,
    conflict_record, finish_in_registry. world_only.
Qed.

(** The rows of [k] and the publishers' marks stay. *)
Definition rows_kept (k : key) (o o' : ost) : Prop :=
  records (otabs o') !! k = records (otabs o) !! k ∧ jobs (otabs o') !! k = jobs (otabs o) !! k ∧
  o_publishers o' = o_publishers o.

#[local] Instance rows_kept_trans k : Transitive (rows_kept k).
Proof. unfold rows_kept. intros o1 o2 o3. intuition congruence. Qed.

Lemma reconcile_all_skips sha256Hex c env k recs alive o :
  is_Some (o_publishers o !! CanonicalTaskID k.1 k.2) →
  rows_kept k o (reconcile_all sha256Hex c env alive recs o).2.
Proof.
  revert alive o. induction recs as [|rec recs IH]; intros [|alive] o Hmark; [done..|].
  simpl. unfold sm_bind at 1. cbn [ask].
  destruct (o_publishers o !! CanonicalTaskID (r_ChatID rec) _) as [g|] eqn:Hg; [by apply IH|].
  assert (k ≠ rec_key rec) as Hne by (intros ->; simpl in Hmark; rewrite Hg in Hmark; by destruct Hmark).
  pose proof (reconcile_only sha256Hex env (saveDir c) (IsArchiveEnabled c) rec (o_world o)) as Hk.
  unfold sm_bind, in_world. destruct (ReconcileCommittingRecord _ _ _ _ _ _) as [y w].
  destruct (Hk k Hne) as [Hr Hj]. transitivity (with_world w o); [done|by apply IH].
Qed.

(** C5. The finalizer leaves active publishers alone: while a worker holds the mark of a
    message, a pass of the online finalizer changes neither its record nor its archive job,
    whatever fails and wherever the pass is interrupted, and releases no mark. *)
Theorem finalizer_skips_active_publishers (sha256Hex : string → string) (c : config) (env : surroundings)
    (alive : nat) (k : key) (o : ost) :
  is_Some (o_publishers o !! CanonicalTaskID k.1 k.2) →
  rows_kept k o (ReconcileCommitting sha256Hex c env alive o).2.
Proof.
  intros Hmark. unfold ReconcileCommitting. step_bind as [x o1] H1.
  assert (otabs o1 = otabs o ∧ o_publishers o1 = o_publishers o) as [Ht Hp].
  { revert H1. unfold o_db, in_world, on_db. pose proof (quiet_query (records_with_status "committing")
      (w_sql (o_world o))) as Hq. unfold GetPendingCommittingDownloads.
    destruct (query _ _) as [y s]. by intros [= <- <-]. }
  transitivity o1; [unfold rows_kept; by rewrite Ht, Hp|]. destruct x as [recs|e]; [|done].
  rewrite <- Hp in Hmark. pose proof (reconcile_all_skips sha256Hex c env k recs alive o1 Hmark) as Hk.
  unfold sm_bind. by destruct (reconcile_all _ _ _ _ _ _).
Qed.

Lemma finalizer_skips_active_publishers_witness :
  let o := with_publishers {[ "chat:7" := "1" ]} (with_world (World.World (Fs toy_disk []) (Sql toy_tabs []) None) toy_start) in
  is_Some (o_publishers o !! "chat:7") ∧
  rows_kept ("chat", 7) o (ReconcileCommitting toy_sha (Config "/ssd" None) quiet_env 5 o).2.
Proof.
  split; [by eexists|].
  apply (finalizer_skips_active_publishers toy_sha (Config "/ssd" None) quiet_env 5 ("chat", 7)). by eexists.
Defined.

(** ** Resolving a conflict *)

(** The row after the conflict is resolved for the attempt [g]. *)
Definition resolved_row (g : string) (now : Z) (r : download_row) : download_row :=
  set_updated_at now (set_next_retry_at 0 (set_error (Some "") (set_generation g (set_attempts 0
    (set_status "pending" r))))).

Lemma ResolveTargetConflict_spec k g nano now s x s' :
  g = None ∨ g = Some ("retry_" +:+ itoa nano) →
  ResolveTargetConflict k g nano now s = (x, s') →
  match x with
  | Ok _ => ∃ r, records (tabs s) !! k = Some r ∧ status r = "conflict" ∧
              tabs s' = set_records (<[k := resolved_row ("retry_" +:+ itoa nano) now r]> (records (tabs s))) (tabs s)
  | Err _ => tabs s' = tabs s
  end.
Proof.
  intros Hg. unfold ResolveTargetConflict. set (newGen := match g with Some _ => _ | None => _ end).
  assert (newGen = "retry_" +:+ itoa nano) as -> by (by destruct Hg as [->| ->]).
  unfold st_bind, update_record, stmt. destruct (hd false (faults s)); simpl.
  { by intros [= <- <-]. }
  destruct (records (tabs s) !! k) as [r|]; simpl; [|by intros [= <- <-]].
  case_bool_decide as Hst; simpl; intros [= <- <-]; [|done]. by exists r.
Qed.

(** The registry holds a fresh attempt [g] of [id], at the end of the queue. *)
Definition queued_attempt (id g : string) (r r' : Registry) : Prop :=
  ∃ p t, queue r' = queue r ++ [p] ∧ tasks r' !! id = Some p ∧ heap r' !! p = Some t ∧
    t_state t = StateQueued ∧ attemptGen t = g ∧ Z.of_nat (length (queue r')) <= queueCapacity r'.

Lemma snapshot_queue p now r :
  queue (snapshotTaskLocked p now r).2 = queue r ∧ tasks (snapshotTaskLocked p now r).2 = tasks r ∧
  queueCapacity (snapshotTaskLocked p now r).2 = queueCapacity r ∧
  ∀ t, heap r !! p = Some t →
    ∃ t', heap (snapshotTaskLocked p now r).2 !! p = Some t' ∧ t_state t' = t_state t ∧ attemptGen t' = attemptGen t.
Proof.
  unfold snapshotTaskLocked. destruct (heap r !! p) as [t|] eqn:Hp; simpl; [|done].
  split_and!; [done..|]. intros t' [= <-]. unfold update_cell. simpl. rewrite lookup_alter_eq, Hp. by eexists.
Qed.

Lemma RetryTaskWithDecider_spec {D E} id q (dec : string → D → res E unit * D) now r d x r' d' :
  RetryTaskWithDecider id q dec now r d = (x, r', d') →
  match x with
  | Err (inl _) => r' = r ∧ d' = d
  | Err (inr e) => r' = r ∧ dec ("retry_" +:+ itoa now) d = (Err e, d')
  | Ok _ => (∃ u, dec ("retry_" +:+ itoa now) d = (Ok u, d')) ∧ queued_attempt id ("retry_" +:+ itoa now) r r'
  end.
Proof.
  unfold RetryTaskWithDecider. destruct (_ <=? _) eqn:Hcap; go_bool; [by intros [= <- <- <-]|].
  set (ex := match tasks r !! id with Some p => heap r !! p | None => None end).
  destruct (match ex with Some t => negb (isTerminal (t_state t)) | None => false end); [by intros [= <- <- <-]|].
  assert (∀ r0 q size count x' r1,
    queue r0 = queue r → queueCapacity r0 = queueCapacity r →
    (let (p, r) := enqueue_new id (new_task q size now ("retry_" +:+ itoa now) count) r0 in
     snapshotTaskLocked p now r) = (x', r1) → queued_attempt id ("retry_" +:+ itoa now) r r1) as Hnew.
  { intros r0 q0 size count x' r1 Hq Hc Hs. unfold enqueue_new in Hs.
    match type of Hs with snapshotTaskLocked ?p now ?r2 = _ => destruct (snapshot_queue p now r2) as (H1 & H2 & H3 & H4) end.
    rewrite Hs in H1, H2, H3, H4. simpl in H1, H2, H3, H4. rewrite lookup_insert_eq in H4.
    destruct (H4 _ eq_refl) as (t & Ht & Hst & Hg). exists (brk r0), t. rewrite H1, H2, H3, Hq, Hc, lookup_insert_eq.
    split_and!; [done..|]. rewrite length_app. simpl. lia. }
  destruct ex as [t|]; [|destruct q as [q|]; [|by intros [= <- <- <-]]];
    destruct (dec _ d) as [[u|e] d1]; try (by intros [= <- <- <-]);
    match goal with |- context [enqueue_new id ?t ?r0] => destruct (enqueue_new id t r0) as [p r2] eqn:He end;
    destruct (snapshotTaskLocked p now r2) as [sn r3] eqn:Hs; intros [= <- <- <-]; (split; [by exists u|]);
    (eapply Hnew; [| |rewrite He; exact Hs]); done.
Qed.

(** C4. Resolving a conflict is atomic over both stores: when it fails, for whatever reason,
    the conflict is still recorded and the registry is as it was; when it succeeds, the row
    was in conflict and is pending with no attempts, for the generation of the attempt that
    now waits at the end of the queue; no other row and no file changes. *)
Theorem resolve_conflict_atomic (k : key) (nano : Z) (o : ost) :
  let '(x, o') := resolve_conflict k nano o in
  let g := "retry_" +:+ itoa nano in
  ofiles o' = ofiles o ∧
  match x with
  | Err _ => otabs o' = otabs o ∧ w_reg (o_world o') = w_reg (o_world o)
  | Ok _ =>
      (∃ row, records (otabs o) !! k = Some row ∧ status row = "conflict" ∧
         otabs o' = set_records (<[k := resolved_row g (nano / ns_per_s) row]> (records (otabs o))) (otabs o)) ∧
      match w_reg (o_world o), w_reg (o_world o') with
      | Some r, Some r' => queued_attempt (CanonicalTaskID k.1 k.2) g r r'
      | None, None => True
      | _, _ => False
      end
  end.
Proof.
  unfold resolve_conflict, sm_bind at 1.
  destruct (o_db (GetDownloadRecord k) o) as [rec o1] eqn:H1.
  assert (otabs o1 = otabs o ∧ ofiles o1 = ofiles o ∧ w_reg (o_world o1) = w_reg (o_world o)) as (<- & <- & <-).
  { assert (quiet (GetDownloadRecord k)) as Hq by (unfold GetDownloadRecord; quiet).
    revert H1. unfold o_db, in_world, on_db. specialize (Hq (w_sql (o_world o))).
    destruct (GetDownloadRecord k _) as [y s]. by intros [= <- <-]. }
  destruct rec as [[rec|]|e]; [|done..]. case_decide; [done|]. clear H1 o. rename o1 into o.
  destruct (w_reg (o_world o)) as [r|] eqn:Hr.
  - destruct (RetryTaskWithDecider _ _ _ _ _ _) as [[x r'] s] eqn:Hx.
    apply RetryTaskWithDecider_spec in Hx. destruct x as [sn|[e|e]].
    + destruct Hx as ([u Hd] & Hq). apply ResolveTargetConflict_spec in Hd; [|by right]. done.
    + by destruct Hx as [-> ->].
    + destruct Hx as [-> Hd]. by apply ResolveTargetConflict_spec in Hd; [|right].
  - destruct (ResolveTargetConflict _ _ _ _ _) as [x s] eqn:Hd.
    apply ResolveTargetConflict_spec in Hd; [|by left]. by destruct x.
Qed.

(** ** Rounds of the daemon *)

(** The same surroundings at another time, with another name for the media, with a transfer
    that breaks off, or without space. *)
Definition at_second (n : Z) (a : ambient) : ambient :=
  Ambient (n * ns_per_s) (a_answers a) (a_space a) (a_parallel a) (a_data a) (a_stop_open a) (a_stop_transfer a)
    (a_stop_commit a) (a_close a) (a_act a).
Definition with_answer (m : ResolvedMedia) (a : ambient) : ambient :=
  Ambient (a_nano a) [Ok m] (a_space a) (a_parallel a) (a_data a) (a_stop_open a) (a_stop_transfer a)
    (a_stop_commit a) (a_close a) (a_act a).
Definition broken_off (a : ambient) : ambient :=
  Ambient (a_nano a) (a_answers a) (a_space a) (Parallel_ [] [] 0 (Some (OtherErr "timeout")) None) (a_data a)
    (a_stop_open a) (a_stop_transfer a) (a_stop_commit a) (a_close a) (a_act a).
Definition without_space (a : ambient) : ambient :=
  Ambient (a_nano a) (a_answers a) (Some (0, 2000000)) (a_parallel a) (a_data a) (a_stop_open a) (a_stop_transfer a)
    (a_stop_commit a) (a_close a) (a_act a).

(** A tick of the scan, a turn of the dispatcher, and the download it starts, if any. *)
Definition round (n : Z) (a : ambient) : M bool :=
  do! _ := scan_tick (n * ns_per_s) in
  do! h := dispatch_turn (n * ns_per_s) in
  match h with
  | None => done! false
  | Some h =>
      do! _ := downloadOne toy_sha (λ _ _, false) toy_filenamify toy_config (at_second n a) h in
      do! _ := modify slot_freed in
      done! true
  end.

(** One pending record of an enabled target, and nothing on disk. *)
Definition day_db : db :=
  set_targets {[ "chat" := TRow 1 "News" "" "" "" "" 0 0 0 0 ]}
    (set_records {[ ("chat", 7) := DRow "pending" (Some "x") None (Some "photo") (Some 4) None None 100 100 None None
                                     0 0 "" ]} empty_db).
Definition day (faults : list (option errno)) : ost :=
  OSt (World.World (Fs {[ "/" := DirNode; "/ssd" := DirNode ]} faults) (Sql day_db []) (Some (NewRegistry 8 8)))
    (NewSSDAdmission "/ssd" 1) (NewTransferManager 0 0) true 0 ∅ ∅ false false.
Definition dawn : Z := 1700000000.
Definition row_of (o : ost) : option download_row := records (otabs o) !! ("chat", 7).

(** A failed transfer is retried by a later scan, and succeeds. *)
Example failed_transfer_is_retried :
  let o := (do! _ := round dawn (broken_off toy_ambient) in round (dawn + 3600) toy_ambient) (day []) in
  o.1 = true ∧ (status <$> row_of o.2) = Some "success" ∧
  ofiles o.2 !! "/ssd/News/2023_11/7 - x" = Some (FileNode "data").
Proof. vm_compute. repeat split. Qed.

(** When the message resolves to another name than the one ingested, the failed record is
    never retried: the scan submits the name recorded with the failure, and the registry
    takes it for another request under the same task identifier. *)
Example renamed_record_is_not_retried :
  let o := (do! _ := round dawn (broken_off (with_answer (Media true "y" 4 2 0 "photo") toy_ambient)) in
            do! x := round (dawn + 3600) toy_ambient in
            do! y := round (dawn + 86400) toy_ambient in
            done! (x || y)) (day []) in
  o.1 = false ∧ (status <$> row_of o.2) = Some "failed" ∧
  match GetPendingDownloads 50 (dawn + 86400) (w_sql (o_world o.2)) with
  | (Ok [rec], _) => (SubmitRecord rec ((dawn + 86400) * ns_per_s) o.2).1 = Err (Rejected ErrIDConflict)
  | _ => False
  end.
Proof. vm_compute. repeat split. Qed.

(** When syncing the directory fails after the rename, the attempt fails although its file is
    complete at the final path; the retry finds that file and records a conflict, which
    resolving by hand only brings back. *)
Example sync_error_ends_in_conflict :
  let o := (do! _ := round dawn toy_ambient in
            do! _ := round (dawn + 3600) toy_ambient in
            do! x := resolve_conflict ("chat", 7) ((dawn + 7200) * ns_per_s) in
            do! y := round (dawn + 7200) toy_ambient in
            done! (is_ok x && y)) (day (replicate 10 None ++ [Some EIO])) in
  o.1 = true ∧ (status <$> row_of o.2) = Some "conflict" ∧
  ofiles o.2 !! "/ssd/News/2023_11/7 - x" = Some (FileNode "data").
Proof. vm_compute. repeat split. Qed.

(** A task is put back for want of space while its worker still holds the in-flight mark:
    a worker that takes it in between drops it. The task stays in resolving, out of the
    queue, and its record in downloading, out of the scan. *)
Example requeued_task_is_lost :
  let start := (do! _ := scan_tick (dawn * ns_per_s) in dispatch_turn (dawn * ns_per_s)) (day []) in
  match start with
  | (Some h, o) =>
      let first := admit_and_run toy_sha (λ _ _, false) toy_filenamify toy_config
                     (without_space (at_second dawn toy_ambient))
                     (Attempt h (default toy_request (r ← w_reg (o_world o); t_request <$> heap r !! h_ptr h)) "1")
                     (with_inFlight_ {[ "chat:7" ]} o) in
      let second := (do! h := dispatch_turn (dawn * ns_per_s) in
                     match h with
                     | Some h => downloadOne toy_sha (λ _ _, false) toy_filenamify toy_config toy_ambient h
                     | None => done! tt
                     end) first.2 in
      let after := (do! x := round (dawn + 3600) toy_ambient in
                    do! y := round (dawn + 86400) toy_ambient in
                    done! (x || y)) (with_inFlight_ ∅ second.2) in
      after.1 = false ∧ (status <$> row_of after.2) = Some "downloading" ∧
      (r ← w_reg (o_world after.2); t_state <$> heap r !! h_ptr h) = Some StateResolving
  | _ => False
  end.
Proof. vm_compute. repeat split. Qed.

(** Disabling a target does not stop a queued retry: its record is failed, under the
    generation of the attempt before, so the database refuses and the task stays queued. *)
Example queued_retry_survives_cancellation :
  let o := (do! _ := round dawn (broken_off toy_ambient) in
            do! _ := scan_tick ((dawn + 3600) * ns_per_s) in
            CancelTasksByChatID "chat" ["chat:7"] ((dawn + 3600) * ns_per_s)) (day []) in
  (status <$> row_of o.2) = Some "failed" ∧
  (length ∘ queue <$> w_reg (o_world o.2)) = Some 1%nat ∧
  is_Some (dispatch_turn ((dawn + 3600) * ns_per_s) o.2).1.
Proof. vm_compute. split_and!; [reflexivity..|by eexists]. Qed.
