(* ===== verification/Json.v ===== *)
(** * JSON texts (encoding/json)

    What the program uses of Go's encoding/json: [MarshalIndent(v, "", "  ")] of values made
    of strings, integers, arrays and objects, and the reader behind [Unmarshal]. The reader
    takes any JSON text without fractions, exponents and surrogate escapes, none of which the
    program writes. Strings are UTF-8 texts without U+2028 and U+2029, whose bytes from 128
    on are copied as they are. Reading what was written gives the value back. *)
From S2P Require Import Prelude.

#[local] Set Warnings "-register-all".

Abbreviation chars := (list Ascii.ascii).
Abbreviation ch := Ascii.ascii_of_nat.
Abbreviation code := Ascii.nat_of_ascii.
Abbreviation to_chars := String.list_ascii_of_string.
Abbreviation of_chars := String.string_of_list_ascii.

Definition dquote := ch 34.
Definition bslash := ch 92.

Inductive json :=
| JNull
| JBool (b : bool)
| JNum (n : Z)
| JStr (s : string)
| JArr (items : list json)
| JObj (fields : list (string * json)).

(** ** Writing *)

Definition hex_digit (n : nat) : Ascii.ascii := if (n <? 10)%nat then ch (48 + n) else ch (87 + n).

(** A byte of a string: the two-character escapes, the six-character ones of control
    characters and of HTML's special characters, or the byte itself. *)
Definition short_escape (n : nat) : option Ascii.ascii :=
  match n with
  | 34 => Some (ch 34) | 92 => Some (ch 92)
  | 8 => Some (ch 98) | 12 => Some (ch 102) | 10 => Some (ch 110) | 13 => Some (ch 114) | 9 => Some (ch 116)
  | _ => None
  end%nat.
Definition is_special (n : nat) : bool := ((n <? 32) || (n =? 60) || (n =? 62) || (n =? 38))%nat.
Definition write_byte (c : Ascii.ascii) : chars :=
  match short_escape (code c) with
  | Some e => [bslash; e]
  | None =>
      if is_special (code c) then
        [bslash; ch 117; ch 48; ch 48; hex_digit (code c / 16); hex_digit (code c mod 16)]
      else [c]
  end.
Definition write_string (s : string) : chars := dquote :: flat_map write_byte (to_chars s) ++ [dquote].

Definition newline (depth : nat) : chars := ch 10 :: replicate (2 * depth) (ch 32).

Definition comma_sep (depth : nat) (items : list chars) : chars :=
  match items with
  | [] => []
  | i :: items => newline depth ++ i ++ flat_map (λ i, ch 44 :: newline depth ++ i) items
  end.

Fixpoint write (depth : nat) (v : json) : chars :=
  match v with
  | JNull => to_chars "null"
  | JBool true => to_chars "true"
  | JBool false => to_chars "false"
  | JNum n => to_chars (itoa n)
  | JStr s => write_string s
  | JArr [] => [ch 91; ch 93]
  | JArr items => ch 91 :: comma_sep (S depth) (map (write (S depth)) items) ++ newline depth ++ [ch 93]
  | JObj [] => [ch 123; ch 125]
  | JObj fields =>
      ch 123 :: comma_sep (S depth) (map (λ kv, write_string kv.1 ++ ch 58 :: ch 32 :: write (S depth) kv.2) fields)
        ++ newline depth ++ [ch 125]
  end.

Definition MarshalIndent (v : json) : string := of_chars (write 0 v).

(** ** Reading *)

Definition is_ws (c : Ascii.ascii) : bool :=
  ((code c =? 32) || (code c =? 9) || (code c =? 10) || (code c =? 13))%nat.
Fixpoint skip_ws (l : chars) : chars :=
  match l with c :: l' => if is_ws c then skip_ws l' else l | [] => [] end.

Definition hex_value (c : Ascii.ascii) : option nat :=
  let n := code c in
  if ((48 <=? n) && (n <=? 57))%nat then Some (n - 48)%nat
  else if ((97 <=? n) && (n <=? 102))%nat then Some (n - 87)%nat
  else if ((65 <=? n) && (n <=? 70))%nat then Some (n - 55)%nat
  else None.
(** UTF-8 of a code point below 2^16. *)
Definition utf8 (n : nat) : chars :=
  if (n <? 128)%nat then [ch n]
  else if (n <? 2048)%nat then [ch (192 + n / 64); ch (128 + n mod 64)]
  else [ch (224 + n / 4096); ch (128 + n / 64 mod 64); ch (128 + n mod 64)].
Definition unescape (c : Ascii.ascii) : option Ascii.ascii :=
  match code c with
  | 34 => Some (ch 34) | 92 => Some (ch 92) | 47 => Some (ch 47)
  | 98 => Some (ch 8) | 102 => Some (ch 12) | 110 => Some (ch 10) | 114 => Some (ch 13) | 116 => Some (ch 9)
  | _ => None
  end%nat.
Definition hex4 (a b c d : Ascii.ascii) : option nat :=
  w ← hex_value a; x ← hex_value b; y ← hex_value c; z ← hex_value d;
  Some (4096 * w + 256 * x + 16 * y + z)%nat.

(** U+D800 to U+DFFF, by the first two digits. *)
Definition surrogate (w x : Ascii.ascii) : bool :=
  bool_decide (hex_value w = Some 13%nat) && match hex_value x with Some n => (8 <=? n)%nat | None => false end.

Definition push (p : chars) (r : option (chars * chars)) : option (chars * chars) :=
  match r with Some (s, l) => Some (p ++ s, l) | None => None end.

(** The rest of a string after its opening quote. *)
Fixpoint read_body (l : chars) : option (chars * chars) :=
  match l with
  | [] => None
  | c :: l =>
      if decide (c = dquote) then Some ([], l)
      else if decide (c = bslash) then
        match l with
        | [] => None
        | e :: l =>
            if decide (e = ch 117) then
              match l with
              | w :: x :: y :: z :: l =>
                  match hex4 w x y z with
                  | Some n => if surrogate w x then None else push (utf8 n) (read_body l)
                  | None => None
                  end
              | _ => None
              end
            else match unescape e with Some b => push [b] (read_body l) | None => None end
        end
      else if (code c <? 32)%nat then None
      else push [c] (read_body l)
  end.

Definition is_digit (c : Ascii.ascii) : bool := ((48 <=? code c) && (code c <=? 57))%nat.
Fixpoint span_digits (l : chars) : chars * chars :=
  match l with
  | c :: l' => if is_digit c then let (d, r) := span_digits l' in (c :: d, r) else ([], l)
  | [] => ([], [])
  end.
Definition digits_value (l : chars) : Z := foldl (λ acc c, 10 * acc + (Z.of_nat (code c) - 48)) 0 l.
Definition read_nat (l : chars) : option (Z * chars) :=
  match span_digits l with
  | ([], _) => None
  | (c :: ds, r) =>
      if bool_decide (c = ch 48) && negb (bool_decide (ds = [])) then None
      else match r with
           | e :: _ => if ((code e =? 46) || (code e =? 101) || (code e =? 69))%nat then None
                       else Some (digits_value (c :: ds), r)
           | [] => Some (digits_value (c :: ds), r)
           end
  end.
Definition read_int (l : chars) : option (Z * chars) :=
  match l with
  | c :: l' => if decide (c = ch 45) then match read_nat l' with Some (n, r) => Some (- n, r) | None => None end
               else read_nat l
  | [] => None
  end.

(** The rest of the input after a literal. *)
Fixpoint strip (p l : chars) : option chars :=
  match p, l with
  | [], _ => Some l
  | a :: p, b :: l => if decide (a = b) then strip p l else None
  | _, _ => None
  end.

Definition read_key (l : chars) : option (string * chars) :=
  match skip_ws l with
  | c :: l =>
      if decide (c = dquote) then
        match read_body l with
        | Some (s, l) =>
            match skip_ws l with
            | c :: l => if decide (c = ch 58) then Some (of_chars s, l) else None
            | [] => None
            end
        | None => None
        end
      else None
  | [] => None
  end.

(** A value; the items of an array; the fields of an object. The fuel bounds the depth of the
    recursion, which the length of the input bounds. *)
Fixpoint read_value (fuel : nat) (l : chars) : option (json * chars) :=
  match fuel with
  | O => None
  | S fuel =>
      match skip_ws l with
      | [] => None
      | c :: r =>
          if decide (c = dquote) then
            match read_body r with Some (s, r) => Some (JStr (of_chars s), r) | None => None end
          else if decide (c = ch 91) then
            match skip_ws r with
            | e :: r' => if decide (e = ch 93) then Some (JArr [], r')
                         else match read_items fuel r with Some (vs, r) => Some (JArr vs, r) | None => None end
            | [] => None
            end
          else if decide (c = ch 123) then
            match skip_ws r with
            | e :: r' => if decide (e = ch 125) then Some (JObj [], r')
                         else match read_fields fuel r with Some (vs, r) => Some (JObj vs, r) | None => None end
            | [] => None
            end
          else if decide (c = ch 110) then (λ r, (JNull, r)) <$> strip (to_chars "ull") r
          else if decide (c = ch 116) then (λ r, (JBool true, r)) <$> strip (to_chars "rue") r
          else if decide (c = ch 102) then (λ r, (JBool false, r)) <$> strip (to_chars "alse") r
          else match read_int (c :: r) with Some (n, r) => Some (JNum n, r) | None => None end
      end
  end
with read_items (fuel : nat) (l : chars) : option (list json * chars) :=
  match fuel with
  | O => None
  | S fuel =>
      match read_value fuel l with
      | None => None
      | Some (v, l) =>
          match skip_ws l with
          | c :: l =>
              if decide (c = ch 44) then
                match read_items fuel l with Some (vs, l) => Some (v :: vs, l) | None => None end
              else if decide (c = ch 93) then Some ([v], l) else None
          | [] => None
          end
      end
  end
with read_fields (fuel : nat) (l : chars) : option (list (string * json) * chars) :=
  match fuel with
  | O => None
  | S fuel =>
      match read_key l with
      | None => None
      | Some (k, l) =>
          match read_value fuel l with
          | None => None
          | Some (v, l) =>
              match skip_ws l with
              | c :: l =>
                  if decide (c = ch 44) then
                    match read_fields fuel l with Some (vs, l) => Some ((k, v) :: vs, l) | None => None end
                  else if decide (c = ch 125) then Some ([(k, v)], l) else None
              | [] => None
              end
          end
      end
  end.

(** The whole input is one value. *)
Definition Unmarshal (s : string) : option json :=
  match read_value (S (String.length s)) (to_chars s) with
  | Some (v, l) => match skip_ws l with [] => Some v | _ => None end
  | None => None
  end.

Example marshal_example :
  let v := JObj [("id", JStr "a/b"); ("n", JNum (-7)); ("files", JArr [JStr "x"; JArr []; JNull])] in
  Unmarshal (MarshalIndent v) = Some v.
Proof. vm_compute. reflexivity. Qed.

(** ** Reading back what was written *)

Lemma read_body_byte c l : read_body (write_byte c ++ l) = push [c] (read_body l).
Proof. destruct c as [[] [] [] [] [] [] [] []]; reflexivity. Qed.

Lemma read_body_written s r : read_body (flat_map write_byte s ++ dquote :: r) = Some (s, r).
Proof.
  induction s as [|c s IH]; [done|]. cbn [flat_map]. rewrite <- app_assoc, read_body_byte, IH. done.
Qed.

Lemma skip_ws_newline d l : skip_ws (newline d ++ l) = skip_ws l.
Proof. unfold newline. cbn. induction (d + (d + 0))%nat as [|n IH]; [done|exact IH]. Qed.

(** *** Numbers *)

Definition stops (r : chars) : Prop := match r with [] => True | c :: _ => c = ch 44 ∨ c = ch 10 end.

Lemma stops_not_digit r c l : r = c :: l → stops r → is_digit c = false ∧ ((code c =? 46) || (code c =? 101) || (code c =? 69))%nat = false.
Proof. by intros -> [->| ->]. Qed.

Lemma span_digits_app ds r : Forall (λ c, is_digit c = true) ds → stops r → span_digits (ds ++ r) = (ds, r).
Proof.
  intros Hd Hr. induction Hd as [|c ds Hc _ IH]; simpl.
  - destruct r as [|c l]; [done|]. simpl. by destruct (stops_not_digit _ c l eq_refl Hr) as [-> _].
  - by rewrite Hc, IH.
Qed.

Lemma digits_is_digit c : c ∈ digits → is_digit c = true.
Proof. intros Hc. assert (Forall (λ c, is_digit c = true) digits) as Hall by (repeat constructor). by eapply Forall_forall in Hall. Qed.

Lemma digits_value_cons c l : digits_value (c :: l) = (Z.of_nat (code c) - 48) * 10 ^ Z.of_nat (length l) + digits_value l.
Proof.
  unfold digits_value.
  assert (∀ l a, foldl (λ acc c, 10 * acc + (Z.of_nat (code c) - 48)) a l =
                 a * 10 ^ Z.of_nat (length l) + foldl (λ acc c, 10 * acc + (Z.of_nat (code c) - 48)) 0 l) as Hf.
  { clear. induction l as [|c l IH]; intros a; [simpl; lia|]. cbn [foldl length].
    rewrite IH, (IH (10 * 0 + _)), Nat2Z.inj_succ, Z.pow_succ_r by lia. lia. }
  cbn [foldl]. rewrite Hf. lia.
Qed.

Lemma pretty_N_char_code d : (d < 10)%N → Z.of_nat (code (pretty_N_char d)) - 48 = Z.of_N d.
Proof. intros Hd. assert (d ∈ [0;1;2;3;4;5;6;7;8;9]%N) as Hin by (rewrite !list_elem_of_In; simpl; lia).
  set_unfold in Hin. by repeat destruct Hin as [->|Hin]; [..|done]. Qed.

Lemma pretty_N_go_value n s :
  digits_value (to_chars (pretty_N_go n s)) = Z.of_N n * 10 ^ Z.of_nat (String.length s) + digits_value (to_chars s).
Proof.
  revert s. induction (N.lt_wf_0 n) as [n _ IH]; intros s.
  destruct (decide (0 < n)%N) as [Hn|Hn]; [|replace n with 0%N by lia; rewrite pretty_N_go_0; lia].
  rewrite pretty_N_go_step by done. rewrite IH by (apply N.div_lt; lia). cbn [to_chars String.length].
  rewrite digits_value_cons, pretty_N_char_code by (apply N.mod_lt; lia).
  rewrite Nat2Z.inj_succ, Z.pow_succ_r by lia.
  replace (length (to_chars s)) with (String.length s) by (induction s; simpl; congruence).
  pose proof (N.div_mod n 10 ltac:(lia)). nia.
Qed.

Lemma pretty_N_go_head n s :
  (0 < n)%N → ∃ c l, to_chars (pretty_N_go n s) = c :: l ∧ c ≠ ch 48.
Proof.
  revert s. induction (N.lt_wf_0 n) as [n _ IH]; intros s Hn. rewrite pretty_N_go_step by done.
  destruct (decide (0 < n / 10)%N) as [Hd|Hd]; [apply IH; [by apply N.div_lt|done]|].
  assert (n / 10 = 0)%N as Hz by (apply N.le_0_r, N.nlt_ge, Hd). rewrite Hz. cbn.
  eexists _, _; split; [reflexivity|]. apply N.div_small_iff in Hz; [|done]. rewrite N.mod_small by done.
  intros Hc. apply (f_equal (λ c, Z.of_nat (code c) - 48)) in Hc. rewrite pretty_N_char_code in Hc by done.
  change (Z.of_nat (code (ch 48)) - 48) with 0 in Hc. lia.
Qed.

Lemma read_nat_pretty (n : N) r : stops r → read_nat (to_chars (pretty n) ++ r) = Some (Z.of_N n, r).
Proof.
  intros Hr. pose proof (pretty_N_digits n) as Hd.
  assert (Forall (λ c, is_digit c = true) (to_chars (pretty n))) as Hd'.
  { eapply Forall_impl; [exact Hd|]. intros c. apply digits_is_digit. }
  unfold read_nat. rewrite span_digits_app by done.
  assert (∃ c l, to_chars (pretty n) = c :: l ∧ (c = ch 48 → l = []) ∧ digits_value (c :: l) = Z.of_N n) as (c & l & -> & H0 & Hv).
  { unfold pretty, pretty_N. case_decide as Hn; [subst; by eexists _, _|].
    destruct (pretty_N_go_head n "" ltac:(lia)) as (c & l & Hc & Hne). exists c, l.
    split; [done|]. split; [by intros ->|]. rewrite <- Hc, pretty_N_go_value. simpl. unfold digits_value. simpl. lia. }
  case_bool_decide as Hc; [rewrite H0 by done|]; simpl; rewrite ?Hv; subst.
  all: destruct r as [|e r']; [by rewrite <- Hv, ?H0 by done|].
  all: destruct (stops_not_digit _ e r' eq_refl Hr) as [_ ->]; by rewrite <- Hv, ?H0 by done.
Qed.

Lemma pretty_N_head n : ∃ c l, to_chars (pretty (n : N)) = c :: l ∧ is_digit c = true.
Proof.
  pose proof (pretty_N_digits n) as Hd. destruct (to_chars (pretty n)) as [|c l] eqn:Hc.
  - exfalso. unfold pretty, pretty_N in Hc. case_decide as Hn; [done|].
    destruct (pretty_N_go_head n "" ltac:(lia)) as (? & ? & ? & ?). congruence.
  - exists c, l. split; [done|]. apply digits_is_digit. by inversion Hd.
Qed.

Lemma read_int_itoa z r : stops r → read_int (to_chars (itoa z) ++ r) = Some (z, r).
Proof.
  intros Hr. unfold itoa. destruct z as [|p|p].
  - exact (read_nat_pretty 0 r Hr).
  - change (pretty (Zpos p)) with (pretty (Npos p)). pose proof (read_nat_pretty (Npos p) r Hr) as Hn.
    destruct (pretty_N_head (Npos p)) as (c & l & Hc & Hd). rewrite Hc in *. cbn [app read_int] in *.
    rewrite decide_False; [exact Hn|]. by intros ->.
  - change (to_chars (pretty (Zneg p))) with (ch 45 :: to_chars (pretty (Npos p))).
    cbn [app read_int]. rewrite decide_True by done. by rewrite read_nat_pretty.
Qed.

(** *** Values *)

(** Induction over nested values. *)
Lemma json_rect_nested (P : json → Prop) :
  P JNull → (∀ b, P (JBool b)) → (∀ n, P (JNum n)) → (∀ s, P (JStr s)) →
  (∀ l, Forall P l → P (JArr l)) → (∀ l, Forall (λ kv, P kv.2) l → P (JObj l)) → ∀ v, P v.
Proof.
  intros H1 H2 H3 H4 H5 H6. fix IH 1. intros [|b|n|s|l|l]; [done|apply H2|apply H3|apply H4|..].
  - apply H5. induction l; constructor; auto.
  - apply H6. induction l; constructor; auto.
Qed.

(** The fuel a value needs. *)
Fixpoint jsize (v : json) : nat :=
  match v with
  | JArr l => S (sum_list_with (λ v, S (jsize v)) l)
  | JObj l => S (sum_list_with (λ kv, S (jsize kv.2)) l)
  | _ => 1
  end.

Lemma write_head d v : ∃ c l, write d v = c :: l ∧ is_ws c = false ∧ c ≠ ch 93.
Proof.
  destruct v as [|[]|n|s|[|v l]|[|kv l]]; try (eexists _, _; split; [reflexivity|done]).
  assert (∃ c l, to_chars (itoa n) = c :: l) as (c & l & Hn).
  { unfold itoa. destruct n as [|p|p]; [by eexists _, _| |by eexists _, _].
    destruct (pretty_N_head (Npos p)) as (c & l & Hc & _). by exists c, l. }
  exists c, l. split; [exact Hn|].
  assert (c ∈ to_chars (itoa n)) as Hin by (rewrite Hn; constructor).
  apply itoa_digits in Hin as [Hin|[_ ->]]; [|done].
  assert (Forall (λ c, is_ws c = false ∧ c ≠ ch 93) digits) as Hall by (repeat constructor; done).
  by eapply Forall_forall in Hall.
Qed.

Lemma skip_ws_head c l : is_ws c = false → skip_ws (c :: l) = c :: l.
Proof. intros Hc. simpl. by rewrite Hc. Qed.

Lemma read_value_newline fuel d l : read_value fuel (newline d ++ l) = read_value fuel l.
Proof. destruct fuel; [done|]. cbn [read_value]. by rewrite skip_ws_newline. Qed.

Lemma read_value_blank fuel l : read_value fuel (ch 32 :: l) = read_value fuel l.
Proof. by destruct fuel. Qed.

Lemma read_key_written d k l : read_key (newline d ++ write_string k ++ ch 58 :: l) = Some (k, l).
Proof.
  unfold read_key. rewrite skip_ws_newline. unfold write_string. cbn [app].
  rewrite <- app_assoc. cbn [app]. rewrite skip_ws_head, decide_True by done. rewrite read_body_written.
  rewrite skip_ws_head, decide_True by done. by rewrite String.string_of_list_ascii_of_string.
Qed.

Definition reads_back (v : json) : Prop :=
  ∀ d fuel r, (jsize v ≤ fuel)%nat → stops r → read_value fuel (write d v ++ r) = Some (v, r).

(** The items of an array, with the closing bracket on its own line. *)
Definition tail_of (close : Ascii.ascii) (d : nat) (items : list chars) (r : chars) : chars :=
  flat_map (λ i, ch 44 :: newline d ++ i) items ++ newline (pred d) ++ close :: r.

Lemma stops_tail c d items r : stops (tail_of c d items r).
Proof. destruct items; simpl; auto. Qed.

Lemma read_items_written d l v fuel r :
  reads_back v → Forall reads_back l →
  (sum_list_with (λ v, S (jsize v)) (v :: l) ≤ fuel)%nat →
  read_items fuel (newline d ++ write d v ++ tail_of (ch 93) d (map (write d) l) r) = Some (v :: l, r).
Proof.
  intros Hv Hl. revert v Hv fuel. induction Hl as [|w l Hw _ IH]; intros v Hv [|fuel] Hf; try (simpl in Hf; lia);
    cbn [read_items]; rewrite read_value_newline, Hv by (simpl in Hf; auto using stops_tail with lia).
  - unfold tail_of. cbn [map flat_map app]. rewrite skip_ws_newline, skip_ws_head by done. done.
  - unfold tail_of. cbn [map flat_map app]. rewrite skip_ws_head, decide_True by done.
    rewrite <- !app_assoc. fold (tail_of (ch 93) d (map (write d) l) r).
    by rewrite IH by (simpl in Hf |- *; auto with lia).
Qed.

Definition write_field (d : nat) (kv : string * json) : chars := write_string kv.1 ++ ch 58 :: ch 32 :: write d kv.2.

Lemma read_fields_written d l kv fuel r :
  reads_back kv.2 → Forall (λ kv, reads_back kv.2) l →
  (sum_list_with (λ kv, S (jsize kv.2)) (kv :: l) ≤ fuel)%nat →
  read_fields fuel (newline d ++ write_field d kv ++ tail_of (ch 125) d (map (write_field d) l) r) = Some (kv :: l, r).
Proof.
  intros Hv Hl. revert kv Hv fuel. induction Hl as [|w l Hw _ IH]; intros [k v] Hv [|fuel] Hf; try (simpl in Hf; lia);
    cbn [read_fields]; unfold write_field at 1; cbn [fst snd]; rewrite <- app_assoc; cbn [app];
    rewrite read_key_written; simpl in Hv;
    rewrite read_value_blank;
    rewrite Hv by (simpl in Hf; auto using stops_tail with lia).
  - unfold tail_of. cbn [map flat_map app]. rewrite skip_ws_newline, skip_ws_head by done. done.
  - unfold tail_of. cbn [map flat_map app]. rewrite skip_ws_head, decide_True by done.
    rewrite <- !app_assoc. fold (tail_of (ch 125) d (map (write_field d) l) r).
    by rewrite IH by (simpl in Hf |- *; auto with lia).
Qed.

Lemma write_arr d v l r :
  write d (JArr (v :: l)) ++ r =
  ch 91 :: newline (S d) ++ write (S d) v ++ tail_of (ch 93) (S d) (map (write (S d)) l) r.
Proof. unfold tail_of. cbn [write map comma_sep app pred]. by rewrite <- !app_assoc. Qed.
Lemma write_obj d kv l r :
  write d (JObj (kv :: l)) ++ r =
  ch 123 :: newline (S d) ++ write_field (S d) kv ++ tail_of (ch 125) (S d) (map (write_field (S d)) l) r.
Proof.
  change (write d (JObj (kv :: l))) with
    (ch 123 :: comma_sep (S d) (map (write_field (S d)) (kv :: l)) ++ newline d ++ [ch 125]).
  unfold tail_of. cbn [map comma_sep app pred]. by rewrite <- !app_assoc.
Qed.

Lemma read_value_written v : reads_back v.
Proof.
  induction v as [|[]|n|s|l IH|l IH] using json_rect_nested; intros d [|fuel] r Hf Hr; try (simpl in Hf; lia).
  - reflexivity.
  - reflexivity.
  - reflexivity.
  - destruct (write_head d (JNum n)) as (c & l & Hc & Hws & _). pose proof (read_int_itoa n r Hr) as Hi.
    cbn [write] in *. rewrite Hc in *. cbn [app] in *. cbn [read_value]. rewrite skip_ws_head by done.
    assert (c ∈ to_chars (itoa n)) as Hin by (rewrite Hc; constructor).
    rewrite !decide_False, Hi; [done|..]; intros ->; apply itoa_digits in Hin as [Hin|[_ Hin]]; try done;
      by apply digits_is_digit in Hin.
  - cbn [write read_value]. unfold write_string. cbn [app]. rewrite skip_ws_head, decide_True by done.
    rewrite <- app_assoc. cbn [app]. by rewrite read_body_written, String.string_of_list_ascii_of_string.
  - destruct l as [|v l]; [reflexivity|]. inversion_clear IH as [|? ? Hv Hl].
    destruct (write_head (S d) v) as (c & w & Hc & Hws & Hne).
    rewrite write_arr. cbn [read_value]. rewrite skip_ws_head by done. rewrite decide_False, decide_True by done.
    rewrite skip_ws_newline, Hc at 1. cbn [app]. rewrite skip_ws_head, decide_False by done.
    by rewrite read_items_written by (simpl in Hf |- *; auto with lia).
  - destruct l as [|kv l]; [reflexivity|]. inversion_clear IH as [|? ? Hv Hl].
    rewrite write_obj. cbn [read_value]. rewrite skip_ws_head by done. rewrite !decide_False, decide_True by done.
    rewrite skip_ws_newline at 1. unfold write_field at 1, write_string at 1. cbn [app].
    rewrite skip_ws_head, decide_False by done.
    by rewrite read_fields_written by (simpl in Hf |- *; auto with lia).
Qed.

(** Every value is at least as long as the fuel it needs. *)
Lemma jsize_length v d : (jsize v ≤ length (write d v))%nat.
Proof.
  revert d. induction v as [|[]|n|s|l IH|l IH] using json_rect_nested; intros d; try (simpl; lia).
  - destruct (write_head d (JNum n)) as (c & l & -> & _). simpl. lia.
  - destruct l as [|v l]; [simpl; lia|]. pose proof (write_arr d v l []) as Hw. rewrite app_nil_r in Hw.
    rewrite Hw. cbn [length]. rewrite !length_app. unfold tail_of. rewrite length_app.
    inversion_clear IH as [|? ? Hv Hl]. specialize (Hv (S d)).
    assert (sum_list_with (λ v, S (jsize v)) l ≤ length (flat_map (λ i, ch 44 :: newline (S d) ++ i) (map (write (S d)) l)))%nat.
    { clear -Hl. induction Hl as [|w l Hw _ IH]; [simpl; lia|]. specialize (Hw (S d)).
      cbn [map flat_map sum_list_with]. rewrite length_app. cbn [length]. rewrite length_app. lia. }
    assert (1 ≤ length (newline (S d)))%nat by (unfold newline; simpl; lia). cbn [jsize sum_list_with]. lia.
  - destruct l as [|v l]; [simpl; lia|]. pose proof (write_obj d v l []) as Hw. rewrite app_nil_r in Hw.
    rewrite Hw. cbn [length]. rewrite !length_app. unfold tail_of, write_field at 1. rewrite !length_app. cbn [length].
    inversion_clear IH as [|? ? Hv Hl]. specialize (Hv (S d)).
    assert (sum_list_with (λ kv, S (jsize kv.2)) l ≤ length (flat_map (λ i, ch 44 :: newline (S d) ++ i) (map (write_field (S d)) l)))%nat.
    { clear -Hl. induction Hl as [|w l Hw _ IH]; [simpl; lia|]. specialize (Hw (S d)). cbn [map flat_map sum_list_with].
      rewrite length_app. cbn [length]. rewrite length_app. unfold write_field at 1. rewrite length_app.
      cbn [length]. lia. }
    assert (1 ≤ length (newline (S d)))%nat by (unfold newline; simpl; lia). cbn [jsize sum_list_with]. lia.
Qed.

Lemma length_of_chars l : String.length (of_chars l) = length l.
Proof. induction l as [|c l IH]; [done|]. cbn. by f_equal. Qed.

Lemma unmarshal_marshal v : Unmarshal (MarshalIndent v) = Some v.
Proof.
  unfold Unmarshal, MarshalIndent. rewrite String.list_ascii_of_string_of_list_ascii.
  pose proof (read_value_written v 0%nat (S (String.length (of_chars (write 0 v)))) []) as Hr.
  rewrite app_nil_r in Hr. rewrite Hr; [done| |done].
  rewrite length_of_chars. pose proof (jsize_length v 0%nat). lia.
Qed.
