(* ===== verification/Migrator.v ===== *)
(** * The spool migrator (app/daemon/migration/spool_migrator.go)

    An offline tool that imports the tables of the old spool design into download_records and
    removes its left-over buffer files. Files are first moved into a quarantine directory with
    a manifest, then the transaction commits together with a verdict, then the quarantine is
    emptied; an interrupted run is reconciled by the verdict. Every system call and every
    statement may fail, from some call on all of them (a crash). The test hooks are not set. *)
From S2P Require Import Json.
From S2P Require Import Prelude Paths Fscommit Sql World.

(** ** Data *)

Inductive LegacyDisposition := DispositionImportSuccess | DispositionResetPending | DispositionBufferClean.

Record MigrationOptions := Options {
  DBPath : string;
  TargetDir : string;
  ArchiveDir : string;
  BufferDir : string;
  DryRun : bool;
  CreateBackup : bool;
  DropLegacyTables : bool;
}.

Record QuarantineFileEntry := QEntry {
  OriginalPath : string;
  StagedName : string;
  StagedPath : string;
  q_Size : Z;
  q_SHA256 : string;
}.

Record QuarantineManifest := Manifest {
  MigrationID : string;
  QuarantineDir : string;
  q_CreatedAt : Z;
  Files : list QuarantineFileEntry;
}.

#[export] Instance QuarantineFileEntry_eq_dec : EqDecision QuarantineFileEntry.
Proof. solve_decision. Defined.

(** What reconciling did. *)
Record ReconcileReport := Reconciled {
  QuarantineDirsScanned : nat;
  RestoredFiles : list string;
  CleanedFiles_ : list string;
  CleanedDirs : list string;
}.

Record ItemReport := Item {
  SourceTable : string;
  it_key : key;
  it_SavePath : string;
  it_Size : Z;
  it_SHA256 : string;
  LegacyState : string;
  Disposition : LegacyDisposition;
}.

Record MigrationReport := Report {
  BackupPath : string;
  LegacyTablesFound : list string;
  TotalLegacyRows : nat;
  ImportedSuccess : nat;
  ResetPending : nat;
  DroppedTables : list string;
  PlannedCleanFiles : list string;
  CleanedFiles : list string;
  Items : list ItemReport;
}.

(** *** The manifest on disk *)

Definition entry_json (e : QuarantineFileEntry) : json :=
  JObj [("original_path", JStr (OriginalPath e)); ("staged_name", JStr (StagedName e));
        ("staged_path", JStr (StagedPath e)); ("size", JNum (q_Size e)); ("sha256", JStr (q_SHA256 e))].
Definition manifest_json (m : QuarantineManifest) : json :=
  JObj [("migration_id", JStr (MigrationID m)); ("quarantine_dir", JStr (QuarantineDir m));
        ("created_at", JNum (q_CreatedAt m)); ("files", JArr (map entry_json (Files m)))].

(** Decoding into a struct: the last key that matches a field's name, without regard to
    case, decides; a missing key or null leaves the zero value; another type is an error. *)
Fixpoint lookup_field (name : string) (fields : list (string * json)) (found : json) : json :=
  match fields with
  | [] => found
  | (k, v) :: fields => lookup_field name fields (if decide (ToLower k = name) then v else found)
  end.
Definition string_field (name : string) (fields : list (string * json)) : option string :=
  match lookup_field name fields JNull with JNull => Some "" | JStr s => Some s | _ => None end.
Definition int_field (name : string) (fields : list (string * json)) : option Z :=
  match lookup_field name fields JNull with
  | JNull => Some 0
  | JNum n => if decide (in_int64 n) then Some n else None
  | _ => None
  end.
Definition json_entry (v : json) : option QuarantineFileEntry :=
  match v with
  | JObj fs =>
      o ← string_field "original_path" fs; n ← string_field "staged_name" fs;
      p ← string_field "staged_path" fs; s ← int_field "size" fs; h ← string_field "sha256" fs;
      Some (QEntry o n p s h)
  | JNull => Some (QEntry "" "" "" 0 "")
  | _ => None
  end.
Definition json_manifest (v : json) : option QuarantineManifest :=
  match v with
  | JObj fs =>
      i ← string_field "migration_id" fs; q ← string_field "quarantine_dir" fs;
      c ← int_field "created_at" fs;
      l ← match lookup_field "files" fs JNull with
          | JNull => Some []
          | JArr l => mapM json_entry l
          | _ => None
          end;
      Some (Manifest i q c l)
  | JNull => Some (Manifest "" "" 0 [])
  | _ => None
  end.

Definition manifestData (m : QuarantineManifest) : string := MarshalIndent (manifest_json m).
Definition parse_manifest (s : string) : option QuarantineManifest := v ← Unmarshal s; json_manifest v.

(** ** State *)

Record commitEntry := Commit_ { c_key : key; c_savePath : string; c_fileSize : Z; c_sha256Hex : string }.
Record attemptEntry := Attempt_ { a_key : key; a_state : string }.

(** The tables the tool reads and writes; [None] is a table that does not exist. *)
Record legacy_db := LDb {
  l_records : option (gmap key download_row);
  l_commits : option (list commitEntry);
  l_attempts : option (list attemptEntry);
  l_segments : bool;
  l_cleanup : bool;
  l_verdicts : option (gmap string string);
}.

(** A statement succeeds, fails, or fails to report that it took effect (a commit). *)
Inductive sqlfault := Fine | Fails | FailsLate.

Record mstate := MSt { ms_fs : fs; ms_db : legacy_db; ms_faults : list sqlfault }.
Definition MM (A : Type) : Type := ST mstate string A.

Definition m_fs {A} (m : FS A) : MM A := λ s,
  let (a, f) := m (ms_fs s) in (Ok a, MSt f (ms_db s) (ms_faults s)).
(** A system call whose error ends the function. *)
Definition or_fail {A} (text : string) (m : FS (res errno A)) : MM A :=
  let! r := m_fs m in match r with Ok a => return! a | Err _ => fail! text end.

Definition m_stmt {A} (text : string) (f : legacy_db → A * legacy_db) : MM A := λ s,
  match ms_faults s with
  | Fails :: rest | FailsLate :: rest => (Err text, MSt (ms_fs s) (ms_db s) rest)
  | rest => let (a, d) := f (ms_db s) in (Ok a, MSt (ms_fs s) d (tl rest))
  end.
Definition m_query {A} (text : string) (f : legacy_db → A) : MM A := m_stmt text (λ d, (f d, d)).
Definition m_exec (text : string) (f : legacy_db → legacy_db) : MM unit := m_stmt text (λ d, (tt, f d)).

Definition set_l_records t d := LDb t (l_commits d) (l_attempts d) (l_segments d) (l_cleanup d) (l_verdicts d).
Definition set_l_verdicts t d := LDb (l_records d) (l_commits d) (l_attempts d) (l_segments d) (l_cleanup d) t.
Definition drop_table (tbl : string) (d : legacy_db) : legacy_db :=
  if decide (tbl = "target_commits") then
    LDb (l_records d) None (l_attempts d) (l_segments d) (l_cleanup d) (l_verdicts d)
  else if decide (tbl = "spool_attempts") then
    LDb (l_records d) (l_commits d) None (l_segments d) (l_cleanup d) (l_verdicts d)
  else if decide (tbl = "spool_segments") then
    LDb (l_records d) (l_commits d) (l_attempts d) false (l_cleanup d) (l_verdicts d)
  else if decide (tbl = "spool_cleanup") then
    LDb (l_records d) (l_commits d) (l_attempts d) (l_segments d) false (l_verdicts d)
  else d.

(** ** Files *)

Section Migrator.
Context (sha256Hex : string → string).
(** What reaches the disk of a copy that fails. *)
Context (cut : string → string).

(** [os.OpenFile(p, O_CREATE|O_EXCL|O_WRONLY)] and [O_CREATE|O_TRUNC]. *)
Definition OpenExcl (p : string) : FS (res errno unit) :=
  sys (λ d, match d !! p with
            | Some _ => (Err EEXIST, d)
            | None => (Ok tt, <[p := FileNode ""]> d)
            end).
Definition OpenTrunc (p : string) : FS (res errno unit) :=
  sys (λ d, match d !! p with
            | Some DirNode => (Err EISDIR, d)
            | _ => (Ok tt, <[p := FileNode ""]> d)
            end).
(** Writing [data] to an open file: all of it, or a part and an error. *)
Definition WriteData (p data : string) : FS (res errno unit) := λ s,
  match osfaults s with
  | Some e :: rest => (Err e, Fs (<[p := FileNode (cut data)]> (files s)) rest)
  | rest => (Ok tt, Fs (<[p := FileNode data]> (files s)) (tl rest))
  end.
Definition Close : FS (res errno unit) := Fsync.

(** [q] is [p] or below it. *)
Definition below (p q : string) : bool := bool_decide (comps p `prefix_of` comps q).
Definition RemoveAll (p : string) : FS (res errno unit) :=
  sys (λ d, (Ok tt, filter (λ kv, below p kv.1 = false) d)).
Definition ReadDir (p : string) : FS (res errno bool) := sys (λ d, (Ok (has_entries p d), d)).

(** Paths in the order of [filepath.Walk] and [filepath.Glob]: by components. *)
Fixpoint comps_leb (a b : list string) : bool :=
  match a, b with
  | [], _ => true
  | _, [] => false
  | x :: a, y :: b =>
      match String.compare x y with Lt => true | Gt => false | Eq => comps_leb a b end
  end.
Definition walk_le (a b : string * node) : Prop := comps_leb (comps a.1) (comps b.1) = true.
#[local] Instance walk_le_dec : RelDecision walk_le.
Proof. intros a b. unfold walk_le. apply _. Defined.
Definition Walk (dir : string) (d : disk) : list (string * node) :=
  merge_sort walk_le (filter (λ kv, below dir kv.1 = true) (map_to_list d)).

Definition quarantine_prefix : string := ".migrator_quarantine_".
Definition Glob (bufferDir : string) (d : disk) : list string :=
  omap (λ kv, if decide (comps kv.1 = comps bufferDir ++ [Base kv.1] ∧
                         HasPrefix (Base kv.1) quarantine_prefix = true)
              then Some (Join bufferDir (Base kv.1)) else None) (Walk bufferDir d).

Definition computeFileSHA256 : string → FS (res errno string) := ComputeFileSHA256 sha256Hex.

(** [filepath.Join] and [os.Stat] along the candidates; [Some valid] for the first file. *)
Fixpoint verify_candidates (cands : list string) (expectedSize : Z) (expectedSHA : string) : FS (option bool) :=
  match cands with
  | [] => done! None
  | cand :: cands =>
      do! st := Stat cand in
      match st with
      | Ok (FileNode data) =>
          let n := FileNode data in
          if (0 <? expectedSize) && negb (node_size n =? expectedSize) then done! (Some false)
          else if decide (expectedSHA = "") then done! (Some true)
          else
            do! h := computeFileSHA256 cand in
            match h with
            | Err _ => done! (Some false)
            | Ok actual => done! (Some (bool_decide (ToLower actual = ToLower expectedSHA)))
            end
      | _ => verify_candidates cands expectedSize expectedSHA
      end
  end.
(** [verifyDiskFile]: exists and valid. *)
Definition verifyDiskFile (relPath : string) (expectedSize : Z) (expectedSHA targetDir archiveDir : string)
    : FS bool :=
  if decide (relPath = "") then done! false
  else
    let cands := (if decide (targetDir = "") then [] else [Join targetDir relPath]) ++
                 (if decide (archiveDir = "") then [] else [Join archiveDir relPath]) in
    do! v := verify_candidates cands expectedSize expectedSHA in
    done! (default false v).

Definition isStrictSubpath (baseDir targetPath : string) : bool :=
  match Rel (Clean baseDir) (Clean targetPath) with
  | None => false
  | Some rel => negb (bool_decide (rel = ".") || bool_decide (rel = "..") || HasPrefix rel "../" || IsAbs rel)
  end.

Definition valid_entry (qDir bufferDir : string) (f : QuarantineFileEntry) : bool :=
  negb (bool_decide (StagedName f = "") || bool_decide (StagedName f = ".") || bool_decide (StagedName f = "..") ||
        Contains (StagedName f) "/") &&
  bool_decide (Clean (StagedPath f) = Clean (Join qDir (StagedName f))) &&
  isStrictSubpath qDir (StagedPath f) && isStrictSubpath bufferDir (OriginalPath f).
Definition validateQuarantinePaths (m : QuarantineManifest) (qDir bufferDir : string) : bool :=
  isStrictSubpath bufferDir qDir && forallb (valid_entry qDir bufferDir) (Files m).

(** *** The durable move *)

(** An error after the destination exists removes it again. *)
Definition undo (dst : string) {A} (m : FS (res errno A)) (k : A → FS (res errno unit)) : FS (res errno unit) :=
  do! r := m in
  match r with
  | Err e => do! _ := Remove dst in done! (Err e)
  | Ok a => k a
  end.
(** An error that just ends the function. *)
Definition stop {A B} (m : FS (res errno A)) (k : A → FS (res errno B)) : FS (res errno B) :=
  do! r := m in
  match r with Err e => done! (Err e) | Ok a => k a end.

(** Steps 1 and 2: a link, or an exclusive copy that is synced. *)
Definition link_or_copy (src dst : string) (k : FS (res errno unit)) : FS (res errno unit) :=
  do! l := Linkat src dst in
  match l with
  | Ok _ => k
  | Err EEXIST => done! (Err EEXIST)
  | Err _ =>
      stop (OpenExcl dst) (λ _,
      undo dst (ReadFile src) (λ data,
      undo dst (WriteData dst data) (λ _,
      do! sy := Fsync in
      do! cl := Close in
      match sy, cl with
      | Err e, _ | _, Err e => do! _ := Remove dst in done! (Err e)
      | _, _ => k
      end)))
  end.

(** Steps 3 and 4: sync the directory, verify the destination. *)
Definition verify_dst (dst : string) (expectedSize : Z) (expectedSHA : string) (k : FS (res errno unit))
    : FS (res errno unit) :=
  undo dst (open_dir (Dir dst)) (λ _,
  undo dst Fsync (λ _,
  undo dst Close (λ _,
  undo dst (Stat dst) (λ n,
  if (0 <? expectedSize) && negb (node_size n =? expectedSize) then do! _ := Remove dst in done! (Err EIO)
  else if decide (expectedSHA = "") then k
  else
    undo dst (computeFileSHA256 dst) (λ sha,
    if decide (sha = expectedSHA) then k
    else do! _ := Remove dst in done! (Err EIO)))))).

(** Steps 5 and 6: remove the source, sync its directory. *)
Definition remove_src (src : string) : FS (res errno unit) :=
  do! r := Remove src in
  match r with
  | Ok _ | Err ENOENT => stop (open_dir (Dir src)) (λ _, stop Fsync (λ _, Close))
  | Err e => done! (Err e)
  end.

Definition durableNoReplaceMove (src dst : string) (expectedSize : Z) (expectedSHA : string) : FS (res errno unit) :=
  do! expectedSize := (if expectedSize <=? 0 then
                         do! st := Stat src in
                         done! (match st with Ok n => node_size n | Err _ => expectedSize end)
                       else done! expectedSize) in
  do! expectedSHA := (if decide (expectedSHA = "") then
                        do! h := computeFileSHA256 src in
                        done! (match h with Ok h => h | Err _ => expectedSHA end)
                      else done! expectedSHA) in
  link_or_copy src dst (verify_dst dst expectedSize expectedSHA (remove_src src)).

(** *** Reconciling interrupted quarantines *)

(** The kernel resolves what a manifest names. *)
Definition staged (f : QuarantineFileEntry) : string := Clean (StagedPath f).
Definition original (f : QuarantineFileEntry) : string := Clean (OriginalPath f).

Definition remove_ignoring_missing (text p : string) : MM unit :=
  let! r := m_fs (Remove p) in
  match r with Ok _ | Err ENOENT => return! tt | Err _ => fail! text end.

(** After a commit: purge. *)
Fixpoint purge_files (fs : list QuarantineFileEntry) : MM unit :=
  match fs with
  | [] => return! tt
  | f :: fs =>
      let! _ := remove_ignoring_missing "purge staged file" (staged f) in
      purge_files fs
  end.
Definition manifest_path (qDir : string) : string := Join qDir "quarantine_manifest.json".
Definition remove_quarantine (qDir : string) : MM unit :=
  let! _ := remove_ignoring_missing "remove manifest" (manifest_path qDir) in
  or_fail "remove quarantine dir" (RemoveAll qDir).

(** Phase 1: what a stat found must match. *)
Definition check_copy (p : string) (n : option node) (f : QuarantineFileEntry) : MM unit :=
  match n with
  | None => return! tt
  | Some n =>
      if negb (node_size n =? q_Size f) then fail! "size mismatch"
      else
        let! sha := or_fail "compute sha256" (computeFileSHA256 p) in
        if decide (sha = q_SHA256 f) then return! tt else fail! "sha256 mismatch"
  end.
Definition plan_entry (f : QuarantineFileEntry) : MM (QuarantineFileEntry * bool * bool) :=
  let! st := m_fs (Stat (staged f)) in
  let! og := m_fs (Stat (original f)) in
  let node_of r := match r with Ok n => Some n | Err _ => None end in
  match st, og with
  | Err ENOENT, Err ENOENT => fail! "file missing from both"
  | Ok _, Err ENOENT | Err ENOENT, Ok _ | Ok _, Ok _ =>
      let! _ := check_copy (staged f) (node_of st) f in
      let! _ := check_copy (original f) (node_of og) f in
      return! (f, is_ok st, is_ok og)
  | _, _ => fail! "stat file"
  end.
Fixpoint plan_all (fs : list QuarantineFileEntry) : MM (list (QuarantineFileEntry * bool * bool)) :=
  match fs with
  | [] => return! []
  | f :: fs =>
      let! p := plan_entry f in
      let! ps := plan_all fs in
      return! (p :: ps)
  end.

(** Phase 2: restore or deduplicate. *)
Definition restore_entry (p : QuarantineFileEntry * bool * bool) : MM (list string) :=
  let '(f, stagedExist, origExist) := p in
  if stagedExist then
    if origExist then
      let! _ := remove_ignoring_missing "deduplicate remove staged" (staged f) in
      return! [OriginalPath f]
    else
      let! _ := or_fail "restore mkdir" (MkdirAll (Dir (original f))) in
      let! _ := or_fail "restore durable move"
                  (durableNoReplaceMove (staged f) (original f) (q_Size f) (q_SHA256 f)) in
      return! [OriginalPath f]
  else return! [].
Fixpoint restore_all (ps : list (QuarantineFileEntry * bool * bool)) : MM (list string) :=
  match ps with
  | [] => return! []
  | p :: ps =>
      let! a := restore_entry p in
      let! b := restore_all ps in
      return! (a ++ b)
  end.

(** Phase 3: check before the manifest goes. *)
Definition post_check (f : QuarantineFileEntry) : MM unit :=
  let! st := m_fs (Stat (staged f)) in
  match st with
  | Ok _ => fail! "staged file still present after restore"
  | Err _ =>
      let! n := or_fail "original file does not exist after restore" (Stat (original f)) in
      if node_size n =? q_Size f then return! tt else fail! "size mismatch after restore"
  end.
Fixpoint post_all (fs : list QuarantineFileEntry) : MM unit :=
  match fs with
  | [] => return! tt
  | f :: fs => let! _ := post_check f in post_all fs
  end.

(** The verdict of the database on a migration. *)
Definition isCommitted (id : string) : MM bool :=
  let! tbl := m_query "check verdicts table" (λ d, bool_decide (is_Some (l_verdicts d))) in
  if tbl : bool then
    let! v := m_query "query migration verdict" (λ d, match l_verdicts d with Some t => t !! id | None => None end) in
    return! (bool_decide (v = Some "COMMITTED"))
  else return! false.

(** One quarantine directory: the files restored and cleaned. [db_error] is the failure to
    find or open the database. *)
Definition reconcile_dir (db_error : bool) (bufferDir qDir : string) : MM (list string * list string) :=
  let! data := m_fs (ReadFile (manifest_path qDir)) in
  match data with
  | Err ENOENT =>
      let! entries := or_fail "read quarantine dir without manifest" (ReadDir qDir) in
      if entries : bool then fail! "quarantine directory is non-empty but missing its manifest"
      else
        let! _ := or_fail "remove empty orphan quarantine dir" (Remove qDir) in
        return! ([], [])
  | Err _ => fail! "read quarantine manifest"
  | Ok data =>
      match parse_manifest data with
      | None => fail! "unmarshal quarantine manifest"
      | Some m =>
          if negb (validateQuarantinePaths m qDir bufferDir) then fail! "validate quarantine paths"
          else if db_error then fail! "database access failed"
          else
            let! committed := isCommitted (MigrationID m) in
            if committed : bool then
              let! _ := purge_files (Files m) in
              let! _ := remove_quarantine qDir in
              return! ([], OriginalPath <$> Files m)
            else
              let! plans := plan_all (Files m) in
              let! restored := restore_all plans in
              let! _ := post_all (Files m) in
              let! _ := remove_quarantine qDir in
              return! (restored, [])
      end
  end.

Fixpoint reconcile_dirs (db_error : bool) (bufferDir : string) (dirs : list string) (r : ReconcileReport)
    : MM ReconcileReport :=
  match dirs with
  | [] => return! r
  | q :: dirs =>
      let! (restored, cleaned) := reconcile_dir db_error bufferDir q in
      reconcile_dirs db_error bufferDir dirs
        (Reconciled (QuarantineDirsScanned r) (RestoredFiles r ++ restored) (CleanedFiles_ r ++ cleaned)
           (CleanedDirs r ++ [q]))
  end.

Definition ReconcilePendingQuarantines (dbPath bufferDir : string) : MM ReconcileReport :=
  if decide (bufferDir = "") then return! (Reconciled 0 [] [] [])
  else
    let! matches := or_fail "glob quarantine dirs" (sys (λ d, (Ok (Glob bufferDir d), d))) in
    match matches with
    | [] => return! (Reconciled 0 [] [] [])
    | _ =>
        let! db_error := (if decide (dbPath = "") then return! true
                          else let! st := m_fs (Stat dbPath) in return! (negb (is_ok st))) in
        reconcile_dirs db_error bufferDir matches (Reconciled (length matches) [] [] [])
    end.

(** ** The inventory *)

(** The clock, the process and the time stamp of the backup. *)
Record run_env := REnv { e_now : Z; e_pid : Z; e_stamp : string }.

Definition legacyTableCandidates : list string := ["target_commits"; "spool_attempts"; "spool_segments"; "spool_cleanup"].
Definition table_exists (tbl : string) (d : legacy_db) : bool :=
  if decide (tbl = "target_commits") then bool_decide (is_Some (l_commits d))
  else if decide (tbl = "spool_attempts") then bool_decide (is_Some (l_attempts d))
  else if decide (tbl = "spool_segments") then l_segments d
  else if decide (tbl = "spool_cleanup") then l_cleanup d
  else false.
Fixpoint discover (tbls : list string) : MM (list string) :=
  match tbls with
  | [] => return! []
  | t :: tbls =>
      let! e := m_query "check legacy table" (table_exists t) in
      let! found := discover tbls in
      return! (if e : bool then t :: found else found)
  end.

Definition is_legacy_status (st : string) : bool :=
  bool_decide (st ∈ ["moving"; "segmenting"; "spooling"; "transferring"]).
Definition legacy_records (d : legacy_db) : list (key * download_row) :=
  match l_records d with
  | Some t => filter (λ kr, is_legacy_status (status kr.2) = true) (map_to_list t)
  | None => []
  end.

(** Steps 6 to 8: what becomes of each row. A file that is there with the recorded size and
    digest makes a success, anything else starts over. *)
Fixpoint commit_items (o : MigrationOptions) (cs : list commitEntry) : FS (list ItemReport) :=
  match cs with
  | [] => done! []
  | c :: cs =>
      do! ok := verifyDiskFile (c_savePath c) (c_fileSize c) (c_sha256Hex c) (TargetDir o) (ArchiveDir o) in
      do! rest := commit_items o cs in
      done! (Item "target_commits" (c_key c) (c_savePath c) (c_fileSize c) (c_sha256Hex c) "committed"
               (if ok : bool then DispositionImportSuccess else DispositionResetPending) :: rest)
  end.
Definition committed_key (cs : list commitEntry) (k : key) : bool :=
  existsb (λ c, String.eqb (CanonicalTaskID (c_key c).1 (c_key c).2) (CanonicalTaskID k.1 k.2)) cs.
Definition attempt_items (cs : list commitEntry) (l : list attemptEntry) : list ItemReport :=
  omap (λ a, if committed_key cs (a_key a) then None
             else Some (Item "spool_attempts" (a_key a) "" 0 "" (a_state a) DispositionResetPending)) l.
Fixpoint record_items (o : MigrationOptions) (cs : list commitEntry) (rs : list (key * download_row))
    : FS (list ItemReport) :=
  match rs with
  | [] => done! []
  | (k, r) :: rs =>
      if committed_key cs k then record_items o cs rs
      else
        let path := coalesce "" (save_path r) in
        let size := coalesce 0 (file_size r) in
        let sha := coalesce "" (sha256 r) in
        do! ok := verifyDiskFile path size sha (TargetDir o) (ArchiveDir o) in
        do! rest := record_items o cs rs in
        done! (Item "download_records" k path size sha (status r)
                 (if ok && (0 <? size) then DispositionImportSuccess else DispositionResetPending) :: rest)
  end.

(** Step 9: left-over files of the buffer directory. *)
Definition is_leftover (name : string) : bool :=
  HasSuffix name ".spool" || HasSuffix name ".part" || Contains name "segment".
Definition leftovers (bufferDir : string) (d : disk) : list (string * node) :=
  filter (λ kv, negb (is_dir kv.2) && is_leftover (Base kv.1) = true)
    (Walk bufferDir d).
Definition inspect_buffer (bufferDir : string) : MM (list (string * node)) :=
  if decide (bufferDir = "") then return! []
  else
    let! st := m_fs (Stat (Clean bufferDir)) in
    match st with
    | Err ENOENT => return! []
    | Err _ => fail! "stat buffer directory"
    | Ok (FileNode _) => return! []
    | Ok DirNode => or_fail "inspect buffer directory" (sys (λ d, (Ok (leftovers bufferDir d), d)))
    end.
Definition buffer_item (pn : string * node) : ItemReport :=
  Item "buffer_filesystem" ("", 0) pn.1 (node_size pn.2) "" "" DispositionBufferClean.

(** Step 10. The integrity check is a statement on the copy. *)
Definition createVerifiedBackup (dbPath stamp : string) : MM string :=
  let backupPath := dbPath +:+ ".migrate." +:+ stamp +:+ ".bak" in
  let! data := or_fail "open src db" (ReadFile dbPath) in
  let! _ := or_fail "create dst backup" (OpenTrunc backupPath) in
  let! _ := or_fail "copy db" (WriteData backupPath data) in
  let! _ := or_fail "sync dst backup" Fsync in
  let! _ := or_fail "close dst backup" Close in
  let! _ := m_query "backup integrity check failed" (λ _, tt) in
  return! backupPath.

(** ** The changes *)

(** Step 11: the upserts. *)
Definition import_row (now : Z) (i : ItemReport) (old : option download_row) : download_row :=
  match old with
  | None => DRow "success" (Some (Base (it_SavePath i))) (Some (it_SavePath i)) (Some "") (Some (it_Size i))
              (Some (it_SHA256 i)) None now now (Some now) None 0 0 ""
  | Some r =>
      if decide (status r = "archived") then r
      else DRow "success" (file_name r) (Some (it_SavePath i)) (media_type r) (Some (it_Size i))
             (Some (it_SHA256 i)) (error r) (created_at r) now (downloaded_at r) (processing_started_at r)
             (attempts r) (next_retry_at r) (attempt_generation r)
  end.
Definition reset_row (now : Z) (i : ItemReport) (old : option download_row) : download_row :=
  match old with
  | None => DRow "pending" (Some (Base (it_SavePath i))) (Some (it_SavePath i)) (Some "") (Some (it_Size i)) None
              (Some "legacy_incomplete_reset") now now None None 0 0 ""
  | Some r =>
      if decide (status r = "success" ∨ status r = "archived") then r
      else set_updated_at now (set_error (Some "legacy_incomplete_reset") (set_status "pending" r))
  end.
Definition upsert_l (k : key) (f : option download_row → download_row) (d : legacy_db) : legacy_db :=
  match l_records d with
  | Some t => set_l_records (Some (<[k := f (t !! k)]> t)) d
  | None => d
  end.
Fixpoint apply_items (now : Z) (items : list ItemReport) : MM unit :=
  match items with
  | [] => return! tt
  | i :: items =>
      let! _ := match Disposition i with
                | DispositionImportSuccess => m_exec "import success record" (upsert_l (it_key i) (import_row now i))
                | DispositionResetPending => m_exec "reset pending record" (upsert_l (it_key i) (reset_row now i))
                | DispositionBufferClean => return! tt
                end in
      apply_items now items
  end.

(** Step 12: what will be staged where. *)
Fixpoint stage_plan (qDir : string) (idx : Z) (ps : list string) : MM (list QuarantineFileEntry) :=
  match ps with
  | [] => return! []
  | p :: ps =>
      let name := "staged_" +:+ itoa idx +:+ "_" +:+ Base p in
      let! n := or_fail "stat planned buffer file" (Stat p) in
      let! sha := or_fail "hash planned buffer file" (computeFileSHA256 p) in
      let! rest := stage_plan qDir (idx + 1) ps in
      return! (QEntry p name (Join qDir name) (node_size n) sha :: rest)
  end.
Definition write_manifest (qDir : string) (m : QuarantineManifest) : MM unit :=
  let! _ := or_fail "create quarantine manifest" (OpenTrunc (manifest_path qDir)) in
  let! _ := or_fail "write quarantine manifest" (WriteData (manifest_path qDir) (manifestData m)) in
  let! _ := or_fail "fsync quarantine manifest file" Fsync in
  let! _ := or_fail "close quarantine manifest file" Close in
  let! _ := or_fail "open quarantine dir for fsync" (open_dir qDir) in
  let! _ := or_fail "fsync quarantine directory" Fsync in
  or_fail "close quarantine directory" Close.
Fixpoint stage_files (fs : list QuarantineFileEntry) : MM unit :=
  match fs with
  | [] => return! tt
  | f :: fs =>
      let! _ := or_fail "stat buffer file before staging" (Stat (OriginalPath f)) in
      let! _ := or_fail "stage buffer file to quarantine"
                  (durableNoReplaceMove (OriginalPath f) (StagedPath f) (q_Size f) (q_SHA256 f)) in
      stage_files fs
  end.
Definition stage (qDir : string) (id : string) (now : Z) (planned : list string) : MM (list QuarantineFileEntry) :=
  let! _ := or_fail "create quarantine directory" (MkdirAll qDir) in
  let! staged := stage_plan qDir 0 planned in
  let! _ := write_manifest qDir (Manifest id qDir now staged) in
  let! _ := stage_files staged in
  return! staged.

Fixpoint drop_tables (tbls : list string) : MM unit :=
  match tbls with
  | [] => return! tt
  | t :: tbls => let! _ := m_exec "drop legacy table" (drop_table t) in drop_tables tbls
  end.

(** The statements before anything is staged. The columns that may have to be added to an
    old table are taken to be there. *)
Definition import_rows (now : Z) (r : MigrationReport) : MM unit :=
  let! _ := m_exec "ensure download_records" (λ d, match l_records d with
                                                   | Some _ => d
                                                   | None => set_l_records (Some ∅) d
                                                   end) in
  apply_items now (Items r).

(** The id of the migration is the primary key of its verdict. *)
Definition insert_verdict (id : string) : MM unit :=
  let! ok := m_stmt "insert migration verdict" (λ d,
               match l_verdicts d with
               | Some t => if decide (t !! id = None) then (true, set_l_verdicts (Some (<[id := "COMMITTED"]> t)) d)
                           else (false, d)
               | None => (false, d)
               end) in
  if ok : bool then return! tt else fail! "insert migration verdict".
(** Staging and the statements up to the commit. *)
Definition stage_and_record (o : MigrationOptions) (now : Z) (r : MigrationReport) (qDir id : string)
    : MM (list QuarantineFileEntry) :=
  let! staged := (if decide (qDir = "") then return! [] else stage qDir id now (PlannedCleanFiles r)) in
  let! _ := (if DropLegacyTables o then drop_tables (LegacyTablesFound r) else return! tt) in
  let! _ := m_exec "ensure migration verdicts table" (λ d, match l_verdicts d with
                                                           | Some _ => d
                                                           | None => set_l_verdicts (Some ∅) d
                                                           end) in
  let! _ := (if decide (qDir = "") then return! tt
             else insert_verdict id) in
  return! staged.

(** [tx.Commit()]: the changes are kept, or not; an error may hide that they were. *)
Definition commit_tx (d0 : legacy_db) : MM unit := λ s,
  match ms_faults s with
  | Fails :: rest => (Err "commit migration transaction", MSt (ms_fs s) d0 rest)
  | FailsLate :: rest => (Err "commit migration transaction", MSt (ms_fs s) (ms_db s) rest)
  | rest => (Ok tt, MSt (ms_fs s) (ms_db s) (tl rest))
  end.

(** Steps 11 to 14, with the deferred rollback and reconciliation. *)
Definition rollback (d0 : legacy_db) (s : mstate) : mstate := MSt (ms_fs s) d0 (ms_faults s).

Definition migration_id (env : run_env) : string := "mig_" +:+ itoa (e_now env) +:+ "_" +:+ itoa (e_pid env).
Definition quarantine_dir (o : MigrationOptions) (env : run_env) (r : MigrationReport) : string :=
  match PlannedCleanFiles r with
  | [] => ""
  | _ => if decide (BufferDir o = "") then ""
         else Join (BufferDir o) (quarantine_prefix +:+ itoa (e_now env))
  end.

(** Staging, the other statements and the commit; the state is rolled back on an error. *)
Definition stage_and_commit (o : MigrationOptions) (env : run_env) (r : MigrationReport) (qDir : string)
    (d0 : legacy_db) : MM (list QuarantineFileEntry) := λ s,
  match stage_and_record o (e_now env) r qDir (migration_id env) s with
  | (Err e, s) => (Err e, rollback d0 s)
  | (Ok staged, s) => st_bind (commit_tx d0) (λ _, st_ret staged) s
  end.

Definition apply_changes (o : MigrationOptions) (env : run_env) (r : MigrationReport) : MM MigrationReport := λ s,
  let qDir := quarantine_dir o env r in
  match m_query "begin transaction" (λ d, d) s with
  | (Err e, s) => (Err e, s)
  | (Ok d0, s) =>
      match import_rows (e_now env) r s with
      | (Err e, s) => (Err e, rollback d0 s)
      | (Ok _, s) =>
          match stage_and_commit o env r qDir d0 s with
          | (Err e, s) =>
              if decide (qDir = "") then (Err e, s)
              else let (_, s) := ReconcilePendingQuarantines (DBPath o) (BufferDir o) s in (Err e, s)
          | (Ok staged, s) =>
              (let! _ := (if decide (qDir = "") then return! tt
                          else let! _ := purge_files staged in remove_quarantine qDir) in
               return! (Report (BackupPath r) (LegacyTablesFound r) (TotalLegacyRows r) (ImportedSuccess r)
                          (ResetPending r) (if DropLegacyTables o then LegacyTablesFound r else [])
                          (PlannedCleanFiles r) (OriginalPath <$> staged) (Items r))) s
          end
      end
  end.

Definition count_disposition (p : LegacyDisposition → bool) (items : list ItemReport) : nat :=
  length (filter (λ i, p (Disposition i) = true) items).

Definition Run (o : MigrationOptions) (env : run_env) : MM MigrationReport :=
  if decide (DBPath o = "") then fail! "db-path must be specified"
  else
    let! st := m_fs (Stat (DBPath o)) in
    match st with
    | Err ENOENT => fail! "database file does not exist"
    | _ =>
        let! _ := (if decide (BufferDir o ≠ "" ∧ DryRun o = false) then
                     ReconcilePendingQuarantines (DBPath o) (BufferDir o)
                   else return! (Reconciled 0 [] [] [])) in
        let! tables := discover legacyTableCandidates in
        let! drExists := m_query "check download_records" (λ d, bool_decide (is_Some (l_records d))) in
        let! commits := (if decide ("target_commits" ∈ tables) then m_query "query target_commits" (λ d, default [] (l_commits d))
                         else return! []) in
        let! attempts := (if decide ("spool_attempts" ∈ tables) then m_query "query spool_attempts" (λ d, default [] (l_attempts d))
                          else return! []) in
        let! recs := (if drExists : bool then m_query "query legacy download_records" legacy_records else return! []) in
        let! ci := m_fs (commit_items o commits) in
        let ai := attempt_items commits attempts in
        let! ri := m_fs (record_items o commits recs) in
        let! buf := inspect_buffer (BufferDir o) in
        let items := ci ++ ai ++ ri ++ (buffer_item <$> buf) in
        let is_import d := match d with DispositionImportSuccess => true | _ => false end in
        let is_reset d := match d with DispositionResetPending => true | _ => false end in
        let total := (length commits + length attempts + length recs)%nat in
        let report backup := Report backup tables total (count_disposition is_import items)
                               (count_disposition is_reset items) [] (fst <$> buf) [] items in
        if DryRun o then return! (report "")
        else
          let! backup := (if CreateBackup o && (0 <? Z.of_nat total) then createVerifiedBackup (DBPath o) (e_stamp env)
                          else return! "") in
          apply_changes o env (report backup)
    end.

End Migrator.
