(* ===== verification/MigratorProps.v ===== *)
(** * The pieces of a migration

    The manifest reads back as it was written; the durable move never overwrites and never
    leaves a file without a copy; reconciling touches nothing outside its quarantine but what
    it restores, and keeps a quarantine sound that has no verdict. *)
From S2P Require Import Json.
From S2P Require Import Prelude Paths Fscommit Sql World Archive Planner Migrator.

(** ** The manifest *)

Lemma json_entry_written e : in_int64 (q_Size e) → json_entry (entry_json e) = Some e.
Proof.
  intros He. destruct e as [o n p s h]. unfold entry_json, json_entry, string_field, int_field. simpl in *.
  by rewrite decide_True.
Qed.

(** Sizes and times are 64-bit integers. *)
Definition int64_manifest (m : QuarantineManifest) : Prop :=
  in_int64 (q_CreatedAt m) ∧ Forall (λ e, in_int64 (q_Size e)) (Files m).
#[export] Instance int64_manifest_dec m : Decision (int64_manifest m).
Proof. unfold int64_manifest, in_int64. apply _. Defined.

Lemma manifest_reads_back m : int64_manifest m → parse_manifest (manifestData m) = Some m.
Proof.
  intros [Hc Hf]. unfold parse_manifest, manifestData. rewrite unmarshal_marshal. simpl.
  destruct m as [i q c l]. unfold string_field, int_field. simpl in *. rewrite decide_True by done. simpl.
  assert (mapM json_entry (map entry_json l) = Some l) as ->; [|done].
  apply mapM_Some. induction Hf as [|e l He _ IH]; constructor; [by apply json_entry_written|done].
Qed.

(** The manifest survives its file: what [Unmarshal] reads from the text [MarshalIndent]
    wrote is the manifest, for any paths, names and digests, quotes, backslashes and control
    characters included, as long as sizes and times are 64-bit integers; so two manifests
    with the same text are the same. *)
Theorem manifest_roundtrip (m : QuarantineManifest) :
  int64_manifest m →
  parse_manifest (manifestData m) = Some m ∧
  (∀ m', int64_manifest m' → manifestData m' = manifestData m → m' = m).
Proof.
  intros Hm. split; [by apply manifest_reads_back|]. intros m' Hm' Heq.
  pose proof (manifest_reads_back m' Hm') as H. rewrite Heq, manifest_reads_back in H by done. by injection H.
Qed.

Definition toy_manifest : QuarantineManifest :=
  Manifest "mig_1_2" "/buf/q" 1 [QEntry "/buf/a\b.part" "staged_0_a\b.part" "/buf/q/staged_0_a\b.part" 3 "sha:aaa"].
Lemma manifest_roundtrip_witness :
  int64_manifest toy_manifest ∧ parse_manifest (manifestData toy_manifest) = Some toy_manifest.
Proof.
  assert (int64_manifest toy_manifest) as H by (apply (bool_decide_unpack _); by vm_compute).
  split; [exact H|]. exact (proj1 (manifest_roundtrip toy_manifest H)).
Defined.

(** ** The durable move *)

Section Move.
Context (sha256Hex cut : string → string).
Context (src dst : string) (Hne : src ≠ dst).

(** How far a move got: not at all; a destination that may be unfinished, unless success was
    reported; or done. *)
Inductive moved (d : disk) : bool → disk → Prop :=
| moved_not : moved d false d
| moved_part ok x :
    d !! dst = None → (ok = true → d !! src = Some (FileNode x)) → moved d ok (<[dst := FileNode x]> d)
| moved_done ok data :
    d !! dst = None → d !! src = Some (FileNode data) → moved d ok (<[dst := FileNode data]> (delete src d)).

Lemma delete_new (d : disk) (x : node) : d !! dst = None → delete dst (<[dst := x]> d) = d.
Proof. intros Hd. by rewrite delete_insert_eq, delete_id. Qed.

Lemma moved_undo (d : disk) x s r s' :
  d !! dst = None → files s = <[dst := FileNode x]> d → Remove dst s = (r, s') → moved d false (files s').
Proof.
  intros Hd Hs [->|[_ ->]]%Remove_spec; rewrite Hs; [by constructor|]. rewrite delete_new by done. constructor.
Qed.

(** A step on a destination that holds [x]: either the move ends undone, or it goes on. *)
Lemma undo_spec {A} (m : FS (res errno A)) k (d : disk) x s r s' :
  d !! dst = None → files s = <[dst := FileNode x]> d →
  (∀ a s1, m s = (Ok a, s1) → k a s1 = (r, s') → moved d (is_ok r) (files s')) →
  (∀ e s1, m s = (Err e, s1) → ∃ y, files s1 = <[dst := FileNode y]> d) →
  undo dst m k s = (r, s') → moved d (is_ok r) (files s').
Proof.
  intros Hd Hs Hk He. unfold undo, sm_bind, sm_ret. destruct (m s) as [[a|e] s1] eqn:Hm; [by apply Hk|].
  destruct (Remove dst s1) as [r2 s2] eqn:Hr. intros [= <- <-].
  destruct (He e s1 eq_refl) as [y Hy]. by eapply moved_undo.
Qed.

Lemma remove_src_spec (d : disk) data s r s' :
  d !! dst = None → d !! src = Some (FileNode data) → files s = <[dst := FileNode data]> d →
  remove_src src s = (r, s') → moved d (is_ok r) (files s').
Proof.
  intros Hd Hsrc Hs. unfold remove_src, sm_bind, stop, sm_bind, sm_ret.
  destruct (Remove src s) as [r1 s1] eqn:H1. apply Remove_spec in H1.
  assert (∀ ok, moved d ok (files s1)) as Hm.
  { intros ok. destruct H1 as [->|[_ ->]]; rewrite Hs; [by constructor|]. rewrite delete_insert_ne by done. by constructor. }
  assert (∀ s r s', (do! r0 := open_dir (Dir src) in match r0 with
      | Ok _ => do! r1 := Fsync in match r1 with Ok _ => Close | Err e => done! (Err e) end
      | Err e => done! (Err e) end) s = (r, s') → files s' = files s) as Htail.
  { clear. intros s r s'. unfold sm_bind, sm_ret.
    destruct (open_dir _ s) as [[u|e] s1] eqn:H1; apply sys_reads in H1; [|congruence].
    destruct (Fsync s1) as [[u'|e] s2] eqn:H2; apply sys_reads in H2; [|congruence].
    intros H3. apply sys_reads in H3. congruence. }
  unfold sm_bind, sm_ret in Htail.
  destruct r1 as [u|[]]; try (intros [= <- <-]; apply Hm); intros He; apply Htail in He; by rewrite He.
Qed.

Lemma verify_dst_spec (d : disk) data n sha s r s' :
  d !! dst = None → d !! src = Some (FileNode data) → files s = <[dst := FileNode data]> d →
  verify_dst sha256Hex dst n sha (remove_src src) s = (r, s') → moved d (is_ok r) (files s').
Proof.
  intros Hd Hsrc. unfold verify_dst.
  assert (∀ A (m : FS (res errno A)) k, (∀ s r s', m s = (r, s') → files s' = files s) →
    (∀ a s r s', files s = <[dst := FileNode data]> d → k a s = (r, s') → moved d (is_ok r) (files s')) →
    ∀ s r s', files s = <[dst := FileNode data]> d → undo dst m k s = (r, s') → moved d (is_ok r) (files s')) as Hundo.
  { intros A m k Hm Hk s0 r0 s0' Hs0. apply (undo_spec m k d data s0 r0 s0' Hd Hs0).
    - intros a s1 H1. apply Hk. by rewrite (Hm _ _ _ H1).
    - intros e s1 H1. exists data. by rewrite (Hm _ _ _ H1). }
  assert (∀ s r s', files s = <[dst := FileNode data]> d →
    sm_bind (Remove dst) (λ _, sm_ret (@Err errno unit EIO)) s = (r, s') → moved d (is_ok r) (files s')) as Hbad.
  { intros s0 r0 s0' Hs0. unfold sm_bind, sm_ret. destruct (Remove dst s0) as [r1 s1] eqn:H1.
    intros [= <- <-]. by eapply moved_undo. }
  intros Hs. revert s r s' Hs. apply Hundo; [intros *; apply sys_reads|]. intros _.
  apply Hundo; [intros *; apply sys_reads|]. intros _.
  apply Hundo; [intros *; apply sys_reads|]. intros _.
  apply Hundo; [intros * H; by apply Stat_spec in H as [? _]|]. intros node s r s' Hs.
  destruct (_ && _); [by apply Hbad|]. case_decide; [by eapply remove_src_spec|].
  revert s r s' Hs. apply Hundo; [intros * H'; by apply ComputeFileSHA256_spec in H' as [? _]|].
  intros h s r s' Hs. case_decide; [by eapply remove_src_spec|by apply Hbad].
Qed.

Lemma link_or_copy_spec n sha s r s' :
  link_or_copy cut src dst (verify_dst sha256Hex dst n sha (remove_src src)) s = (r, s') →
  moved (files s) (is_ok r) (files s').
Proof.
  unfold link_or_copy, sm_bind at 1. destruct (Linkat src dst s) as [l s1] eqn:Hl. apply Linkat_spec in Hl.
  destruct l as [u|e].
  { destruct Hl as (data & Hsrc & Hd & Hs1). by eapply verify_dst_spec. }
  rewrite <- Hl. clear Hl.
  assert (stop (OpenExcl dst) (λ _, undo dst (ReadFile src) (λ data, undo dst (WriteData cut dst data) (λ _,
      do! sy := Fsync in do! cl := Close in
      match sy, cl with
      | Err e, _ | _, Err e => do! _ := Remove dst in done! (Err e)
      | _, _ => verify_dst sha256Hex dst n sha (remove_src src)
      end))) s1 = (r, s') → moved (files s1) (is_ok r) (files s')) as Hcopy.
  { unfold stop, sm_bind at 1. destruct (OpenExcl dst s1) as [op s2] eqn:Ho. apply sys_files in Ho.
    destruct op as [u|e']; [|unfold sm_ret; intros [= <- <-]; destruct Ho as [(? & _ & ->)|Ho];
      [apply moved_not|destruct (files s1 !! dst); simplify_eq;
      match goal with H : files s1 = _ |- _ => rewrite <- H end; apply moved_not]].
    destruct Ho as [(? & ? & _)|Ho]; [done|]. destruct (files s1 !! dst) eqn:Hd; [done|].
    injection Ho as _ Hs2. symmetry in Hs2. apply (undo_spec _ _ _ _ _ _ _ Hd Hs2).
    - intros data s3 Hr. apply ReadFile_spec in Hr as [Hs3 Hsrc]. rewrite Hs2 in Hs3, Hsrc.
      rewrite lookup_insert_ne in Hsrc by done. apply (undo_spec _ _ _ _ _ _ _ Hd Hs3).
      + intros a s4 Hw. assert (files s4 = <[dst := FileNode data]> (files s1)) as Hs4.
        { revert Hw. unfold WriteData. destruct (osfaults s3) as [|[?|] ?]; [|done|];
            intros [= _ <-]; simpl; by rewrite Hs3, insert_insert_eq. }
        unfold sm_bind. destruct (Fsync s4) as [sy s5] eqn:H5. apply sys_reads in H5.
        destruct (Close s5) as [cl s6] eqn:H6. apply sys_reads in H6.
        assert (files s6 = <[dst := FileNode data]> (files s1)) as Hs6 by congruence.
        destruct sy as [?|?], cl as [?|?]; [by eapply verify_dst_spec|..];
          (destruct (Remove dst s6) as [r7 s7] eqn:H7; unfold sm_ret; intros [= <- <-]; by eapply moved_undo).
      + intros e' s4 Hw. exists (cut data). revert Hw. unfold WriteData.
        destruct (osfaults s3) as [|[?|] ?]; [done| |done]. intros [= _ <-]. simpl. by rewrite Hs3, insert_insert_eq.
    - intros e' s3 Hr. apply ReadFile_spec in Hr as [Hs3 _]. exists "". congruence. }
  destruct e; try exact Hcopy. unfold sm_ret. intros [= <- <-]. constructor.
Qed.

Lemma move_spec n sha s r s' :
  durableNoReplaceMove sha256Hex cut src dst n sha s = (r, s') → moved (files s) (is_ok r) (files s').
Proof.
  unfold durableNoReplaceMove. set (m1 := if n <=? 0 then _ else _). unfold sm_bind at 1.
  destruct (m1 s) as [n1 s1] eqn:H1. assert (files s1 = files s) as <-.
  { revert H1. subst m1. destruct (n <=? 0); [|by intros [= _ <-]]. unfold sm_bind, sm_ret.
    destruct (Stat src s) as [st s2] eqn:H2. apply Stat_spec in H2 as [H2 _]. by intros [= _ <-]. }
  set (m2 := if decide (sha = "") then _ else _). unfold sm_bind at 1.
  destruct (m2 s1) as [sha1 s2] eqn:H2. assert (files s2 = files s1) as <-.
  { revert H2. subst m2. case_decide; [|by intros [= _ <-]]. unfold sm_bind, sm_ret, computeFileSHA256.
    destruct (ComputeFileSHA256 _ _ _) as [h s3] eqn:H3. apply ComputeFileSHA256_spec in H3 as [H3 _].
    by intros [= _ <-]. }
  apply link_or_copy_spec.
Qed.

End Move.

(** ** What reconciling leaves alone *)

(** [m] takes the state along [R]. *)
Definition malong {A} (R : mstate → mstate → Prop) (m : MM A) : Prop := ∀ s, R s (m s).2.

Section Along.
Context (R : mstate → mstate → Prop) `{!Reflexive R, !Transitive R}.

Lemma malong_ret {A} (x : A) : malong R (st_ret x).
Proof. intros s. reflexivity. Qed.
Lemma malong_err {A} e : malong (A:=A) R (st_err e).
Proof. intros s. reflexivity. Qed.
Lemma malong_bind {A B} (m : MM A) (k : A → MM B) : malong R m → (∀ x, malong R (k x)) → malong R (st_bind m k).
Proof.
  intros Hm Hk s. unfold st_bind. specialize (Hm s). destruct (m s) as [[x|e] s']; [|done].
  simpl in Hm. transitivity s'; [done|apply Hk].
Qed.
End Along.

Lemma malong_run {A} R (m : MM A) s r s' : malong R m → m s = (r, s') → R s s'.
Proof. intros Hm He. specialize (Hm s). by rewrite He in Hm. Qed.

(** Files at [q] stay, and the database is untouched. *)
Definition kept_at (q : string) (s s' : mstate) : Prop :=
  (∀ n, files (ms_fs s) !! q = Some n → files (ms_fs s') !! q = Some n) ∧ ms_db s' = ms_db s.
#[export] Instance kept_at_refl q : Reflexive (kept_at q).
Proof. by intros s. Qed.
#[export] Instance kept_at_trans q : Transitive (kept_at q).
Proof. intros s1 s2 s3 [H1 D1] [H2 D2]. split; [auto|congruence]. Qed.

Lemma kept_fs {A} q (m : FS A) : fkeeps q m → malong (kept_at q) (m_fs m).
Proof.
  intros Hm s. unfold m_fs. pose proof (Hm (ms_fs s)) as Hs. destruct (m (ms_fs s)) as [x f]. by split.
Qed.
Lemma kept_query {A} q text (f : legacy_db → A) : malong (kept_at q) (m_query text f).
Proof. intros s. unfold m_query, m_stmt. by destruct (ms_faults s) as [|[] ?]. Qed.

Ltac m_step base :=
  lazymatch goal with
  | |- malong _ (st_bind _ _) => apply malong_bind; [apply _| |intros ?]
  | |- malong _ (st_ret _) => apply malong_ret; apply _
  | |- malong _ (st_err _) => apply malong_err; apply _
  | |- malong _ (or_fail _ _) => unfold or_fail
  | |- malong _ (match ?x with _ => _ end) => destruct x
  | |- _ => base
  end.
Ltac m_auto base := repeat (m_step base).

Section Frame.
Context (sha256Hex cut : string → string) (q : string).

Lemma fkeeps_undo {A} p (m : FS (res errno A)) k :
  p ≠ q → fkeeps q m → (∀ x, fkeeps q (k x)) → fkeeps q (undo p m k).
Proof.
  intros Hp Hm Hk. apply fkeeps_bind; [done|]. intros [x|e]; [apply Hk|].
  apply fkeeps_bind; [by apply fkeeps_Remove|]. by intros x s.
Qed.
Lemma fkeeps_stop {A B} (m : FS (res errno A)) (k : A → FS (res errno B)) :
  fkeeps q m → (∀ x, fkeeps q (k x)) → fkeeps q (stop m k).
Proof. intros Hm Hk. apply fkeeps_bind; [done|]. intros [x|e]; [apply Hk|]. by intros s. Qed.
Lemma fkeeps_ret {A} (x : A) : fkeeps q (sm_ret x).
Proof. by intros s. Qed.
Lemma fkeeps_reads {A} (g : disk → res errno A) : fkeeps q (sys (λ d, (g d, d))).
Proof. by apply fkeeps_sys. Qed.
Lemma fkeeps_write p data : p ≠ q → fkeeps q (WriteData cut p data).
Proof.
  intros Hp s n Hn. unfold WriteData. destruct (osfaults s) as [|[]]; simpl; by rewrite lookup_insert_ne.
Qed.
Lemma fkeeps_OpenTrunc p : p ≠ q → fkeeps q (OpenTrunc p).
Proof.
  intros Hp. apply fkeeps_sys. intros d n Hn. destruct (d !! p) as [[]|]; simpl; [done|..]; by rewrite lookup_insert_ne.
Qed.
Lemma fkeeps_OpenExcl p : fkeeps q (OpenExcl p).
Proof.
  apply fkeeps_sys. intros d n Hn. destruct (d !! p) as [x|] eqn:Hp; simpl; [done|].
  rewrite lookup_insert_ne; [done|]. intros ->. congruence.
Qed.

Lemma fkeeps_Linkat src dst : dst ≠ q → fkeeps q (Linkat src dst).
Proof.
  intros Hd. apply fkeeps_sys. intros d n Hn. destruct (d !! src) as [[]|], (d !! dst); simpl; try done.
  by rewrite lookup_insert_ne.
Qed.

(** A move keeps what is not its source: its destination is new. *)
Lemma fkeeps_move src dst n sha : src ≠ q → fkeeps q (durableNoReplaceMove sha256Hex cut src dst n sha).
Proof.
  intros Hq. destruct (decide (dst = q)) as [->|Hd].
  - intros s x Hx. destruct (durableNoReplaceMove _ _ _ _ _ _ _) as [r s'] eqn:Hm.
    apply move_spec in Hm; [|done]. simpl. destruct Hm; congruence.
  - unfold durableNoReplaceMove, link_or_copy, verify_dst, remove_src, computeFileSHA256.
    repeat first
      [ apply fkeeps_ret | apply fkeeps_Stat | apply fkeeps_Linkat; done | apply fkeeps_SHA | apply fkeeps_Fsync | apply fkeeps_OpenExcl
      | apply fkeeps_write; done | apply fkeeps_Remove; done | apply fkeeps_reads
      | apply fkeeps_undo; [done| |intros ?] | apply fkeeps_stop; [|intros ?] | apply fkeeps_bind; [|intros ?]
      | match goal with |- fkeeps _ (match ?x with _ => _ end) => destruct x end ].
Qed.
Lemma fkeeps_RemoveAll p : below p q = false → fkeeps q (RemoveAll p).
Proof.
  intros Hb. apply fkeeps_sys. intros d n Hn. simpl. by apply map_lookup_filter_Some.
Qed.
End Frame.

Create HintDb mig.
#[export] Hint Resolve kept_fs kept_query fkeeps_Stat fkeeps_Fsync fkeeps_SHA fkeeps_Remove fkeeps_MkdirAll
  fkeeps_move fkeeps_RemoveAll fkeeps_reads : mig.
Ltac kept := m_auto ltac:(first [done|solve [eauto with mig]]).

(** *** Paths of a quarantine *)

Lemma below_refl p : below p p = true.
Proof. by apply bool_decide_eq_true. Qed.
Lemma below_false p q x : below p q = true → below p x = false → q ≠ x.
Proof. by intros Hq Hx ->; rewrite Hq in Hx. Qed.

Section QuarantinePaths.
Context (qDir : string) (Habs : IsAbs qDir = true).

Lemma comps_member name : plain name → comps (Join qDir name) = comps qDir ++ [name] ∧ IsAbs (Join qDir name) = true.
Proof. intros Hp. apply (Join_plain qDir [name]); [done|done|by constructor]. Qed.
Lemma below_member p name : comps p = comps qDir ++ [name] → below qDir p = true.
Proof. intros Hp. apply bool_decide_eq_true. rewrite Hp. by apply prefix_app_r. Qed.

Lemma plain_manifest : plain "quarantine_manifest.json".
Proof. unfold plain. split_and!; [done..|]. apply (bool_decide_unpack _). by vm_compute. Qed.
Lemma manifest_below : below qDir (manifest_path qDir) = true.
Proof. eapply below_member. apply comps_member, plain_manifest. Qed.

Lemma Contains_slash s : Contains s "/" = false → no_slash s.
Proof.
  unfold no_slash. induction s as [|c s IH]; [set_solver|]. cbn [Contains].
  destruct (String.prefix "/" (String c s)) eqn:Hp; [done|]. intros Hc. cbn [String.list_ascii_of_string].
  intros [Hs|Hs]%elem_of_cons; [|by apply IH]. revert Hp. rewrite <- Hs. cbn. by destruct s.
Qed.

Lemma valid_staged bufferDir f :
  valid_entry qDir bufferDir f = true →
  plain (StagedName f) ∧ comps (staged f) = comps qDir ++ [StagedName f] ∧ below qDir (staged f) = true.
Proof.
  unfold valid_entry. rewrite !andb_true_iff, negb_true_iff, !orb_false_iff, !bool_decide_eq_false, bool_decide_eq_true.
  intros [[[[[[H1 H2] H3] H4] Hp] _] _].
  assert (plain (StagedName f)) as Hplain by (split_and!; [done..|by apply Contains_slash]).
  assert (comps (staged f) = comps qDir ++ [StagedName f]) as Hc.
  { unfold staged. rewrite Hp. destruct (comps_member _ Hplain) as [<- Ha]. by apply comps_Clean_abs. }
  split_and!; [done..|by eapply below_member].
Qed.
End QuarantinePaths.

(** Reconciling a directory leaves every file outside it as it is, whatever its manifest says
    and whatever fails. *)
Section ReconcileFrame.
Context (sha256Hex cut : string → string) (qDir bufferDir q : string).
Hypothesis (Habs : IsAbs qDir = true) (Hq : below qDir q = false).

Lemma kept_staged f : valid_entry qDir bufferDir f = true → staged f ≠ q.
Proof. intros Hf. eapply below_false; [by eapply valid_staged|done]. Qed.
Hint Resolve kept_staged : mig.

Lemma kept_ignoring text p : p ≠ q → malong (kept_at q) (remove_ignoring_missing text p).
Proof. intros Hp. unfold remove_ignoring_missing. kept. Qed.
Hint Resolve kept_ignoring : mig.

Lemma kept_purge fs : Forall (λ f, valid_entry qDir bufferDir f = true) fs → malong (kept_at q) (purge_files fs).
Proof. induction 1 as [|f fs Hf _ IH]; cbn [purge_files]; kept. Qed.
Lemma kept_remove_quarantine : malong (kept_at q) (remove_quarantine qDir).
Proof.
  unfold remove_quarantine. pose proof (below_false _ _ _ (manifest_below qDir Habs) Hq). kept.
Qed.
Lemma kept_check p n f : malong (kept_at q) (check_copy sha256Hex p n f).
Proof. unfold check_copy, computeFileSHA256. kept. Qed.
Hint Resolve kept_check kept_remove_quarantine kept_purge : mig.
Lemma kept_plan fs : malong (kept_at q) (plan_all sha256Hex fs).
Proof. induction fs as [|f fs IH]; cbn [plan_all]; unfold plan_entry; kept. Qed.

Lemma kept_restore (ps : list (QuarantineFileEntry * bool * bool)) :
  Forall (λ p, staged p.1.1 ≠ q) ps → malong (kept_at q) (restore_all sha256Hex cut ps).
Proof.
  induction 1 as [|[[f se] oe] ps Hv _ IH]; cbn [restore_all]; [kept|]. simpl in *.
  unfold restore_entry. destruct se, oe; kept.
Qed.
Lemma kept_post fs : malong (kept_at q) (post_all fs).
Proof. induction fs as [|f fs IH]; cbn [post_all]; unfold post_check; kept. Qed.

Lemma plan_all_entries fs s ps s' : plan_all sha256Hex fs s = (Ok ps, s') → (λ p, p.1.1) <$> ps = fs.
Proof.
  revert s ps s'. induction fs as [|f fs IH]; intros s ps s'; cbn [plan_all]; [by intros [= <- _]|].
  unfold st_bind at 1. destruct (plan_entry sha256Hex f s) as [[p|e] s1] eqn:Hp; [|done].
  unfold st_bind. destruct (plan_all sha256Hex fs s1) as [[ps'|e] s2] eqn:Hps; [|done].
  intros [= <- _]. simpl. f_equal; [|by eapply IH].
  revert Hp. unfold plan_entry, st_bind, m_fs, st_ret, st_err.
  destruct (Stat (staged f) _) as [[?|[]] ?]; destruct (Stat (original f) _) as [[?|[]] ?]; try done;
    repeat (match goal with |- context [check_copy ?a ?b ?c ?d ?e] =>
      destruct (check_copy a b c d e) as [[?|?] ?] end; [|done]); by intros [= <- _].
Qed.

Lemma kept_committed id : malong (kept_at q) (isCommitted id).
Proof. unfold isCommitted. kept. Qed.
Hint Resolve kept_committed kept_plan kept_post : mig.

Lemma valid_files m : validateQuarantinePaths m qDir bufferDir = true →
  Forall (λ f, valid_entry qDir bufferDir f = true) (Files m).
Proof.
  intros [_ Hf]%andb_true_iff. rewrite forallb_forall in Hf. apply Forall_forall. intros f Hin.
  by apply Hf, list_elem_of_In.
Qed.

Lemma kept_reconcile db_error : malong (kept_at q) (reconcile_dir sha256Hex cut db_error bufferDir qDir).
Proof.
  unfold reconcile_dir. apply malong_bind; [apply _|apply kept_fs, fkeeps_reads|]. intros [data|e].
  - destruct (parse_manifest data) as [m|]; [|kept].
    destruct (validateQuarantinePaths _ _ _) eqn:Hv; cbn [negb]; [|kept]. apply valid_files in Hv.
    destruct db_error; [kept|]. apply malong_bind; [apply _|apply kept_committed|]. intros [].
    { apply malong_bind; [apply _|by apply kept_purge|]. intros _. kept. }
    intros s. unfold st_bind at 1. pose proof (kept_plan (Files m) s) as Hk.
    destruct (plan_all sha256Hex (Files m) s) as [[ps|e] s1] eqn:Hp; [|done]. simpl in Hk.
    apply plan_all_entries in Hp. etransitivity; [exact Hk|].
    assert (malong (kept_at q) (restore_all sha256Hex cut ps)) as Hr.
    { apply kept_restore. rewrite <- Hp in Hv. apply Forall_fmap in Hv.
      eapply Forall_impl; [exact Hv|]. intros p. apply kept_staged. }
    revert s1 Hk Hp. intros s1 _ _. revert s1. change (malong (kept_at q) (let! restored := restore_all sha256Hex cut ps in
      let! _ := post_all (Files m) in let! _ := remove_quarantine qDir in return! (restored, ([] : list string)))). kept.
  - destruct e; try kept. unfold ReadDir. assert (qDir ≠ q) by (eapply below_false; [apply below_refl|done]). kept.
Qed.
End ReconcileFrame.

(** ** Entries of the manifest *)

Section Entries.
Context (sha256Hex cut : string → string) (qDir bufferDir : string) (m : QuarantineManifest).
Hypothesis (Habs : IsAbs qDir = true) (Hvalid : validateQuarantinePaths m qDir bufferDir = true).
(** The originals are outside the quarantine and the staged names are distinct. *)
Hypothesis (Hout : Forall (λ f, below qDir (original f) = false) (Files m)) (Hnames : NoDup (StagedName <$> Files m)).

Definition copy_ok (d : disk) (p : string) (f : QuarantineFileEntry) : Prop :=
  has_proof sha256Hex p (q_Size f) (q_SHA256 f) d.
(** The file of an entry is where it was, or staged. *)
Definition safe (d : disk) (f : QuarantineFileEntry) : Prop := copy_ok d (original f) f ∨ copy_ok d (staged f) f.

Lemma copy_ok_kept s s' p f : copy_ok (files (ms_fs s)) p f → kept_at p s s' → copy_ok (files (ms_fs s')) p f.
Proof. intros (data & Hd & ?) [Hk _]. exists data. split; [by apply Hk|done]. Qed.

Lemma entry_valid f : f ∈ Files m → valid_entry qDir bufferDir f = true ∧ below qDir (original f) = false.
Proof.
  intros Hf. apply valid_files in Hvalid. rewrite Forall_forall in Hvalid, Hout. split; [by apply Hvalid|by apply Hout].
Qed.
Lemma staged_original f g : f ∈ Files m → g ∈ Files m → staged f ≠ original g.
Proof.
  intros [Hf _]%entry_valid [_ Hg]%entry_valid. eapply below_false; [|done]. by eapply valid_staged.
Qed.
Lemma staged_distinct f g : f ∈ Files m → g ∈ Files m → StagedName f ≠ StagedName g → staged f ≠ staged g.
Proof.
  intros [Hf _]%entry_valid [Hg _]%entry_valid Hn He. apply (f_equal comps) in He.
  destruct (valid_staged _ Habs _ _ Hf) as (_ & Hcf & _). destruct (valid_staged _ Habs _ _ Hg) as (_ & Hcg & _).
  rewrite Hcf, Hcg in He. by apply app_inj_2 in He as [_ [= ?]].
Qed.

#[local] Abbreviation plan := (QuarantineFileEntry * bool * bool)%type.
(** What the plan found is there. *)
Definition planned (d : disk) (p : plan) : Prop :=
  (p.1.2 = true → copy_ok d (staged p.1.1) p.1.1) ∧ (p.2 = true → copy_ok d (original p.1.1) p.1.1) ∧
  (p.1.2 || p.2 = true).

Lemma check_copy_spec p n f s u s' :
  check_copy sha256Hex p (Some n) f s = (Ok u, s') → files (ms_fs s) !! p = Some n → copy_ok (files (ms_fs s)) p f.
Proof.
  unfold check_copy. destruct (node_size n =? q_Size f) eqn:Hn; cbn [negb]; go_bool; [|done].
  unfold or_fail, st_bind, m_fs, computeFileSHA256. destruct (ComputeFileSHA256 _ _ _) as [h f'] eqn:Hh.
  apply ComputeFileSHA256_spec in Hh as [_ Hh]. destruct h as [h|]; [|done]. unfold st_ret at 1.
  case_decide as Hs; [|done]. intros _ Hp. destruct Hh as (data & Hd & ->). unfold copy_ok. rewrite <- Hn, <- Hs.
  by apply stat_digest_proof.
Qed.

Lemma reads_back_files {A} (m0 : MM A) s r s' :
  (∀ q, malong (kept_at q) m0) → m0 s = (r, s') → ∀ p f, copy_ok (files (ms_fs s)) p f → copy_ok (files (ms_fs s')) p f.
Proof. intros Hm Hr p f Hc. eapply copy_ok_kept; [done|]. eapply malong_run; [apply Hm|exact Hr]. Qed.

Lemma plan_entry_spec f s p s' :
  plan_entry sha256Hex f s = (Ok p, s') → p.1.1 = f ∧ planned (files (ms_fs s')) p.
Proof.
  intros Hp. assert (∀ q f, copy_ok (files (ms_fs s)) q f → copy_ok (files (ms_fs s')) q f) as Hk.
  { eapply reads_back_files; [|exact Hp]. intros q. unfold plan_entry, check_copy, computeFileSHA256. kept. }
  revert Hp. unfold plan_entry. unfold st_bind at 1 2, m_fs.
  destruct (Stat (staged f) (ms_fs s)) as [st f1] eqn:H1. apply Stat_spec in H1 as [E1 H1]. simpl.
  destruct (Stat (original f) f1) as [og f2] eqn:H2. apply Stat_spec in H2 as [E2 H2]. rewrite E1 in H2, E2. simpl.
  set (s2 := MSt f2 _ _). assert (files (ms_fs s2) = files (ms_fs s)) as E3 by done.
  assert (∀ p n s, match check_copy sha256Hex p n f s with (Ok _, s') => files (ms_fs s') = files (ms_fs s) | _ => True end) as Hread.
  { clear. intros p [n|] s; [|done]. unfold check_copy, or_fail, st_bind, m_fs, computeFileSHA256, st_ret, st_err.
    destruct (negb _); [done|]. destruct (ComputeFileSHA256 _ _ _) as [h f'] eqn:Hh.
    apply ComputeFileSHA256_spec in Hh as [Hf _]. destruct h; [|done]. by case_decide. }
  assert (∀ P n1 n2, (st = Err ENOENT → False) ∨ (og = Err ENOENT → False) →
    (n1 = match st with Ok n => Some n | Err _ => None end) → (n2 = match og with Ok n => Some n | Err _ => None end) →
    (is_ok st || is_ok og = true) →
    (let! _ := check_copy sha256Hex (staged f) n1 f in let! _ := check_copy sha256Hex (original f) n2 f in
     return! (f, is_ok st, is_ok og)) s2 = (Ok p, s') → P ∨ (p.1.1 = f ∧ planned (files (ms_fs s')) p)) as Hgo.
  { intros P n1 n2 _ -> -> Hor. unfold st_bind at 1. pose proof (Hread (staged f) (match st with Ok n => Some n | Err _ => None end) s2) as Hr1.
    destruct (check_copy sha256Hex (staged f) _ f s2) as [[u|e] s3] eqn:H3; [|done].
    unfold st_bind. destruct (check_copy sha256Hex (original f) _ f s3) as [[u'|e] s4] eqn:H4; [|done].
    intros [= <- _]. right. split; [done|]. split_and!; [..|done]; simpl; intros Ho; apply Hk.
    - destruct st as [n|]; [|done]. apply check_copy_spec in H3; rewrite E3 in *; [done|by rewrite H1].
    - destruct og as [n|]; [|done]. rewrite <- E3, <- Hr1. apply check_copy_spec in H4; [done|].
      by rewrite Hr1, E3. }
  destruct st as [n|[]], og as [n'|[]]; try done; intros Hc;
    (destruct (Hgo False _ _ ltac:(by (left + right)) eq_refl eq_refl eq_refl Hc) as [[]|?]; done).
Qed.

Lemma plan_all_spec fs s ps s' :
  plan_all sha256Hex fs s = (Ok ps, s') → Forall (planned (files (ms_fs s'))) ps.
Proof.
  revert s ps. induction fs as [|f fs IH]; intros s ps; cbn [plan_all]; [intros [= <- _]; constructor|].
  unfold st_bind at 1. destruct (plan_entry sha256Hex f s) as [[p|e] s1] eqn:Hp; [|done].
  unfold st_bind. destruct (plan_all sha256Hex fs s1) as [[ps'|e] s2] eqn:Hps; [|done].
  intros [= <- <-]. apply plan_entry_spec in Hp as [_ (Ha & Hb & Hc)]. constructor; [|by eapply IH].
  assert (∀ q f, copy_ok (files (ms_fs s1)) q f → copy_ok (files (ms_fs s2)) q f) as Hk.
  { eapply reads_back_files; [|exact Hps]. intros q. apply kept_plan. }
  split_and!; auto.
Qed.

(** *** Restoring *)

Lemma restore_entry_spec p s r s' :
  p.1.1 ∈ Files m → planned (files (ms_fs s)) p → restore_entry sha256Hex cut p s = (r, s') →
  safe (files (ms_fs s')) p.1.1 ∧ (is_ok r = true → copy_ok (files (ms_fs s')) (original p.1.1) p.1.1).
Proof.
  destruct p as [[f se] oe]. simpl. intros Hf (Hst & Hog & Hor) Hr. simpl in Hst, Hog, Hor.
  pose proof (staged_original f f Hf Hf) as Hne. unfold restore_entry in Hr. destruct se; cbn iota in Hr.
  - destruct oe.
    + assert (copy_ok (files (ms_fs s')) (original f) f) as Hc; [|split; [by left|done]].
      eapply copy_ok_kept; [by apply Hog|]. eapply malong_run; [|exact Hr]. unfold remove_ignoring_missing. kept.
    + specialize (Hst eq_refl). revert Hr. unfold st_bind at 1, or_fail at 1.
      match goal with |- context [st_bind (m_fs (MkdirAll ?p)) ?k s] =>
        destruct (st_bind (m_fs (MkdirAll p)) k s) as [x s1] eqn:H1 end.
      assert (copy_ok (files (ms_fs s1)) (staged f) f) as Hc1.
      { eapply copy_ok_kept; [exact Hst|]. eapply malong_run; [|exact H1]. kept. }
      destruct x as [u|e]; [|intros [= <- <-]; split; [by right|done]].
      unfold or_fail, st_bind, m_fs. destruct (durableNoReplaceMove _ _ _ _ _ _ _) as [r2 f2] eqn:Hm.
      apply move_spec in Hm; [|done]. destruct Hc1 as (data & Hd & Hdn & Hds).
      assert (safe (files f2) f ∧ (is_ok r2 = true → copy_ok (files f2) (original f) f)) as Hs.
      { destruct Hm as [|ok x Hn Hx|ok x Hn Hx].
        - split; [right; by exists data|done].
        - split; [right; exists data; by rewrite lookup_insert_ne by done|].
          intros Hok. specialize (Hx Hok). rewrite Hd in Hx. injection Hx as <-. exists data. by rewrite lookup_insert_eq.
        - rewrite Hd in Hx. injection Hx as <-.
          split; [left|intros _]; exists data; by rewrite lookup_insert_eq. }
      destruct r2; intros [= <- <-]; exact Hs.
  - destruct oe; [|done]. injection Hr as <- <-. split; [left|intros _]; by apply Hog.
Qed.

Lemma restore_all_spec ps s r s' :
  Forall (λ p, p.1.1 ∈ Files m) ps → NoDup ((λ p, StagedName p.1.1) <$> ps) → Forall (planned (files (ms_fs s))) ps →
  restore_all sha256Hex cut ps s = (r, s') →
  Forall (λ p, safe (files (ms_fs s')) p.1.1 ∧
            (is_ok r = true → copy_ok (files (ms_fs s')) (original p.1.1) p.1.1)) ps.
Proof.
  revert s r. induction ps as [|p ps IH]; intros s r Hin Hnd Hpl; [constructor|].
  inversion_clear Hin as [|? ? Hp Hps]. inversion_clear Hpl as [|? ? Hpl1 Hpl2].
  rewrite fmap_cons in Hnd. apply NoDup_cons in Hnd as [Hnew Hnd].
  assert (∀ g, g ∈ ps → staged p.1.1 ≠ staged g.1.1) as Hdis.
  { intros g Hg. apply staged_distinct; [done|by rewrite Forall_forall in Hps; apply Hps|].
    intros He. apply Hnew. rewrite He. by apply (list_elem_of_fmap_2 (λ p : plan, StagedName p.1.1)). }
  cbn [restore_all]. unfold st_bind at 1. destruct (restore_entry sha256Hex cut p s) as [x s1] eqn:H1.
  pose proof (restore_entry_spec p s x s1 Hp Hpl1 H1) as [Hsafe Hok].
  assert (∀ q, staged p.1.1 ≠ q → kept_at q s s1) as Hkq.
  { intros q Hq. eapply malong_run; [|exact H1]. destruct p as [[f se] oe]. unfold restore_entry, remove_ignoring_missing.
    simpl in Hq. destruct se, oe; kept. }
  assert (∀ g, g ∈ ps → kept_at (staged g.1.1) s s1 ∧ kept_at (original g.1.1) s s1) as Hkeep.
  { intros g Hg. rewrite Forall_forall in Hps. split; apply Hkq; [by apply Hdis|]. apply staged_original; auto. }
  assert (Forall (planned (files (ms_fs s1))) ps) as Hpl3.
  { rewrite Forall_forall in Hpl2 |- *. intros g Hg. destruct (Hpl2 g Hg) as (Ha & Hb & Hc). destruct (Hkeep g Hg).
    split_and!; [intros ?; eapply copy_ok_kept; eauto..|done]. }
  destruct x as [a|e].
  - unfold st_bind. destruct (restore_all sha256Hex cut ps s1) as [y s2] eqn:H2.
    specialize (IH s1 y Hps Hnd Hpl3).
    assert (∀ q, (∀ g, g ∈ ps → staged g.1.1 ≠ q) → kept_at q s1 s2) as Hk2.
    { intros q Hq. eapply malong_run; [|exact H2]. apply kept_restore. by apply Forall_forall. }
    assert (kept_at (original p.1.1) s1 s2 ∧ kept_at (staged p.1.1) s1 s2) as [Hk3 Hk4].
    { rewrite Forall_forall in Hps. split; apply Hk2; intros g Hg; [apply staged_original; auto|].
      intros He. by apply (Hdis g Hg). }
    intros Hr. assert (s' = s2 ∧ is_ok r = is_ok y) as [-> Hry] by (destruct y; by injection Hr as <- <-).
    constructor; [|rewrite Hry; by apply IH].
    split; [|intros _; by eapply copy_ok_kept; [apply Hok|]].
    destruct Hsafe; [left|right]; by eapply copy_ok_kept.
  - intros [= <- <-]. constructor; [done|]. eapply Forall_impl; [exact Hpl3|].
    intros g (Ha & Hb & Hc). split; [|done]. destruct (g.1.2); [right; by apply Ha|left; by apply Hb].
Qed.

(** *** The quarantine *)

(** Every file is back, or the manifest is there and every file has a copy. *)
Definition quarantine_ok (d : disk) : Prop :=
  Forall (λ f, copy_ok d (original f) f) (Files m) ∨
  (d !! manifest_path qDir = Some (FileNode (manifestData m)) ∧ Forall (safe d) (Files m)).

Hypothesis (Hparse : parse_manifest (manifestData m) = Some m).
Hypothesis (Hmanifest : "quarantine_manifest.json" ∉ StagedName <$> Files m).

Lemma staged_manifest f : f ∈ Files m → staged f ≠ manifest_path qDir.
Proof.
  intros Hf He. destruct (entry_valid f Hf) as [Hv _]. destruct (valid_staged _ Habs _ _ Hv) as (_ & Hc & _).
  apply (f_equal comps) in He. unfold manifest_path in He.
  rewrite Hc, (proj1 (comps_member qDir Habs _ plain_manifest)) in He. apply app_inj_2 in He as [_ [= He]]; [|done].
  apply Hmanifest. rewrite <- He. by apply list_elem_of_fmap_2.
Qed.

Lemma all_back_kept s s' :
  (∀ q, below qDir q = false → kept_at q s s') → Forall (λ f, copy_ok (files (ms_fs s)) (original f) f) (Files m) →
  Forall (λ f, copy_ok (files (ms_fs s')) (original f) f) (Files m).
Proof.
  intros Hk Hall. rewrite Forall_forall in Hall |- *. intros f Hf. eapply copy_ok_kept; [by apply Hall|].
  apply Hk. by apply entry_valid.
Qed.

Lemma isCommitted_true id s s' :
  isCommitted id s = (Ok true, s') → ∃ t, l_verdicts (ms_db s) = Some t ∧ t !! id = Some "COMMITTED".
Proof.
  unfold isCommitted, st_bind at 1, m_query, m_stmt at 1.
  destruct (ms_faults s) as [|[] fl]; simpl; try done; destruct (l_verdicts (ms_db s)) as [t|] eqn:Ht; simpl; try done;
    unfold st_bind, m_stmt; simpl; rewrite ?Ht; [|destruct fl as [|[] fl]; try done]; simpl; rewrite ?Ht;
    intros [= Hv%bool_decide_eq_true_1 _]; eauto.
Qed.

Lemma not_qDir q name : comps q = comps qDir ++ [name] → q ≠ qDir.
Proof. intros Hc ->. apply (f_equal length) in Hc. rewrite length_app in Hc. simpl in Hc. lia. Qed.

(** Removing the directory itself, when it is empty, costs nothing. *)
Lemma quarantine_ok_rmdir d : quarantine_ok d → quarantine_ok (delete qDir d).
Proof.
  assert (∀ q f, q ≠ qDir → copy_ok d q f → copy_ok (delete qDir d) q f) as Hk.
  { intros q f Hq (data & Hd & Hp). exists data. split; [|done]. by rewrite lookup_delete_ne. }
  assert (∀ f, f ∈ Files m → original f ≠ qDir ∧ staged f ≠ qDir) as Hne.
  { intros f Hf. destruct (entry_valid f Hf) as [Hv Ho]. split.
    - intros He. by rewrite He, below_refl in Ho.
    - destruct (valid_staged _ Habs _ _ Hv) as (_ & Hc & _). by eapply not_qDir. }
  intros [Hb|[Hm Hs]].
  - left. rewrite Forall_forall in Hb |- *. intros f Hf. apply Hk; [by apply Hne|by apply Hb].
  - right. rewrite Forall_forall in Hs |- *. split.
    + rewrite lookup_delete_ne; [done|]. intros He. symmetry in He. revert He.
      eapply not_qDir. unfold manifest_path. apply (comps_member qDir Habs _ plain_manifest).
    + intros f Hf. destruct (Hs f Hf); [left|right]; (apply Hk; [by apply Hne|done]).
Qed.

Lemma orphan_ok s :
  quarantine_ok (files (ms_fs s)) →
  quarantine_ok (files (ms_fs ((let! entries := or_fail "read quarantine dir without manifest" (ReadDir qDir) in
    if entries : bool then fail! "quarantine directory is non-empty but missing its manifest"
    else
      let! _ := or_fail "remove empty orphan quarantine dir" (Remove qDir) in
      return! ([] : list string, [] : list string)) s).2)).
Proof.
  intros Hok. unfold or_fail, st_bind, m_fs, ReadDir. destruct (sys _ _) as [y f2] eqn:H2. apply sys_reads in H2.
  destruct y as [[]|]; [by simpl; rewrite H2| |by simpl; rewrite H2]. unfold st_ret at 1.
  destruct (Remove qDir _) as [z f3] eqn:H3. simpl in H3. apply Remove_spec in H3.
  assert (quarantine_ok (files f3)) as Hq.
  { destruct H3 as [->|[_ ->]]; rewrite H2; [done|]. by apply quarantine_ok_rmdir. }
  by destruct z.
Qed.

(** Planning, restoring and the cleaning up. *)
Lemma restore_ok s :
  files (ms_fs s) !! manifest_path qDir = Some (FileNode (manifestData m)) → Forall (safe (files (ms_fs s))) (Files m) →
  quarantine_ok (files (ms_fs ((let! plans := plan_all sha256Hex (Files m) in
    let! restored := restore_all sha256Hex cut plans in
    let! _ := post_all (Files m) in
    let! _ := remove_quarantine qDir in
    return! (restored, ([] : list string))) s).2)).
Proof.
  intros Hman Hsafe. unfold st_bind at 1. destruct (plan_all sha256Hex (Files m) s) as [z s3] eqn:H3.
  assert (∀ q, kept_at q s s3) as Hk3 by (intros q; eapply malong_run; [apply kept_plan|exact H3]).
  destruct z as [ps|e].
  2:{ right. split; [by apply Hk3|]. eapply Forall_impl; [exact Hsafe|].
      intros f [Hc|Hc]; [left|right]; (eapply copy_ok_kept; [exact Hc|apply Hk3]). }
  pose proof (plan_all_entries _ _ _ _ _ H3) as Hps. apply plan_all_spec in H3.
  unfold st_bind at 1. destruct (restore_all sha256Hex cut ps s3) as [w s4] eqn:H4.
  assert (∀ p, p ∈ ps → p.1.1 ∈ Files m) as Hin
    by (intros p Hp; rewrite <- Hps; by apply (list_elem_of_fmap_2 (λ p : plan, p.1.1))).
  assert (Forall (λ f, safe (files (ms_fs s4)) f ∧ (is_ok w = true → copy_ok (files (ms_fs s4)) (original f) f)) (Files m)) as Hres.
  { rewrite <- Hps at 1. apply Forall_fmap. eapply (restore_all_spec ps s3 w s4); [by apply Forall_forall| |done|done].
    rewrite <- Hps in Hnames. by rewrite <- list_fmap_compose in Hnames. }
  assert (kept_at (manifest_path qDir) s3 s4) as Hk4.
  { eapply malong_run; [|exact H4]. apply kept_restore, Forall_forall. intros p Hp. apply staged_manifest; auto. }
  destruct w as [restored|e].
  - left. apply (all_back_kept s4).
    + intros q Hq. eapply (malong_run (kept_at q) (let! _ := post_all (Files m) in let! _ := remove_quarantine qDir in
        return! (restored, ([] : list string)))); [|by apply surjective_pairing].
      pose proof (kept_post q (Files m)). pose proof (kept_remove_quarantine qDir q Habs Hq). kept.
    + eapply Forall_impl; [exact Hres|]. intros f [_ Hf]. by apply Hf.
  - right. split; [by apply Hk4, Hk3|]. eapply Forall_impl; [exact Hres|]. by intros f [? _].
Qed.

(** Reconciling a quarantine without a verdict keeps it sound, whatever fails. *)
Lemma reconcile_quarantine db_error s :
  (∀ t, l_verdicts (ms_db s) = Some t → t !! MigrationID m ≠ Some "COMMITTED") →
  quarantine_ok (files (ms_fs s)) →
  quarantine_ok (files (ms_fs (reconcile_dir sha256Hex cut db_error bufferDir qDir s).2)).
Proof.
  intros Hverdict [Hback|[Hman Hsafe]].
  { left. apply (all_back_kept s); [|done]. intros q Hq. by apply kept_reconcile. }
  assert (quarantine_ok (files (ms_fs s))) as Hok by (by right).
  unfold reconcile_dir. unfold st_bind at 1, m_fs at 1. destruct (ReadFile (manifest_path qDir) (ms_fs s)) as [x f1] eqn:H1.
  apply ReadFile_spec in H1 as [E1 Hx]. set (s1 := MSt f1 _ _).
  assert (files (ms_fs s1) = files (ms_fs s)) as E1' by done. rewrite <- E1' in *.
  destruct x as [data|e]; [|destruct e; try exact Hok; by apply orphan_ok].
  rewrite Hman in Hx. injection Hx as <-. rewrite Hparse, Hvalid. cbn [negb].
  destruct db_error; [exact Hok|].
  unfold st_bind at 1. destruct (isCommitted (MigrationID m) s1) as [y s2] eqn:H2.
  assert (files (ms_fs s2) = files (ms_fs s1)) as E2.
  { revert H2. unfold isCommitted, m_query, m_stmt, st_bind, st_ret.
    repeat (case_match; simplify_eq/=; try done); intros; simplify_eq/=; done. }
  destruct y as [[]|]; [|apply restore_ok; by rewrite E2|simpl; by rewrite E2].
  apply isCommitted_true in H2 as (t & Ht & Hc). by destruct (Hverdict t Ht).
Qed.
End Entries.
