(* ===== verification/MigratorRun.v ===== *)
(** * Paths of a migration

    The paths of the buffer directory: which of them a quarantine holds, which pass
    [isStrictSubpath]; and what reconciling all the directories found keeps. *)
From S2P Require Import Json.
From S2P Require Import Prelude Paths Fscommit Sql World Archive Planner Migrator MigratorProps.

(** ** Paths of the buffer directory *)

Section Buffer.
Context (B : string) (HB : IsAbs B = true).

Definition quarantine_name (name : string) : Prop := plain name ∧ HasPrefix name quarantine_prefix = true.
(** Not below any quarantine directory. *)
Definition outside (p : string) : Prop := ∀ name, quarantine_name name → below (Join B name) p = false.

Lemma comps_Join name : plain name → comps (Join B name) = comps B ++ [name].
Proof. intros Hp. by apply comps_member. Qed.

Lemma below_siblings n1 n2 x :
  plain n1 → plain n2 → n1 ≠ n2 → below (Join B n1) x = true → below (Join B n2) x = false.
Proof.
  unfold below. intros H1 H2 Hne Hb%bool_decide_eq_true. apply bool_decide_eq_false. intros Hb2.
  rewrite comps_Join in Hb, Hb2 by done. destruct Hb as [k1 Hk1], Hb2 as [k2 Hk2].
  rewrite Hk1, <- !app_assoc in Hk2. apply app_inv_head in Hk2. by injection Hk2 as ?.
Qed.

Lemma outside_base : outside B.
Proof.
  intros name [Hp _]. unfold below. apply bool_decide_eq_false. rewrite comps_Join by done.
  intros [k Hk]. apply (f_equal length) in Hk. rewrite !length_app in Hk. simpl in Hk. lia.
Qed.

Lemma comps_elem_plain p cs x : comps p = cs ++ [x] → x ≠ ".." → plain x.
Proof.
  intros Hc Hx. destruct (comps_cleaned p) as (n & ps & Heq & Hps & _). rewrite Hc in Heq.
  destruct ps as [|y ps _] using rev_ind.
  - rewrite app_nil_r in Heq. exfalso. apply Hx.
    assert (x ∈ replicate n "..") as Hin by (rewrite <- Heq; set_solver). by apply elem_of_replicate in Hin as [? _].
  - rewrite app_assoc in Heq. apply app_inj_2 in Heq as [_ [= ->]]; [|done].
    apply Forall_app in Hps as [_ Hy]. by inversion_clear Hy.
Qed.

Lemma Glob_names d q : q ∈ Glob B d → ∃ name, quarantine_name name ∧ q = Join B name.
Proof.
  unfold Glob. rewrite list_elem_of_omap. intros ([p n] & _ & Hq). simpl in Hq. case_decide as Hc; [|done].
  injection Hq as <-. destruct Hc as [Hc Hp]. exists (Base p). split; [|done]. split; [|done].
  eapply comps_elem_plain; [exact Hc|]. intros He. by rewrite He in Hp.
Qed.
End Buffer.

(** ** Paths that pass validation *)

Lemma HasPrefix_inv s p : HasPrefix s p = true → ∃ t, s = p +:+ t.
Proof.
  unfold HasPrefix. revert s. induction p as [|a p IH]; intros s; [by exists s|].
  destruct s as [|b s]; [done|]. cbn [String.prefix]. destruct (Ascii.ascii_dec a b) as [<-|]; [|done].
  intros [t ->]%IH. by exists t.
Qed.

Lemma Clean_Join a b : IsAbs a = true → Clean (Join a b) = Join a b.
Proof.
  intros Ha. unfold Join. rewrite decide_False by (by intros ->).
  case_decide; apply Clean_idem; [done|by apply IsAbs_app].
Qed.

(** Plain components make a relative path that stays below. *)
Lemma join_plain_below cs :
  cs ≠ [] → Forall plain cs →
  join_slash cs ≠ "." ∧ join_slash cs ≠ ".." ∧ HasPrefix (join_slash cs) "../" = false ∧ IsAbs (join_slash cs) = false.
Proof.
  intros Hne Hp. assert (∀ s, split_on slash (join_slash cs) ≠ ".." :: s) as Hdd.
  { intros s. rewrite split_join; [|done|eapply Forall_impl; [exact Hp|]; by intros ? (_&_&_&?)].
    intros ->. inversion_clear Hp as [|? ? Hd _]. by destruct Hd as (_&_&?&_). }
  split_and!; [..|by apply IsAbs_join_plain].
  - intros He. pose proof (comps_join_slash cs Hne Hp) as Hc. rewrite He in Hc. by apply Hne.
  - intros He. by apply (Hdd []); rewrite He.
  - destruct (HasPrefix _ _) eqn:H; [|done]. apply HasPrefix_inv in H as [t Ht].
    change ("../" +:+ t) with (".." +:+ String slash t) in Ht. rewrite Ht in Hdd.
    exfalso. by apply (Hdd (split_on slash t)), split_on_app.
Qed.

Lemma strict_subpath b p k :
  IsAbs b = true → IsAbs p = true → comps p = comps b ++ k → k ≠ [] → isStrictSubpath b p = true.
Proof.
  intros Hb Hp Hc Hk. unfold isStrictSubpath, Rel. rewrite decide_False.
  2:{ intros He. apply (f_equal comps) in He. rewrite !Clean_idem, !comps_Clean_abs, Hc in He by done.
      apply (f_equal length) in He. rewrite length_app in He. destruct k; [done|simpl in He; lia]. }
  rewrite !IsAbs_Clean, Hb, Hp, !comps_Clean_abs, Hc, strip_common_app by done. cbn [negb Bool.eqb map app].
  assert (Forall plain k) as Hpl by (pose proof (comps_abs_plain p Hp) as H; rewrite Hc in H; by apply Forall_app in H as [_ ?]).
  destruct (join_plain_below k Hk Hpl) as (H1 & H2 & H3 & H4). destruct k as [|c k]; [done|].
  by rewrite H3, H4, !bool_decide_false.
Qed.

Lemma Base_no_slash p : Base p ≠ "/" → no_slash (Base p).
Proof.
  unfold Base. case_decide; [intros _; apply (bool_decide_unpack _); by vm_compute|]. pose proof (split_on_no_sep p) as Hs.
  assert (Forall no_slash (rev (split_on slash p))) as Hr by (by apply Forall_rev).
  revert Hr. generalize (rev (split_on slash p)). clear. intros l Hl.
  induction Hl as [|c l Hc _ IH]; [done|]. simpl. case_decide; [exact IH|done].
Qed.

(** ** Reconciling every directory *)

Section ReconcileAll.
Context (sha256Hex cut : string → string) (B : string) (HB : IsAbs B = true).

Lemma IsAbs_member name : plain name → IsAbs (Join B name) = true.
Proof. intros Hp. by apply comps_member. Qed.

Lemma kept_dirs db_error q dirs r :
  outside B q → Forall (λ x, ∃ name, quarantine_name name ∧ x = Join B name) dirs →
  malong (kept_at q) (reconcile_dirs sha256Hex cut db_error B dirs r).
Proof.
  intros Hq Hd. revert r. induction Hd as [|x dirs (name & [Hp Hn] & ->) _ IH]; intros r; cbn [reconcile_dirs].
  { apply malong_ret, _. }
  apply malong_bind; [apply _| |intros [a b]; apply IH].
  apply kept_reconcile; [by apply IsAbs_member|by apply Hq].
Qed.

Lemma Glob_dirs d : Forall (λ x, ∃ name, quarantine_name name ∧ x = Join B name) (Glob B d).
Proof. apply Forall_forall. intros x. by apply Glob_names. Qed.

(** The directories are found by one system call. *)
Lemma reconcile_split (P : mstate → Prop) dbPath s :
  P s →
  (∀ s1, files (ms_fs s1) = files (ms_fs s) → ms_db s1 = ms_db s → P s1) →
  (∀ s1 db_error dirs r, files (ms_fs s1) = files (ms_fs s) → ms_db s1 = ms_db s →
     Forall (λ x, ∃ name, quarantine_name name ∧ x = Join B name) dirs →
     P (reconcile_dirs sha256Hex cut db_error B dirs r s1).2) →
  P (ReconcilePendingQuarantines sha256Hex cut dbPath B s).2.
Proof.
  intros H0 Hsame Hdirs. unfold ReconcilePendingQuarantines. case_decide; [done|].
  unfold or_fail, st_bind at 1 2, m_fs.
  destruct (sys _ (ms_fs s)) as [x f1] eqn:H1. pose proof (sys_files _ _ _ _ H1) as Hx. apply sys_reads in H1.
  destruct x as [l|e]; [|by apply Hsame]. destruct Hx as [(? & ? & _)|[= <- _]]; [done|].
  unfold st_ret at 1. destruct (Glob B (files (ms_fs s))) as [|y l] eqn:Hg; [by apply Hsame|].
  rewrite <- Hg. pose proof (Glob_dirs (files (ms_fs s))) as Hall.
  unfold st_bind at 1. case_decide; [unfold st_ret at 1; by apply Hdirs|].
  unfold st_bind at 1, m_fs. destruct (Stat dbPath _) as [st f2] eqn:Hst. apply Stat_spec in Hst as [Hst _].
  unfold st_ret at 1. apply Hdirs; [|done..]. simpl. by rewrite Hst.
Qed.

Lemma kept_reconcile_all dbPath q :
  outside B q → malong (kept_at q) (ReconcilePendingQuarantines sha256Hex cut dbPath B).
Proof.
  intros Hq s. apply reconcile_split; [reflexivity|intros s1 Hf Hd; split; [by rewrite Hf|done]|].
  intros s1 e dirs r Hf Hd Hall. destruct (kept_dirs e q dirs r Hq Hall s1) as [Hk Hd'].
  split; [intros n Hn; apply Hk; by rewrite Hf|by rewrite Hd'].
Qed.

Context (name : string) (Hname : quarantine_name name) (m : QuarantineManifest).
#[local] Abbreviation qDir := (Join B name).
Hypothesis (Hvalid : validateQuarantinePaths m qDir B = true).
Hypothesis (Hout : Forall (λ f, outside B (original f)) (Files m)).
Hypothesis (Hnames : NoDup (StagedName <$> Files m)) (Hparse : parse_manifest (manifestData m) = Some m).
Hypothesis (Hmanifest : "quarantine_manifest.json" ∉ StagedName <$> Files m).

Lemma qDir_abs : IsAbs qDir = true.
Proof. apply IsAbs_member, Hname. Qed.
Lemma qDir_out : Forall (λ f, below qDir (original f) = false) (Files m).
Proof. eapply Forall_impl; [exact Hout|]. intros f Hf. by apply Hf. Qed.

Definition not_committed (s : mstate) : Prop :=
  ∀ t, l_verdicts (ms_db s) = Some t → t !! MigrationID m ≠ Some "COMMITTED".
Definition ok (s : mstate) : Prop := quarantine_ok sha256Hex qDir m (files (ms_fs s)).

(** A quarantine stays sound while what it rests on is kept. *)
Lemma ok_kept s s' : (∀ q, (below qDir q = true ∨ outside B q) → kept_at q s s') → ok s → ok s'.
Proof.
  intros Hk [Hb|[Hm Hs]].
  - left. rewrite Forall_forall in Hb, Hout |- *. intros f Hf. eapply copy_ok_kept; [by apply Hb|].
    apply Hk. right. by apply Hout.
  - right. split; [apply Hk; [left; apply manifest_below, qDir_abs|done]|].
    rewrite Forall_forall in Hs, Hout |- *. intros f Hf.
    destruct (Hs f Hf) as [Hc|Hc]; [left|right]; (eapply copy_ok_kept; [exact Hc|]); apply Hk; [right; by apply Hout|left].
    apply valid_files in Hvalid. rewrite Forall_forall in Hvalid.
    eapply valid_staged; [apply qDir_abs|by apply Hvalid].
Qed.

Lemma ok_dirs db_error dirs r s :
  Forall (λ x, ∃ name, quarantine_name name ∧ x = Join B name) dirs → not_committed s → ok s →
  ok (reconcile_dirs sha256Hex cut db_error B dirs r s).2.
Proof.
  intros Hd. revert r s. induction Hd as [|x dirs (n & [Hp Hn] & ->) _ IH]; intros r s Hnc Hok; cbn [reconcile_dirs]; [done|].
  unfold st_bind at 1. destruct (reconcile_dir sha256Hex cut db_error B (Join B n) s) as [y s1] eqn:H1.
  assert (ok s1 ∧ not_committed s1) as [Hok1 Hnc1].
  { assert (ms_db s1 = ms_db s) as Hdb.
    { pose proof (kept_reconcile sha256Hex cut (Join B n) B B (IsAbs_member n Hp) (outside_base B HB n (conj Hp Hn)) db_error s) as [_ Hdb].
      by rewrite H1 in Hdb. }
    split; [|unfold not_committed; by rewrite Hdb].
    destruct (decide (n = name)) as [->|Hne].
    - pose proof (reconcile_quarantine sha256Hex cut qDir B m qDir_abs Hvalid qDir_out Hnames Hparse Hmanifest db_error s Hnc Hok) as Hq.
      by rewrite H1 in Hq.
    - apply (ok_kept s); [|done]. intros q Hq. eapply malong_run; [|exact H1].
      apply kept_reconcile; [by apply IsAbs_member|]. destruct Hq as [Hq|Hq]; [|by apply Hq].
      eapply below_siblings; [done|apply Hname|done..]. }
  destruct y as [[a b]|e]; [by apply IH|done].
Qed.

Lemma ok_reconcile dbPath s : not_committed s → ok s → ok (ReconcilePendingQuarantines sha256Hex cut dbPath B s).2.
Proof.
  intros Hnc Hok. apply reconcile_split; [done|intros s1 Hf _; unfold ok; by rewrite Hf|].
  intros s1 e dirs r Hf Hd Hall. apply ok_dirs; [done|unfold not_committed; by rewrite Hd|unfold ok; by rewrite Hf].
Qed.
End ReconcileAll.
