(* ===== verification/MigratorSafety.v ===== *)
(** * No file is lost in a migration

    The manifest a run writes passes the validation of a later reconciliation; the staging
    keeps every planned file safe; and a run, whichever call or statement fails, from some
    point on all of them, loses no file: it is where it was, or in the quarantine under its
    manifest, or a left-over that a durable verdict released. *)
From S2P Require Import Json.
From S2P Require Import Prelude Paths Fscommit Sql World Archive Planner Migrator MigratorProps MigratorRun.

(** ** The left-overs *)

(** A disk names its files by cleaned absolute paths. *)
Definition clean_disk (d : disk) : Prop := ∀ p n, d !! p = Some n → IsAbs p = true ∧ Clean p = p.

(** What the inventory plans to remove. *)
Record leftover (B p : string) : Prop := Leftover {
  lo_abs : IsAbs p = true;
  lo_clean : Clean p = p;
  lo_below : ∃ k, comps p = comps B ++ k ∧ k ≠ [];
  lo_name : is_leftover (Base p) = true;
  lo_outside : outside B p;
}.

Lemma Walk_elem dir d kv : kv ∈ Walk dir d → d !! kv.1 = Some kv.2 ∧ below dir kv.1 = true.
Proof.
  unfold Walk. rewrite merge_sort_Permutation, list_elem_of_filter. destruct kv as [p n].
  intros [Hb Hd]. by apply elem_of_map_to_list in Hd.
Qed.
Lemma Walk_NoDup dir d : NoDup (Walk dir d).*1.
Proof.
  unfold Walk. rewrite merge_sort_Permutation. eapply sublist_NoDup; [apply (NoDup_fst_map_to_list d)|].
  apply fmap_sublist, sublist_filter.
Qed.
Lemma leftovers_NoDup B d : NoDup (leftovers B d).*1.
Proof.
  unfold leftovers. eapply sublist_NoDup; [apply (Walk_NoDup B d)|]. apply fmap_sublist, sublist_filter.
Qed.

Lemma leftovers_spec B d p :
  IsAbs B = true → clean_disk d → (∀ q n, d !! q = Some n → outside B q) → d !! Clean B = Some DirNode →
  p ∈ (leftovers B d).*1 → leftover B p ∧ ∃ data, d !! p = Some (FileNode data).
Proof.
  intros HB Hcl Hout Hdir. intros ([p' n] & -> & Hp)%list_elem_of_fmap. simpl.
  unfold leftovers in Hp. apply list_elem_of_filter in Hp as [Hk Hp]. apply Walk_elem in Hp as [Hd Hb]. simpl in *.
  apply andb_true_iff in Hk as [Hf Hn]. destruct n as [|data]; [done|]. split; [|by eexists].
  destruct (Hcl _ _ Hd) as [Ha Hc]. split; [done..| |done|by eapply Hout].
  apply bool_decide_eq_true in Hb as [k Hk]. exists k. split; [done|]. intros ->. rewrite app_nil_r in Hk.
  assert (p' = Clean B) as Hpb by (by rewrite <- Hc, !Clean_abs, Hk). rewrite Hpb in Hd. congruence.
Qed.

(** ** The manifest of a run *)

Section Generated.
Context (sha256Hex cut : string → string) (B : string) (HB : IsAbs B = true).
Context (name : string) (Hname : quarantine_name name).
#[local] Abbreviation qDir := (Join B name).

Definition staged_name (idx : Z) (p : string) : string := "staged_" +:+ itoa idx +:+ "_" +:+ Base p.
(** The entries of consecutive numbers, with the sizes and digests of [d]. *)
Fixpoint made (d : disk) (idx : Z) (es : list QuarantineFileEntry) : Prop :=
  match es with
  | [] => True
  | e :: es =>
      StagedName e = staged_name idx (OriginalPath e) ∧ StagedPath e = Join qDir (StagedName e) ∧
      copy_ok sha256Hex d (OriginalPath e) e ∧ made d (idx + 1) es
  end.

Lemma made_elem d idx es e :
  made d idx es → e ∈ es →
  (∃ i, idx <= i ∧ StagedName e = staged_name i (OriginalPath e)) ∧ StagedPath e = Join qDir (StagedName e) ∧
  copy_ok sha256Hex d (OriginalPath e) e.
Proof.
  revert idx. induction es as [|x es IH]; intros idx Hm He; [by apply elem_of_nil in He|].
  destruct Hm as (H1 & H2 & H3 & Hm). apply elem_of_cons in He as [->|He].
  - split_and!; [by exists idx; split; [lia|]|done..].
  - destruct (IH _ Hm He) as ((i & Hi & ?) & ?). split; [exists i; split; [lia|done]|done].
Qed.

Lemma staged_name_inj i j p q : staged_name i p = staged_name j q → i = j.
Proof.
  unfold staged_name. intros He%string_app_inj_l.
  apply (string_sep_inj_l (Ascii.ascii_of_nat 95)) in He; [by apply itoa_inj|..];
    (intros [Hd|[_ ?]]%itoa_digits; [revert Hd; rewrite list_elem_of_In; vm_compute; intuition discriminate|done]).
Qed.

Lemma made_names d idx es : made d idx es → NoDup (StagedName <$> es).
Proof.
  revert idx. induction es as [|e es IH]; intros idx Hm; [constructor|]. destruct Hm as (H1 & _ & _ & Hm).
  rewrite fmap_cons. apply NoDup_cons. split; [|by eapply IH]. intros (x & Hx & Hin)%list_elem_of_fmap.
  destruct (made_elem _ _ _ _ Hm Hin) as [(i & Hi & Hs) _]. rewrite H1, Hs in Hx. apply staged_name_inj in Hx. lia.
Qed.
Lemma made_not_manifest d idx es : made d idx es → "quarantine_manifest.json" ∉ StagedName <$> es.
Proof.
  intros Hm (x & Hx & Hin)%list_elem_of_fmap. destruct (made_elem _ _ _ _ Hm Hin) as [(i & _ & Hs) _]. by rewrite Hs in Hx.
Qed.

Lemma staged_name_plain i p : is_leftover (Base p) = true → plain (staged_name i p).
Proof.
  intros Hl. assert (no_slash (staged_name i p)) as Hs.
  { unfold no_slash, staged_name. rewrite !chars_app, !elem_of_app. intros [H|[H|[H|H]]].
    - revert H. rewrite list_elem_of_In. vm_compute. intuition discriminate.
    - revert H. apply safe_text_no_slash, safe_text_itoa.
    - revert H. rewrite list_elem_of_In. vm_compute. intuition discriminate.
    - revert H. apply Base_no_slash. intros He. by rewrite He in Hl. }
  by split_and!.
Qed.

Lemma made_valid d idx es e :
  made d idx es → Forall (leftover B) (OriginalPath <$> es) → e ∈ es →
  valid_entry qDir B e = true ∧ original e = OriginalPath e ∧ staged e = StagedPath e ∧ outside B (original e).
Proof.
  intros Hm Hl He. destruct (made_elem _ _ _ _ Hm He) as ((i & _ & Hs) & Hp & _).
  rewrite Forall_fmap, Forall_forall in Hl. destruct (Hl e He) as [Ha Hc (k & Hk & Hk0) Hn Ho].
  pose proof (staged_name_plain i _ Hn) as Hpl. rewrite <- Hs in Hpl.
  pose proof (IsAbs_member B HB name (proj1 Hname)) as Hq.
  destruct (comps_member qDir Hq _ Hpl) as [Hcm Ham].
  unfold original, staged. rewrite Hc, Hp, Clean_Join by done. split_and!; [|done..].
  unfold valid_entry. rewrite Hp, (bool_decide_true (Clean _ = Clean _)) by done.
  rewrite (strict_subpath qDir _ [StagedName e]), (strict_subpath B _ k) by done.
  destruct Hpl as (H1 & H2 & H3 & H4). rewrite !bool_decide_false by done.
  rewrite andb_true_r, andb_true_r, andb_true_r. simpl. apply negb_true_iff.
  destruct (Contains _ _) eqn:Hcs; [|done]. exfalso. revert H4 Hcs. generalize (StagedName e). clear.
  intros s. unfold no_slash. induction s as [|c s IH]; [done|]. cbn [Contains]. intros H4.
  destruct (String.prefix "/" (String c s)) eqn:Hpre.
  - intros _. apply H4. apply (HasPrefix_inv _ "/") in Hpre as [t Ht]. injection Ht as -> _. by left.
  - apply IH. intros Hin. apply H4. by right.
Qed.

Lemma made_validates d es id now :
  made d 0 es → Forall (leftover B) (OriginalPath <$> es) →
  validateQuarantinePaths (Manifest id qDir now es) qDir B = true.
Proof.
  intros Hm Hl. unfold validateQuarantinePaths. apply andb_true_iff. split.
  - destruct (comps_member B HB _ (proj1 Hname)) as [Hc Ha]. by eapply strict_subpath.
  - apply forallb_forall. intros e He%list_elem_of_In. by eapply made_valid.
Qed.
End Generated.

(** ** Staging *)

Lemma bind_inv {A B} (m : MM A) (k : A → MM B) s x s' :
  st_bind m k s = (x, s') →
  (∃ a s1, m s = (Ok a, s1) ∧ k a s1 = (x, s')) ∨ (∃ e, m s = (Err e, s') ∧ x = Err e).
Proof. unfold st_bind. destruct (m s) as [[a|e] s1]; intros H; [left; by exists a, s1|right]. exists e. by injection H as <- <-. Qed.

(** Nothing changes. *)
Definition same (s s' : mstate) : Prop := files (ms_fs s') = files (ms_fs s) ∧ ms_db s' = ms_db s.
#[export] Instance same_refl : Reflexive same.
Proof. by intros s. Qed.
#[export] Instance same_trans : Transitive same.
Proof. intros s1 s2 s3 [H1 D1] [H2 D2]. split; congruence. Qed.

Lemma same_kept q s s' : same s s' → kept_at q s s'.
Proof. intros [Hf Hd]. split; [by rewrite Hf|done]. Qed.
Lemma same_query {A} text (f : legacy_db → A) : malong same (m_query text f).
Proof. intros s. unfold m_query, m_stmt. by destruct (ms_faults s) as [|[] ?]. Qed.
Lemma same_fs {A} (m : FS A) : (∀ s, files (m s).2 = files s) → malong same (m_fs m).
Proof. intros Hm s. unfold m_fs. specialize (Hm (ms_fs s)). destruct (m (ms_fs s)) as [x f]. by split. Qed.
Lemma reads_sys {A} (g : disk → res errno A) s : files (sys (λ d, (g d, d)) s).2 = files s.
Proof. destruct (sys _ s) as [r s'] eqn:H. by apply sys_reads in H. Qed.
Lemma reads_SHA sha p s : files (ComputeFileSHA256 sha p s).2 = files s.
Proof. destruct (ComputeFileSHA256 sha p s) as [r s'] eqn:H. by apply ComputeFileSHA256_spec in H as [? _]. Qed.
#[export] Hint Resolve same_query same_fs reads_sys reads_SHA : mig.
Ltac reading := m_auto ltac:(first [done|solve [eauto with mig]]).

(** The paths other than [p] hold what they did. *)
Definition only_at (p : string) (s s' : mstate) : Prop :=
  (∀ q, q ≠ p → files (ms_fs s') !! q = files (ms_fs s) !! q) ∧ ms_db s' = ms_db s.
#[export] Instance only_at_refl p : Reflexive (only_at p).
Proof. by intros s. Qed.
#[export] Instance only_at_trans p : Transitive (only_at p).
Proof. intros s1 s2 s3 [H1 D1] [H2 D2]. split; [intros q Hq; by rewrite H2, H1|congruence]. Qed.
Lemma same_only p s s' : same s s' → only_at p s s'.
Proof. intros [Hf Hd]. split; [by rewrite Hf|done]. Qed.
Lemma only_kept p q s s' : q ≠ p → only_at p s s' → kept_at q s s'.
Proof. intros Hq [Hf Hd]. split; [|done]. intros n Hn. by rewrite Hf. Qed.
Lemma only_reads {A} p (m : MM A) : malong same m → malong (only_at p) m.
Proof. intros Hm s. apply same_only, Hm. Qed.
Lemma only_OpenTrunc p : malong (only_at p) (m_fs (OpenTrunc p)).
Proof.
  intros s. unfold m_fs, OpenTrunc. destruct (sys _ (ms_fs s)) as [r f] eqn:H. apply sys_files in H. simpl.
  split; [|done]. intros q Hq. simpl. destruct H as [(? & _ & ->)|H]; [done|].
  destruct (files (ms_fs s) !! p) as [[]|]; injection H as _ <-; [done|by rewrite lookup_insert_ne..].
Qed.
Lemma only_WriteData cut p data : malong (only_at p) (m_fs (WriteData cut p data)).
Proof.
  intros s. unfold m_fs, WriteData. destruct (osfaults (ms_fs s)) as [|[] ?]; simpl;
    (split; [|done]); intros q Hq; simpl; by rewrite lookup_insert_ne.
Qed.
#[export] Hint Resolve only_OpenTrunc only_WriteData : mig.
Ltac writing := m_auto ltac:(first [done|solve [eauto with mig]|apply only_reads; solve [eauto with mig]]).

Section Stage.
Context (sha256Hex cut : string → string) (B : string) (HB : IsAbs B = true).
Context (name : string) (Hname : quarantine_name name).
#[local] Abbreviation qDir := (Join B name).

Lemma same_stage_plan idx ps : malong same (stage_plan sha256Hex qDir idx ps).
Proof. revert idx. induction ps as [|p ps IH]; intros idx; cbn [stage_plan]; unfold computeFileSHA256; reading. Qed.

Lemma stage_plan_spec idx ps s es s' :
  stage_plan sha256Hex qDir idx ps s = (Ok es, s') →
  OriginalPath <$> es = ps ∧ made sha256Hex B name (files (ms_fs s)) idx es.
Proof.
  revert idx s es s'. induction ps as [|p ps IH]; intros idx s es s'; cbn [stage_plan]; [by intros [= <- _]|].
  unfold or_fail. unfold st_bind at 1 2, m_fs. destruct (Stat p (ms_fs s)) as [[n|] f1] eqn:H1; [|done].
  apply Stat_spec in H1 as [E1 H1]. unfold st_ret at 1. unfold st_bind at 1 2, m_fs, computeFileSHA256. simpl ms_fs.
  destruct (ComputeFileSHA256 sha256Hex p f1) as [[h|] f2] eqn:H2; [|done].
  apply ComputeFileSHA256_spec in H2 as (E2 & data & Hd & ->). unfold st_ret at 1. unfold st_bind at 1.
  destruct (stage_plan sha256Hex qDir (idx + 1) ps _) as [[rest|] s3] eqn:H3; [|done].
  apply IH in H3 as [Ho Hm]. intros [= <- <-]. rewrite fmap_cons, Ho. split; [done|].
  simpl in *. rewrite E2, E1 in Hm.
  split_and!; [done..| |done]. unfold copy_ok. simpl. rewrite E1 in Hd. by apply stat_digest_proof.
Qed.

Lemma write_manifest_only m : malong (only_at (manifest_path qDir)) (write_manifest cut qDir m).
Proof. unfold write_manifest, Close, Fsync, open_dir. writing. Qed.
Lemma write_manifest_spec m s u s' :
  write_manifest cut qDir m s = (Ok u, s') →
  files (ms_fs s') !! manifest_path qDir = Some (FileNode (manifestData m)).
Proof.
  unfold write_manifest, or_fail at 1, st_bind at 1 2, m_fs at 1.
  destruct (OpenTrunc _ (ms_fs s)) as [[v|] f1]; [|done]. unfold st_ret at 1.
  unfold or_fail at 1, st_bind at 1 2, m_fs at 1, WriteData. simpl ms_fs.
  destruct (osfaults f1) as [|[e|] rest]; [|done|]; unfold st_ret at 1;
    (intros H; match type of H with ?m ?s0 = _ => assert (malong same m) as Hm by (unfold Close, Fsync, open_dir; reading);
       pose proof (malong_run same m s0 _ _ Hm H) as [-> _] end; cbn [files ms_fs]; by rewrite lookup_insert_eq).
Qed.
End Stage.

(** *** Moving the planned files *)

Section Staged.
Context (sha256Hex cut : string → string) (B : string) (HB : IsAbs B = true).
Context (name : string) (Hname : quarantine_name name).
#[local] Abbreviation qDir := (Join B name).
Context (d0 : disk) (es : list QuarantineFileEntry) (id : string) (now : Z).
Hypothesis (Hmade : made sha256Hex B name d0 0 es) (Hleft : Forall (leftover B) (OriginalPath <$> es)).
Hypothesis (Hnodup : NoDup (OriginalPath <$> es)).
#[local] Abbreviation m := (Manifest id qDir now es).

Lemma m_valid : validateQuarantinePaths m qDir B = true.
Proof. by eapply made_validates. Qed.
Lemma m_paths e : e ∈ es → original e = OriginalPath e ∧ staged e = StagedPath e ∧ outside B (original e).
Proof. intros He. by eapply made_valid. Qed.
Lemma m_out : Forall (λ f, below qDir (original f) = false) (Files m).
Proof. apply Forall_forall. intros e He. apply m_paths in He as (_ & _ & Ho). by apply Ho. Qed.

Lemma same_original e g : e ∈ es → g ∈ es → original e = original g → e = g.
Proof.
  intros He Hg Heq. destruct (m_paths e He) as [H1 _], (m_paths g Hg) as [H2 _]. rewrite H1, H2 in Heq.
  apply list_elem_of_lookup in He as [i Hi], Hg as [j Hj].
  assert (i = j) as ->; [|congruence]. eapply (NoDup_lookup (OriginalPath <$> es)); [done|..];
    rewrite list_lookup_fmap, ?Hi, ?Hj; simpl; by rewrite ?Heq.
Qed.

Lemma stage_move e s r s' :
  e ∈ es → durableNoReplaceMove sha256Hex cut (OriginalPath e) (StagedPath e) (q_Size e) (q_SHA256 e) s = (r, s') →
  Forall (safe sha256Hex (files s)) es → Forall (safe sha256Hex (files s')) es.
Proof.
  intros He Hm Hs. destruct (m_paths e He) as (Ho & Hst & _).
  assert (staged e ≠ original e) as Hne by (eapply (staged_original qDir B m); [apply IsAbs_member, Hname|apply m_valid|apply m_out|done..]; done).
  pose proof (fkeeps_move sha256Hex cut) as Hk. rewrite <- Ho, <- Hst in Hm.
  assert (∀ q n, original e ≠ q → files s !! q = Some n → files s' !! q = Some n) as Hkeep.
  { intros q n Hq Hn. specialize (Hk q (original e) (staged e) (q_Size e) (q_SHA256 e) Hq s n Hn). by rewrite Hm in Hk. }
  rewrite Forall_forall in Hs |- *. intros g Hg.
  destruct (decide (g = e)) as [->|Hge].
  - destruct (Hs e He) as [(data & Hd & Hp)|(data & Hd & Hp)]; [|right; exists data; split; [by apply Hkeep|done]].
    apply move_spec in Hm; [|done]. destruct Hm as [|ok x Hn Hx|ok x Hn Hx].
    + left. by exists data.
    + left. exists data. by rewrite lookup_insert_ne.
    + right. rewrite Hd in Hx. injection Hx as <-. exists data. by rewrite lookup_insert_eq.
  - destruct (Hs g Hg) as [(data & Hd & Hp)|(data & Hd & Hp)]; [left|right]; exists data; (split; [|done]);
      apply Hkeep; try done.
    + intros Heq. apply Hge. by apply same_original.
    + intros Heq. symmetry in Heq. revert Heq.
      eapply (staged_original qDir B m); [apply IsAbs_member, Hname|apply m_valid|apply m_out|done..]; done.
Qed.

Lemma stage_files_safe fs s r s' :
  (∀ e, e ∈ fs → e ∈ es) → stage_files sha256Hex cut fs s = (r, s') →
  Forall (safe sha256Hex (files (ms_fs s))) es → Forall (safe sha256Hex (files (ms_fs s'))) es.
Proof.
  revert s r. induction fs as [|e fs IH]; intros s r Hin; cbn [stage_files]; [by intros [= _ <-]|].
  unfold or_fail. unfold st_bind at 1 2, m_fs at 1. destruct (Stat _ (ms_fs s)) as [x f1] eqn:H1.
  apply Stat_spec in H1 as [E1 _]. destruct x; [|intros [= _ <-]; simpl; by rewrite E1].
  unfold st_ret at 1. unfold st_bind at 1 2, m_fs at 1. simpl ms_fs.
  destruct (durableNoReplaceMove _ _ _ _ _ _ f1) as [y f2] eqn:H2. intros Hr Hs. rewrite <- E1 in Hs.
  apply stage_move in H2; [|by apply Hin; left|done]. destruct y; [|by injection Hr as _ <-].
  revert Hr. unfold st_ret at 1. intros Hr. eapply IH; [|exact Hr|done]. intros g Hg. apply Hin. by right.
Qed.

Lemma stage_files_kept fs q :
  (∀ e, e ∈ fs → OriginalPath e ≠ q) → malong (kept_at q) (stage_files sha256Hex cut fs).
Proof.
  induction fs as [|e fs IH]; intros Hq; cbn [stage_files]; [kept|].
  assert (OriginalPath e ≠ q) by (apply Hq; by left).
  assert (malong (kept_at q) (stage_files sha256Hex cut fs)) by (apply IH; intros g Hg; apply Hq; by right). kept.
Qed.
End Staged.

(** Only statements: the files stay. *)
Definition nofs (s s' : mstate) : Prop := files (ms_fs s') = files (ms_fs s).
#[export] Instance nofs_refl : Reflexive nofs.
Proof. by intros s. Qed.
#[export] Instance nofs_trans : Transitive nofs.
Proof. intros s1 s2 s3 H1 H2. unfold nofs in *. congruence. Qed.
Lemma nofs_exec text f : malong nofs (m_exec text f).
Proof. intros s. unfold m_exec, m_stmt. by destruct (ms_faults s) as [|[] ?]. Qed.
Lemma nofs_verdict id : malong nofs (insert_verdict id).
Proof.
  intros s. unfold insert_verdict, st_bind, m_stmt. destruct (ms_faults s) as [|[] ?]; try done;
    destruct (l_verdicts (ms_db s)) as [t|]; try done; by case_decide.
Qed.
#[export] Hint Resolve nofs_exec nofs_verdict : mig.
Ltac statements := m_auto ltac:(first [done|solve [eauto with mig]]).

Lemma nofs_import n r : malong nofs (import_rows n r).
Proof.
  unfold import_rows. assert (malong nofs (apply_items n (Items r))); [|statements].
  induction (Items r) as [|i l IH]; cbn [apply_items]; statements.
Qed.
Lemma nofs_drop tbls : malong nofs (drop_tables tbls).
Proof. induction tbls as [|t tbls IH]; cbn [drop_tables]; statements. Qed.
#[export] Hint Resolve nofs_import nofs_drop : mig.

(** ** What a run leaves *)

Definition small_disk (d : disk) : Prop :=
  ∀ p data, d !! p = Some (FileNode data) → in_int64 (Z.of_nat (String.length data)).
Definition committed_id (id : string) (s : mstate) : Prop :=
  l_verdicts (ms_db s) ≫= (λ t, t !! id) = Some "COMMITTED".
#[export] Instance committed_id_dec id s : Decision (committed_id id s).
Proof. unfold committed_id. apply _. Defined.

Section Outcome.
Context (sha256Hex cut : string → string) (B : string) (HB : IsAbs B = true).
Context (name : string) (Hname : quarantine_name name) (id : string) (now : Z) (Hnow : in_int64 now).
#[local] Abbreviation qDir := (Join B name).
Context (ps : list string) (Hleft : Forall (leftover B) ps) (Hnodup : NoDup ps).
#[local] Abbreviation manifest es := (Manifest id qDir now es).

(** Nothing was moved yet. *)
Definition not_moved (d d' : disk) : Prop := ∀ q n, outside B q → d !! q = Some n → d' !! q = Some n.
(** The planned files are in the quarantine or back, the others untouched. *)
Record staged_as (es : list QuarantineFileEntry) (d d' : disk) : Prop := StagedAs {
  sa_paths : OriginalPath <$> es = ps;
  sa_made : made sha256Hex B name d 0 es;
  sa_ok : quarantine_ok sha256Hex qDir (manifest es) d';
  sa_kept : ∀ q n, outside B q → q ∉ ps → d !! q = Some n → d' !! q = Some n;
}.
Definition outcome (d d' : disk) : Prop := not_moved d d' ∨ ∃ es, staged_as es d d'.

(** The file is where it was, or in the quarantine under a manifest that a later
    reconciliation accepts. *)
Definition survives (p data : string) (d : disk) : Prop :=
  has_proof sha256Hex p (Z.of_nat (String.length data)) (sha256Hex data) d ∨
  ∃ m f, d !! manifest_path qDir = Some (FileNode (manifestData m)) ∧ parse_manifest (manifestData m) = Some m ∧
    validateQuarantinePaths m qDir B = true ∧ MigrationID m = id ∧ f ∈ Files m ∧ OriginalPath f = p ∧
    has_proof sha256Hex (StagedPath f) (Z.of_nat (String.length data)) (sha256Hex data) d.

Lemma manifest_parses d d' es : small_disk d → staged_as es d d' → parse_manifest (manifestData (manifest es)) = Some (manifest es).
Proof.
  intros Hs [Hp Hm _ _].
  apply manifest_reads_back. split; [done|]. apply Forall_forall. intros e He.
  destruct (made_elem _ _ _ _ _ _ _ Hm He) as (_ & _ & data & Hd & <- & _). by eapply Hs.
Qed.

Lemma outcome_survives d d' p data :
  small_disk d → outcome d d' → outside B p → d !! p = Some (FileNode data) → survives p data d'.
Proof.
  intros Hsm [Hn|[es Hst]] Hp Hd; [left; exists data; split; [by apply Hn|done]|].
  pose proof (manifest_parses _ _ _ Hsm Hst) as Hparse. destruct Hst as [Hes Hm Hok Hk].
  destruct (decide (p ∈ ps)) as [Hin|Hin]; [|left; exists data; split; [by apply Hk|done]].
  rewrite <- Hes in Hin, Hleft. apply list_elem_of_fmap in Hin as (e & -> & He).
  destruct (made_elem _ _ _ _ _ _ _ Hm He) as (_ & Hsp & data' & Hd' & Hsz & Hsha).
  rewrite Hd in Hd'. injection Hd' as <-.
  destruct (m_paths sha256Hex cut B HB name Hname _ es Hm Hleft e He) as (Ho & Hst & _).
  assert (∀ x, copy_ok sha256Hex d' x e → has_proof sha256Hex x (Z.of_nat (String.length data)) (sha256Hex data) d') as Hcp
    by (intros x Hx; by rewrite Hsz, Hsha).
  destruct Hok as [Hall|[Hman Hall]]; rewrite Forall_forall in Hall; specialize (Hall e He).
  - left. rewrite <- Ho. by apply Hcp.
  - destruct Hall as [Hc|Hc]; [left; rewrite <- Ho; by apply Hcp|right].
    exists (manifest es), e. split_and!; [done|done| |done..|rewrite <- Hst; by apply Hcp].
    by eapply made_validates.
Qed.

Lemma outcome_reconcile dbPath d s :
  small_disk d → outcome d (files (ms_fs s)) → ¬ committed_id id s →
  outcome d (files (ms_fs (ReconcilePendingQuarantines sha256Hex cut dbPath B s).2)).
Proof.
  intros Hsm Ho Hnc.
  assert (∀ q n, outside B q → files (ms_fs s) !! q = Some n →
    files (ms_fs (ReconcilePendingQuarantines sha256Hex cut dbPath B s).2) !! q = Some n) as Hk.
  { intros q n Hq. by apply (kept_reconcile_all sha256Hex cut B HB dbPath q Hq s). }
  destruct Ho as [Hn|[es Hst]]; [left; intros q n Hq Hd; by apply Hk, Hn|].
  right. exists es. pose proof (manifest_parses _ _ _ Hsm Hst) as Hparse. destruct Hst as [Hes Hm Hok Hkd].
  split; [done..| |intros q n Hq Hin Hd; by apply Hk, Hkd]. rewrite <- Hes in Hleft.
  apply (ok_reconcile sha256Hex cut B HB name Hname (manifest es)); [by eapply made_validates| |by eapply made_names
    |done|by eapply made_not_manifest| |done].
  - apply Forall_forall. intros e He. by eapply made_valid.
  - intros t Ht Hc. apply Hnc. unfold committed_id. by rewrite Ht.
Qed.

Lemma manifest_in_quarantine : below qDir (manifest_path qDir) = true.
Proof. apply manifest_below. by apply IsAbs_member, Hname. Qed.
Lemma manifest_not_leftover l : Forall (leftover B) l → manifest_path qDir ∉ l.
Proof.
  rewrite Forall_forall. intros Hl [_ _ _ _ Ho]%Hl. specialize (Ho name Hname). by rewrite manifest_in_quarantine in Ho.
Qed.

Lemma made_before d d1 idx es :
  (∀ q n, d !! q = Some n → d1 !! q = Some n) → (∀ p, p ∈ OriginalPath <$> es → is_Some (d !! p)) →
  made sha256Hex B name d1 idx es → made sha256Hex B name d idx es.
Proof.
  intros Hk. revert idx. induction es as [|e es IH]; intros idx Hin; [done|].
  rewrite fmap_cons in Hin. intros (H1 & H2 & (data & Hd & Hp) & Hm). split_and!; [done..| |].
  - exists data. split; [|done]. destruct (Hin (OriginalPath e)) as [n Hn]; [by left|].
    pose proof (Hk _ _ Hn) as Hn1. congruence.
  - apply IH; [|done]. intros p Hp'. apply Hin. by right.
Qed.

Lemma stage_outcome s r s' :
  (∀ p, p ∈ ps → is_Some (files (ms_fs s) !! p)) → stage sha256Hex cut qDir id now ps s = (r, s') →
  ms_db s' = ms_db s ∧ outcome (files (ms_fs s)) (files (ms_fs s')) ∧
  (∀ es, r = Ok es → staged_as es (files (ms_fs s)) (files (ms_fs s'))).
Proof.
  intros Hin. unfold stage. unfold st_bind at 1. destruct (or_fail _ (MkdirAll qDir) s) as [x s1] eqn:H1.
  assert (∀ q, kept_at q s s1) as K1 by (intros q; eapply malong_run; [|exact H1]; kept).
  assert (ms_db s1 = ms_db s) as D1 by apply (K1 qDir).
  assert (not_moved (files (ms_fs s)) (files (ms_fs s1))) as N1 by (intros q n _; apply K1).
  destruct x as [u|]; [|intros [= <- <-]; split_and!; [done|by left|done]].
  unfold st_bind at 1. destruct (stage_plan sha256Hex qDir 0 ps s1) as [y s2] eqn:H2.
  pose proof (malong_run same _ _ _ _ (same_stage_plan sha256Hex B name 0 ps) H2) as [E2 D2].
  destruct y as [es|]; [|intros [= <- <-]; split_and!; [congruence|left; by rewrite E2|done]].
  apply stage_plan_spec in H2 as [Hes Hm1].
  assert (made sha256Hex B name (files (ms_fs s)) 0 es) as Hm.
  { eapply made_before; [intros q n; apply K1|by rewrite Hes|done]. }
  unfold st_bind at 1. destruct (write_manifest cut qDir (manifest es) s2) as [z s3] eqn:H3.
  pose proof (malong_run _ _ _ _ _ (write_manifest_only cut B name (manifest es)) H3) as O3.
  assert (∀ q n, below qDir q = false → files (ms_fs s) !! q = Some n → files (ms_fs s3) !! q = Some n) as K3.
  { intros q n Hq Hn. apply (only_kept (manifest_path qDir) q s2 s3); [|done|rewrite E2; by apply K1].
    intros ->. by rewrite manifest_in_quarantine in Hq. }
  destruct z as [u'|]; [|intros [= <- <-]; split_and!; [destruct O3; congruence| |done]].
  2:{ left. intros q n Hq. apply K3. by apply Hq. }
  apply write_manifest_spec in H3. unfold st_bind at 1.
  destruct (stage_files sha256Hex cut es s3) as [w s4] eqn:H4. rewrite <- Hes in Hleft, Hnodup.
  assert (Forall (safe sha256Hex (files (ms_fs s4))) es) as Hs4.
  { eapply stage_files_safe; [done..|exact H4|]. apply Forall_forall. intros e He. left.
    destruct (m_paths sha256Hex cut B HB name Hname _ es Hm Hleft e He) as (Ho & _ & Hout).
    destruct (made_elem _ _ _ _ _ _ _ Hm He) as (_ & _ & data & Hd & Hp). exists data.
    split; [|done]. rewrite Ho in *. apply K3; [by apply Hout|done]. }
  assert (manifest_path qDir ∉ ps) as Hmp by (rewrite <- Hes; by apply manifest_not_leftover).
  assert (∀ q, q ∉ ps → kept_at q s3 s4) as K4.
  { intros q Hq. eapply malong_run; [|exact H4]. apply stage_files_kept. intros e He Heq. apply Hq.
    rewrite <- Hes, <- Heq. by apply list_elem_of_fmap_2. }
  assert (staged_as es (files (ms_fs s)) (files (ms_fs s4))) as Hst.
  { split; [done..| |].
    - right. split; [|done]. by apply K4.
    - intros q n Hq Hp Hd. apply K4; [done|]. apply K3; [by apply Hq|done]. }
  assert (ms_db s4 = ms_db s3) as D4.
  { by apply (K4 (manifest_path qDir)). }
  destruct O3 as [_ D3].
  destruct w as [u''|]; intros [= <- <-]; split_and!; [congruence|by right; exists es| |congruence|by right; exists es|done].
  intros es' [= <-]. done.
Qed.

Context (o : MigrationOptions) (r : MigrationReport) (Hps : PlannedCleanFiles r = ps).

Lemma qDir_set : qDir ≠ "".
Proof. intros He. pose proof (IsAbs_member B HB name (proj1 Hname)) as Ha. by rewrite He in Ha. Qed.

Lemma verdict_exec s u s' : insert_verdict id s = (Ok u, s') → committed_id id s'.
Proof.
  unfold insert_verdict, st_bind, m_stmt, committed_id, st_ret, st_err. intros Hi.
  destruct (ms_faults s) as [|[] ?]; try done; destruct (l_verdicts (ms_db s)) as [t|]; try done; case_decide; try done;
    simplify_eq/=; by rewrite lookup_insert_eq.
Qed.
Lemma ensure_exec s u s' :
  m_exec "ensure migration verdicts table" (λ d,
    match l_verdicts d with Some _ => d | None => set_l_verdicts (Some ∅) d end) s = (Ok u, s') →
  is_Some (l_verdicts (ms_db s')).
Proof.
  unfold m_exec, m_stmt. destruct (ms_faults s) as [|[] ?]; intros H; simplify_eq/=;
    (destruct (l_verdicts (ms_db s)) eqn:E; [rewrite E|]; by eexists).
Qed.

Lemma stage_and_record_outcome s x s' :
  (∀ p, p ∈ ps → is_Some (files (ms_fs s) !! p)) → stage_and_record sha256Hex cut o now r qDir id s = (x, s') →
  outcome (files (ms_fs s)) (files (ms_fs s')) ∧
  (∀ es, x = Ok es → staged_as es (files (ms_fs s)) (files (ms_fs s')) ∧ committed_id id s').
Proof.
  intros Hin. unfold stage_and_record. pose proof qDir_set as Hq. rewrite !decide_False, Hps by done.
  intros [(es & s1 & H1 & H)|(e & H1 & ->)]%bind_inv; apply stage_outcome in H1 as (_ & Ho & Hst); try done.
  specialize (Hst es eq_refl).
  assert (nofs s1 s') as E.
  { eapply malong_run; [|exact H]. statements. }
  rewrite E. split; [done|]. intros es' ->. revert H. clear E.
  intros [(u & s2 & _ & H)|(? & _ & ?)]%bind_inv; [|done].
  apply bind_inv in H as [(u2 & s3 & H3%ensure_exec & H)|(? & _ & ?)]; [|done].
  apply bind_inv in H as [(u3 & s4 & H4 & H)|(? & _ & ?)]; [|done].
  apply verdict_exec in H4. by injection H as <- <-.
Qed.

Lemma stage_and_commit_outcome env d0 s x s' :
  e_now env = now → migration_id env = id → (∀ p, p ∈ ps → is_Some (files (ms_fs s) !! p)) →
  stage_and_commit sha256Hex cut o env r qDir d0 s = (x, s') →
  outcome (files (ms_fs s)) (files (ms_fs s')) ∧
  (∀ es, x = Ok es → staged_as es (files (ms_fs s)) (files (ms_fs s')) ∧ committed_id id s').
Proof.
  intros Hn Hid Hin. unfold stage_and_commit. rewrite Hid, Hn.
  destruct (stage_and_record sha256Hex cut o now r qDir id s) as [y s1] eqn:H1.
  apply stage_and_record_outcome in H1 as [Ho Hst]; [|done]. destruct y as [es|]; [|by intros [= <- <-]].
  specialize (Hst es eq_refl) as [Hst Hc]. unfold st_bind, commit_tx, st_ret.
  destruct (ms_faults s1) as [|[] fl]; intros [= <- <-]; (split; [done|]); intros es' He; simplify_eq; done.
Qed.

(** Emptying the quarantine leaves everything else. *)
Lemma purge_kept es d d' q :
  staged_as es d d' → outside B q →
  malong (kept_at q) (let! _ := purge_files es in remove_quarantine qDir).
Proof.
  intros [Hes Hm _ _] Hq. pose proof (IsAbs_member B HB name (proj1 Hname)) as Ha.
  apply malong_bind; [apply _| |intros _; apply kept_remove_quarantine; [done|by apply Hq]].
  apply (kept_purge qDir B q Ha (Hq name Hname)). apply Forall_forall. intros e He.
  rewrite <- Hes in Hleft. by eapply made_valid.
Qed.

Lemma apply_changes_survives env s p data :
  e_now env = now → migration_id env = id → BufferDir o = B → quarantine_dir o env r = qDir →
  small_disk (files (ms_fs s)) → (∀ p, p ∈ ps → is_Some (files (ms_fs s) !! p)) →
  outside B p → files (ms_fs s) !! p = Some (FileNode data) →
  let s' := (apply_changes sha256Hex cut o env r s).2 in
  survives p data (files (ms_fs s')) ∨ (p ∈ ps ∧ committed_id id s').
Proof.
  intros Hn Hid HBo Hqd Hsm Hin Hp Hd. unfold apply_changes. rewrite Hqd.
  assert (∀ s1, nofs s s1 → survives p data (files (ms_fs s1))) as Hsame.
  { intros s1 E. left. exists data. by rewrite E. }
  destruct (m_query _ _ s) as [b s1] eqn:H1. apply (malong_run same) in H1 as [E1 D1]; [|apply same_query].
  destruct b as [d0|]; [|left; by apply Hsame].
  destruct (import_rows _ r s1) as [c s2] eqn:H2. apply (malong_run nofs) in H2; [|apply nofs_import].
  assert (nofs s s2) as E2 by (unfold nofs in *; congruence). destruct c; [|left; by apply Hsame].
  destruct (stage_and_commit sha256Hex cut o env r qDir d0 s2) as [x s3] eqn:H3.
  apply stage_and_commit_outcome in H3 as [Ho Hst]; [|done..|by rewrite E2]. rewrite E2 in Ho, Hst.
  pose proof qDir_set as Hq. destruct x as [es|]; rewrite !decide_False by done.
  - specialize (Hst es eq_refl) as [Hst Hc].
    match goal with |- context [st_bind ?m ?k s3] => pose proof (malong_run (kept_at p) (st_bind m k) s3 _ _
      (malong_bind _ _ _ (purge_kept es _ _ p Hst Hp) (λ _, malong_ret _ _)) (surjective_pairing _)) as [Hk Hdb] end.
    destruct (decide (p ∈ ps)) as [Hps'|Hps']; [right|left].
    + split; [done|]. unfold committed_id. by rewrite Hdb.
    + left. exists data. split; [|done]. apply Hk. by eapply sa_kept.
  - rewrite HBo. destruct (ReconcilePendingQuarantines _ _ _ _ s3) as [y s4] eqn:H4. simpl.
    destruct (decide (committed_id id s3)) as [Hc|Hc].
    + pose proof (malong_run _ _ _ _ _ (kept_reconcile_all sha256Hex cut B HB (DBPath o) p Hp) H4) as [Hk Hdb].
      destruct (decide (p ∈ ps)) as [Hps'|Hps']; [right; split; [done|]; unfold committed_id; by rewrite Hdb|].
      left. left. exists data. split; [|done]. apply Hk. destruct Ho as [Ho|[es Ho]]; [by apply Ho|by eapply sa_kept].
    + left. eapply outcome_survives; [exact Hsm| |done|done].
      pose proof (outcome_reconcile (DBPath o) _ s3 Hsm Ho Hc) as Hr. by rewrite H4 in Hr.
Qed.
End Outcome.

(** ** The run *)

Section Run.
Context (sha256Hex cut : string → string) (o : MigrationOptions) (env : run_env).
#[local] Abbreviation B := (BufferDir o).
#[local] Abbreviation backup := (DBPath o +:+ ".migrate." +:+ e_stamp env +:+ ".bak").
#[local] Abbreviation name := (quarantine_prefix +:+ itoa (e_now env)).

(** No path of the disk is in a quarantine. *)
Definition no_quarantine (d : disk) : Prop := ∀ q n, d !! q = Some n → outside B q.

Lemma name_quarantine : quarantine_name name.
Proof.
  split; [|apply HasPrefix_app]. split_and!; [done..|]. unfold no_slash. rewrite chars_app, elem_of_app. intros [H|H].
  - revert H. rewrite list_elem_of_In. vm_compute. intuition discriminate.
  - revert H. apply safe_text_no_slash, safe_text_itoa.
Qed.

Lemma same_reconcile dbPath s :
  IsAbs B = true → no_quarantine (files (ms_fs s)) → same s (ReconcilePendingQuarantines sha256Hex cut dbPath B s).2.
Proof.
  intros HB Hq. assert (Glob B (files (ms_fs s)) = []) as Hg.
  { destruct (Glob B (files (ms_fs s))) as [|x l] eqn:Hg; [done|exfalso].
    assert (x ∈ Glob B (files (ms_fs s))) as Hx by (rewrite Hg; by left).
    unfold Glob in Hx. apply list_elem_of_omap in Hx as ([p n] & Hw & Hx). simpl in Hx. case_decide as Hc; [|done].
    apply Walk_elem in Hw as [Hd _]. simpl in Hd. destruct Hc as [Hc Hpre].
    assert (plain (Base p)) as Hpl.
    { eapply (comps_elem_plain B HB); [exact Hc|]. intros He. by rewrite He in Hpre. }
    pose proof (Hq p n Hd (Base p) (conj Hpl Hpre)) as Hb. apply bool_decide_eq_false in Hb. apply Hb.
    by rewrite comps_Join, Hc. }
  unfold ReconcilePendingQuarantines. case_decide; [reflexivity|].
  unfold or_fail, st_bind, m_fs. destruct (sys _ (ms_fs s)) as [r f] eqn:HG. pose proof (sys_files _ _ _ _ HG) as Hr.
  apply sys_reads in HG. destruct r as [l|e]; [|by split]. destruct Hr as [(? & ? & _)|[= <- _]]; [done|].
  rewrite Hg. by split.
Qed.

Lemma same_discover tbls : malong same (discover tbls).
Proof. induction tbls as [|t tbls IH]; cbn [discover]; reading. Qed.
Lemma verify_reads cands n sha s : files (verify_candidates sha256Hex cands n sha s).2 = files s.
Proof.
  revert s. induction cands as [|c cands IH]; intros s; [done|]. cbn [verify_candidates]. unfold sm_bind at 1.
  destruct (Stat c s) as [x s1] eqn:H1. apply Stat_spec in H1 as [H1 _]. rewrite <- H1.
  destruct x as [[|data]|]; [apply IH| |apply IH].
  destruct (_ && _); [done|]. case_decide; [done|]. unfold sm_bind, computeFileSHA256.
  destruct (ComputeFileSHA256 _ _ _) as [h s2] eqn:H2. apply ComputeFileSHA256_spec in H2 as [H2 _]. by destruct h.
Qed.
Lemma verifyDiskFile_reads p n sha t a s : files (verifyDiskFile sha256Hex p n sha t a s).2 = files s.
Proof.
  unfold verifyDiskFile. case_decide; [done|]. unfold sm_bind, sm_ret.
  pose proof (verify_reads ((if decide (t = "") then [] else [Join t p]) ++ (if decide (a = "") then [] else [Join a p])) n sha s) as H'.
  by destruct (verify_candidates _ _ _ _ _).
Qed.
Lemma commit_items_reads cs s : files (commit_items sha256Hex o cs s).2 = files s.
Proof.
  revert s. induction cs as [|c cs IH]; intros s; [done|]. cbn [commit_items]. unfold sm_bind, sm_ret.
  destruct (verifyDiskFile _ _ _ _ _ _ s) as [v s1] eqn:H1. rewrite <- (verifyDiskFile_reads (c_savePath c) (c_fileSize c) (c_sha256Hex c) (TargetDir o) (ArchiveDir o) s), H1.
  specialize (IH s1). by destruct (commit_items _ _ _ s1).
Qed.
Lemma record_items_reads cs rs s : files (record_items sha256Hex o cs rs s).2 = files s.
Proof.
  revert s. induction rs as [|[k r] rs IH]; intros s; [done|]. cbn [record_items]. destruct (committed_key cs k); [apply IH|].
  unfold sm_bind, sm_ret. destruct (verifyDiskFile _ _ _ _ _ _ s) as [v s1] eqn:H1.
  rewrite <- (verifyDiskFile_reads (coalesce "" (save_path r)) (coalesce 0 (file_size r)) (coalesce "" (sha256 r)) (TargetDir o) (ArchiveDir o) s), H1.
  specialize (IH s1). by destruct (record_items _ _ _ _ s1).
Qed.

(** What the inventory plans to remove is left-over. *)
Lemma inspect_buffer_spec s buf s' :
  inspect_buffer B s = (Ok buf, s') →
  buf = [] ∨ (files (ms_fs s) !! Clean B = Some DirNode ∧ buf = leftovers B (files (ms_fs s))).
Proof.
  unfold inspect_buffer. case_decide; [intros [= <- _]; by left|]. unfold st_bind at 1, m_fs, st_ret, st_err.
  destruct (Stat (Clean B) (ms_fs s)) as [st f1] eqn:H1. apply Stat_spec in H1 as [E1 H1].
  destruct st as [[|data]|[]]; try (intros HG; simplify_eq/=; by auto).
  unfold or_fail, st_bind, m_fs. destruct (sys _ _) as [x f2] eqn:H2. apply sys_files in H2.
  destruct x; [|done]. intros [= <- _]. destruct H2 as [(? & ? & _)|[= <- _]]; [done|]. right. simpl. by rewrite E1.
Qed.
Lemma same_inspect : malong same (inspect_buffer B).
Proof. unfold inspect_buffer. reading. Qed.

Lemma createVerifiedBackup_spec s x s' :
  createVerifiedBackup cut (DBPath o) (e_stamp env) s = (x, s') →
  only_at backup s s' ∧
  (is_ok x = true → ∃ data, files (ms_fs s) !! DBPath o = Some (FileNode data) ∧
     files (ms_fs s') = <[backup := FileNode data]> (files (ms_fs s))).
Proof.
  intros Hc. split; [eapply malong_run; [|exact Hc]; unfold createVerifiedBackup, ReadFile, Close, Fsync; writing|].
  destruct x as [b|]; [intros _|done]. revert Hc. unfold createVerifiedBackup, or_fail.
  unfold st_bind at 1 2, m_fs at 1. destruct (ReadFile (DBPath o) (ms_fs s)) as [[data|] f1] eqn:H1; [|done].
  apply ReadFile_spec in H1 as [E1 H1]. exists data. split; [done|]. rewrite <- E1. revert Hc. unfold st_ret at 1.
  unfold st_bind at 1 2, m_fs at 1. simpl ms_fs. destruct (OpenTrunc backup f1) as [[u|] f2] eqn:H2; [|done].
  assert (files f2 = <[backup := FileNode ""]> (files f1)) as E2.
  { apply sys_files in H2 as [(? & ? & _)|H2]; [done|]. by destruct (files f1 !! backup) as [[]|]; simplify_eq. }
  unfold st_ret at 1. unfold st_bind at 1 2, m_fs at 1, WriteData. simpl ms_fs.
  destruct (osfaults f2) as [|[e|] rest]; [|done|]; unfold st_ret at 1;
    (intros H; match type of H with ?m ?s0 = _ => assert (malong same m) as Hm by (unfold Close, Fsync; reading);
       pose proof (malong_run same m s0 _ _ Hm H) as [-> _] end; cbn [files ms_fs]; by rewrite E2, insert_insert_eq).
Qed.

(** Without planned files, the files stay as they are. *)
Lemma apply_changes_no_files r s :
  quarantine_dir o env r = "" → files (ms_fs (apply_changes sha256Hex cut o env r s).2) = files (ms_fs s).
Proof.
  intros Hq. unfold apply_changes. rewrite Hq.
  destruct (m_query _ _ s) as [b s1] eqn:H1. apply (malong_run same) in H1 as [E1 D1]; [|apply same_query].
  destruct b as [d0|]; [|done]. destruct (import_rows _ r s1) as [c s2] eqn:H2.
  apply (malong_run nofs) in H2; [|apply nofs_import]. rewrite <- E1, <- H2. destruct c; [|done].
  unfold stage_and_commit. destruct (stage_and_record _ _ _ _ _ _ _ s2) as [y s3] eqn:H3.
  assert (nofs s2 s3) as <-.
  { revert H3. unfold stage_and_record. rewrite !decide_True by done. intros H3. eapply malong_run; [|exact H3].
    statements. }
  destruct y; [|by rewrite decide_True]. unfold st_bind at 1, commit_tx.
  destruct (ms_faults s3) as [|[] fl]; simpl; by rewrite ?decide_True.
Qed.

(** Reading steps before what matters. *)
Lemma peel {A C} (Φ : mstate → Prop) s0 (m : MM A) (k : A → MM C) s :
  (∀ s1, same s0 s1 → Φ s1) → same s0 s → same s (m s).2 →
  (∀ x s1, m s = (Ok x, s1) → same s0 s1 → Φ (k x s1).2) → Φ (st_bind m k s).2.
Proof.
  intros H0 Hs Hm Hk. unfold st_bind. assert (same s0 (m s).2) as Hs1 by (by transitivity s).
  destruct (m s) as [[x|e] s1] eqn:He; [by apply Hk|by apply H0].
Qed.

(** What becomes of a file [data] at [p] in the end. *)
Definition not_lost (p data : string) (s' : mstate) : Prop :=
  survives sha256Hex B name (migration_id env) p data (files (ms_fs s')) ∨
  (leftover B p ∧ committed_id (migration_id env) s').

Lemma not_lost_here p data s' : files (ms_fs s') !! p = Some (FileNode data) → not_lost p data s'.
Proof. intros Hd. left. left. by exists data. Qed.

Lemma changes_not_lost buf r s s1 p data :
  IsAbs B = true → in_int64 (e_now env) → clean_disk (files (ms_fs s)) → no_quarantine (files (ms_fs s)) →
  (buf = [] ∨ (files (ms_fs s) !! Clean B = Some DirNode ∧ buf = leftovers B (files (ms_fs s)))) →
  PlannedCleanFiles r = buf.*1 → small_disk (files (ms_fs s1)) →
  (∀ q, is_Some (files (ms_fs s) !! q) → is_Some (files (ms_fs s1) !! q)) →
  outside B p → files (ms_fs s1) !! p = Some (FileNode data) →
  not_lost p data (apply_changes sha256Hex cut o env r s1).2.
Proof.
  intros HB Hnow Hcl Hnq Hbuf Hps Hsm Hin Hp Hd.
  assert (BufferDir o ≠ "") as HBo by (intros He; by rewrite He in HB).
  destruct (PlannedCleanFiles r) as [|x ps] eqn:Hpl.
  { apply not_lost_here. rewrite apply_changes_no_files; [done|]. unfold quarantine_dir. by rewrite Hpl. }
  destruct Hbuf as [->|[Hdir ->]]; [done|].
  assert (∀ q, q ∈ x :: ps → leftover B q ∧ is_Some (files (ms_fs s1) !! q)) as Hall.
  { intros q Hq. rewrite Hps in Hq. destruct (leftovers_spec _ _ _ HB Hcl Hnq Hdir Hq) as [? [? ?]].
    split; [done|]. apply Hin. by eexists. }
  destruct (apply_changes_survives sha256Hex cut B HB name name_quarantine (migration_id env) (e_now env) Hnow (x :: ps))
    with (o := o) (r := r) (env := env) (s := s1) (p := p) (data := data) as [Hs|[Hin' Hc]]; try done.
  - apply Forall_forall. intros q Hq. by apply Hall.
  - rewrite Hps. apply leftovers_NoDup.
  - unfold quarantine_dir. by rewrite Hpl, decide_False.
  - intros q Hq. by apply Hall.
  - by left.
  - right. split; [by apply Hall|done].
Qed.

(** On to the next reading step. *)
Ltac read_on :=
  let s2 := fresh "s2" in let S2 := fresh "S2" in
  intros ? s2 _ S2;
  match goal with
  | S1 : same ?s ?s1, S2 : same ?s s2 |- _ => clear dependent s1; rename s2 into s1, S2 into S1
  end.

End Run.

(** ** Concrete runs *)

(** Below the buffer directory, but not in a quarantine. *)
Fixpoint after (base cs : list string) : option (list string) :=
  match base, cs with
  | [], _ => Some cs
  | x :: base, y :: cs => if decide (x = y) then after base cs else None
  | _, _ => None
  end.
Definition outsideb (B p : string) : bool :=
  match after (comps B) (comps p) with Some (x :: _) => negb (HasPrefix x quarantine_prefix) | _ => true end.
Lemma outsideb_outside B p : IsAbs B = true → outsideb B p = true → outside B p.
Proof.
  intros HB Ho n [Hp Hn]. apply bool_decide_eq_false. rewrite comps_Join by done. intros [k Hk].
  rewrite <- app_assoc in Hk. unfold outsideb in Ho. rewrite Hk in Ho.
  assert (∀ b l, after b (b ++ l) = Some l) as Ha.
  { intros b l. induction b as [|x b IH]; [done|]. simpl. by rewrite decide_True. }
  rewrite Ha in Ho. simpl in Ho. by rewrite Hn in Ho.
Qed.

Definition toy_sha (s : string) : string := "sha:" +:+ s.
Definition toy_cut (s : string) : string := "".
Definition toy_options : MigrationOptions := Options "/db" "/tgt" "" "/buf" false true true.
Definition toy_env (now : Z) : run_env := REnv now 7 "stamp".
Definition toy_disk : disk :=
  list_to_map [("/", DirNode); ("/db", FileNode "sqlite"); ("/buf", DirNode); ("/buf/a.part", FileNode "aaa");
    ("/buf/sub", DirNode); ("/buf/sub/segment7", FileNode "bb"); ("/buf/keep.txt", FileNode "k");
    ("/tgt", DirNode); ("/tgt/x", FileNode "xyz")].
Definition toy_db : legacy_db :=
  LDb (Some (<[("c", 3) := DRow "moving" None (Some "gone") None (Some 5) None None 1 1 None None 2 0 ""]> ∅))
    (Some [Commit_ ("c", 1) "x" 3 "sha:xyz"]) (Some [Attempt_ ("c", 1) "open"; Attempt_ ("c", 2) "open"]) true false None.
(** The system calls from the [n]-th on fail. *)
Definition crash_at (n : nat) : mstate := MSt (Fs toy_disk (replicate n None ++ replicate 200 (Some EIO))) toy_db [].

Definition good_path (kv : string * node) : bool :=
  IsAbs kv.1 && bool_decide (Clean kv.1 = kv.1) && outsideb "/buf" kv.1 &&
  bool_decide (in_int64 match kv.2 with FileNode data => Z.of_nat (String.length data) | DirNode => 0 end).
Lemma good_disk d :
  forallb good_path (map_to_list d) = true → clean_disk d ∧ small_disk d ∧ no_quarantine toy_options d.
Proof.
  rewrite forallb_forall. intros H.
  assert (∀ p n, d !! p = Some n → (IsAbs p = true ∧ Clean p = p) ∧ outside "/buf" p ∧
    in_int64 match n with FileNode data => Z.of_nat (String.length data) | DirNode => 0 end) as Hall.
  { intros p n Hp. specialize (H (p, n)). unfold good_path in H.
    rewrite !andb_true_iff, !bool_decide_eq_true in H. destruct H as [[[? ?] ?] ?].
    - apply list_elem_of_In. by apply elem_of_map_to_list.
    - split_and!; [done..| |done]. by apply outsideb_outside. }
  split_and!; intros p n Hp; by destruct (Hall _ _ Hp) as (? & ? & ?).
Qed.
Lemma toy_disk_ok : clean_disk toy_disk ∧ small_disk toy_disk ∧ no_quarantine toy_options toy_disk.
Proof. apply good_disk. vm_compute. reflexivity. Qed.


(** The next run, without failures. *)
Definition rerun (n : nat) : res string MigrationReport * mstate :=
  let s := (Run toy_sha toy_cut toy_options (toy_env 100) (crash_at n)).2 in
  Run toy_sha toy_cut toy_options (toy_env 200) (MSt (Fs (files (ms_fs s)) []) (ms_db s) []).

(** Only a run that stops while the manifest is written cannot be taken up again. *)
Example crash_points : filter (λ n, is_ok (rerun n).1 = false) (seq 0 70) = [18%nat].
Proof. vm_compute. reflexivity. Qed.
(** Every other run is completed: the left-overs are gone, the other files are there. *)
Example reruns_complete :
  forallb (λ n, bool_decide (n = 18%nat) || bool_decide (omap (λ kv, if is_dir kv.2 then None else Some kv.1)
      (map_to_list (files (ms_fs (rerun n).2))) = ["/buf/keep.txt"; "/tgt/x"; "/db.migrate.stamp.bak"; "/db"])) (seq 0 70) = true.
Proof. vm_compute. reflexivity. Qed.

(** One failed write of the manifest, a full disk for instance, leaves a torn manifest that
    the deferred reconciliation and every later run refuse; no file is touched. *)
Example torn_manifest_blocks :
  let s := (Run toy_sha toy_cut toy_options (toy_env 100) (MSt (Fs toy_disk (replicate 18 None ++ [Some ENOSPC])) toy_db [])).2 in
  files (ms_fs s) !! "/buf/.migrator_quarantine_100/quarantine_manifest.json" = Some (FileNode "") ∧
  (Run toy_sha toy_cut toy_options (toy_env 200) s).1 = Err "unmarshal quarantine manifest" ∧
  files (ms_fs s) !! "/buf/a.part" = Some (FileNode "aaa").
Proof. vm_compute. done. Qed.

(** An attempt of the old design has no path: its record is created with the name ".". *)
Example reset_without_path :
  let s := (Run toy_sha toy_cut toy_options (toy_env 100) (MSt (Fs toy_disk []) toy_db [])).2 in
  (t ← l_records (ms_db s); r ← t !! ("c", 2); Some (status r, file_name r, save_path r)) = Some ("pending", Some ".", Some "").
Proof. vm_compute. reflexivity. Qed.
