(* ===== verification/Media.v ===== *)
(** * Media of messages (core/tmedia)

    What a Telegram message carries and what [ExtractMedia] makes of it: the name, size and
    data centre of the file to download. The types are those of the Telegram schema, with the
    constructors and fields the code looks at; a constructor [..Other] stands for the rest.
    The table of file extensions by MIME type belongs to a library and is an argument. The
    theorems: the photo size chosen is the largest, extraction yields well-formed files, and
    a file name always has an extension or is the one the sender gave. *)
From S2P Require Import Prelude.

(** ** The schema *)

Inductive PhotoSizeClass :=
| PhotoSize (tp : string) (w h sz : Z)
| PhotoSizeProgressive (tp : string) (w h : Z) (sizes : list Z)
| PhotoCachedSize (tp : string) (w h : Z) (bytes : string)
| PhotoSizeOther.

Record Photo := Photo_ {
  photo_ID : Z; photo_AccessHash : Z; photo_FileReference : string; photo_Date : Z;
  photo_Sizes : list PhotoSizeClass; photo_DCID : Z;
}.

Inductive DocumentAttribute :=
| DocumentAttributeFilename (FileName : string)
| DocumentAttributeVideo
| DocumentAttributeAudio
| DocumentAttributeAnimated
| DocumentAttributeSticker
| DocumentAttributeOther.

Record Document := Document_ {
  doc_ID : Z; doc_AccessHash : Z; doc_FileReference : string; doc_Date : Z; MimeType : string;
  doc_Size : Z; Thumbs : option (list PhotoSizeClass); doc_DCID : Z; Attributes : list DocumentAttribute;
}.

(** [None] is the empty photo or document. In a web page the outer option says whether the
    field is present. *)
Record WebPage := WebPage_ { wp_Document : option (option Document); wp_Photo : option (option Photo) }.

Inductive MessageMedia :=
| MessageMediaPhoto (photo : option Photo)
| MessageMediaDocument (document : option Document)
| MessageMediaInvoice (extended : ExtendedMedia)
| MessageMediaPaidMedia (extended : list ExtendedMedia)
| MessageMediaWebPage (webpage : option WebPage)
| MessageMediaOther
with ExtendedMedia :=
| MessageExtendedMedia (media : MessageMedia)
| MessageExtendedMediaOther.

Inductive FileLocation :=
| InputPhotoFileLocation (id hash : Z) (reference thumb : string)
| InputDocumentFileLocation (id hash : Z) (reference thumb : string).

Record Media := Media_ { InputFileLoc : FileLocation; media_Name : string; media_Size : Z; DC : Z; media_Date : Z }.

(** ** Photos *)

(** The four variables the switch sets, or [None] for [valid = false]. *)
Definition photo_dims (s : PhotoSizeClass) : option (string * Z * Z * Z) :=
  match s with
  | PhotoSize tp w h sz => Some (tp, w, h, sz)
  | PhotoSizeProgressive tp w h sizes => Some (tp, w, h, default 0 (last sizes))
  | PhotoCachedSize tp w h bytes => Some (tp, w, h, Z.of_nat (String.length bytes))
  | PhotoSizeOther => None
  end.
(** [best] is [bestType, bestSize, bestPixels] once [found]. *)
Fixpoint best_size (sizes : list PhotoSizeClass) (best : option (string * Z * Z)) : option (string * Z * Z) :=
  match sizes with
  | [] => best
  | s :: sizes =>
      best_size sizes
        match photo_dims s with
        | None => best
        | Some (tp, w, h, sz) =>
            let pixels := wrap64 (w * h) in
            match best with
            | None => Some (tp, sz, pixels)
            | Some (_, bs, bp) =>
                if (bp <? pixels) || ((pixels =? bp) && (bs <? sz)) then Some (tp, sz, pixels) else best
            end
        end
  end.
Definition GetPhotoSize (sizes : list PhotoSizeClass) : option (string * Z) :=
  '(tp, sz, _) ← best_size sizes None; Some (tp, sz).

Definition GetPhotoInfo (photo : option Photo) : option Media :=
  p ← photo;
  '(tp, size) ← GetPhotoSize (photo_Sizes p);
  Some (Media_ (InputPhotoFileLocation (photo_ID p) (photo_AccessHash p) (photo_FileReference p) tp)
          (itoa (photo_ID p) +:+ ".jpg") size (photo_DCID p) (photo_Date p)).

(** ** Documents *)

Section Documents.
(** [mimetype.Lookup(m).Extension()], [None] when the type is not known. *)
Context (mime_ext : string → option string).

Fixpoint given_name (attrs : list DocumentAttribute) : option string :=
  match attrs with
  | [] => None
  | DocumentAttributeFilename n :: attrs => if decide (n = "") then given_name attrs else Some n
  | _ :: attrs => given_name attrs
  end.
Definition attr_ext (ext : string) (a : DocumentAttribute) : string :=
  match a with
  | DocumentAttributeVideo => ".mp4"
  | DocumentAttributeAudio => ".mp3"
  | DocumentAttributeAnimated => ".mp4"
  | DocumentAttributeSticker => ".webp"
  | _ => ext
  end.
Definition unknown_ext (ext : string) : bool := bool_decide (ext = "") || bool_decide (ext = ".unknown").
Definition document_ext (d : Document) : string :=
  let ext := default "" (mime_ext (MimeType d)) in
  let ext := if unknown_ext ext then foldl attr_ext ext (Attributes d) else ext in
  if unknown_ext ext then
    if HasPrefix (MimeType d) "video/" then ".mp4"
    else if HasPrefix (MimeType d) "image/" then ".jpg"
    else if HasPrefix (MimeType d) "audio/" then ".mp3"
    else ".bin"
  else ext.
Definition GetDocumentName (d : Document) : string :=
  match given_name (Attributes d) with
  | Some n => n
  | None => itoa (doc_ID d) +:+ document_ext d
  end.
Definition GetDocumentInfo (doc : option Document) : option Media :=
  d ← doc;
  Some (Media_ (InputDocumentFileLocation (doc_ID d) (doc_AccessHash d) (doc_FileReference d) "")
          (GetDocumentName d) (doc_Size d) (doc_DCID d) (doc_Date d)).

(** ** Messages *)

Fixpoint first_some {A B} (f : A → option B) (l : list A) : option B :=
  match l with
  | [] => None
  | x :: l => match f x with Some y => Some y | None => first_some f l end
  end.

Definition webpage_media (webpage : option WebPage) : option Media :=
  wp ← webpage;
  match wp_Document wp with
  | Some (Some d) => GetDocumentInfo (Some d)
  | _ => match wp_Photo wp with
         | Some (Some p) => GetPhotoInfo (Some p)
         | _ => None
         end
  end.
Fixpoint ExtractMedia (m : MessageMedia) : option Media :=
  match m with
  | MessageMediaPhoto p => GetPhotoInfo p
  | MessageMediaDocument d => GetDocumentInfo d
  | MessageMediaInvoice e => GetExtendedMedia e
  | MessageMediaPaidMedia l => first_some GetExtendedMedia l
  | MessageMediaWebPage wp => webpage_media wp
  | MessageMediaOther => None
  end
with GetExtendedMedia (e : ExtendedMedia) : option Media :=
  match e with
  | MessageExtendedMedia m => ExtractMedia m
  | MessageExtendedMediaOther => None
  end.

(** The loop stops at the first plain size; without one the empty size stands. *)
Definition thumb_size (thumbs : list PhotoSizeClass) : string * Z :=
  default ("", 0) (first_some (λ t, match t with PhotoSize tp _ _ sz => Some (tp, sz) | _ => None end) thumbs).
Definition GetDocumentThumb (d : Document) : option Media :=
  thumbs ← Thumbs d;
  let (tp, sz) := thumb_size thumbs in
  Some (Media_ (InputDocumentFileLocation (doc_ID d) (doc_AccessHash d) (doc_FileReference d) tp)
          "thumb.jpg" sz (doc_DCID d) (doc_Date d)).
End Documents.

(** ** The largest photo size *)

(** The order the loop compares by: pixels first, then bytes. *)
Definition size_key (s : PhotoSizeClass) : option (Z * Z) :=
  '(_, w, h, sz) ← photo_dims s; Some (wrap64 (w * h), sz).
Definition key_le (a b : Z * Z) : Prop := a.1 < b.1 ∨ (a.1 = b.1 ∧ a.2 <= b.2).

Lemma best_size_spec sizes best :
  match best_size sizes best with
  | None => best = None ∧ ∀ s, s ∈ sizes → photo_dims s = None
  | Some (tp, sz, px) =>
      (best = Some (tp, sz, px) ∨ ∃ s w h, s ∈ sizes ∧ photo_dims s = Some (tp, w, h, sz) ∧ px = wrap64 (w * h)) ∧
      (∀ s k, s ∈ sizes → size_key s = Some k → key_le k (px, sz)) ∧
      (∀ t b p, best = Some (t, b, p) → key_le (p, b) (px, sz))
  end.
Proof.
  revert best. induction sizes as [|s sizes IH]; intros best; cbn [best_size].
  { destruct best as [[[tp sz] px]|]; [|split; [done|by intros s Hs%elem_of_nil]].
    split_and!; [by left|by intros s k Hs%elem_of_nil|]. intros t b p [= -> -> ->]. right. simpl. lia. }
  set (best' := match photo_dims s with None => best | Some _ => _ end). specialize (IH best').
  assert (∀ k, size_key s = Some k → ∃ t b p, best' = Some (t, b, p) ∧ key_le k (p, b)) as Hs.
  { unfold size_key, best', key_le. destruct (photo_dims s) as [[[[tp w] h] sz]|]; [|done]. intros k [= <-].
    destruct best as [[[t b] p]|]; [|eexists _, _, _; split; [done|simpl; lia]].
    destruct ((p <? _) || _) eqn:Hc; eexists _, _, _; (split; [done|]); simpl; lia. }
  assert (∀ t b p, best = Some (t, b, p) → ∃ t' b' p', best' = Some (t', b', p') ∧ key_le (p, b) (p', b')) as Hb.
  { intros t b p ->. unfold best', key_le. destruct (photo_dims s) as [[[[tp w] h] sz]|]; [|eexists _, _, _; split; [done|simpl; lia]].
    destruct ((p <? _) || _) eqn:Hc; eexists _, _, _; (split; [done|]); simpl; lia. }
  destruct (best_size sizes best') as [[[tp sz] px]|].
  - destruct IH as (Hor & Hall & Hle). split_and!.
    + destruct Hor as [He|(s' & w & h & Hin & Hd & Hp)]; [|right; exists s', w, h; split_and!; [by right|done..]].
      unfold best' in He. destruct (photo_dims s) as [[[[tp' w] h] sz']|] eqn:Hd; [|by left].
      assert (Some (tp, sz, px) = Some (tp', sz', wrap64 (w * h)) ∨ best = Some (tp, sz, px)) as [[= -> -> ->]|?]
        by (destruct best as [[[t b] p]|]; [destruct ((p <? _) || _); auto|auto]).
      * right. exists s, w, h. split_and!; [left|done..].
      * by left.
    + intros s' k [->|Hin]%elem_of_cons Hk; [|by eapply Hall].
      destruct (Hs k Hk) as (t & b & p & He & Hkp). specialize (Hle _ _ _ He). unfold key_le in *. simpl in *. lia.
    + intros t b p He. destruct (Hb _ _ _ He) as (t' & b' & p' & He' & H1). specialize (Hle _ _ _ He'). unfold key_le in *. simpl in *. lia.
  - destruct IH as [He Hall]. rewrite He in Hs, Hb.
    assert (photo_dims s = None) as Hd.
    { destruct (photo_dims s) as [[[[tp w] h] sz]|] eqn:Hd; [|done].
      destruct (Hs (wrap64 (w * h), sz)) as (? & ? & ? & ? & _); [|done]. unfold size_key. by rewrite Hd. }
    split.
    + destruct best as [[[t b] p]|]; [|done]. by destruct (Hb t b p) as (? & ? & ? & ? & _).
    + intros s' [->|Hin]%elem_of_cons; [done|by apply Hall].
Qed.

(** The photo size that is downloaded is the largest one on offer: it is one of the sizes
    of the photo, no other has more pixels, none of the same resolution has more bytes, and
    there is none only when the photo has no size with dimensions. *)
Theorem photo_size_is_largest (sizes : list PhotoSizeClass) :
  match GetPhotoSize sizes with
  | None => ∀ s, s ∈ sizes → photo_dims s = None
  | Some (tp, sz) =>
      ∃ s w h, s ∈ sizes ∧ photo_dims s = Some (tp, w, h, sz) ∧
        ∀ s' tp' w' h' sz', s' ∈ sizes → photo_dims s' = Some (tp', w', h', sz') →
          wrap64 (w' * h') < wrap64 (w * h) ∨ (wrap64 (w' * h') = wrap64 (w * h) ∧ sz' <= sz)
  end.
Proof.
  unfold GetPhotoSize. pose proof (best_size_spec sizes None) as Hs.
  destruct (best_size sizes None) as [[[tp sz] px]|]; simpl; [|tauto].
  destruct Hs as ([?|(s & w & h & Hin & Hd & ->)] & Hall & _); [done|]. exists s, w, h. split_and!; [done..|].
  intros s' tp' w' h' sz' Hin' Hd'. apply (Hall s' (wrap64 (w' * h'), sz')); [done|]. unfold size_key. by rewrite Hd'.
Qed.

(** ** The file of a message *)

(** The photos and documents a message carries, in the order the code looks at them. *)
Definition opt_list {A} (o : option A) : list A := match o with Some x => [x] | None => [] end.
Fixpoint files (m : MessageMedia) : list (Photo + Document) :=
  match m with
  | MessageMediaPhoto p => inl <$> opt_list p
  | MessageMediaDocument d => inr <$> opt_list d
  | MessageMediaInvoice e => extended_files e
  | MessageMediaPaidMedia l => concat (map extended_files l)
  | MessageMediaWebPage wp =>
      match wp with
      | Some w => (inr <$> opt_list (mjoin (wp_Document w))) ++ (inl <$> opt_list (mjoin (wp_Photo w)))
      | None => []
      end
  | MessageMediaOther => []
  end
with extended_files (e : ExtendedMedia) : list (Photo + Document) :=
  match e with
  | MessageExtendedMedia m => files m
  | MessageExtendedMediaOther => []
  end.
Definition file_info (mime_ext : string → option string) (f : Photo + Document) : option Media :=
  match f with inl p => GetPhotoInfo (Some p) | inr d => GetDocumentInfo mime_ext (Some d) end.

Lemma first_some_app {A B} (f : A → option B) l k :
  first_some f (l ++ k) = match first_some f l with Some y => Some y | None => first_some f k end.
Proof. induction l as [|x l IH]; [done|]. simpl. by destruct (f x). Qed.
Lemma first_some_elem {A B} (f : A → option B) l y : first_some f l = Some y → ∃ x, x ∈ l ∧ f x = Some y.
Proof.
  induction l as [|x l IH]; [done|]. simpl. destruct (f x) eqn:Hx.
  - intros [= <-]. exists x. split; [left|done].
  - intros (x' & Hin & He)%IH. exists x'. split; [by right|done].
Qed.
Lemma first_some_None {A B} (f : A → option B) l : first_some f l = None ↔ ∀ x, x ∈ l → f x = None.
Proof.
  induction l as [|x l IH]; simpl; [split; [intros _ x Hx; by apply elem_of_nil in Hx|done]|].
  destruct (f x) eqn:Hx.
  - split; [done|]. intros Hall. rewrite Hall in Hx by left. done.
  - rewrite IH. split; intros Hall y Hy; [apply elem_of_cons in Hy as [->|Hy]; auto|apply Hall; by right].
Qed.

Section Extract.
Context (mime_ext : string → option string).

Lemma webpage_media_files wp : webpage_media mime_ext wp = first_some (file_info mime_ext) (files (MessageMediaWebPage wp)).
Proof.
  destruct wp as [[[[d|]|] [[p|]|]]|]; 
    simpl; try done; repeat case_match; congruence.
Qed.
Lemma ExtractMedia_files m : ExtractMedia mime_ext m = first_some (file_info mime_ext) (files m).
Proof.
  revert m. fix IH 1. intros m. destruct m as [p|d|e|l|wp|]; simpl.
  - destruct p as [p|]; simpl; [|done]. repeat case_match; congruence.
  - by destruct d.
  - destruct e as [m|]; simpl; [apply IH|done].
  - revert l. fix IHl 1. intros [|e l]; simpl; [done|]. rewrite first_some_app, <- IHl.
    destruct e as [m|]; simpl; [by rewrite <- IH|done].
  - apply webpage_media_files.
  - done.
Qed.
End Extract.

(** What is extracted from a message is the first of its photos and documents that can be
    downloaded, however deep paid posts and invoices wrap them; nothing is extracted only
    when none of them can. *)
Theorem extract_media_is_first_file (mime_ext : string → option string) (m : MessageMedia) :
  ExtractMedia mime_ext m = first_some (file_info mime_ext) (files m).
Proof. apply ExtractMedia_files. Qed.

(** ** Well-formed files *)

Definition size_wf (n : Z) : Prop := 0 <= n <= int64_max.
Definition file_wf (f : Photo + Document) : Prop :=
  match f with
  | inl p => ∀ s tp w h sz, s ∈ photo_Sizes p → photo_dims s = Some (tp, w, h, sz) → size_wf sz
  | inr d => size_wf (doc_Size d)
  end.
(** A name the sender gave, or the identifier with an extension. *)
Definition name_wf (f : Photo + Document) (name : string) : Prop :=
  match f with
  | inl p => name = itoa (photo_ID p) +:+ ".jpg"
  | inr d => (name ≠ "" ∧ DocumentAttributeFilename name ∈ Attributes d) ∨
             ∃ ext, name = itoa (doc_ID d) +:+ ext ∧ ext ≠ "" ∧ ext ≠ ".unknown"
  end.

Lemma given_name_spec attrs n : given_name attrs = Some n → n ≠ "" ∧ DocumentAttributeFilename n ∈ attrs.
Proof.
  induction attrs as [|[n'| | | | |] attrs IH]; simpl; try done;
    [case_decide; [|intros [= <-]; split; [done|left]]|..]; intros [? ?]%IH; (split; [done|by right]).
Qed.
Lemma document_ext_known mime_ext d : document_ext mime_ext d ≠ "" ∧ document_ext mime_ext d ≠ ".unknown".
Proof.
  unfold document_ext. cbv zeta. set (e := if unknown_ext _ then foldl _ _ _ else _). destruct (unknown_ext e) eqn:Hu.
  - repeat case_match; split; discriminate.
  - apply orb_false_iff in Hu as [H1%bool_decide_eq_false H2%bool_decide_eq_false]. done.
Qed.
Lemma file_info_wf mime_ext f x : file_wf f → file_info mime_ext f = Some x → size_wf (media_Size x) ∧ name_wf f (media_Name x).
Proof.
  destruct f as [p|d]; simpl.
  - intros Hw. unfold GetPhotoInfo. simpl. pose proof (best_size_spec (photo_Sizes p) None) as Hs. unfold GetPhotoSize.
    destruct (best_size (photo_Sizes p) None) as [[[tp sz] px]|]; simpl; [|done]. intros [= <-]. simpl. split; [|done].
    destruct Hs as ([?|(s & w & h & Hin & Hd & _)] & _); [done|]. by eapply Hw.
  - intros Hw [= <-]. simpl. split; [done|]. unfold GetDocumentName. destruct (given_name _) as [n|] eqn:Hn.
    + left. by apply given_name_spec.
    + right. exists (document_ext mime_ext d). split; [done|]. apply document_ext_known.
Qed.


Definition ex_video : Document := Document_ 77 0 "" 5 "video/mp4" 1000 None 2 [DocumentAttributeVideo].

(** The test of [GetDocumentThumb] for a missing size compares a fresh struct with nil: a
    document without a plain thumbnail size yields a file of no bytes. *)
Example thumb_without_size :
  GetDocumentThumb (Document_ 7 0 "" 5 "video/mp4" 1000 (Some [PhotoSizeOther]) 2 []) =
  Some (Media_ (InputDocumentFileLocation 7 0 "" "") "thumb.jpg" 0 2 5).
Proof. reflexivity. Qed.
