(* ===== verification/Peers.v ===== *)
(** * Peers and their identifiers (core/util/tutil, updates_stream.go)

    The text form of chat identifiers, [strconv.ParseInt], the resolution of a text to a peer
    ([GetInputPeer]), message links, and the choice of the number of threads. The peer store
    of the Telegram library is an argument, as is the URL parser. The theorems: an identifier
    that was printed is parsed back to the number of its peer, except for some basic groups;
    what a message link resolves to; the bounds of the thread count. *)
From S2P Require Import Prelude Paths Registry Planner Json.

(** ** Numbers *)

(** The digits after the sign. *)
Definition parse_digits (ds : chars) : option Z :=
  if decide (ds ≠ [] ∧ forallb is_digit ds = true) then Some (digits_value ds) else None.
(** [strconv.ParseInt(s, 10, 64)] and [strconv.Atoi]. *)
Definition ParseInt (s : string) : option Z :=
  let check v := if decide (in_int64 v) then Some v else None in
  match to_chars s with
  | c :: ds =>
      if decide (c = ch 45) then v ← parse_digits ds; check (- v)
      else if decide (c = ch 43) then v ← parse_digits ds; check v
      else v ← parse_digits (c :: ds); check v
  | [] => None
  end.

#[export] Instance in_int64_dec z : Decision (in_int64 z).
Proof. unfold in_int64. apply _. Defined.

(** ** Peers *)

Inductive PeerClass := PeerUser (UserID : Z) | PeerChat (ChatID : Z) | PeerChannel (ChannelID : Z).
Inductive InputPeerClass :=
| InputPeerUser (id hash : Z) | InputPeerChat (id : Z) | InputPeerChannel (id hash : Z) | InputPeerOther.

(** [extractPeerID] of updates_stream.go; [None] is a nil peer. *)
Definition extractPeerID (peer : option PeerClass) : string :=
  match peer with
  | None => ""
  | Some (PeerChannel id) => "-100" +:+ itoa id
  | Some (PeerChat id) => "-" +:+ itoa id
  | Some (PeerUser id) => itoa id
  end.
Definition GetPeerID (peer : PeerClass) : Z :=
  match peer with PeerUser id => id | PeerChat id => id | PeerChannel id => id end.
Definition GetInputPeerID (peer : InputPeerClass) : Z :=
  match peer with
  | InputPeerUser id _ => id
  | InputPeerChat id => id
  | InputPeerChannel id _ => id
  | InputPeerOther => 0
  end.

(** The number in a text: after "-100", or the absolute value. The same code stands in
    [GetInputPeer] and in [refreshTargetCache]. *)
Definition numeric_id (from : string) : option Z :=
  if HasPrefix from "-100" && (4 <? String.length from)%nat then ParseInt (drop_string 4 from)
  else id ← ParseInt from; Some (if id <? 0 then wrap64 (- id) else id).

Inductive peer_err := EmptyPeer | UnknownID (id : Z) | UnknownPeer (from : string).
#[export] Instance peer_err_eq_dec : EqDecision peer_err.
Proof. solve_decision. Defined.

Definition or_try {A} (a : option A) (b : option A) : option A := match a with Some _ => a | None => b end.

Section Resolve.
(** [peers.Manager]: the answers of the peer store and of the server. *)
Context {P : Type}.
Context (ResolveChannelID ResolveChatID ResolveUserID : Z → option P) (Resolve : string → option P).

Definition clean_peer (from : string) : string := TrimPrefix (TrimSpace from) "@".
Definition GetInputPeer (from : string) : res peer_err P :=
  let from := clean_peer from in
  if decide (from = "") then Err EmptyPeer
  else
    let numericID := numeric_id from in
    match (id ← numericID; or_try (ResolveChannelID id) (or_try (ResolveChatID id) (ResolveUserID id))) with
    | Some p => Ok p
    | None =>
        match Resolve from with
        | Some p => Ok p
        | None => Err match numericID with Some id => UnknownID id | None => UnknownPeer from end
        end
    end.

(** ** Message links *)

Inductive link_err := BadURL | InputPeerErr (e : peer_err) | BadMessageID | NotChannel | FullRawErr | NoLinkedChat | InvalidLink.

Definition parse_link_at (from msg : string) : res link_err (P * Z) :=
  match GetInputPeer from with
  | Err e => Err (InputPeerErr e)
  | Ok p => match ParseInt msg with Some m => Ok (p, m) | None => Err BadMessageID end
  end.

(** [url] is what [url.Parse] makes of the text: the path and the first value of "comment".
    [broadcast] and [linked] are the answers of the resolved peer: whether it is a broadcast
    channel, and the chat linked to it, where the outer [None] is a failed call. *)
Definition ParseMessageLink (broadcast : P → bool) (linked : P → option (option Z)) (url : option (string * string))
    : res link_err (P * Z) :=
  match url with
  | None => Err BadURL
  | Some (path, comment) =>
      let paths := split_on slash (TrimPrefix path "/") in
      if decide (comment ≠ "") then
        match GetInputPeer (hd "" paths) with
        | Err e => Err (InputPeerErr e)
        | Ok peer =>
            if broadcast peer then
              match linked peer with
              | None => Err FullRawErr
              | Some None => Err NoLinkedChat
              | Some (Some id) => parse_link_at (itoa id) comment
              end
            else Err NotChannel
        end
      else match paths with
           | [a; b] => parse_link_at a b
           | [a; b; c] => if decide (a = "c") then parse_link_at b c else parse_link_at a c
           | [a; b; c; d] => if decide (a = "c") then parse_link_at b d else Err InvalidLink
           | _ => Err InvalidLink
           end
  end.
End Resolve.

(** ** Threads *)

Definition threadsLevels : list (Z * Z) :=
  [(1, Z.shiftl 2 20); (2, Z.shiftl 10 20); (4, Z.shiftl 50 20); (8, Z.shiftl 200 20)].
Fixpoint best_threads (levels : list (Z * Z)) (size max : Z) : Z :=
  match levels with
  | [] => max
  | (threads, limit) :: levels => if size <? limit then Z.min threads max else best_threads levels size max
  end.
Definition BestThreads (size max : Z) : Z := best_threads threadsLevels size max.

(** ** Printing and parsing *)

Lemma digits_value_nonneg ds : forallb is_digit ds = true → 0 <= digits_value ds.
Proof.
  induction ds as [|c ds IH]; [done|]. simpl. intros [Hc Hd]%andb_true_iff. rewrite digits_value_cons.
  specialize (IH Hd). unfold is_digit in Hc. assert (0 <= 10 ^ Z.of_nat (length ds)) by (apply Z.pow_nonneg; lia).
  apply andb_true_iff in Hc as [H1%Nat.leb_le H2%Nat.leb_le]. nia.
Qed.
Lemma pretty_N_chars (n : N) :
  ∃ c l, to_chars (pretty n) = c :: l ∧ forallb is_digit (c :: l) = true ∧ digits_value (c :: l) = Z.of_N n.
Proof.
  destruct (pretty_N_head n) as (c & l & Hc & _). exists c, l. split; [done|].
  pose proof (pretty_N_digits n) as Hd. rewrite Hc in Hd. split.
  - apply forallb_forall. intros x Hx%list_elem_of_In. rewrite Forall_forall in Hd. by apply digits_is_digit, Hd.
  - rewrite <- Hc. unfold pretty, pretty_N. case_decide as Hn; [by subst|]. rewrite pretty_N_go_value. simpl.
    unfold digits_value. simpl. lia.
Qed.

(** [ParseInt] reads what "%d" prints. *)
Lemma ParseInt_itoa z : in_int64 z → ParseInt (itoa z) = Some z.
Proof.
  intros Hz. unfold ParseInt, itoa.
  assert (∀ n : N, ∃ c l, to_chars (pretty n) = c :: l ∧ c ≠ ch 45 ∧ c ≠ ch 43 ∧ parse_digits (c :: l) = Some (Z.of_N n)) as Hn.
  { intros n. destruct (pretty_N_chars n) as (c & l & Hc & Hd & Hv). exists c, l. split; [done|].
    unfold parse_digits. rewrite decide_True by done. rewrite Hv. simpl in Hd. apply andb_true_iff in Hd as [Hd _].
    split_and!; [by intros ->|by intros ->|done]. }
  destruct z as [|p|p].
  - done.
  - change (pretty (Zpos p)) with (pretty (Npos p)). destruct (Hn (Npos p)) as (c & l & -> & H1 & H2 & H3).
    rewrite !decide_False by done. rewrite H3. simpl. by rewrite decide_True.
  - change (to_chars (pretty (Zneg p))) with (ch 45 :: to_chars (pretty (Npos p))).
    destruct (Hn (Npos p)) as (c & l & -> & _ & _ & H3). rewrite decide_True by done. rewrite H3. simpl. by rewrite decide_True.
Qed.

(** Texts of digits and minus signs are clean. *)
Definition id_char (c : Ascii.ascii) : Prop := c ∈ digits ∨ c = ch 45.
Definition id_text (s : string) : Prop := Forall id_char (to_chars s).

Lemma to_chars_app s t : to_chars (s +:+ t) = to_chars s ++ to_chars t.
Proof. induction s as [|a s IH]; [done|]. simpl. f_equal. exact IH. Qed.
Lemma id_text_app s t : id_text s → id_text t → id_text (s +:+ t).
Proof. unfold id_text. rewrite to_chars_app. apply Forall_app_2. Qed.
Lemma id_text_itoa z : id_text (itoa z).
Proof. apply Forall_forall. intros c Hc%itoa_digits. unfold id_char. tauto. Qed.
Lemma id_char_plain c : id_char c → is_space c = false ∧ c ≠ ch 64 ∧ c ≠ slash.
Proof.
  intros [Hc| ->]; [|split_and!; [reflexivity|discriminate..]].
  assert (Forall (λ c, is_space c = false ∧ c ≠ ch 64 ∧ c ≠ slash) digits) as Hall by (repeat constructor; discriminate).
  rewrite Forall_forall in Hall. by apply Hall.
Qed.
Lemma trim_left_id l : Forall id_char l → trim_left l = l.
Proof. intros Hl. destruct Hl as [|c l Hc Hl]; [done|]. cbn [trim_left]. by rewrite (proj1 (id_char_plain c Hc)). Qed.
Lemma clean_peer_id s : id_text s → clean_peer s = s.
Proof.
  intros Hs. unfold clean_peer, TrimSpace. rewrite (trim_left_id (to_chars s) Hs), trim_left_id.
  - rewrite rev_involutive, String.string_of_list_ascii_of_string. unfold TrimPrefix, HasPrefix.
    destruct s as [|c s]; [done|]. apply Forall_cons in Hs as [Hc _]. destruct (id_char_plain c Hc) as (_ & Hne & _).
    unfold String.prefix. destruct (Ascii.ascii_dec _ c) as [He|]; [|done]. destruct Hne. by rewrite <- He.
  - apply Forall_forall. intros c Hc. unfold id_text in Hs. rewrite Forall_forall in Hs. apply Hs.
    by apply list_elem_of_In, in_rev, list_elem_of_In.
Qed.

Lemma itoa_pos z : 0 < z → ∃ c l, itoa z = String c l ∧ c ∈ digits.
Proof.
  intros Hz. destruct z as [|p|p]; try lia. unfold itoa. change (pretty (Zpos p)) with (pretty (Npos p)).
  pose proof (pretty_N_digits (Npos p)) as Hd. destruct (pretty_N_head (Npos p)) as (c & l & Hc & _).
  rewrite Hc in Hd. destruct (pretty (Npos p)) as [|c' l'] eqn:He; [done|]. simpl in Hc. injection Hc as -> _.
  exists c, l'. split; [done|]. by inversion Hd.
Qed.

(** A basic group whose number does not begin with 100, or is 100 itself. *)
Definition plain_id (p : PeerClass) : bool :=
  match p with
  | PeerChat id => negb (HasPrefix (itoa id) "100" && (3 <? String.length (itoa id))%nat)
  | _ => true
  end.

Lemma numeric_id_extract p :
  0 < GetPeerID p <= int64_max → plain_id p = true → numeric_id (extractPeerID (Some p)) = Some (GetPeerID p).
Proof.
  intros Hid Hp. assert (in_int64 (GetPeerID p)) as Hin by (unfold in_int64, int64_min; lia).
  destruct (itoa_pos (GetPeerID p)) as (c & l & Hc & Hd); [lia|].
  unfold numeric_id. destruct p as [id|id|id]; cbn [extractPeerID GetPeerID plain_id] in *.
  - assert (HasPrefix (itoa id) "-100" = false) as ->.
    { rewrite Hc. unfold HasPrefix, String.prefix. destruct (Ascii.ascii_dec _ c) as [He|]; [|done].
      exfalso. rewrite <- He in Hd. revert Hd. apply (bool_decide_unpack _). exact I. }
    simpl. rewrite ParseInt_itoa by done. simpl. by rewrite (proj2 (Z.ltb_ge _ _)) by lia.
  - apply negb_true_iff in Hp.
    assert (HasPrefix ("-" +:+ itoa id) "-100" && (4 <? String.length ("-" +:+ itoa id))%nat = false) as -> by exact Hp.
    assert ("-" +:+ itoa id = itoa (- id)) as -> by (by destruct id as [|?|?]; [lia|..|lia]).
    rewrite ParseInt_itoa by (unfold in_int64, int64_min, int64_max in *; lia). simpl.
    rewrite (proj2 (Z.ltb_lt _ _)) by lia. f_equal. rewrite Z.opp_involutive. by apply wrap64_id.
  - change (HasPrefix ("-100" +:+ itoa id) "-100") with (HasPrefix (itoa id) "").
    assert (HasPrefix (itoa id) "" = true) as -> by (by rewrite Hc).
    change (drop_string 4 ("-100" +:+ itoa id)) with (itoa id).
    assert ((4 <? String.length ("-100" +:+ itoa id))%nat = true) as -> by (rewrite Hc; done).
    by apply ParseInt_itoa.
Qed.
Lemma id_text_extract p : id_text (extractPeerID (Some p)).
Proof.
  destruct p; simpl; [apply id_text_itoa|apply id_text_app|apply (id_text_app "-100")]; try apply id_text_itoa.
  all: repeat constructor; unfold id_char; (right; reflexivity) || (left; apply (bool_decide_unpack _); exact I).
Qed.

Section Resolving.
Context {P : Type} (ResolveChannelID ResolveChatID ResolveUserID : Z → option P) (Resolve : string → option P).

Definition typed (p : PeerClass) : option P :=
  match p with PeerChannel id => ResolveChannelID id | PeerChat id => ResolveChatID id | PeerUser id => ResolveUserID id end.
(** No peer of a kind that is looked up before has the same number. *)
Definition unshadowed (p : PeerClass) : Prop :=
  match p with
  | PeerChannel _ => True
  | PeerChat id => ResolveChannelID id = None
  | PeerUser id => ResolveChannelID id = None ∧ ResolveChatID id = None
  end.

Lemma resolve_extracted p x :
  0 < GetPeerID p <= int64_max → plain_id p = true → unshadowed p → typed p = Some x →
  GetInputPeer ResolveChannelID ResolveChatID ResolveUserID Resolve (extractPeerID (Some p)) = Ok x.
Proof.
  intros Hid Hp Hu Hx. unfold GetInputPeer. rewrite clean_peer_id by apply id_text_extract.
  rewrite numeric_id_extract by done.
  rewrite decide_False by (destruct p; [destruct (itoa_pos UserID) as (? & ? & He & _); [simpl in Hid; lia|by simpl; rewrite He]|done..]).
  simpl. destruct p; simpl in *; destruct_and?; by rewrite ?Hu, ?H, ?H0, Hx.
Qed.
End Resolving.

(** An identifier that the daemon prints for a peer parses back to the number of that
    peer, and resolving it gives the peer of that kind and number, when no channel or group
    with the same number is looked up before it and it is not a basic group whose number
    begins with 100. *)
Theorem peer_id_roundtrip {P} (chan chat user : Z → option P) (name : string → option P) (p : PeerClass) (x : P) :
  0 < GetPeerID p <= int64_max → plain_id p = true →
  numeric_id (extractPeerID (Some p)) = Some (GetPeerID p) ∧
  (unshadowed chan chat p → typed chan chat user p = Some x →
   GetInputPeer chan chat user name (extractPeerID (Some p)) = Ok x).
Proof.
  intros Hid Hp. split; [by apply numeric_id_extract|]. intros Hu Hx. by apply resolve_extracted.
Qed.
Lemma peer_id_roundtrip_witness :
  numeric_id (extractPeerID (Some (PeerChannel 1697797156))) = Some 1697797156 ∧
  GetInputPeer (λ n, if decide (n = 1697797156) then Some "news" else None) (λ _, None) (λ _, None) (λ _, None)
    "-1001697797156" = Ok "news".
Proof.
  destruct (peer_id_roundtrip (λ n, if decide (n = 1697797156) then Some "news" else None) (λ _, None) (λ _, None) (λ _, None)
    (PeerChannel 1697797156) "news") as [H1 H2]; [split; reflexivity || (vm_compute; congruence)|reflexivity|].
  split; [exact H1|]. apply H2; [exact I|reflexivity].
Defined.

(** The printed identifier of basic group 1001234 has the form of a channel's: it parses as
    1234. *)
Example group_taken_for_channel :
  extractPeerID (Some (PeerChat 1001234)) = extractPeerID (Some (PeerChannel 1234)) ∧
  numeric_id (extractPeerID (Some (PeerChat 1001234))) = Some 1234.
Proof. split; reflexivity. Qed.
(** A user's number that is also a channel's resolves to the channel. *)
Example user_shadowed_by_channel :
  GetInputPeer (λ n, if decide (n = 5) then Some "channel" else None) (λ _, None)
    (λ n, if decide (n = 5) then Some "user" else None) (λ _, None) (extractPeerID (Some (PeerUser 5))) = Ok "channel".
Proof. reflexivity. Qed.

(** What the links of Telegram resolve to: the last component is the message and the
    first one, or the second after "c", the chat; the topic in between is dropped. A link of
    one component or of more than four is refused. *)
Theorem message_link_components {P} (chan chat user : Z → option P) (resolve : string → option P)
    (broadcast : P → bool) (linked : P → option (option Z)) (name topic : string) (m : Z) :
  no_slash name → no_slash topic → name ≠ "c" → in_int64 m →
  let parse comps := ParseMessageLink chan chat user resolve broadcast linked (Some ("/" +:+ join_slash comps, "")) in
  let at_peer from := match GetInputPeer chan chat user resolve from with
                      | Ok p => Ok (p, m)
                      | Err e => Err (InputPeerErr e)
                      end in
  parse [name; itoa m] = at_peer name ∧
  parse ["c"; name; itoa m] = at_peer name ∧
  parse [name; topic; itoa m] = at_peer name ∧
  parse ["c"; name; topic; itoa m] = at_peer name ∧
  (∀ comps, comps ≠ [] → Forall no_slash comps → length comps = 1%nat ∨ (4 < length comps)%nat → parse comps = Err InvalidLink).
Proof.
  intros Hn Ht Hc Hm parse at_peer.
  assert (∀ comps, comps ≠ [] → Forall no_slash comps →
    split_on slash (TrimPrefix ("/" +:+ join_slash comps) "/") = comps) as Hsplit.
  { intros comps Hne Hall. 
    assert (TrimPrefix ("/" +:+ join_slash comps) "/" = join_slash comps) as -> by (by destruct (join_slash comps)).
    by apply split_join. }
  assert (no_slash (itoa m) ∧ no_slash "c") as [Hi Hcs].
  { split; intros Hin; [|revert Hin; apply (bool_decide_unpack _); exact I].
    pose proof (id_text_itoa m) as Hd. unfold id_text in Hd. rewrite Forall_forall in Hd. by apply Hd, id_char_plain in Hin as (_ & _ & ?). }
  assert (∀ from, parse_link_at chan chat user resolve from (itoa m) = at_peer from) as Hat.
  { intros from. unfold parse_link_at, at_peer. by rewrite ParseInt_itoa. }
  unfold parse, ParseMessageLink. rewrite !Hsplit by (done || by repeat constructor).
  rewrite !(decide_False (P := "" ≠ "")) by (by intros []). rewrite (decide_True (P := "c" = "c")) by done.
  rewrite (decide_False (P := name = "c")) by done. rewrite !Hat. split_and!; try done.
  intros comps Hne Hall Hlen. rewrite Hsplit by done. by destruct comps as [|a [|b [|c [|d [|e l]]]]]; simpl in Hlen; try lia.
Qed.
Lemma message_link_components_witness :
  ParseMessageLink (λ n, if decide (n = 1697797156) then Some 1%nat else None) (λ _, None) (λ _, None) (λ _, None)
    (λ _, true) (λ _, None) (Some ("/c/1697797156/151", "")) = Ok (1%nat, 151).
Proof.
  destruct (message_link_components (λ n, if decide (n = 1697797156) then Some 1%nat else None) (λ _, None) (λ _, None) (λ _, None)
    (λ _, true) (λ _, None) "1697797156" "7" 151) as (_ & H2 & _);
    [intros Hin; revert Hin; apply (bool_decide_unpack _); exact I..|discriminate|apply (bool_decide_unpack _); exact I|].
  exact H2.
Defined.

(** The number of threads is between one and the maximum, and never falls as the file
    grows. *)
Theorem best_threads_bounds (size size' max : Z) :
  1 <= max → size <= size' →
  1 <= BestThreads size max <= max ∧ BestThreads size max <= BestThreads size' max.
Proof.
  intros Hm Hs. unfold BestThreads, threadsLevels, best_threads.
  rewrite !Z.shiftl_mul_pow2 by lia. repeat (case_match; [|]); lia.
Qed.
Lemma best_threads_bounds_witness : 1 <= BestThreads 3000000 4 <= 4 ∧ BestThreads 3000000 4 <= BestThreads 90000000 4.
Proof. apply best_threads_bounds; discriminate. Defined.
