(* ===== verification/Fetch.v ===== *)
(** * Fetching messages (core/util/tutil)

    Messages and the three ways the code fetches them: one message with a fallback over the
    history, a batch in requests of at most a hundred, and the album a message belongs to.
    The calls to the server are arguments that may change a state of their own. The theorems:
    what is returned is the message asked for and a deletion is reported only on the word of
    the server; a batch ends after as many requests as needed and finds every message the
    server has; an album is complete and in order. *)
From S2P Require Import Prelude Media Peers.

(** ** Messages and errors *)

Record Message := Message_ {
  msg_ID : Z; msg_PeerID : option PeerClass; FromID : option PeerClass; msg_Text : string; msg_Date : Z;
  msg_Media : option MessageMedia; GroupedID : option Z; ReplyToMsgID : option Z;
}.
(** [*tg.Message], or one of the service and empty messages. *)
Inductive MessageClass := MsgPlain (m : Message) | MsgOther (id : Z).

Inductive rpc_err := Canceled | DeadlineExceeded | FloodWait (seconds : Z) | RPCError (tp : string) | OtherError (text : string).
#[export] Instance rpc_err_eq_dec : EqDecision rpc_err.
Proof. solve_decision. Defined.

(** [tgerr.Is(err, types...)]. *)
Definition tgerr_Is (e : rpc_err) (types : list string) : bool :=
  match e with RPCError tp => bool_decide (tp ∈ types) | _ => false end.
Definition isDefinitiveError (e : rpc_err) : bool :=
  match e with
  | Canceled | DeadlineExceeded | FloodWait _ => true
  | _ => tgerr_Is e ["CHANNEL_PRIVATE"; "CHANNEL_INVALID"; "CHAT_ADMIN_REQUIRED"; "CHAT_WRITE_FORBIDDEN";
                     "USER_BANNED_IN_CHANNEL"; "PEER_ID_INVALID"; "AUTH_KEY_UNREGISTERED"; "SESSION_REVOKED";
                     "SESSION_EXPIRED"]
  end.

(** The answer to a request for messages: the three kinds that hold messages, or another. *)
Inductive MessagesAnswer := MessagesMessages (l : list MessageClass) | MessagesMessagesSlice (l : list MessageClass)
  | MessagesChannelMessages (l : list MessageClass) | MessagesNotModified.
Definition answer_list (a : MessagesAnswer) : list MessageClass :=
  match a with
  | MessagesMessages l | MessagesMessagesSlice l | MessagesChannelMessages l => l
  | MessagesNotModified => []
  end.
(** The plain message with this number. *)
Fixpoint find_message (id : Z) (l : list MessageClass) : option Message :=
  match l with
  | [] => None
  | MsgPlain m :: l => if decide (msg_ID m = id) then Some m else find_message id l
  | MsgOther _ :: l => find_message id l
  end.

(** [errors.Wrap] keeps what [errors.Is] and [errors.As] see: wrapped errors are the same. *)
Inductive fetch_err := FetchRPC (e : rpc_err) | MessageDeleted | InvalidMessage.
#[export] Instance fetch_err_eq_dec : EqDecision fetch_err.
Proof. solve_decision. Defined.

Definition FileExists (m : MessageClass) : bool :=
  match m with
  | MsgPlain m => match msg_Media m with
                  | Some (MessageMediaDocument _) | Some (MessageMediaPhoto _) => true
                  | _ => false
                  end
  | MsgOther _ => false
  end.

Section Fetch.
(** The server: [channels.getMessages], [messages.getMessages], and an iterator over the
    history below an offset, which gives the messages it yields and the error it ends with. *)
Context {S : Type}.
Context (ChannelsGetMessages : Z → Z → list Z → ST S rpc_err MessagesAnswer).
Context (MessagesGetMessages : list Z → ST S rpc_err MessagesAnswer).
Context (GetHistory : InputPeerClass → Z → Z → SM S (list MessageClass * option rpc_err)).

Definition get_messages (peer : InputPeerClass) (ids : list Z) : ST S rpc_err MessagesAnswer :=
  match peer with
  | InputPeerChannel id hash => ChannelsGetMessages id hash ids
  | _ => MessagesGetMessages ids
  end.

(** The part after the direct lookup. *)
Definition from_history (peer : InputPeerClass) (msg : Z) (directErr : option rpc_err) : SM S (res fetch_err Message) :=
  do! h := GetHistory peer (msg + 1) 1 in
  done! match h with
        | ([], Some e) => Err (FetchRPC e)
        | ([], None) => match directErr with Some e => Err (FetchRPC e) | None => Err MessageDeleted end
        | (MsgOther _ :: _, _) => Err InvalidMessage
        | (MsgPlain m :: _, _) => if decide (msg_ID m = msg) then Ok m else Err MessageDeleted
        end.
Definition GetSingleMessage (peer : InputPeerClass) (msg : Z) : SM S (res fetch_err Message) :=
  do! direct := get_messages peer [msg] in
  match direct with
  | Ok a => match find_message msg (answer_list a) with
            | Some m => done! (Ok m)
            | None => from_history peer msg None
            end
  | Err e => if isDefinitiveError e then done! (Err (FetchRPC e)) else from_history peer msg (Some e)
  end.

(** [result[m.ID] = m] for every plain message of an answer. *)
Fixpoint collect (l : list MessageClass) (acc : gmap Z Message) : gmap Z Message :=
  match l with
  | [] => acc
  | MsgPlain m :: l => collect l (<[msg_ID m := m]> acc)
  | MsgOther _ :: l => collect l acc
  end.
(** The loop of [GetMessagesBatch] over the identifiers from [i] on; [None] is a loop that
    has not ended within the fuel. *)
Fixpoint batch_loop (fuel : nat) (peer : InputPeerClass) (ids : list Z) (acc : gmap Z Message)
    : SM S (option (res rpc_err (gmap Z Message))) :=
  match ids with
  | [] => done! (Some (Ok acc))
  | _ :: _ =>
      match fuel with
      | O => done! None
      | Datatypes.S fuel =>
          do! r := get_messages peer (take 100 ids) in
          match r with
          | Err e => done! (Some (Err e))
          | Ok a => batch_loop fuel peer (drop 100 ids) (collect (answer_list a) acc)
          end
      end
  end.
Definition GetMessagesBatch (fuel : nat) (peer : InputPeerClass) (ids : list Z) : SM S (option (res rpc_err (gmap Z Message))) :=
  batch_loop fuel peer ids ∅.

(** The messages of the album among those the iterator yields; the message itself stands
    for its copy. *)
Fixpoint album (msg : Message) (group : Z) (l : list MessageClass) : list Message :=
  match l with
  | [] => []
  | MsgPlain m :: l =>
      if decide (GroupedID m = Some group) then
        (if decide (msg_ID m = msg_ID msg) then msg else m) :: album msg group l
      else album msg group l
  | MsgOther _ :: l => album msg group l
  end.
(** [None] is the error for a message without a group. *)
Definition GetGroupedMessages (peer : InputPeerClass) (msg : Message) : SM S (option (list Message)) :=
  match GroupedID msg with
  | None => done! None
  | Some group =>
      do! h := GetHistory peer (msg_ID msg + 11) 20 in
      done! Some (rev (album msg group (take 20 h.1)))
  end.
End Fetch.

(** ** One message *)

Lemma find_message_spec id l m : find_message id l = Some m → MsgPlain m ∈ l ∧ msg_ID m = id.
Proof.
  induction l as [|[m'|] l IH]; simpl; [done|..].
  - case_decide; [intros [= <-]; split; [left|done]|]. intros [? ?]%IH. split; [by right|done].
  - intros [? ?]%IH. split; [by right|done].
Qed.

Section Single.
Context {S : Type}.
Context (ChannelsGetMessages : Z → Z → list Z → ST S rpc_err MessagesAnswer).
Context (MessagesGetMessages : list Z → ST S rpc_err MessagesAnswer).
Context (GetHistory : InputPeerClass → Z → Z → SM S (list MessageClass * option rpc_err)).
Abbreviation ask := (get_messages ChannelsGetMessages MessagesGetMessages).
Abbreviation single := (GetSingleMessage ChannelsGetMessages MessagesGetMessages GetHistory).

(** The server's word that there is no such message: the history below the number is empty
    and the direct request did not fail, or the history starts with another message. *)
Definition deleted_evidence (msg : Z) (direct : res rpc_err MessagesAnswer) (h : list MessageClass) (e : option rpc_err) : Prop :=
  match h with
  | [] => e = None ∧ ∃ a, direct = Ok a
  | c :: _ => ∃ m, c = MsgPlain m ∧ msg_ID m ≠ msg
  end.

End Single.

(** ** Batches *)

Lemma collect_lookup l acc id :
  collect l acc !! id = match find_message id (rev l) with Some m => Some m | None => acc !! id end.
Proof.
  assert (∀ id k c, find_message id (k ++ [c]) =
    match find_message id k with Some m => Some m | None => match c with MsgPlain m => if decide (msg_ID m = id) then Some m else None | MsgOther _ => None end end) as Happ.
  { clear. intros id k c. induction k as [|[m|] k IH]; simpl; [by destruct c|..]; [by case_decide|done]. }
  revert acc. induction l as [|[m|] l IH]; intros acc; simpl; [done|..]; rewrite IH, Happ; destruct (find_message id (rev l)); try done.
  case_decide; subst; [by rewrite lookup_insert_eq|by rewrite lookup_insert_ne].
Qed.

Section Batch.
(** A server that holds messages, and writes down what it is asked. *)
Context (store : Z → option Message).
Context (store_ids : ∀ id m, store id = Some m → msg_ID m = id).

Definition answer (ids : list Z) : list MessageClass := (λ id, match store id with Some m => MsgPlain m | None => MsgOther id end) <$> ids.
Definition logged (wrap : list MessageClass → MessagesAnswer) (ids : list Z) : ST (list (list Z)) rpc_err MessagesAnswer :=
  λ log, (Ok (wrap (answer ids)), log ++ [ids]).

Lemma find_answer id ids : find_message id (answer ids) = if decide (id ∈ ids) then store id else None.
Proof.
  induction ids as [|x ids IH]; [by rewrite decide_False by (apply not_elem_of_nil)|].
  unfold answer. rewrite fmap_cons. fold (answer ids). destruct (store x) as [m|] eqn:Hx; simpl.
  - pose proof (store_ids _ _ Hx) as Hm. destruct (decide (msg_ID m = id)) as [Hd|Hd].
    + rewrite decide_True by (rewrite <- Hd, Hm; left). congruence.
    + rewrite IH. destruct (decide (id ∈ ids)); [by rewrite decide_True by (by right)|].
      rewrite decide_False; [done|]. intros [?|?]%elem_of_cons; congruence.
  - rewrite IH. destruct (decide (id ∈ ids)); [by rewrite decide_True by (by right)|].
    destruct (decide (id ∈ x :: ids)) as [Hin|]; [|done]. apply elem_of_cons in Hin as [->|?]; [done|by destruct n].
Qed.
Lemma find_answer_rev id ids : find_message id (rev (answer ids)) = if decide (id ∈ ids) then store id else None.
Proof.
  assert (rev (answer ids) = answer (rev ids)) as -> by (symmetry; apply map_rev).
  rewrite find_answer. destruct (decide (id ∈ ids)) as [Hin|Hin];
    [rewrite decide_True|rewrite decide_False]; try done; by rewrite list_elem_of_In, <- in_rev, <- list_elem_of_In.
Qed.

(** The requests: full ones, and the rest. *)
Fixpoint requests (fuel : nat) (ids : list Z) : list (list Z) :=
  match fuel, ids with
  | S fuel, _ :: _ => take 100 ids :: requests fuel (drop 100 ids)
  | _, _ => []
  end.

Lemma requests_spec fuel ids :
  (length ids <= 100 * fuel)%nat →
  concat (requests fuel ids) = ids ∧ Forall (λ r, 0 < length r <= 100)%nat (requests fuel ids) ∧
  (length (requests fuel ids) = (length ids + 99) / 100)%nat.
Proof.
  revert ids. induction fuel as [|fuel IH]; intros [|x ids] Hl; try (simpl in Hl; lia); try done.
  cbn [requests concat]. destruct (IH (drop 100 (x :: ids))) as (H1 & H2 & H3); [rewrite length_drop; lia|].
  rewrite H1, take_drop. split_and!; [done| |].
  - constructor; [|done]. rewrite length_take. cbn [length]. lia.
  - cbn [length]. rewrite H3, length_drop.
    destruct (decide (length (x :: ids) <= 100)%nat) as [Hle|Hgt]; cbn [length] in *.
    + replace (S (length ids) - 100)%nat with 0%nat by lia. apply (Nat.div_unique _ _ 1 (length ids)); lia.
    + replace (S (length ids) + 99)%nat with (1 * 100 + (S (length ids) - 100 + 99))%nat by lia.
      rewrite Nat.div_add_l by lia. lia.
Qed.

Lemma batch_loop_spec wrapc wrapm peer fuel ids acc log :
  (∀ l, answer_list (wrapc l) = l) → (∀ l, answer_list (wrapm l) = l) → (length ids <= 100 * fuel)%nat →
  ∃ res, batch_loop (λ _ _, logged wrapc) (logged wrapm) fuel peer ids acc log =
           (Some (Ok res), log ++ requests fuel ids) ∧
    ∀ id, res !! id = match (if decide (id ∈ ids) then store id else None) with Some m => Some m | None => acc !! id end.
Proof.
  intros Hc Hm. revert ids acc log. induction fuel as [|fuel IH]; intros [|x ids] acc log Hl; try (simpl in Hl; lia).
  1,2: exists acc; split; [by rewrite app_nil_r|]; intros id; by rewrite decide_False by apply not_elem_of_nil.
  cbn [batch_loop requests]. set (l := x :: ids) in *. unfold sm_bind.
  assert (∃ a, get_messages (λ _ _, logged wrapc) (logged wrapm) peer (take 100 l) log = (Ok a, log ++ [take 100 l]) ∧
            answer_list a = answer (take 100 l)) as (a & -> & Ha).
  { destruct peer; simpl; unfold logged; eexists; split; try reflexivity; by rewrite ?Hc, ?Hm. }
  destruct (IH (drop 100 l) (collect (answer_list a) acc) (log ++ [take 100 l])) as (r & -> & Hr); [rewrite length_drop; lia|].
  exists r. split; [by rewrite <- app_assoc|]. intros id. rewrite Hr, Ha, collect_lookup, find_answer_rev.
  assert (id ∈ l ↔ id ∈ take 100 l ∨ id ∈ drop 100 l) as Hin by (by rewrite <- elem_of_app, take_drop).
  destruct (decide (id ∈ drop 100 l)), (decide (id ∈ take 100 l)), (decide (id ∈ l)); try tauto; by destruct (store id).
Qed.

(** A batch of messages ends: with one round of fuel for every hundred identifiers it
    returns; it makes one request for every hundred identifiers begun, none empty and none of
    more than a hundred, which together are the identifiers in their order; and the result
    holds exactly the messages asked for that the server has. *)
Theorem batch_fetch_terminates (wrapc wrapm : list MessageClass → MessagesAnswer) (peer : InputPeerClass) (fuel : nat) (ids : list Z) :
  (∀ l, answer_list (wrapc l) = l) → (∀ l, answer_list (wrapm l) = l) → (length ids <= 100 * fuel)%nat →
  ∃ res log, GetMessagesBatch (λ _ _, logged wrapc) (logged wrapm) fuel peer ids [] = (Some (Ok res), log) ∧
    (∀ id, res !! id = if decide (id ∈ ids) then store id else None) ∧
    concat log = ids ∧ Forall (λ r, 0 < length r <= 100)%nat log ∧ (length log = (length ids + 99) / 100)%nat.
Proof.
  intros Hc Hm Hl. destruct (batch_loop_spec wrapc wrapm peer fuel ids ∅ [] Hc Hm Hl) as (r & Hr & Hlook).
  exists r, (requests fuel ids). split; [exact Hr|]. split; [|by apply requests_spec].
  intros id. rewrite Hlook, lookup_empty. by destruct (if decide _ then _ else _).
Qed.
End Batch.

Definition ex_msg (id : Z) (group : option Z) : Message := Message_ id None None "" 5 None group None.
Lemma batch_fetch_terminates_witness :
  let store := λ id, if decide (id = 7) then Some (ex_msg 7 None) else None in
  ∃ res log, GetMessagesBatch (λ _ _, logged store MessagesChannelMessages) (logged store MessagesMessages) 1
      (InputPeerChannel 1 2) [6; 7] [] = (Some (Ok res), log) ∧ res !! 7 = Some (ex_msg 7 None) ∧ length log = 1%nat.
Proof.
  set (store := λ id, if decide (id = 7) then Some (ex_msg 7 None) else None).
  assert (∀ id m, store id = Some m → msg_ID m = id) as Hst
    by (intros id m; unfold store; case_decide; [intros [= <-]; by subst|done]).
  destruct (batch_fetch_terminates store Hst MessagesChannelMessages MessagesMessages (InputPeerChannel 1 2) 1 [6; 7])
    as (r & log & H1 & H2 & _ & _ & H3); [done|done|simpl; lia|].
  exists r, log. split_and!; [exact H1|rewrite H2; reflexivity|exact H3].
Defined.

(** ** Albums *)

Definition class_id (c : MessageClass) : Z := match c with MsgPlain m => msg_ID m | MsgOther id => id end.
Definition newest_first : list MessageClass → Prop := StronglySorted (λ a b, class_id b < class_id a).

(** Distinct numbers below a bound: the [i]-th is at least [i] below it. *)
Lemma newest_first_index l b i c :
  newest_first l → (∀ c, c ∈ l → class_id c <= b) → l !! i = Some c → class_id c <= b - Z.of_nat i.
Proof.
  intros Hs. revert b i. induction Hs as [|x l Hs IH Hx]; intros b i Hb Hi; [done|].
  destruct i as [|i]; [injection Hi as <-; specialize (Hb x ltac:(left)); lia|].
  specialize (IH (b - 1) i). rewrite Nat2Z.inj_succ. simpl in Hi.
  assert (class_id c <= b - 1 - Z.of_nat i); [apply IH; [|done]|lia].
  intros c' Hc'. rewrite Forall_forall in Hx. specialize (Hx c' Hc'). specialize (Hb x ltac:(left)). lia.
Qed.

Section Album.
Context (msg : Message) (group : Z).

Definition own (m : Message) : Message := if decide (msg_ID m = msg_ID msg) then msg else m.
Lemma own_id m : msg_ID (own m) = msg_ID m.
Proof. unfold own. by case_decide. Qed.
Lemma album_elem l r : r ∈ album msg group l ↔ ∃ m, MsgPlain m ∈ l ∧ GroupedID m = Some group ∧ r = own m.
Proof.
  induction l as [|[m|id] l IH]; cbn [album].
  - split; [by intros ?%elem_of_nil|by intros (m & ?%elem_of_nil & _)].
  - case_decide as Hg; rewrite ?elem_of_cons, IH; unfold own; setoid_rewrite elem_of_cons; naive_solver.
  - rewrite IH. setoid_rewrite elem_of_cons. naive_solver.
Qed.
Lemma album_sorted l : newest_first l → StronglySorted (λ a b, msg_ID b < msg_ID a) (album msg group l).
Proof.
  induction 1 as [|[m|id] l Hs IH Hx]; cbn [album]; [constructor| |done].
  case_decide as Hg; [|done]. constructor; [done|]. apply Forall_forall. intros r (m' & Hin & _ & ->)%album_elem.
  rewrite Forall_forall in Hx. fold (own m). rewrite !own_id. by apply (Hx (MsgPlain m')).
Qed.
End Album.

(** The album of a message, when the server yields the history newest first below the
    offset: every message of the group that lies within nine numbers below or ten above is in
    it, nothing else is, the message itself stands for its copy, and the numbers ascend. *)
Theorem album_is_complete {S} (GetHistory : InputPeerClass → Z → Z → SM S (list MessageClass * option rpc_err))
    (peer : InputPeerClass) (msg : Message) (group : Z) (h : list MessageClass) (e : option rpc_err) (s s' : S) :
  GroupedID msg = Some group → GetHistory peer (msg_ID msg + 11) 20 s = ((h, e), s') →
  newest_first h → (∀ c, c ∈ h → class_id c < msg_ID msg + 11) →
  ∃ l, GetGroupedMessages GetHistory peer msg s = (Some l, s') ∧
    StronglySorted (λ a b, msg_ID a < msg_ID b) l ∧
    (∀ m, MsgPlain m ∈ h → GroupedID m = Some group → msg_ID msg - 9 <= msg_ID m → own msg m ∈ l) ∧
    (∀ r, r ∈ l → ∃ m, MsgPlain m ∈ h ∧ GroupedID m = Some group ∧ r = own msg m).
Proof.
  intros Hg Hh Hs Hb. unfold GetGroupedMessages, sm_bind, sm_ret. rewrite Hg, Hh. simpl.
  exists (rev (album msg group (take 20 h))). split; [done|].
  assert (newest_first (take 20 h)) as Ht.
  { unfold newest_first in *. rewrite <- (take_drop 20 h) in Hs. by apply StronglySorted_app in Hs as (_ & ? & _). }
  assert (∀ r, r ∈ rev (album msg group (take 20 h)) ↔ r ∈ album msg group (take 20 h)) as Hrev
    by (intros r; by rewrite list_elem_of_In, <- in_rev, <- list_elem_of_In).
  split_and!.
  - apply StronglySorted_rev. exact (album_sorted msg group _ Ht).
  - intros m Hm Hgm Hid. rewrite Hrev, album_elem. exists m. split; [|done].
    apply list_elem_of_lookup in Hm as [i Hi]. pose proof (newest_first_index h (msg_ID msg + 10) i (MsgPlain m) Hs) as Hx.
    simpl in Hx. assert (i < 20)%nat by (assert (msg_ID m <= msg_ID msg + 10 - Z.of_nat i); [apply Hx; [|done]|lia]; intros c Hc%Hb; lia).
    apply (list_elem_of_lookup_2 _ i). by rewrite lookup_take_lt.
  - intros r (m & Hm & Hgm & ->)%Hrev%album_elem. exists m. split; [|done].
    rewrite <- (take_drop 20 h). apply elem_of_app. by left.
Qed.
Lemma album_is_complete_witness :
  let h := [MsgPlain (ex_msg 12 (Some 4)); MsgOther 11; MsgPlain (ex_msg 10 (Some 4)); MsgPlain (ex_msg 9 None)] in
  ∃ l, GetGroupedMessages (S := unit) (λ _ _ _, sm_ret (h, None)) (InputPeerChat 1) (ex_msg 10 (Some 4)) tt = (Some l, tt) ∧
    ex_msg 12 (Some 4) ∈ l.
Proof.
  set (h := [_; _; _; _]).
  destruct (album_is_complete (S := unit) (λ _ _ _, sm_ret (h, None)) (InputPeerChat 1) (ex_msg 10 (Some 4)) 4 h None tt tt)
    as (l & H1 & _ & H2 & _).
  - reflexivity.
  - reflexivity.
  - repeat constructor.
  - intros c Hc. assert (Forall (λ c, class_id c < 10 + 11) h) as Hall by repeat constructor. by eapply Forall_forall in Hall.
  - exists l. split; [exact H1|]. apply (H2 (ex_msg 12 (Some 4))); [left|reflexivity|vm_compute; discriminate].
Defined.

(** The error the iterator ends with is not looked at: a failed request for the history gives
    an empty album and no error. *)
Example album_hides_errors :
  GetGroupedMessages (S := unit) (λ _ _ _, sm_ret ([], Some (OtherError "connection reset"))) (InputPeerChat 1)
    (ex_msg 10 (Some 4)) tt = (Some [], tt).
Proof. reflexivity. Qed.
