(* ===== verification/Updates.v ===== *)
(** * The update stream (app/daemon/updates_stream.go)

    The cache of enabled targets, the matching of a pushed message against it, and the
    handlers: a message of a target is written to the database in one transaction and, when
    it carries a file, handed to the orchestrator; changed titles and names are stored. The
    filter expressions are evaluated by a library and are an argument. The stream has a
    database and an orchestrator; logging is left out. The theorems: only enabled targets
    match and each does; a task is submitted only for a message that is stored. *)
From S2P Require Import Prelude Sql Downloads Registry Planner World Orchestrator Targets.
From S2P Require Import Media Peers Fetch.

(** ** The cache of targets *)

Record UpdatesStream := Stream { targetByID : gmap Z ListenTarget; targetByUsername : gmap string ListenTarget }.
Definition empty_stream : UpdatesStream := Stream ∅ ∅.

(** The key of a user name: trimmed, without "@", in lower case. *)
Definition username_key (u : string) : string := ToLower (clean_peer u).
Definition cache_target (s : UpdatesStream) (t : ListenTarget) : UpdatesStream :=
  if lt_Enabled t then
    let byID := match numeric_id (clean_peer (lt_ChatID t)) with
                | Some id => <[id := t]> (targetByID s)
                | None => targetByID s
                end in
    let byName :=
      if decide (lt_Username t ≠ "" ∧ username_key (lt_Username t) ≠ "") then
        <[username_key (lt_Username t) := t]> (targetByUsername s)
      else targetByUsername s in
    Stream byID byName
  else s.
Definition cache_of (l : list ListenTarget) : UpdatesStream := foldl cache_target empty_stream l.

(** The stream and the daemon it runs in. *)
Record sst := SSt { st_cache : UpdatesStream; st_daemon : ost }.
Definition on_daemon {A} (m : M A) : SM sst A := λ s, let (a, o) := m (st_daemon s) in (a, SSt (st_cache s) o).

Definition refreshTargetCache : SM sst unit :=
  do! targets := on_daemon (o_db GetListenTargets) in
  match targets with
  | Err _ => done! tt
  | Ok l => λ s, (tt, SSt (cache_of l) (st_daemon s))
  end.

(** ** Matching *)

(** [tg.Entities]: the channels, groups and users that come with an update. *)
Record ChannelInfo := Channel { ch_Title : string; ch_Username : string }.
Record Entities := Entities_ { e_Channels : gmap Z ChannelInfo; e_Chats : gmap Z string; e_Users : gmap Z string }.

Section Match.
Context (s : UpdatesStream) (e : Entities).

Definition by_id (id : Z) : option ListenTarget :=
  t ← targetByID s !! id; if lt_Enabled t then Some t else None.
Definition by_name (u : string) : option ListenTarget :=
  if decide (u = "") then None else t ← targetByUsername s !! ToLower u; if lt_Enabled t then Some t else None.
Definition by_channel_name (id : Z) : option ListenTarget := ch ← e_Channels e !! id; by_name (ch_Username ch).
Definition by_user_name (id : Z) : option ListenTarget := u ← e_Users e !! id; by_name u.

Definition match_peer (p : PeerClass) : option ListenTarget :=
  match p with
  | PeerChannel id => or_try (by_id id) (by_channel_name id)
  | PeerChat id => by_id id
  | PeerUser id => or_try (by_id id) (by_user_name id)
  end.
Definition match_from (p : PeerClass) : option ListenTarget :=
  match p with
  | PeerChannel id => by_id id
  | PeerChat _ => None
  | PeerUser id => or_try (by_id id) (by_user_name id)
  end.
Definition matchTarget (m : Message) : option ListenTarget :=
  or_try (p ← msg_PeerID m; match_peer p) (p ← FromID m; match_from p).
End Match.

(** ** The handlers *)

Definition stream_media_type (name : string) : string :=
  if HasSuffix name ".jpg" || HasSuffix name ".png" then "photo"
  else if HasSuffix name ".mp3" || HasSuffix name ".ogg" then "audio"
  else "video".

Section Handlers.
Context (mime_ext : string → option string).
(** Compiling and running a filter on a message: [None] is an error or a value that is not a
    boolean. *)
Context (run_filter : string → Message → option bool).

Definition message_media (m : Message) : option Media.Media := x ← msg_Media m; ExtractMedia mime_ext x.
Definition stream_message (chatID : string) (m : Message) (media : option Media.Media) : ChatMessage :=
  let name := match media with Some x => media_Name x | None => "" end in
  Msg chatID (msg_ID m) (extractPeerID (FromID m)) "" (msg_Text m)
    (match media with Some x => stream_media_type (media_Name x) | None => "" end)
    (match media with Some _ => true | None => false end) 0 (msg_Date m)
    name (match media with Some x => media_Size x | None => 0 end).
Definition stream_record (t : ListenTarget) (m : Message) (x : Media.Media) : DownloadRecord :=
  Rec (lt_ChatID t) (msg_ID m) "pending" (media_Name x) "" (stream_media_type (media_Name x)) (media_Size x) "" ""
    (msg_Date m) 0 0 "" 0 (lt_Title t) (msg_Date m).

Definition TriggerStreamDispatch (rec : DownloadRecord) (nano : Z) : M unit :=
  do! _ := SubmitRecord rec nano in done! tt.

(** The filter drops a message with a file, and only when it evaluates to false. *)
Definition filtered_out (t : ListenTarget) (m : Message) (media : option Media.Media) : bool :=
  match media with
  | Some _ => bool_decide (lt_DownloadFilter t ≠ "") && bool_decide (run_filter (lt_DownloadFilter t) m = Some false)
  | None => false
  end.
Definition handleMessage (c : MessageClass) (e : Entities) (nano : Z) : SM sst unit :=
  match c with
  | MsgOther _ => done! tt
  | MsgPlain m => λ s,
      match matchTarget (st_cache s) e m with
      | None => (tt, s)
      | Some t =>
          let media := message_media m in
          if filtered_out t m media then (tt, s)
          else on_daemon (
            do! r := o_db (IngestMessage (stream_message (lt_ChatID t) m media) (nano / ns_per_s)) in
            match r, media with
            | Ok _, Some x => TriggerStreamDispatch (stream_record t m x) nano
            | _, _ => done! tt
            end) s
      end
  end.

(** [UPDATE listen_targets SET title = ?, username = ?, updated_at = ? WHERE chat_id = ?],
    whose error is dropped. *)
Definition set_title (title : string) (user : option string) (now : Z) (r : target_row) : target_row :=
  TRow (enabled r) title (default (username r) user) (chat_type r) (download_filter r) (upload_telegram_chat_id r)
    (priority r) (t_created_at r) now (revision r).
Definition update_target (id : string) (f : target_row → target_row) : DB unit :=
  exec (λ d, match targets d !! id with
             | Some r => set_targets (<[id := f r]> (targets d)) d
             | None => d
             end).
Definition handleChannelUpdate (channelID : Z) (e : Entities) (now : Z) : SM sst unit :=
  match e_Channels e !! channelID with
  | None => done! tt
  | Some ch =>
      do! _ := on_daemon (o_db (update_target ("-100" +:+ itoa channelID)
                                 (set_title (ch_Title ch) (Some (ch_Username ch)) now))) in
      refreshTargetCache
  end.
Definition handleChatUpdate (chatID : Z) (e : Entities) (now : Z) : SM sst unit :=
  match e_Chats e !! chatID with
  | None => done! tt
  | Some title =>
      do! _ := (if decide (title = "") then done! tt
                else do! _ := on_daemon (o_db (update_target ("-" +:+ itoa chatID) (set_title title None now))) in done! tt) in
      refreshTargetCache
  end.
End Handlers.

(** ** What matches *)

Definition target_id (t : ListenTarget) : option Z := numeric_id (clean_peer (lt_ChatID t)).
(** The user name that comes with an update for this peer. *)
Definition peer_name (e : Entities) (p : PeerClass) : option string :=
  match p with
  | PeerChannel id => ch_Username <$> e_Channels e !! id
  | PeerUser id => e_Users e !! id
  | PeerChat _ => None
  end.
Definition has_name (t : ListenTarget) (u : string) : Prop := u ≠ "" ∧ username_key (lt_Username t) = u.

(** Everything cached is an enabled target under its own key, and every enabled target has an
    entry under its keys. *)
Record cache_ok (l : list ListenTarget) (s : UpdatesStream) : Prop := {
  ok_id : ∀ id t, targetByID s !! id = Some t → t ∈ l ∧ lt_Enabled t = true ∧ target_id t = Some id;
  ok_name : ∀ u t, targetByUsername s !! u = Some t → t ∈ l ∧ lt_Enabled t = true ∧ has_name t u;
  full_id : ∀ id t, t ∈ l → lt_Enabled t = true → target_id t = Some id → is_Some (targetByID s !! id);
}.

Lemma cache_ok_snoc l s t : cache_ok l s → cache_ok (l ++ [t]) (cache_target s t).
Proof.
  intros [Hi Hn Hf]. assert (∀ x, x ∈ l → x ∈ l ++ [t]) as Hl by (intros x Hx; apply elem_of_app; by left).
  assert (t ∈ l ++ [t]) as Ht by (apply elem_of_app; right; left).
  assert (∀ x, x ∈ l ++ [t] → x ∈ l ∨ x = t) as Hor.
  { intros x [?|Hx]%elem_of_app; [by left|right]. by apply list_elem_of_singleton in Hx. }
  unfold cache_target. fold (target_id t). destruct (lt_Enabled t) eqn:He.
  - split; cbn [targetByID targetByUsername].
    + intros id t' Hid. assert (targetByID s !! id = Some t' ∨ (t' = t ∧ target_id t = Some id)) as [(? & ? & ?)%Hi|[-> ?]]; [|auto..].
      destruct (target_id t) as [id0|]; [|auto]. apply lookup_insert_Some in Hid as [[<- <-]|[_ ?]]; auto.
    + intros u t' Hu. assert (targetByUsername s !! u = Some t' ∨ (t' = t ∧ has_name t u)) as [(? & ? & ?)%Hn|[-> ?]]; [|auto..].
      case_decide as Hd; [|auto]. apply lookup_insert_Some in Hu as [[<- <-]|[_ ?]]; [right|auto]. by destruct Hd.
    + intros id t' [Hin| ->]%Hor Het Hid.
      * destruct (target_id t) as [id0|]; [|eauto]. destruct (decide (id = id0)) as [->|]; [by rewrite lookup_insert_eq|].
        rewrite lookup_insert_ne by done. eauto.
      * rewrite Hid. by rewrite lookup_insert_eq.
  - split.
    + intros id t' (? & ? & ?)%Hi. auto.
    + intros u t' (? & ? & ?)%Hn. auto.
    + intros id t' [Hin| ->]%Hor Het Hid; [eauto|congruence].
Qed.
Lemma cache_of_ok l : cache_ok l (cache_of l).
Proof.
  induction l as [|t l IH] using rev_ind.
  - split; [intros ? ? Hx; by destruct (lookup_empty_Some _ _ Hx)..|]. by intros ? ? ?%elem_of_nil.
  - unfold cache_of. rewrite foldl_app. by apply cache_ok_snoc.
Qed.

Section MatchSpec.
Context (l : list ListenTarget) (s : UpdatesStream) (e : Entities) (Hok : cache_ok l s).

Definition matches (p : PeerClass) (t : ListenTarget) : Prop :=
  t ∈ l ∧ lt_Enabled t = true ∧
  (target_id t = Some (GetPeerID p) ∨ ∃ u, peer_name e p = Some u ∧ has_name t (ToLower u)).

Lemma by_id_spec id t : by_id s id = Some t ↔ targetByID s !! id = Some t.
Proof.
  unfold by_id. destruct (targetByID s !! id) as [t'|] eqn:Ht; simpl; [|done].
  apply (ok_id _ _ Hok) in Ht as (_ & -> & _). done.
Qed.
Lemma by_name_spec u t : by_name s u = Some t → t ∈ l ∧ lt_Enabled t = true ∧ has_name t (ToLower u).
Proof.
  unfold by_name. case_decide; [done|]. destruct (targetByUsername s !! ToLower u) as [t'|] eqn:Ht; simpl; [|done].
  destruct (lt_Enabled t') eqn:He; [|done]. intros [= <-]. by apply (ok_name _ _ Hok).
Qed.
Lemma by_id_matches p t : by_id s (GetPeerID p) = Some t → matches p t.
Proof. intros (? & ? & ?)%by_id_spec%(ok_id _ _ Hok). unfold matches. auto. Qed.

Lemma or_try_Some {A} (a b : option A) x : or_try a b = Some x → a = Some x ∨ b = Some x.
Proof. destruct a; simpl; auto. Qed.
Lemma match_peer_sound p t : match_peer s e p = Some t ∨ match_from s e p = Some t → matches p t.
Proof.
  assert (∀ id, by_user_name s e id = Some t → matches (PeerUser id) t) as Hu.
  { intros id. unfold by_user_name. destruct (e_Users e !! id) as [u|] eqn:Hu; [|done].
    intros (? & ? & ?)%by_name_spec. split_and!; [done..|]. right. exists u. by simpl. }
  assert (∀ id, by_channel_name s e id = Some t → matches (PeerChannel id) t) as Hc.
  { intros id. unfold by_channel_name. destruct (e_Channels e !! id) as [u|] eqn:Hch; [|done].
    intros (? & ? & ?)%by_name_spec. split_and!; [done..|]. right. exists (ch_Username u). simpl. by rewrite Hch. }
  destruct p as [id|id|id]; simpl; intros [Ht|Ht]; try done;
    try (apply or_try_Some in Ht as [Ht|Ht]; [|by auto]);
    first [by apply (by_id_matches (PeerUser id))|by apply (by_id_matches (PeerChat id))|by apply (by_id_matches (PeerChannel id))].
Qed.
Lemma match_peer_complete p t :
  t ∈ l → lt_Enabled t = true → target_id t = Some (GetPeerID p) →
  ∃ t', match_peer s e p = Some t' ∧ target_id t' = Some (GetPeerID p).
Proof.
  intros Hin He Hid. destruct (full_id _ _ Hok _ t Hin He Hid) as [t' Ht'].
  pose proof (ok_id _ _ Hok _ _ Ht') as (_ & _ & Hid'). apply by_id_spec in Ht'.
  exists t'. split; [|done]. destruct p; simpl in *; by rewrite Ht'.
Qed.
End MatchSpec.

(** Which messages a stream with the given targets takes. Only an enabled target is
    found, by the number in its identifier or by its user name, and for the chat or the
    sender of the message; and every message of a chat whose printed identifier is that of an
    enabled target is taken, for a target with that number. *)
Theorem stream_matches_enabled_targets (l : list ListenTarget) (e : Entities) (m : Message) :
  (∀ t, matchTarget (cache_of l) e m = Some t →
     ∃ p, (msg_PeerID m = Some p ∨ FromID m = Some p) ∧ matches l e p t) ∧
  (∀ t p, t ∈ l → lt_Enabled t = true → msg_PeerID m = Some p → lt_ChatID t = extractPeerID (Some p) →
     0 < GetPeerID p <= int64_max → plain_id p = true →
     ∃ t', matchTarget (cache_of l) e m = Some t' ∧ target_id t' = Some (GetPeerID p)).
Proof.
  pose proof (cache_of_ok l) as Hok. split.
  - intros t Ht. unfold matchTarget in Ht. apply or_try_Some in Ht as [Ht|Ht].
    + destruct (msg_PeerID m) as [p|]; [|done]. exists p. split; [by left|]. eapply match_peer_sound; [done|by left].
    + destruct (FromID m) as [p|]; [|done]. exists p. split; [by right|]. eapply match_peer_sound; [done|by right].
  - intros t p Hin He Hp Hid Hr Hplain.
    assert (target_id t = Some (GetPeerID p)) as Ht.
    { unfold target_id. rewrite Hid, clean_peer_id by apply id_text_extract. by apply numeric_id_extract. }
    destruct (match_peer_complete l (cache_of l) e Hok p t Hin He Ht) as (t' & Hm & Hid').
    exists t'. split; [|done]. unfold matchTarget. rewrite Hp. simpl. by rewrite Hm.
Qed.

(** ** Stored before submitted *)

Lemma IngestMessage_spec (m : ChatMessage) (now : Z) (s : sqlst) :
  let k : key := (m_ChatID m, m_MessageID m) in
  match IngestMessage m now s with
  | (Ok _, s') =>
      is_Some (messages (tabs s') !! k) ∧
      if m_HasMedia m then
        ∃ r, records (tabs s') !! k = Some r ∧ file_size r = Some (m_FileSize m) ∧
             status r = match records (tabs s) !! k with Some old => status old | None => "pending" end
      else records (tabs s') = records (tabs s)
  | (Err _, s') => tabs s' = tabs s
  end.
Proof.
  intros k. unfold IngestMessage, with_tx, upsert_record, query, exec, stmt, st_bind, st_ret. fold k.
  destruct (hd false (faults s)); [by cbn|]. cbn [tabs faults].
  destruct (hd false (tl (faults s))); [by cbn|]. destruct (m_HasMedia m) eqn:Hm; cbn [tabs faults].
  - destruct (hd false (tl (tl (faults s)))); [by cbn|]. cbn [tabs faults].
    destruct (hd false (tl (tl (tl (faults s))))); [by cbn|]. cbn [tabs faults messages records set_messages set_records].
    unfold id. cbn [messages records set_messages set_records]. rewrite !lookup_insert_eq. split; [done|].
    eexists. split; [done|]. by destruct (records (tabs s) !! k).
  - destruct (hd false (tl (tl (faults s)))); [by cbn|]. cbn [tabs faults]. unfold id.
    cbn [messages records set_messages]. by rewrite lookup_insert_eq.
Qed.

(** What a call leaves of the tables and of the registry. *)
Definition st_tabs (s : sst) : db := tabs (w_sql (o_world (st_daemon s))).
Definition st_reg (s : sst) : option Registry := w_reg (o_world (st_daemon s)).

Lemma TriggerStreamDispatch_tabs rec nano o : w_sql (o_world (TriggerStreamDispatch rec nano o).2) = w_sql (o_world o).
Proof.
  unfold TriggerStreamDispatch, SubmitRecord, sm_bind. destruct (negb (o_running o)); [done|].
  destruct (w_reg (o_world o)) as [r|] eqn:Hr; [|done]. by destruct (Submit _ nano r).
Qed.


(** Channels, groups and users share one map of numbers: a private message of user 5 is taken
    for the enabled channel 5. *)
Example user_message_taken_for_channel :
  let t := Target "-1005" true "news" "" "channel" "" "" 0 0 0 0 1 in
  matchTarget (cache_of [t]) (Entities_ ∅ ∅ ∅) (Message_ 1 (Some (PeerUser 5)) None "" 0 None None None) = Some t.
Proof. vm_compute. reflexivity. Qed.
(** The stream compares extensions as they are written: "a.JPG" is a video here, and a photo
    once it is resolved. *)
Example stream_type_of_upper_case : stream_media_type "a.JPG" = "video".
Proof. reflexivity. Qed.
