(* ===== verification/Telegram.v ===== *)
(** * Resolving media through Telegram (app/daemon/telegram.go)

    The cache of messages in front of the Telegram client, [Resolve] and [ResolveBatch] with
    their retries and the classification of errors. The clients' calls are arguments that may
    change a state of their own; the followers of a shared flight, who get the leader's
    answer, and the rate limiter's delays are left out. Times are in nanoseconds. The
    theorems: the cache stays bounded and drops what expires first; what is resolved is the
    message asked for, with bytes to download; a batch finds every such message. *)
From S2P Require Import Prelude Sql Registry World Orchestrator.
From S2P Require Import Json Media Peers Fetch.

(** ** The cache *)

Abbreviation cache_map := (gmap string (Message * Z)).
Definition maxMsgCacheEntries : Z := 1000.
Definition expires_le (a b : string * (Message * Z)) : Prop := a.2.2 <= b.2.2.
#[export] Instance expires_le_dec : RelDecision expires_le.
Proof. intros a b. unfold expires_le. apply _. Defined.

(** Entries that expire at the same time are dropped in any order; one is chosen here. *)
Definition unexpired (now : Z) (c : cache_map) : cache_map := filter (λ kv, ¬ (kv.2.2 < now)) c.
Definition evict (c : cache_map) : cache_map :=
  let n := Z.of_nat (size c) in
  if maxMsgCacheEntries <=? n then
    foldl (λ c kv, delete kv.1 c) c (top_k expires_le (n - (maxMsgCacheEntries - 100)) (map_to_list c))
  else c.
Definition cleanExpiredCacheLocked (now : Z) (c : cache_map) : cache_map := evict (unexpired now c).

(** ** Media and errors *)

Section Access.
Context (mime_ext : string → option string).

Definition unavailable_media (op text : string) : derr := NewTaskError "resolve" op "unavailable" true false (Some (DOther text)).
Definition resolved_type (m : Message) (x : Media.Media) : string :=
  let name := ToLower (media_Name x) in
  if HasSuffix name ".jpg" || HasSuffix name ".png" || HasSuffix name ".jpeg" then "photo"
  else if HasSuffix name ".mp3" || HasSuffix name ".ogg" || HasSuffix name ".wav" then "audio"
  else match msg_Media m with Some (MessageMediaPhoto _) => "photo" | _ => "video" end.
Definition GetMedia (m : Message) : option Media.Media := x ← msg_Media m; ExtractMedia mime_ext x.
Definition mediaFromMessage (peer : string) (messageID : Z) (message : option Message) : res derr ResolvedMedia :=
  let at_ := "message " +:+ peer +:+ "/" +:+ itoa messageID in
  match message with
  | None => Err (unavailable_media "get_message" (at_ +:+ " is empty"))
  | Some m =>
      match GetMedia m with
      | Some x => if media_Size x <=? 0 then Err (unavailable_media "get_media" (at_ +:+ " has no downloadable media"))
                  else Ok (Orchestrator.Media true (media_Name x) (media_Size x) (DC x) (media_Date x) (resolved_type m x))
      | None => Err (unavailable_media "get_media" (at_ +:+ " has no downloadable media"))
      end
  end.

(** An error of the clients as the daemon's errors see it. *)
Definition fetch_cause (e : fetch_err) : derr :=
  match e with
  | FetchRPC Canceled => DCanceled
  | FetchRPC DeadlineExceeded => DDeadline
  | FetchRPC (FloodWait n) => DFlood ("FLOOD_WAIT_" +:+ itoa n)
  | FetchRPC (RPCError tp) => DOther tp
  | FetchRPC (OtherError t) => DOther t
  | MessageDeleted => DOther "message may be deleted"
  | InvalidMessage => DOther "invalid message"
  end.
Definition unavailable_err (e : fetch_err) : bool :=
  match e with
  | MessageDeleted => true
  | InvalidMessage => false
  | FetchRPC r =>
      tgerr_Is r ["CHANNEL_INVALID"; "CHANNEL_PRIVATE"; "CHAT_ID_INVALID"; "USER_ID_INVALID"; "CHAT_ADMIN_REQUIRED";
                  "USER_BANNED_IN_CHANNEL"; "PEER_ID_INVALID"; "MESSAGE_ID_INVALID"; "FILEREF_UPGRADE_NEEDED";
                  "FILE_REFERENCE_EXPIRED"; "FILE_REFERENCE_INVALID"; "FILE_ID_INVALID"] ||
      match r with OtherError t => Contains (ToLower t) "connection failed" | _ => false end
  end.
Definition classifyTelegramError (e : fetch_err) (operation : string) : derr :=
  if unavailable_err e then NewTaskError "resolve" operation "unavailable" true false (Some (fetch_cause e))
  else NewTaskError "resolve" operation "telegram" false true (Some (fetch_cause e)).

(** ** Resolving *)

Context {S : Type}.
Record tstate := TState { msgCache : cache_map; t_server : S }.
Definition srv {A} (m : SM S A) : SM tstate A := λ t, let (a, s) := m (t_server t) in (a, TState (msgCache t) s).
Definition on_cache (f : cache_map → cache_map) : SM tstate unit := λ t, (tt, TState (f (msgCache t)) (t_server t)).
Definition cached (key : string) (now : Z) (c : cache_map) : option Message :=
  '(m, exp) ← c !! key; if now <? exp then Some m else None.

(** [tutil.GetInputPeer] on the store of peers, the synchronisation of the peers, the rate
    limiter, [GetSingleMessage] and [GetMessagesBatch] on the client. *)
Context (get_peer : string → SM S (res fetch_err InputPeerClass)).
Context (SyncPeers : SM S (res derr unit)).
Context (limiter_Wait : SM S (res fetch_err unit)).
Context (get_single : InputPeerClass → Z → SM S (res fetch_err Message)).
Context (get_batch : InputPeerClass → list Z → SM S (res rpc_err (gmap Z Message))).

Definition resolve_input (peer : string) : SM S (res fetch_err InputPeerClass) :=
  do! r := get_peer peer in
  match r with
  | Ok p => done! (Ok p)
  | Err e => do! y := SyncPeers in
             match y with Ok _ => get_peer peer | Err _ => done! (Err e) end
  end.

(** Up to [n] attempts; [gone] says of each flood wait whether the context ended during it. *)
Fixpoint fetch_single (n : nat) (gone : list bool) (ip : InputPeerClass) (id : Z) (last : fetch_err) : SM S (res fetch_err Message) :=
  match n with
  | O => done! (Err last)
  | Datatypes.S n =>
      do! r := get_single ip id in
      match r with
      | Ok m => done! (Ok m)
      | Err (FetchRPC (FloodWait d)) =>
          if hd false gone then done! (Err (FetchRPC DeadlineExceeded))
          else fetch_single n (tl gone) ip id (FetchRPC (FloodWait d))
      | Err (FetchRPC Canceled) => done! (Err (FetchRPC Canceled))
      | Err (FetchRPC DeadlineExceeded) => done! (Err (FetchRPC DeadlineExceeded))
      | Err e => fetch_single n gone ip id e
      end
  end.
(** The shared flight: fetch and store in the cache. *)
Definition flight (key : string) (ip : InputPeerClass) (id : Z) (gone : list bool) (now : Z) : SM tstate (res fetch_err Message) :=
  do! w := srv limiter_Wait in
  match w with
  | Err e => done! (Err e)
  | Ok _ =>
      do! r := srv (fetch_single 3 gone ip id InvalidMessage) in
      match r with
      | Err e => done! (Err e)
      | Ok m =>
          do! _ := on_cache (λ c, <[key := (m, now + 60 * ns_per_s)]> (cleanExpiredCacheLocked now c)) in
          done! (Ok m)
      end
  end.
(** [now] and [fetched] are the clock at the start and when the flight stores the message;
    [gave_up] says whether the caller's context ended first. *)
Definition Resolve (peer : string) (messageID now fetched : Z) (gone : list bool) (gave_up : bool) : SM tstate (res derr ResolvedMedia) :=
  λ t,
  let key := CanonicalTaskID peer messageID in
  match cached key now (msgCache t) with
  | Some m => (mediaFromMessage peer messageID (Some m), t)
  | None =>
      (do! p := srv (resolve_input peer) in
       match p with
       | Err e => done! (Err (classifyTelegramError e "resolve peer"))
       | Ok ip =>
           do! r := flight key ip messageID gone fetched in
           done! (if gave_up : bool then Err DCanceled
                  else match r with
                       | Err e => Err (classifyTelegramError e "resolve message")
                       | Ok m => mediaFromMessage peer messageID (Some m)
                       end)
       end) t
  end.

(** *** Batches *)

Definition add_media (peer : string) (acc : gmap Z ResolvedMedia) (id : Z) (m : Message) : gmap Z ResolvedMedia :=
  match mediaFromMessage peer id (Some m) with Ok x => <[id := x]> acc | Err _ => acc end.
(** The identifiers in turn: those found in the cache, and the missing ones. *)
Fixpoint split_cached (peer : string) (now : Z) (c : cache_map) (ids : list Z) (acc : gmap Z ResolvedMedia) : gmap Z ResolvedMedia * list Z :=
  match ids with
  | [] => (acc, [])
  | id :: ids =>
      match cached (CanonicalTaskID peer id) now c with
      | Some m => split_cached peer now c ids (add_media peer acc id m)
      | None => let (acc, missing) := split_cached peer now c ids acc in (acc, id :: missing)
      end
  end.
(** Only a flood wait is tried again; [None] is a context that ended during it. *)
Fixpoint fetch_batch (n : nat) (gone : list bool) (ip : InputPeerClass) (ids : list Z) (last : rpc_err)
    : SM S (option (res rpc_err (gmap Z Message))) :=
  match n with
  | O => done! (Some (Err last))
  | Datatypes.S n =>
      do! r := get_batch ip ids in
      match r with
      | Err (FloodWait d) => if hd false gone then done! None else fetch_batch n (tl gone) ip ids (FloodWait d)
      | r => done! (Some r)
      end
  end.
Definition store_all (peer : string) (now : Z) (msgs : list (Z * Message)) (c : cache_map) : cache_map :=
  foldl (λ c im, <[CanonicalTaskID peer (msg_ID im.2) := (im.2, now + 60 * ns_per_s)]> c) c msgs.
Definition media_all (peer : string) (msgs : list (Z * Message)) (acc : gmap Z ResolvedMedia) : gmap Z ResolvedMedia :=
  foldl (λ acc im, add_media peer acc (msg_ID im.2) im.2) acc msgs.

Definition ResolveBatch (peer : string) (messageIDs : list Z) (now fetched : Z) (gone : list bool)
    : SM tstate (res derr (gmap Z ResolvedMedia)) :=
  match messageIDs with
  | [] => done! (Ok ∅)
  | _ =>
      do! p := srv (resolve_input peer) in
      match p with
      | Err e => done! (Err (classifyTelegramError e "resolve peer"))
      | Ok ip => λ t,
          let (result, missing) := split_cached peer now (msgCache t) messageIDs ∅ in
          match missing with
          | [] => (Ok result, t)
          | _ =>
              (do! w := srv limiter_Wait in
               match w with
               | Err e => done! (Err (fetch_cause e))
               | Ok _ =>
                   do! r := srv (fetch_batch 3 gone ip missing Canceled) in
                   match r with
                   | None => done! (Err DCanceled)
                   | Some (Err e) => done! (Err (classifyTelegramError (FetchRPC e) "resolve messages batch"))
                   | Some (Ok messages) =>
                       let msgs := map_to_list messages in
                       do! _ := on_cache (λ c, store_all peer fetched msgs (cleanExpiredCacheLocked now c)) in
                       done! (Ok (media_all peer msgs result))
                   end
               end) t
          end
      end
  end.
End Access.
Arguments tstate : clear implicits.

(** ** The bound of the cache *)

#[export] Instance expires_le_total : Total expires_le.
Proof. intros a b. unfold expires_le. lia. Qed.
#[export] Instance expires_le_trans : Transitive expires_le.
Proof. intros a b c. unfold expires_le. lia. Qed.

Lemma delete_list_lookup (l : list (string * (Message * Z))) (c : cache_map) k :
  foldl (λ c kv, delete kv.1 c) c l !! k = if decide (k ∈ l.*1) then None else c !! k.
Proof.
  revert c. induction l as [|kv l IH]; intros c; [by rewrite decide_False by (apply not_elem_of_nil)|].
  cbn [foldl]. rewrite IH, fmap_cons. destruct (decide (k ∈ l.*1)) as [Hin|Hin].
  { by rewrite (decide_True (P := k ∈ kv.1 :: l.*1)) by (by right). }
  destruct (decide (k = kv.1)) as [Heq|Hne].
  - rewrite Heq, lookup_delete_eq. by rewrite decide_True by left.
  - rewrite lookup_delete_ne by done. rewrite decide_False; [done|]. by intros [?|?]%elem_of_cons.
Qed.
Lemma delete_list_size (l : list (string * (Message * Z))) (c : cache_map) :
  NoDup l.*1 → (∀ kv, kv ∈ l → c !! kv.1 = Some kv.2) →
  Z.of_nat (size (foldl (λ c kv, delete kv.1 c) c l)) = Z.of_nat (size c) - Z.of_nat (length l).
Proof.
  revert c. induction l as [|kv l IH]; intros c Hnd Hl; simpl; [lia|].
  rewrite fmap_cons in Hnd. apply NoDup_cons in Hnd as [Hx Hnd]. rewrite IH; [|done|].
  - rewrite map_size_delete, (Hl kv) by left.
    assert (size c ≠ 0)%nat by (apply (map_size_ne_0_lookup_2 _ kv.1); rewrite (Hl kv) by left; done). simpl. lia.
  - intros kv' Hin. rewrite lookup_delete_ne; [apply Hl; by right|]. intros He. apply Hx. rewrite He. by apply list_elem_of_fmap_2.
Qed.

Section Evict.
Context (c : cache_map).
Let n := Z.of_nat (size c).
Let out := top_k expires_le (n - (maxMsgCacheEntries - 100)) (map_to_list c).

Lemma evicted_entries : NoDup out.*1 ∧ (∀ kv, kv ∈ out → c !! kv.1 = Some kv.2).
Proof.
  split.
  - unfold out, top_k. assert (NoDup (merge_sort expires_le (map_to_list c)).*1) as Hnd
      by (rewrite merge_sort_Permutation; apply NoDup_fst_map_to_list).
    rewrite <- (take_drop (Z.to_nat (n - (maxMsgCacheEntries - 100))) (merge_sort _ _)), fmap_app in Hnd. by apply NoDup_app in Hnd as [? _].
  - intros [k v] Hin. apply (top_k_spec expires_le) in Hin. by apply elem_of_map_to_list.
Qed.
Lemma evict_size : Z.of_nat (size (evict c)) < maxMsgCacheEntries ∧ (maxMsgCacheEntries <= n → size (evict c) = 900%nat).
Proof.
  unfold evict. fold n. destruct (maxMsgCacheEntries <=? n) eqn:Hn; [|split; [fold n; lia|lia]].
  fold out. destruct evicted_entries as [Hnd Hall]. pose proof (delete_list_size out c Hnd Hall) as Hs.
  assert (Z.of_nat (length out) = n - 900) as Hlen.
  { unfold out, top_k. rewrite length_take. rewrite merge_sort_Permutation, length_map_to_list. unfold maxMsgCacheEntries in *. lia. }
  unfold maxMsgCacheEntries in *. lia.
Qed.
Lemma evict_lookup k :
  evict c !! k = c !! k ∨
  (maxMsgCacheEntries <= n ∧ evict c !! k = None ∧
   ∀ v k' v', c !! k = Some v → evict c !! k' = Some v' → v.2 <= v'.2).
Proof.
  unfold evict. fold n. destruct (maxMsgCacheEntries <=? n) eqn:Hn; [|by left]. fold out.
  rewrite delete_list_lookup. destruct (decide (k ∈ out.*1)) as [Hin|]; [right|by left]. split_and!; [lia|done|].
  intros v k' v' Hk Hk'. rewrite delete_list_lookup in Hk'. destruct (decide (k' ∈ out.*1)) as [|Hout]; [done|].
  apply list_elem_of_fmap in Hin as ([k0 v0] & -> & Hin). destruct evicted_entries as [_ Hall].
  pose proof (Hall _ Hin) as Hv. simpl in Hk, Hv. rewrite Hv in Hk. injection Hk as <-.
  pose proof (top_k_spec expires_le (n - (maxMsgCacheEntries - 100)) (map_to_list c)) as (_ & _ & _ & Hle & _).
  apply (Hle (k0, v0) (k', v') Hin); [by apply elem_of_map_to_list|].
  intros Hbad. apply Hout. apply list_elem_of_fmap. by exists (k', v').
Qed.
End Evict.

Lemma clean_subseteq now c k v : cleanExpiredCacheLocked now c !! k = Some v → c !! k = Some v.
Proof.
  unfold cleanExpiredCacheLocked. destruct (evict_lookup (unexpired now c) k) as [->|(_ & -> & _)]; [|done].
  unfold unexpired. by intros [? _]%map_lookup_filter_Some.
Qed.

(** C31. Cleaning the cache of messages leaves fewer than a thousand entries, all of them
    entries it had that have not expired; an entry is dropped early only when there were a
    thousand unexpired ones, then nine hundred stay, and none of those expires before it. *)
Theorem message_cache_is_bounded (now : Z) (c : cache_map) :
  let c' := cleanExpiredCacheLocked now c in
  Z.of_nat (size c') < maxMsgCacheEntries ∧
  (∀ k v, c' !! k = Some v → c !! k = Some v ∧ now <= v.2) ∧
  (∀ k v, c !! k = Some v → now <= v.2 → c' !! k = None →
     size c' = 900%nat ∧ ∀ k' v', c' !! k' = Some v' → v.2 <= v'.2).
Proof.
  intros c'. pose proof (evict_size (unexpired now c)) as [H1 H2]. split_and!; [exact H1|..].
  - intros k v Hk. split; [by eapply clean_subseteq|]. unfold c', cleanExpiredCacheLocked in Hk.
    destruct (evict_lookup (unexpired now c) k) as [He|(_ & He & _)]; rewrite He in Hk; [|done].
    apply map_lookup_filter_Some in Hk as [_ Hk]. simpl in Hk. lia.
  - intros k v Hk Hnow Hnone. assert (unexpired now c !! k = Some v) as Hu by (apply map_lookup_filter_Some; split; [done|simpl; lia]).
    unfold c', cleanExpiredCacheLocked in *.
    destruct (evict_lookup (unexpired now c) k) as [He|(Hn & _ & Hle)]; [rewrite He in Hnone; congruence|].
    split; [by apply H2|]. intros k' v' Hk'. by eapply Hle.
Qed.

(** ** What is resolved *)

(** Every entry stands under a key made of the number of its message. *)
Definition cache_wf (c : cache_map) : Prop :=
  ∀ k m e, c !! k = Some (m, e) → ∃ peer, k = CanonicalTaskID peer (msg_ID m).

Lemma CanonicalTaskID_number p1 p2 n1 n2 : CanonicalTaskID p1 n1 = CanonicalTaskID p2 n2 → n1 = n2.
Proof.
  unfold CanonicalTaskID. change (":" +:+ itoa n1) with (String (ch 58) (itoa n1)). change (":" +:+ itoa n2) with (String (ch 58) (itoa n2)).
  assert (∀ n, ch 58 ∉ to_chars (itoa n)) as Hc.
  { intros n Hin%itoa_digits. destruct Hin as [Hin|[_ Hin]]; [|done]. revert Hin. apply (bool_decide_unpack _). exact I. }
  intros [_ He]%string_sep_inj; [|apply Hc..]. by apply itoa_inj.
Qed.
Lemma cached_number peer id now c m : cache_wf c → cached (CanonicalTaskID peer id) now c = Some m → msg_ID m = id.
Proof.
  intros Hwf. unfold cached. destruct (c !! CanonicalTaskID peer id) as [[m' exp]|] eqn:Hc; simpl; [|done].
  destruct (now <? exp); [|done]. intros [= <-]. destruct (Hwf _ _ _ Hc) as [p Hp]. by apply CanonicalTaskID_number in Hp.
Qed.
Lemma cache_wf_clean now c : cache_wf c → cache_wf (cleanExpiredCacheLocked now c).
Proof. intros Hwf k m e Hk%clean_subseteq. by eapply Hwf. Qed.
Lemma cache_wf_insert c peer m e : cache_wf c → cache_wf (<[CanonicalTaskID peer (msg_ID m) := (m, e)]> c).
Proof. intros Hwf k m' e' [[<- [= <- <-]]|[_ Hk]]%lookup_insert_Some; [eauto|by eapply Hwf]. Qed.
Lemma cache_wf_store_all peer now msgs c : cache_wf c → cache_wf (store_all peer now msgs c).
Proof. revert c. induction msgs as [|im msgs IH]; intros c Hwf; [done|]. apply IH. by apply cache_wf_insert. Qed.
Lemma size_insert_le {V} (k : string) (v : V) (c : gmap string V) : (size (<[k := v]> c) <= S (size c))%nat.
Proof. rewrite map_size_insert. case_match; unfold id; lia. Qed.
Lemma size_store_all peer now msgs c : (size (store_all peer now msgs c) <= size c + length msgs)%nat.
Proof.
  revert c. induction msgs as [|im msgs IH]; intros c; [simpl; lia|]. unfold store_all. cbn [foldl length].
  specialize (IH (<[CanonicalTaskID peer (msg_ID im.2) := (im.2, now + 60 * ns_per_s)]> c)). unfold store_all in IH.
  pose proof (size_insert_le (CanonicalTaskID peer (msg_ID im.2)) (im.2, now + 60 * ns_per_s) c). lia.
Qed.

Lemma mediaFromMessage_size mime_ext peer id m x : mediaFromMessage mime_ext peer id (Some m) = Ok x → 0 < rm_Size x.
Proof.
  unfold mediaFromMessage. destruct (GetMedia mime_ext m) as [y|]; [|done]. destruct (media_Size y <=? 0) eqn:Hs; [done|].
  intros [= <-]. simpl. lia.
Qed.

Section Contracts.
Context (mime_ext : string → option string) {S : Type}.
Context (get_peer : string → SM S (res fetch_err InputPeerClass)) (SyncPeers : SM S (res derr unit)).
Context (limiter_Wait : SM S (res fetch_err unit)).
Context (ChannelsGetMessages : Z → Z → list Z → ST S rpc_err MessagesAnswer).
Context (MessagesGetMessages : list Z → ST S rpc_err MessagesAnswer).
Context (GetHistory : InputPeerClass → Z → Z → SM S (list MessageClass * option rpc_err)).

Abbreviation client_single := (GetSingleMessage ChannelsGetMessages MessagesGetMessages GetHistory).
(** The batch with fuel for all its rounds. *)
Definition client_batch (ip : InputPeerClass) (ids : list Z) : SM S (res rpc_err (gmap Z Message)) :=
  do! r := GetMessagesBatch ChannelsGetMessages MessagesGetMessages (length ids) ip ids in
  done! default (Ok ∅) r.

Lemma from_history_number ip id de s m s' : from_history GetHistory ip id de s = (Ok m, s') → msg_ID m = id.
Proof.
  unfold from_history, sm_bind, sm_ret. destruct (GetHistory ip (id + 1) 1 s) as [[[|[m'|] h] e] s2]; try by destruct e, de.
  case_decide; [|done]. by intros [= <- _].
Qed.
Lemma client_single_number ip id s m s' : client_single ip id s = (Ok m, s') → msg_ID m = id.
Proof.
  unfold GetSingleMessage, sm_bind, sm_ret. destruct (get_messages _ _ ip [id] s) as [[a|e] s1].
  - destruct (find_message id (answer_list a)) as [m'|] eqn:Hf; [|apply from_history_number].
    intros [= <- _]. by apply find_message_spec in Hf as [_ ?].
  - destruct (isDefinitiveError e); [done|apply from_history_number].
Qed.
Lemma fetch_single_number n gone ip id last s m s' : fetch_single client_single n gone ip id last s = (Ok m, s') → msg_ID m = id.
Proof.
  revert gone last s. induction n as [|n IH]; intros gone last s; cbn [fetch_single]; [done|]. unfold sm_bind, sm_ret.
  destruct (client_single ip id s) as [[m'|e] s1] eqn:Hc; [intros [= <- _]; by eapply client_single_number|].
  destruct e as [[| |d|tp|tx]| |]; try done; try apply IH. destruct (hd false gone); [done|apply IH].
Qed.

Lemma collect_wf l acc : (∀ id m, acc !! id = Some m → msg_ID m = id) → ∀ id m, collect l acc !! id = Some m → msg_ID m = id.
Proof.
  intros Hacc id m. rewrite collect_lookup. destruct (find_message id (rev l)) as [m'|] eqn:Hf; [|apply Hacc].
  intros [= <-]. by apply find_message_spec in Hf as [_ ?].
Qed.
Lemma batch_loop_wf fuel ip ids acc s r s' :
  (∀ id m, acc !! id = Some m → msg_ID m = id) →
  batch_loop ChannelsGetMessages MessagesGetMessages fuel ip ids acc s = (Some (Ok r), s') → ∀ id m, r !! id = Some m → msg_ID m = id.
Proof.
  revert ids acc s. induction fuel as [|fuel IH]; intros [|x ids] acc s Hacc; cbn [batch_loop]; unfold sm_bind, sm_ret; try by intros [= <- _].
  destruct (get_messages _ _ ip _ s) as [[a|e] s1]; [|done]. apply IH. by apply collect_wf.
Qed.
Lemma fetch_batch_wf n gone ip ids last s r s' :
  fetch_batch client_batch n gone ip ids last s = (Some (Ok r), s') → ∀ id m, r !! id = Some m → msg_ID m = id.
Proof.
  revert gone last s. induction n as [|n IH]; intros gone last s; cbn [fetch_batch]; [done|]. unfold sm_bind, sm_ret.
  destruct (client_batch ip ids s) as [[r'|e] s1] eqn:Hc.
  - intros [= <- _]. unfold client_batch, sm_bind, sm_ret, GetMessagesBatch in Hc.
    destruct (batch_loop _ _ _ ip ids ∅ s) as [[[r''|]|] s2] eqn:Hb; simpl in Hc; try done; injection Hc as <- _; [|done].
    eapply batch_loop_wf; [|exact Hb]. done.
  - destruct e as [| |d|tp|tx]; try done. destruct (hd false gone); [done|apply IH].
Qed.

Abbreviation resolve := (Resolve mime_ext get_peer SyncPeers limiter_Wait client_single).
Abbreviation resolve_batch := (ResolveBatch mime_ext get_peer SyncPeers limiter_Wait client_batch).

Lemma srv_cache {A} (m : SM S A) t : msgCache (srv m t).2 = msgCache t.
Proof. unfold srv. by destruct (m (t_server t)). Qed.

Lemma flight_spec peer id ip gone now t :
  cache_wf (msgCache t) →
  let '(r, t') := flight limiter_Wait client_single (CanonicalTaskID peer id) ip id gone now t in
  cache_wf (msgCache t') ∧ (size (msgCache t') <= size (msgCache t) ∨ size (msgCache t') <= 1000)%nat ∧
  (∀ m, r = Ok m → msg_ID m = id ∧ msgCache t' !! CanonicalTaskID peer id = Some (m, now + 60 * ns_per_s)).
Proof.
  intros Hwf. unfold flight, sm_bind, sm_ret, srv, on_cache. destruct (limiter_Wait (t_server t)) as [[u|e] s1]; [|split_and!; [done|by left|done]].
  cbn [t_server msgCache]. destruct (fetch_single _ 3 gone ip id _ s1) as [[m|e] s2] eqn:Hf; [|split_and!; [done|by left|done]].
  apply fetch_single_number in Hf. cbn [msgCache]. split_and!.
  - rewrite <- Hf. apply cache_wf_insert. by apply cache_wf_clean.
  - right. pose proof (evict_size (unexpired now (msgCache t))) as [Hs _]. unfold maxMsgCacheEntries in Hs.
    pose proof (size_insert_le (CanonicalTaskID peer id) (m, now + 60 * ns_per_s) (cleanExpiredCacheLocked now (msgCache t))) as Hi.
    unfold cleanExpiredCacheLocked in *. lia.
  - intros m' [= <-]. split; [done|]. by rewrite lookup_insert_eq.
Qed.

(** Resolving a message, whatever the server and the clock do. The cache stays well formed
    and below its bound; and a result is the file of a message with the number asked for,
    with bytes to download: a message that was cached and had not expired, or one fetched
    from the server, which is then in the cache for a minute. *)
Theorem resolved_media_is_the_message (peer : string) (id now fetched : Z) (gone : list bool) (gave_up : bool) (t : tstate S) :
  cache_wf (msgCache t) → (size (msgCache t) <= 1000)%nat →
  let '(r, t') := resolve peer id now fetched gone gave_up t in
  cache_wf (msgCache t') ∧ (size (msgCache t') <= 1000)%nat ∧
  (∀ x, r = Ok x → 0 < rm_Size x ∧
     ∃ m, msg_ID m = id ∧ mediaFromMessage mime_ext peer id (Some m) = Ok x ∧
       (cached (CanonicalTaskID peer id) now (msgCache t) = Some m ∨
        msgCache t' !! CanonicalTaskID peer id = Some (m, fetched + 60 * ns_per_s))).
Proof.
  intros Hwf Hsize. unfold Resolve. destruct (cached _ now (msgCache t)) as [m|] eqn:Hc.
  { split_and!; [done..|]. intros x Hx. split; [by eapply mediaFromMessage_size|]. exists m.
    split_and!; [by eapply cached_number|done|by left]. }
  unfold sm_bind, sm_ret. pose proof (srv_cache (resolve_input get_peer SyncPeers peer) t) as Hsrv.
  destruct (srv (resolve_input get_peer SyncPeers peer) t) as [[ip|e] t1]; simpl in Hsrv; [|by rewrite Hsrv].
  rewrite <- Hsrv in Hwf, Hsize. pose proof (flight_spec peer id ip gone fetched t1 Hwf) as Hf.
  destruct (flight _ _ _ ip id gone fetched t1) as [r t2]. destruct Hf as (H1 & H2 & H3). split_and!; [done|lia|].
  intros x. destruct gave_up; [done|]. destruct r as [m|e]; [|done]. intros Hx. destruct (H3 m eq_refl) as [H4 H5].
  split; [by eapply mediaFromMessage_size|]. exists m. auto.
Qed.

(** *** Batches *)

Definition media_opt (peer : string) (id : Z) (m : Message) : option ResolvedMedia :=
  match mediaFromMessage mime_ext peer id (Some m) with Ok x => Some x | Err _ => None end.
Lemma add_media_lookup peer acc id m i :
  add_media mime_ext peer acc id m !! i = if decide (i = id) then or_try (media_opt peer id m) (acc !! i) else acc !! i.
Proof.
  unfold add_media, media_opt. destruct (mediaFromMessage _ _ _ _); simpl; [|by case_decide].
  case_decide; subst; [by rewrite lookup_insert_eq|by rewrite lookup_insert_ne].
Qed.

Lemma split_cached_spec peer now c ids acc :
  cache_wf c →
  let '(r, missing) := split_cached mime_ext peer now c ids acc in
  (∀ id, id ∈ missing ↔ id ∈ ids ∧ cached (CanonicalTaskID peer id) now c = None) ∧
  (∀ id, r !! id = if decide (id ∈ ids) then
                     or_try (m ← cached (CanonicalTaskID peer id) now c; media_opt peer id m) (acc !! id)
                   else acc !! id).
Proof.
  intros Hwf. revert acc. induction ids as [|x ids IH]; intros acc; cbn [split_cached].
  { split; [intros id; split; [by intros ?%elem_of_nil|by intros [?%elem_of_nil _]]|].
    intros id. by rewrite decide_False by apply not_elem_of_nil. }
  destruct (cached (CanonicalTaskID peer x) now c) as [m|] eqn:Hx.
  - specialize (IH (add_media mime_ext peer acc x m)). destruct (split_cached _ _ _ _ _ _) as [r missing].
    destruct IH as [H1 H2]. split.
    + intros id. rewrite H1, elem_of_cons. split; [tauto|]. intros [[->|?] Hn]; [congruence|done].
    + intros id. rewrite H2, add_media_lookup. destruct (decide (id = x)) as [->|Hne].
      * rewrite (decide_True (P := x ∈ x :: ids)) by left. rewrite Hx. simpl. case_decide; by destruct (media_opt peer x m).
      * destruct (decide (id ∈ ids)) as [Hin|Hin]; [by rewrite decide_True by (by right)|].
        rewrite decide_False; [done|]. by intros [?|?]%elem_of_cons.
  - specialize (IH acc). destruct (split_cached _ _ _ _ _ _) as [r missing]. destruct IH as [H1 H2]. split.
    + intros id. rewrite !elem_of_cons, H1. split; [intros [->|[? ?]]; auto|intros [[->|?] ?]; auto].
    + intros id. rewrite H2. destruct (decide (id ∈ ids)) as [Hin|Hin]; [by rewrite decide_True by (by right)|].
      destruct (decide (id ∈ x :: ids)) as [Hin'|]; [|done]. apply elem_of_cons in Hin' as [->|?]; [by rewrite Hx|done].
Qed.

Lemma media_all_list peer (l : list (Z * Message)) acc id :
  NoDup l.*1 → (∀ im, im ∈ l → msg_ID im.2 = im.1) →
  media_all mime_ext peer l acc !! id = or_try (m ← (list_to_map l : gmap Z Message) !! id; media_opt peer id m) (acc !! id).
Proof.
  revert acc. induction l as [|[i m] l IH]; intros acc Hnd Hl; [done|].
  rewrite fmap_cons in Hnd. apply NoDup_cons in Hnd as [Hi Hnd]. unfold media_all. cbn [foldl snd].
  specialize (IH (add_media mime_ext peer acc (msg_ID m) m) Hnd). unfold media_all in IH.
  rewrite IH by (intros im Him; apply Hl; by right). rewrite add_media_lookup.
  pose proof (Hl (i, m) ltac:(left)) as Hm. simpl in Hm. rewrite Hm. cbn [list_to_map foldr uncurry fst snd].
  destruct (decide (id = i)) as [->|Hne].
  - rewrite not_elem_of_list_to_map_1 by done. by rewrite lookup_insert_eq.
  - by rewrite lookup_insert_ne.
Qed.
Lemma media_all_spec peer (msgs : gmap Z Message) acc id :
  (∀ id m, msgs !! id = Some m → msg_ID m = id) →
  media_all mime_ext peer (map_to_list msgs) acc !! id = or_try (m ← msgs !! id; media_opt peer id m) (acc !! id).
Proof.
  intros Hwf. rewrite media_all_list.
  - by rewrite list_to_map_to_list.
  - apply NoDup_fst_map_to_list.
  - intros [i m] Hin%elem_of_map_to_list. by apply Hwf.
Qed.

(** Resolving a batch, whatever the server and the clock do. The cache stays well formed;
    it grows by at most the messages fetched over its bound. A result holds, for every
    message the server returned for the missing ones and for every unexpired cached message
    asked for, its file if it has one with bytes to download, and nothing else; and only the
    identifiers that are not in the cache are asked of the server. *)
Theorem batch_resolves_what_is_asked (peer : string) (ids : list Z) (now fetched : Z) (gone : list bool) (t : tstate S) :
  cache_wf (msgCache t) →
  let '(r, t') := resolve_batch peer ids now fetched gone t in
  cache_wf (msgCache t') ∧
  ∀ res, r = Ok res → ∃ missing (answered : gmap Z Message),
    (∀ id, id ∈ missing ↔ id ∈ ids ∧ cached (CanonicalTaskID peer id) now (msgCache t) = None) ∧
    (answered = ∅ ∨ ∃ ip n g last s s', fetch_batch client_batch n g ip missing last s = (Some (Ok answered), s')) ∧
    (∀ id m, answered !! id = Some m → msg_ID m = id) ∧
    (size (msgCache t') <= Nat.max (size (msgCache t)) (999 + size answered))%nat ∧
    (∀ id, res !! id = or_try (m ← answered !! id; media_opt peer id m)
       (if decide (id ∈ ids) then m ← cached (CanonicalTaskID peer id) now (msgCache t); media_opt peer id m else None)).
Proof.
  intros Hwf. unfold ResolveBatch. destruct ids as [|i0 ids0].
  { split; [done|]. intros r [= <-]. exists [], ∅. split.
    { intros id. split; [by intros ?%elem_of_nil|by intros [?%elem_of_nil _]]. }
    split; [by left|]. split; [done|]. split; [unfold sm_ret; simpl; lia|]. intros id. by rewrite decide_False by apply not_elem_of_nil. }
  set (ids := i0 :: ids0). unfold sm_bind at 1. pose proof (srv_cache (resolve_input get_peer SyncPeers peer) t) as Hsrv.
  destruct (srv (resolve_input get_peer SyncPeers peer) t) as [[ip|e] t1]; simpl in Hsrv; [|by unfold sm_ret; rewrite Hsrv].
  rewrite <- Hsrv in Hwf |- *. pose proof (split_cached_spec peer now (msgCache t1) ids ∅ Hwf) as Hsp.
  destruct (split_cached _ peer now (msgCache t1) ids ∅) as [result missing]. destruct Hsp as [Hmiss Hres].
  assert (∀ id, result !! id =
    (if decide (id ∈ ids) then m ← cached (CanonicalTaskID peer id) now (msgCache t1); media_opt peer id m else None)) as Hres'.
  { intros id. rewrite Hres, lookup_empty. case_decide; [|done]. by destruct (cached _ now _ ≫= _). }
  destruct missing as [|m0 missing0].
  { split; [done|]. intros r [= <-]. exists [], ∅. split; [exact Hmiss|].
    split; [by left|]. split; [done|]. split; [simpl; lia|]. intros id. by rewrite Hres'. }
  set (missing := m0 :: missing0) in *. unfold sm_bind, sm_ret, srv, on_cache.
  destruct (limiter_Wait (t_server t1)) as [[u|e] s1]; [|done]. cbn [t_server msgCache].
  destruct (fetch_batch client_batch 3 gone ip missing Canceled s1) as [[[msgs|e]|] s2] eqn:Hf; [|done..].
  cbn [msgCache]. split; [by apply cache_wf_store_all, cache_wf_clean|]. intros r [= <-]. exists missing, msgs.
  pose proof (fetch_batch_wf _ _ _ _ _ _ _ _ Hf) as Hm.
  split; [exact Hmiss|]. split; [right; by eauto 10|]. split; [exact Hm|]. split.
  - pose proof (evict_size (unexpired now (msgCache t1))) as [Hs _]. unfold maxMsgCacheEntries in Hs.
    pose proof (size_store_all peer fetched (map_to_list msgs) (cleanExpiredCacheLocked now (msgCache t1))) as Hz.
    rewrite length_map_to_list in Hz. unfold cleanExpiredCacheLocked in *. lia.
  - intros id. rewrite media_all_spec by done. by rewrite Hres'.
Qed.
End Contracts.

(** ** Instances *)

Definition ex_photo_msg (id : Z) (name : string) : Message :=
  Message_ id (Some (PeerChannel 5)) None "" 9
    (Some (MessageMediaDocument (Some (Document_ 77 0 "" 9 "image/jpeg" 1000 None 2 [DocumentAttributeFilename name])))) None None.
Definition ex_server (m : Message) : list Z → ST unit rpc_err MessagesAnswer := λ _ s, (Ok (MessagesMessages [MsgPlain m]), s).

Lemma resolved_media_is_the_message_witness :
  let '(r, t') := Resolve (S := unit) (λ _, None) (λ _, sm_ret (Ok (InputPeerChat 5))) (sm_ret (Ok tt)) (sm_ret (Ok tt))
     (GetSingleMessage (λ _ _, ex_server (ex_photo_msg 7 "a.JPG")) (ex_server (ex_photo_msg 7 "a.JPG")) (λ _ _ _, sm_ret ([], None)))
     "-5" 7 100 200 [] false (TState ∅ tt) in
  (∃ x, r = Ok x) ∧ cache_wf (msgCache t') ∧ (size (msgCache t') <= 1000)%nat.
Proof.
  assert (cache_wf ∅) as Hwf by (intros k m e He; destruct (lookup_empty_Some k (m, e) He)).
  pose proof (resolved_media_is_the_message (S := unit) (λ _, None) (λ _, sm_ret (Ok (InputPeerChat 5))) (sm_ret (Ok tt)) (sm_ret (Ok tt))
    (λ _ _, ex_server (ex_photo_msg 7 "a.JPG")) (ex_server (ex_photo_msg 7 "a.JPG")) (λ _ _ _, sm_ret ([], None))
    "-5" 7 100 200 [] false (TState ∅ tt) Hwf ltac:(vm_compute; lia)) as Hr.
  destruct (Resolve _ _ _ _ _ _ _ _ _ _ _ _) as [r t'] eqn:He. destruct Hr as (H1 & H2 & _).
  split; [|split; [exact H1|exact H2]]. vm_compute in He. injection He as <- _. eexists. reflexivity.
Defined.

Lemma batch_resolves_what_is_asked_witness :
  let '(r, t') := ResolveBatch (S := unit) (λ _, None) (λ _, sm_ret (Ok (InputPeerChat 5))) (sm_ret (Ok tt)) (sm_ret (Ok tt))
     (client_batch (λ _ _, ex_server (ex_photo_msg 7 "a.jpg")) (ex_server (ex_photo_msg 7 "a.jpg"))) "-5" [6; 7] 100 200 [] (TState ∅ tt) in
  (∃ x, r = Ok x) ∧ cache_wf (msgCache t').
Proof.
  assert (cache_wf ∅) as Hwf by (intros k m e He; destruct (lookup_empty_Some k (m, e) He)).
  pose proof (batch_resolves_what_is_asked (S := unit) (λ _, None) (λ _, sm_ret (Ok (InputPeerChat 5))) (sm_ret (Ok tt)) (sm_ret (Ok tt))
    (λ _ _, ex_server (ex_photo_msg 7 "a.jpg")) (ex_server (ex_photo_msg 7 "a.jpg")) "-5" [6; 7] 100 200 [] (TState ∅ tt) Hwf) as Hr.
  destruct (ResolveBatch _ _ _ _ _ _ _ _ _ _ _) as [r t'] eqn:He. destruct Hr as (H1 & _).
  split; [|exact H1]. vm_compute in He. injection He as <- _. eexists. reflexivity.
Defined.

(** A photo sent as a file "a.JPG" has type photo when it is resolved. *)
Example resolved_type_of_upper_case :
  let m := ex_photo_msg 7 "a.JPG" in
  option_map (resolved_type m) (GetMedia (λ _, None) m) = Some "photo".
Proof. reflexivity. Qed.

(** A batch stored after cleaning takes the cache over its maximum. *)
Example batch_exceeds_cache_bound :
  let c : cache_map := list_to_map ((λ i, (CanonicalTaskID "p" (Z.of_nat i), (ex_photo_msg (Z.of_nat i) "", 1000))) <$> seq 0 999) in
  let msgs := (λ i, (Z.of_nat i, ex_photo_msg (Z.of_nat i) "")) <$> seq 2000 100 in
  size (store_all "p" 10 msgs (cleanExpiredCacheLocked 10 c)) = 1099%nat.
Proof. vm_compute. reflexivity. Qed.
