(* ===== verification/ChatService.v ===== *)
(** * Dialogs, history and peers (app/daemon/chat_service.go, telegram.go)

    The lists the web interface shows: the dialogs of the account, the messages of a chat and
    what a text resolves to; and the synchronisation of the peer store, which hands every
    user, group and channel of the dialogs to the store once. The pages of dialogs the client
    iterates over, and the answers of the store, are arguments; a map is visited in some
    order. The theorems: each peer is handed over exactly once; the identifier of a listed
    dialog resolves to it; a page of history has the size, order and window asked for. *)
From S2P Require Import Prelude Sql Registry Planner World Orchestrator.
From S2P Require Import Json Media Peers Fetch Telegram.

(** ** Data *)

Record UserInfo := User { u_ID : Z; u_FirstName : string; u_LastName : string; u_Username : string; u_Bot : bool }.
Record GroupInfo := Group { g_ID : Z; g_Title : string }.
Record ChannelEntity := ChannelE { c_ID : Z; c_Title : string; c_Username : string; c_Megagroup : bool }.

(** The users and chats handed to [peers.Manager.Apply]. *)
Inductive ChatEntity := EGroup (g : GroupInfo) | EChannel (c : ChannelEntity).

Record Dialog := Dialog_ { d_Peer : PeerClass; d_Pinned : bool; d_UnreadCount : Z; d_TopMessage : Z }.
(** An element of the iterator over the dialogs; [el_Dialog] is [None] for a folder. *)
Record Elem := Elem_ {
  el_Peer : InputPeerClass; el_Dialog : option Dialog;
  el_Users : gmap Z UserInfo; el_Groups : gmap Z GroupInfo; el_Channels : gmap Z ChannelEntity;
}.

Record DialogDTO := DialogD {
  dd_ID : Z; dd_ChatID : string; dd_Title : string; dd_Username : string; dd_Type : string;
  dd_Pinned : bool; dd_UnreadCount : Z; dd_TopMessageID : Z;
}.
Record MessageDTO := MessageD {
  md_ID : Z; md_ChatID : string; md_Text : string; md_SenderID : string; md_MediaType : string; md_HasMedia : bool;
  md_FileName : string; md_FileSize : Z; md_ReplyToMessageID : Z; md_MediaGroupID : string; md_Date : Z;
}.
Record HistoryRequest := History { h_Peer : string; h_OffsetID : Z; h_Limit : Z; h_Reverse : bool }.

(** ** Handing peers to the store *)

(** The entries of a map whose key has not been seen, and the keys seen then. *)
Fixpoint take_new {A} (prefix : string) (seen : gset string) (l : list (Z * A)) : list A * gset string :=
  match l with
  | [] => ([], seen)
  | (id, x) :: l =>
      let key := prefix +:+ itoa id in
      if decide (key ∈ seen) then take_new prefix seen l
      else let (xs, seen) := take_new prefix ({[key]} ∪ seen) l in (x :: xs, seen)
  end.
Record seen_st := Seen { seenUsers : gset string; seenChats : gset string }.
Definition new_peers (e : Elem) (s : seen_st) : list UserInfo * list ChatEntity * seen_st :=
  let (users, su) := take_new "user:" (seenUsers s) (map_to_list (el_Users e)) in
  let (groups, sc) := take_new "chat:" (seenChats s) (map_to_list (el_Groups e)) in
  let (channels, sc) := take_new "channel:" sc (map_to_list (el_Channels e)) in
  (users, (EGroup <$> groups) ++ (EChannel <$> channels), Seen su sc).

Section Store.
Context {S : Type}.
Context (Apply : list UserInfo → list ChatEntity → SM S (res fetch_err unit)).

Definition apply_new (users : list UserInfo) (chats : list ChatEntity) : SM S (res fetch_err unit) :=
  if decide (users = [] ∧ chats = []) then done! (Ok tt) else Apply users chats.
(** The loop of [SyncPeers] over the dialogs: it stops at the first failure. *)
Fixpoint sync_loop (elems : list Elem) (seen : seen_st) : SM S (res fetch_err unit) :=
  match elems with
  | [] => done! (Ok tt)
  | e :: elems =>
      let '(users, chats, seen) := new_peers e seen in
      do! r := apply_new users chats in
      match r with Ok _ => sync_loop elems seen | Err err => done! (Err err) end
  end.
(** [lastSync] is the time of the last synchronisation. [dialogs] are the elements the
    iterator yields and the error it ends with. *)
Definition fresh (lastSync : option Z) (now : Z) : bool :=
  match lastSync with Some t => now - t <? 30 * ns_per_s | None => false end.
Definition SyncPeers (limiter_Wait : SM S (res fetch_err unit)) (dialogs : list Elem * option fetch_err) (lastSync : option Z)
    (now finished : Z) : SM S (res derr unit * option Z) :=
  if fresh lastSync now then done! (Ok tt, lastSync)
  else
    do! w := limiter_Wait in
    match w with
    | Err e => done! (Err (fetch_cause e), lastSync)
    | Ok _ =>
        do! r := sync_loop dialogs.1 (Seen ∅ ∅) in
        done! match r, dialogs.2 with
              | Err e, _ => (Err (classifyTelegramError e "sync dialogs"), lastSync)
              | Ok _, Some e => (Err (classifyTelegramError e "sync dialogs"), lastSync)
              | Ok _, None => (Ok tt, Some finished)
              end
    end.

(** ** Dialogs *)

Definition elem_id (e : Elem) : Z :=
  let id := GetInputPeerID (el_Peer e) in
  if id =? 0 then match el_Dialog e with Some d => GetPeerID (d_Peer d) | None => 0 end else id.
(** The first and last names that are not blank, trimmed, with a space between. *)
Definition user_title (u : UserInfo) : string :=
  let parts := filter (λ p, p ≠ "") [TrimSpace (u_FirstName u); TrimSpace (u_LastName u)] in
  let title := match parts with [] => "" | [a] => a | a :: b :: _ => a +:+ " " +:+ b end in
  if decide (title = "") then u_Username u else title.
Definition dialog_item (e : Elem) : option DialogDTO :=
  let id := elem_id e in
  if id =? 0 then None
  else
    let '(pinned, unread, top) := match el_Dialog e with Some d => (d_Pinned d, d_UnreadCount d, d_TopMessage d) | None => (false, 0, 0) end in
    let item chat title user tp := Some (DialogD id chat title user tp pinned unread top) in
    match el_Channels e !! id, el_Groups e !! id, el_Users e !! id with
    | Some c, _, _ => item ("-100" +:+ itoa (c_ID c)) (c_Title c) (c_Username c) (if c_Megagroup c then "supergroup" else "channel")
    | None, Some g, _ => item ("-" +:+ itoa (g_ID g)) (g_Title g) "" "group"
    | None, None, Some u => item (itoa (u_ID u)) (user_title u) (u_Username u) (if u_Bot u then "bot" else "private")
    | None, None, None => item (itoa id) ("Chat " +:+ itoa id) "" "unknown"
    end.
(** The callback for each dialog: hand over the new peers, then add the item. *)
Fixpoint dialogs_loop (elems : list Elem) (seen : seen_st) (result : list DialogDTO) : SM S (option fetch_err * list DialogDTO) :=
  match elems with
  | [] => done! (None, result)
  | e :: elems =>
      let '(users, chats, seen) := new_peers e seen in
      do! r := apply_new users chats in
      match r with
      | Err err => done! (Some err, result)
      | Ok _ => dialogs_loop elems seen (result ++ opt_list (dialog_item e))
      end
  end.
Definition GetDialogs (dialogs : list Elem * option fetch_err) (lastSync : option Z) (finished : Z)
    : SM S (res fetch_err (list DialogDTO) * option Z) :=
  do! r := dialogs_loop dialogs.1 (Seen ∅ ∅) [] in
  let err := or_try r.1 dialogs.2 in
  done! match err with
        | Some e => (if decide (r.2 = []) then Err e else Ok r.2, lastSync)
        | None => (Ok r.2, Some finished)
        end.
End Store.

(** ** History *)

Definition history_limit (n : Z) : Z := if (n <=? 0) || (500 <? n) then 100 else n.
(** The request: offset, added offset, limit, least number. *)
Definition history_window (req : HistoryRequest) : Z * Z * Z * Z :=
  let limit := history_limit (h_Limit req) in
  if h_Reverse req && (0 <? h_OffsetID req) then (h_OffsetID req, - limit, limit, h_OffsetID req)
  else (h_OffsetID req, 0, limit, 0).

Section HistorySec.
Context (mime_ext : string → option string).

Definition attr_type (tp : string) (a : DocumentAttribute) : string :=
  match a with
  | DocumentAttributeVideo => "video"
  | DocumentAttributeAudio => "audio"
  | DocumentAttributeAnimated => "animation"
  | DocumentAttributeSticker => "sticker"
  | _ => tp
  end.
Definition dto_type (m : Message) : string * bool :=
  match msg_Media m with
  | Some (MessageMediaPhoto _) => ("photo", true)
  | Some (MessageMediaDocument d) =>
      (match d with Some d => foldl attr_type "document" (Attributes d) | None => "document" end, true)
  | _ => ("text", false)
  end.
Definition message_dto (chat : string) (m : Message) : MessageDTO :=
  let media := GetMedia mime_ext m in
  let (tp, has) := dto_type m in
  MessageD (msg_ID m) chat (msg_Text m) (match FromID m with Some p => itoa (GetPeerID p) | None => "" end) tp
    (has || match media with Some _ => true | None => false end)
    (match media with Some x => media_Name x | None => "" end) (match media with Some x => media_Size x | None => 0 end)
    (default 0 (ReplyToMsgID m)) (match GroupedID m with Some g => if g =? 0 then "" else itoa g | None => "" end) (msg_Date m).
Definition plain_messages (l : list MessageClass) : list Message :=
  omap (λ c, match c with MsgPlain m => Some m | MsgOther _ => None end) l.

(** [get_history] is [messages.getHistory] with the four numbers of the window. *)
Context {S : Type} (resolve_peer : string → SM S (res fetch_err InputPeerClass)).
Context (get_history : InputPeerClass → Z * Z * Z * Z → ST S fetch_err MessagesAnswer).
Definition GetHistory (req : HistoryRequest) : SM S (res derr (list MessageDTO)) :=
  do! p := resolve_peer (clean_peer (h_Peer req)) in
  match p with
  | Err e => done! (Err (classifyTelegramError e "resolve peer for history"))
  | Ok ip =>
      do! r := get_history ip (history_window req) in
      done! match r with
            | Err e => Err (classifyTelegramError e "messages.getHistory")
            | Ok a => let l := message_dto (h_Peer req) <$> plain_messages (answer_list a) in
                      Ok (if h_Reverse req then rev l else l)
            end
  end.
End HistorySec.

(** ** What a text resolves to *)

Inductive ResolvedPeer := RChannel (id : Z) (name user : string) (broadcast : bool) | RChat (id : Z) (name user : string)
  | RUser (id : Z) (name user : string) (bot : bool).
Definition peer_info (p : ResolvedPeer) : DialogDTO :=
  match p with
  | RChannel id n u b => DialogD id ("-100" +:+ itoa id) n u (if b then "channel" else "supergroup") false 0 0
  | RChat id n u => DialogD id ("-" +:+ itoa id) n u "group" false 0 0
  | RUser id n u b => DialogD id (itoa id) n u (if b then "bot" else "private") false 0 0
  end.
Definition ResolvePeerInfo {S} (resolve_peer : string → SM S (res fetch_err ResolvedPeer)) (query : string) : SM S (res derr DialogDTO) :=
  do! p := resolve_peer (clean_peer query) in
  done! match p with
        | Err e => Err (classifyTelegramError e "resolve peer info")
        | Ok p => Ok (peer_info p)
        end.

(** ** Every peer once *)

Lemma prefix_inj (p : string) z1 z2 : p +:+ itoa z1 = p +:+ itoa z2 → z1 = z2.
Proof. intros He%string_app_inj_l. by apply itoa_inj. Qed.

Lemma filter_ext_in {A} (P1 P2 : A → Prop) `{!∀ x, Decision (P1 x), !∀ x, Decision (P2 x)} (l : list A) :
  (∀ x, x ∈ l → P1 x ↔ P2 x) → filter P1 l = filter P2 l.
Proof.
  induction l as [|x l IH]; intros Hl; [done|]. rewrite !filter_cons, IH by (intros y Hy; apply Hl; by right).
  destruct (Hl x ltac:(left)) as [H1 H2]. case_decide; case_decide; tauto.
Qed.

(** What one pass over a map hands over: the entries whose key was not seen. *)
Lemma take_new_spec {A} (prefix : string) seen (l : list (Z * A)) :
  NoDup l.*1 →
  let '(xs, seen') := take_new prefix seen l in
  xs = (filter (λ kv, (prefix +:+ itoa kv.1) ∉ seen) l).*2 ∧
  (∀ key, key ∈ seen' ↔ key ∈ seen ∨ ∃ id, id ∈ l.*1 ∧ key = prefix +:+ itoa id).
Proof.
  revert seen. induction l as [|[id x] l IH]; intros seen Hnd; simpl.
  { split; [done|]. intros key. split; [by left|]. intros [?|(id & ?%elem_of_nil & _)]; done. }
  rewrite fmap_cons in Hnd. apply NoDup_cons in Hnd as [Hx Hnd]. rewrite filter_cons. case_decide as Hin.
  - rewrite decide_False by (simpl; tauto). specialize (IH seen Hnd). destruct (take_new prefix seen l) as [xs seen'].
    destruct IH as [-> H2]. split; [done|]. intros key. rewrite H2. setoid_rewrite elem_of_cons. simpl. naive_solver.
  - rewrite decide_True by done. specialize (IH ({[prefix +:+ itoa id]} ∪ seen) Hnd).
    destruct (take_new prefix _ l) as [xs seen']. destruct IH as [-> H2]. split.
    + rewrite fmap_cons. f_equal. f_equal. apply filter_ext_in. intros [id' y] Hy. simpl.
      rewrite not_elem_of_union, not_elem_of_singleton. split; [tauto|]. intros Hn. split; [|done].
      intros He%prefix_inj. subst. apply Hx. by apply (list_elem_of_fmap_2 fst l (id, y)).
    + intros key. rewrite H2, elem_of_union, elem_of_singleton. setoid_rewrite elem_of_cons. simpl. naive_solver.
Qed.

(** The maps of an element hold each entity under its number. *)
Definition elem_wf (e : Elem) : Prop :=
  (∀ id u, el_Users e !! id = Some u → u_ID u = id) ∧ (∀ id g, el_Groups e !! id = Some g → g_ID g = id) ∧
  (∀ id c, el_Channels e !! id = Some c → c_ID c = id).
(** Kind and number of a chat. *)
Definition ckey (c : ChatEntity) : bool * Z := match c with EGroup g => (false, g_ID g) | EChannel c => (true, c_ID c) end.
Definition chat_key (k : bool * Z) : string := (if k.1 then "channel:" else "chat:") +:+ itoa k.2.
Definition has_user (e : Elem) (id : Z) : Prop := is_Some (el_Users e !! id).
Definition has_chat (e : Elem) (k : bool * Z) : Prop := if k.1 then is_Some (el_Channels e !! k.2) else is_Some (el_Groups e !! k.2).

#[export] Instance has_chat_dec e k : Decision (has_chat e k).
Proof. unfold has_chat. destruct k.1; apply _. Defined.
Lemma chat_key_inj k1 k2 : chat_key k1 = chat_key k2 → k1 = k2.
Proof.
  destruct k1 as [[] z1], k2 as [[] z2]; unfold chat_key; simpl; intros He; try discriminate He.
  - by apply (prefix_inj "channel:") in He as ->.
  - by apply (prefix_inj "chat:") in He as ->.
Qed.

Lemma NoDup_fmap_fst_filter {A} (P : Z * A → Prop) `{!∀ x, Decision (P x)} l : NoDup l.*1 → NoDup (filter P l).*1.
Proof.
  induction l as [|x l IH]; [done|]. rewrite fmap_cons. intros [Hx Hl]%NoDup_cons. rewrite filter_cons. case_decide; [|by apply IH].
  rewrite fmap_cons. apply NoDup_cons. split; [|by apply IH]. intros (y & He & [_ Hy]%list_elem_of_filter)%list_elem_of_fmap.
  apply Hx. rewrite He. by apply list_elem_of_fmap_2.
Qed.
(** The new entries of one map, by number. *)
Lemma take_new_keys {A} (prefix : string) seen (m : gmap Z A) (num : A → Z) :
  (∀ id x, m !! id = Some x → num x = id) →
  let '(xs, seen') := take_new prefix seen (map_to_list m) in
  NoDup (num <$> xs) ∧ (∀ id, id ∈ (num <$> xs) ↔ ((prefix +:+ itoa id) ∉ seen) ∧ is_Some (m !! id)) ∧
  (∀ key, key ∈ seen' ↔ key ∈ seen ∨ ∃ id, is_Some (m !! id) ∧ key = prefix +:+ itoa id).
Proof.
  intros Hnum. pose proof (take_new_spec prefix seen (map_to_list m) (NoDup_fst_map_to_list m)) as Hs.
  destruct (take_new prefix seen (map_to_list m)) as [xs seen']. destruct Hs as [-> H2].
  assert (num <$> (filter (λ kv : Z * A, (prefix +:+ itoa kv.1) ∉ seen) (map_to_list m)).*2 =
          (filter (λ kv : Z * A, (prefix +:+ itoa kv.1) ∉ seen) (map_to_list m)).*1) as ->.
  { rewrite <- list_fmap_compose. apply list_fmap_ext. intros i [id x] Hi. simpl. apply Hnum.
    apply list_elem_of_lookup_2, list_elem_of_filter in Hi as [_ Hi]. by apply elem_of_map_to_list. }
  split_and!.
  - apply NoDup_fmap_fst_filter, NoDup_fst_map_to_list.
  - intros id. rewrite list_elem_of_fmap. split.
    + intros ([i x] & -> & [Hn Hx%elem_of_map_to_list]%list_elem_of_filter). simpl. eauto.
    + intros [Hn [x Hx]]. exists (id, x). split; [done|]. apply list_elem_of_filter. split; [done|]. by apply elem_of_map_to_list.
  - intros key. rewrite H2. apply or_iff_compat_l. split; intros (id & Hid & ->); exists id; (split; [|done]).
    + apply list_elem_of_fmap in Hid as ([i x] & -> & Hx%elem_of_map_to_list). eauto.
    + destruct Hid as [x Hx]. apply list_elem_of_fmap. exists (id, x). split; [done|]. by apply elem_of_map_to_list.
Qed.

Lemma new_peers_spec e s :
  elem_wf e →
  let '(us, cs, s') := new_peers e s in
  NoDup (u_ID <$> us) ∧ (∀ id, id ∈ u_ID <$> us ↔ (("user:" +:+ itoa id) ∉ seenUsers s) ∧ has_user e id) ∧
  NoDup (ckey <$> cs) ∧ (∀ k, k ∈ ckey <$> cs ↔ (chat_key k ∉ seenChats s) ∧ has_chat e k) ∧
  (∀ id, ("user:" +:+ itoa id) ∈ seenUsers s' ↔ ("user:" +:+ itoa id) ∈ seenUsers s ∨ has_user e id) ∧
  (∀ k, chat_key k ∈ seenChats s' ↔ chat_key k ∈ seenChats s ∨ has_chat e k).
Proof.
  intros (Wu & Wg & Wc). unfold new_peers.
  pose proof (take_new_keys "user:" (seenUsers s) (el_Users e) u_ID Wu) as Hu. destruct (take_new "user:" _ _) as [us su].
  pose proof (take_new_keys "chat:" (seenChats s) (el_Groups e) g_ID Wg) as Hg. destruct (take_new "chat:" _ _) as [gs sg].
  pose proof (take_new_keys "channel:" sg (el_Channels e) c_ID Wc) as Hc. destruct (take_new "channel:" _ _) as [cs sc].
  destruct Hu as (U1 & U2 & U3), Hg as (G1 & G2 & G3), Hc as (C1 & C2 & C3).
  assert (ckey <$> ((EGroup <$> gs) ++ (EChannel <$> cs)) = (pair false <$> (g_ID <$> gs)) ++ (pair true <$> (c_ID <$> cs))) as Hk
    by (by rewrite fmap_app, <- !list_fmap_compose).
  assert (∀ b id k, is_Some (el_Groups e !! k) → chat_key (b, id) = "chat:" +:+ itoa k → b = false ∧ id = k) as Kg.
  { intros b id k _ He. change ("chat:" +:+ itoa k) with (chat_key (false, k)) in He. apply chat_key_inj in He. by injection He. }
  assert (∀ b id k, chat_key (b, id) = "channel:" +:+ itoa k → b = true ∧ id = k) as Kc.
  { intros b id k He. change ("channel:" +:+ itoa k) with (chat_key (true, k)) in He. apply chat_key_inj in He. by injection He. }
  cbn [seenUsers seenChats]. split_and!; [exact U1|exact U2| | | |].
  - rewrite Hk. apply NoDup_app. split_and!; [by apply (NoDup_fmap_2 _ _)| |by apply (NoDup_fmap_2 _ _)].
    by intros k (a & -> & _)%list_elem_of_fmap (b & ? & _)%list_elem_of_fmap.
  - intros [b id]. rewrite Hk, elem_of_app, !list_elem_of_fmap. setoid_rewrite G2. setoid_rewrite C2. setoid_rewrite G3.
    unfold has_chat, chat_key. simpl. split.
    + intros [(y & [= -> ->] & ?)|(y & [= -> ->] & Hn & ?)]; [done|]. tauto.
    + destruct b; intros [Hn Hs]; [right|left]; exists id; (split; [done|]); split; try done.
      intros [?|(k & Hk' & He)]; [done|]. destruct (Kg true id k Hk' He). done.
  - intros id. rewrite U3. apply or_iff_compat_l. split; [intros (k & Hk' & He%prefix_inj); by subst|unfold has_user; eauto].
  - intros [b id]. rewrite C3, G3. unfold has_chat. cbn [fst snd]. split.
    + intros [[?|(k & Hk' & He)]|(k & Hk' & He)]; [by left|..]; right.
      * by destruct (Kg b id k Hk' He) as [-> ->].
      * by destruct (Kc b id k He) as [-> ->].
    + intros [?|Hs]; [tauto|]. destruct b; [right|left; right]; by exists id.
Qed.

(** A store that accepts everything and writes down what it is handed. *)
Definition apply_log (users : list UserInfo) (chats : list ChatEntity) : SM (list (list UserInfo * list ChatEntity)) (res fetch_err unit) :=
  λ log, (Ok tt, log ++ [(users, chats)]).

Lemma apply_new_log us cs log :
  ∃ entry, apply_new apply_log us cs log = (Ok tt, log ++ entry) ∧ concat entry.*1 = us ∧ concat entry.*2 = cs.
Proof.
  unfold apply_new. case_decide as Hd; [exists []; rewrite app_nil_r; by destruct Hd as [-> ->]|].
  exists [(us, cs)]. simpl. by rewrite !app_nil_r.
Qed.

Lemma sync_loop_spec elems s log :
  Forall elem_wf elems →
  ∃ out, sync_loop apply_log elems s log = (Ok tt, log ++ out) ∧
    NoDup (u_ID <$> concat out.*1) ∧ NoDup (ckey <$> concat out.*2) ∧
    (∀ id, id ∈ (u_ID <$> concat out.*1) ↔ (("user:" +:+ itoa id) ∉ seenUsers s) ∧ ∃ e, e ∈ elems ∧ has_user e id) ∧
    (∀ k, k ∈ (ckey <$> concat out.*2) ↔ (chat_key k ∉ seenChats s) ∧ ∃ e, e ∈ elems ∧ has_chat e k).
Proof.
  intros Hwf. revert s log. induction Hwf as [|e elems He _ IH]; intros s log; cbn [sync_loop].
  { exists []. rewrite app_nil_r. split_and!; try done; [constructor|constructor|..];
      (intros k; split; [by intros ?%elem_of_nil|by intros (_ & x & ?%elem_of_nil & _)]). }
  pose proof (new_peers_spec e s He) as Hn. destruct (new_peers e s) as [[us cs] s'].
  destruct Hn as (U1 & U2 & K1 & K2 & S1 & S2). destruct (apply_new_log us cs log) as (entry & Ha & <- & <-).
  unfold sm_bind. rewrite Ha. destruct (IH s' (log ++ entry)) as (out & -> & N1 & N2 & I1 & I2).
  exists (entry ++ out). rewrite app_assoc. split; [done|].
  rewrite !fmap_app, !concat_app, !fmap_app. split_and!.
  - apply NoDup_app. split_and!; [done| |done]. intros id H1 H2. rewrite U2 in H1. rewrite I1, S1 in H2. tauto.
  - apply NoDup_app. split_and!; [done| |done]. intros k H1 H2. rewrite K2 in H1. rewrite I2, S2 in H2. tauto.
  - intros id. rewrite elem_of_app, U2, I1, S1. setoid_rewrite elem_of_cons. split.
    + intros [[? ?]|[Hs (e' & ? & ?)]]; (split; [tauto|]); [by exists e; auto|by exists e'; auto].
    + intros [Hs (e' & [->|Hin] & Hu)]; [by left|]. destruct (el_Users e !! id) as [u|] eqn:Hu'; [left; unfold has_user; eauto|].
      right. split; [|by exists e']. unfold has_user. rewrite Hu'. intros [?|[? ?]]; done.
  - intros k. rewrite elem_of_app, K2, I2, S2. setoid_rewrite elem_of_cons. split.
    + intros [[? ?]|[Hs (e' & ? & ?)]]; (split; [tauto|]); [by exists e; auto|by exists e'; auto].
    + intros [Hs (e' & [->|Hin] & Hu)]; [by left|]. destruct (decide (has_chat e k)) as [Hc|Hc]; [left; eauto|].
      right. split; [|by exists e']. intros [?|?]; done.
Qed.

(** Synchronising the peers, when it is due and nothing fails: every user and every chat
    of the dialogs is handed to the store exactly once, groups and channels with the same
    number apart, nothing else is, and the time is written down. *)
Theorem sync_hands_over_each_peer_once (elems : list Elem) (lastSync : option Z) (now finished : Z) :
  Forall elem_wf elems → fresh lastSync now = false →
  ∃ out, SyncPeers apply_log (sm_ret (Ok tt)) (elems, None) lastSync now finished [] = ((Ok tt, Some finished), out) ∧
    NoDup (u_ID <$> concat out.*1) ∧ NoDup (ckey <$> concat out.*2) ∧
    (∀ id, id ∈ (u_ID <$> concat out.*1) ↔ ∃ e, e ∈ elems ∧ has_user e id) ∧
    (∀ k, k ∈ (ckey <$> concat out.*2) ↔ ∃ e, e ∈ elems ∧ has_chat e k).
Proof.
  intros Hwf Hf. destruct (sync_loop_spec elems (Seen ∅ ∅) [] Hwf) as (out & Hs & N1 & N2 & I1 & I2).
  exists out. unfold SyncPeers. rewrite Hf. unfold sm_bind, sm_ret. cbn [fst snd]. rewrite Hs.
  split_and!; [done..| |].
  - intros id. rewrite I1. simpl. set_solver.
  - intros k. rewrite I2. simpl. set_solver.
Qed.
Lemma sync_hands_over_each_peer_once_witness :
  let e := Elem_ (InputPeerUser 5 0) None {[5 := User 5 "a" "" "" false]} {[7 := Group 7 "g"]} {[7 := ChannelE 7 "c" "" true]} in
  ∃ out, SyncPeers apply_log (sm_ret (Ok tt)) ([e; e], None) None 100 200 [] = ((Ok tt, Some 200), out) ∧
    NoDup (ckey <$> concat out.*2).
Proof.
  set (e := Elem_ _ _ _ _ _).
  assert (elem_wf e) as He by (split_and!; intros id x Hx; unfold e in Hx; cbn [el_Users el_Groups el_Channels] in Hx;
      apply lookup_singleton_Some in Hx as [<- <-]; reflexivity).
  destruct (sync_hands_over_each_peer_once [e; e] None 100 200) as (out & H1 & _ & H2 & _);
    [exact (Forall_cons_2 _ _ _ He (Forall_cons_2 _ _ _ He (Forall_nil_2 _)))|reflexivity|]. exists out. split; [exact H1|exact H2].
Defined.

(** ** Listed dialogs and pages of history *)

(** The peer a dialog is listed as. *)
Definition listed_peer (e : Elem) : PeerClass :=
  let id := elem_id e in
  match el_Channels e !! id, el_Groups e !! id with
  | Some _, _ => PeerChannel id
  | None, Some _ => PeerChat id
  | None, None => PeerUser id
  end.

(** The identifier of a listed dialog is the printed form of its peer, so that it parses
    back to the number shown beside it and, when no other kind of peer shadows it, resolves
    to that peer. *)
Theorem listed_dialog_resolves {P} (chan chat user : Z → option P) (name : string → option P) (e : Elem) (d : DialogDTO) (x : P) :
  elem_wf e → dialog_item e = Some d → 0 < dd_ID d <= int64_max → plain_id (listed_peer e) = true →
  numeric_id (dd_ChatID d) = Some (dd_ID d) ∧
  (unshadowed chan chat (listed_peer e) → typed chan chat user (listed_peer e) = Some x →
   GetInputPeer chan chat user name (dd_ChatID d) = Ok x).
Proof.
  intros (Wu & Wg & Wc) Hd Hid Hp.
  assert (dd_ChatID d = extractPeerID (Some (listed_peer e)) ∧ dd_ID d = GetPeerID (listed_peer e)) as [Hc Hi].
  { revert Hd. unfold dialog_item, listed_peer. destruct (elem_id e =? 0); [done|].
    destruct (match el_Dialog e with Some _ => _ | None => _ end) as [[pn un] tp].
    destruct (el_Channels e !! elem_id e) as [c|] eqn:Hch; [intros [= <-]; simpl; by rewrite (Wc _ _ Hch)|].
    destruct (el_Groups e !! elem_id e) as [g|] eqn:Hg; [intros [= <-]; simpl; by rewrite (Wg _ _ Hg)|].
    destruct (el_Users e !! elem_id e) as [u|] eqn:Hu; intros [= <-]; simpl; [by rewrite (Wu _ _ Hu)|done]. }
  rewrite Hc, Hi in *. split; [by apply numeric_id_extract|]. intros Hu Hx. by apply resolve_extracted.
Qed.
Lemma listed_dialog_resolves_witness :
  let e := Elem_ (InputPeerChannel 7 0) None ∅ ∅ {[7 := ChannelE 7 "news" "" false]} in
  ∃ d, dialog_item e = Some d ∧ numeric_id (dd_ChatID d) = Some 7.
Proof.
  set (e := Elem_ _ _ _ _ _).
  assert (elem_wf e) as He.
  { split_and!; intros id x Hx; [destruct (lookup_empty_Some id x Hx)..|].
    unfold e in Hx; cbn [el_Channels] in Hx. apply lookup_singleton_Some in Hx as [<- <-]. reflexivity. }
  eexists. split; [reflexivity|].
  apply (listed_dialog_resolves (λ _, Some 1%nat) (λ _, None) (λ _, None) (λ _, None) e _ 1%nat He eq_refl); [|reflexivity].
  split; [reflexivity|vm_compute; discriminate].
Defined.

Lemma message_dto_id mime_ext chat m : md_ID (message_dto mime_ext chat m) = msg_ID m.
Proof. unfold message_dto. by destruct (dto_type m). Qed.
Lemma plain_messages_elem m l : m ∈ plain_messages l ↔ MsgPlain m ∈ l.
Proof.
  unfold plain_messages. rewrite list_elem_of_omap. split; [|intros Hm; by exists (MsgPlain m)].
  intros ([m'|id] & Hc & He); [|done]. by injection He as ->.
Qed.
Lemma page_sorted mime_ext chat l :
  newest_first l → StronglySorted (λ x y, md_ID y < md_ID x) (message_dto mime_ext chat <$> plain_messages l).
Proof.
  induction 1 as [|[m|id] k Hk IH Hx]; [constructor| |done].
  change (plain_messages (MsgPlain m :: k)) with (m :: plain_messages k). rewrite fmap_cons. constructor; [done|].
  apply Forall_forall. intros d (m' & -> & Hm%plain_messages_elem)%list_elem_of_fmap. rewrite !message_dto_id.
  rewrite Forall_forall in Hx. apply (Hx _ Hm).
Qed.

(** A page of history: between one and five hundred messages are asked for, as many as
    requested when that is allowed; and when the server answers newest first, the page lists
    the plain messages of the answer in that order, or oldest first when that was requested. *)
Theorem history_page_order (mime_ext : string → option string) {S} (resolve_peer : string → SM S (res fetch_err InputPeerClass))
    (get_history : InputPeerClass → Z * Z * Z * Z → ST S fetch_err MessagesAnswer) (req : HistoryRequest) (s : S) :
  let '(off, add, limit, least) := history_window req in
  1 <= limit <= 500 ∧ (1 <= h_Limit req <= 500 → limit = h_Limit req) ∧
  match GetHistory mime_ext resolve_peer get_history req s with
  | (Ok l, _) =>
      ∃ ip s1 a s2, resolve_peer (clean_peer (h_Peer req)) s = (Ok ip, s1) ∧ get_history ip (history_window req) s1 = (Ok a, s2) ∧
        (∀ d, d ∈ l ↔ ∃ m, MsgPlain m ∈ answer_list a ∧ d = message_dto mime_ext (h_Peer req) m) ∧
        (newest_first (answer_list a) →
           StronglySorted (λ x y, if h_Reverse req then md_ID x < md_ID y else md_ID y < md_ID x) l)
  | (Err _, _) => True
  end.
Proof.
  assert (∀ n, 1 <= history_limit n <= 500 ∧ (1 <= n <= 500 → history_limit n = n)) as Hl.
  { intros n. unfold history_limit. destruct ((n <=? 0) || (500 <? n)) eqn:Hn; lia. }
  destruct (history_window req) as [[[off add] limit] least] eqn:Hw.
  assert (limit = history_limit (h_Limit req)) as -> by (unfold history_window in Hw; destruct (h_Reverse req && _); congruence).
  destruct (Hl (h_Limit req)) as [H1 H2]. split; [done|]. split; [done|].
  unfold GetHistory, sm_bind, sm_ret. destruct (resolve_peer _ s) as [[ip|e] s1] eqn:Hr; [|done]. rewrite Hw.
  destruct (get_history ip _ s1) as [[a|e] s2] eqn:Hg; [|done]. exists ip, s1, a, s2. split; [done|]. split; [done|].
  set (l := message_dto mime_ext (h_Peer req) <$> plain_messages (answer_list a)).
  assert (∀ d, d ∈ l ↔ ∃ m, MsgPlain m ∈ answer_list a ∧ d = message_dto mime_ext (h_Peer req) m) as Hin.
  { intros d. unfold l. rewrite list_elem_of_fmap. setoid_rewrite plain_messages_elem. naive_solver. }
  assert (newest_first (answer_list a) → StronglySorted (λ x y, md_ID y < md_ID x) l) as Hs by apply page_sorted.
  destruct (h_Reverse req); split; [| |done|done].
  - intros d. rewrite list_elem_of_In, <- in_rev, <- list_elem_of_In. apply Hin.
  - intros Hn. apply StronglySorted_rev. by apply Hs.
Qed.
