(* ===== verification/Iter.v ===== *)
(** * The iterator of the command-line downloader (app/dl)

    [newIter] sorts the requested messages and takes their fingerprint; [Next] walks over
    them, skips the ones that are done, deleted or not wanted, opens a temporary file for
    each other and queues it; [OnDone] renames a finished file and marks it; the marks are
    stored under the fingerprint and read back by a later run. The Telegram calls, the name
    template, the digest and the store of the marks are arguments, and any system call may
    fail. The theorems are in IterProps.v. *)
From S2P Require Import Prelude Paths Fscommit Json Media Peers Fetch.

(** ** Requests *)

(** [tmessage.Dialog]. *)
Record Dialog := Dialog_ { Peer : InputPeerClass; Messages : list Z }.

Record Options := Options_ {
  Dir : string; RewriteExt : bool; SkipSame : bool; Include : list string; Exclude : list string; Desc : bool; Group : bool;
}.

Definition flatDialogs (dialogs : list (list Dialog)) : list Dialog := concat dialogs.

Definition peer_le (a b : Dialog) : Prop := GetInputPeerID (Peer a) <= GetInputPeerID (Peer b).
#[export] Instance peer_le_dec : RelDecision peer_le.
Proof. intros a b. unfold peer_le. apply _. Defined.
Definition message_le (desc : bool) (a b : Z) : Prop := if desc then b <= a else a <= b.
#[export] Instance message_le_dec desc : RelDecision (message_le desc).
Proof. intros a b. unfold message_le. destruct desc; apply _. Defined.
(** [sort.Slice] leaves the order of equal elements open; a stable sort is one choice. *)
Definition sortDialogs (desc : bool) (dialogs : list Dialog) : list Dialog :=
  (λ d, Dialog_ (Peer d) (merge_sort (message_le desc) (Messages d))) <$> merge_sort peer_le dialogs.

(** [tmessage.FromURL]: the messages of the links, by the number of their chat, whose peer is
    that of the first link. The map is visited in some order. *)
Fixpoint collect_links {E} (parse : string → res E (InputPeerClass * Z)) (urls : list string) (acc : gmap Z Dialog) : res E (gmap Z Dialog) :=
  match urls with
  | [] => Ok acc
  | u :: urls =>
      match parse u with
      | Err e => Err e
      | Ok (peer, msg) =>
          let id := GetInputPeerID peer in
          let d := default (Dialog_ peer []) (acc !! id) in
          collect_links parse urls (<[id := Dialog_ (Peer d) (Messages d ++ [msg])]> acc)
      end
  end.
Definition FromURL {E} (parse : string → res E (InputPeerClass * Z)) (urls : list string) : res E (list Dialog) :=
  match collect_links parse urls ∅ with
  | Err e => Err e
  | Ok m => Ok (map_to_list m).*2
  end.

(** [binary.BigEndian.PutUint64]. *)
Fixpoint be_bytes (n : nat) (z : Z) : chars :=
  match n with O => [] | S n => be_bytes n (z / 256) ++ [ch (Z.to_nat (z mod 256))] end.
Definition dialog_bytes (d : Dialog) : chars :=
  be_bytes 8 (GetInputPeerID (Peer d)) ++ concat (be_bytes 8 <$> Messages d).
Definition fingerprint_bytes (dialogs : list Dialog) : string := of_chars (concat (dialog_bytes <$> dialogs)).

(** [fsutil.AddPrefixDot]; [filepath.Ext]: from the last dot of the last component on;
    [fsutil.GetNameWithoutExt]. *)
Definition AddPrefixDot (ext : string) : string := if HasPrefix ext "." then ext else "." +:+ ext.
Fixpoint ext_rev (l : chars) (acc : chars) : chars :=
  match l with
  | [] => []
  | c :: l => if decide (c = slash) then [] else if decide (c = ch 46) then c :: acc else ext_rev l (c :: acc)
  end.
Definition Ext (p : string) : string := of_chars (ext_rev (rev (to_chars p)) []).
Definition TrimSuffix (s suf : string) : string :=
  if HasSuffix s suf then of_chars (take (String.length s - String.length suf)%nat (to_chars s)) else s.
Definition GetNameWithoutExt (p : string) : string := TrimSuffix (Base p) (Ext p).

(** ** The iterator *)

Definition tempExt : string := ".tmp".

Record iterElem := Elem { id_ : Z; el_logicalPos : Z; from : Z; fromMsg : Message; file : Media; to_ : string }.

Inductive iter_err := FromPeerErr (e : fetch_err) | ResolveErr (e : fetch_err) | GroupedErr | TemplateErr | CreateDirErr (e : errno)
  | CreateFileErr (e : errno) | CtxErr.

Record iter := Iter {
  dialogs : list Dialog; opts : Options; finished : gset Z; logicalPos : Z; dialogIndex : nat; messageIndex : nat;
  counter : Z; deletedIDs : list string; elems : list iterElem; err : option iter_err;
}.
Definition newIter (o : Options) (ds : list (list Dialog)) : option iter :=
  let ds := flatDialogs ds in
  if decide (ds = []) then None
  else Some (Iter (sortDialogs (Desc o) ds) o ∅ 0 0 0 (-1) [] [] None).

Definition set_err (e : iter_err) (i : iter) : iter :=
  Iter (dialogs i) (opts i) (finished i) (logicalPos i) (dialogIndex i) (messageIndex i) (counter i) (deletedIDs i) (elems i) (Some e).
Definition add_logical (n : Z) (i : iter) : iter :=
  Iter (dialogs i) (opts i) (finished i) (logicalPos i + n) (dialogIndex i) (messageIndex i) (counter i) (deletedIDs i) (elems i) (err i).
Definition set_index (d m : nat) (i : iter) : iter :=
  Iter (dialogs i) (opts i) (finished i) (logicalPos i) d m (counter i) (deletedIDs i) (elems i) (err i).
Definition skip_deleted (id : string) (i : iter) : iter :=
  Iter (dialogs i) (opts i) (finished i) (logicalPos i + 1) (dialogIndex i) (messageIndex i) (counter i) (deletedIDs i ++ [id]) (elems i) (err i).
Definition push_elem (pos from : Z) (m : Message) (x : Media) (path : string) (i : iter) : iter :=
  Iter (dialogs i) (opts i) (finished i) (logicalPos i) (dialogIndex i) (messageIndex i) (counter i + 1) (deletedIDs i)
    (elems i ++ [Elem (counter i + 1) pos from m x path]) (err i).
Definition set_finished (s : gset Z) (i : iter) : iter :=
  Iter (dialogs i) (opts i) s (logicalPos i) (dialogIndex i) (messageIndex i) (counter i) (deletedIDs i) (elems i) (err i).
Definition set_elems (l : list iterElem) (i : iter) : iter :=
  Iter (dialogs i) (opts i) (finished i) (logicalPos i) (dialogIndex i) (messageIndex i) (counter i) (deletedIDs i) l (err i).

Definition Total (i : iter) : Z := sumZ (λ d, Z.of_nat (length (Messages d))) (dialogs i).
Definition SkippedDeleted (i : iter) : Z := Z.of_nat (length (deletedIDs i)).
Definition Finish (pos : Z) (i : iter) : iter := set_finished ({[pos]} ∪ finished i) i.

(** ** Walking *)

Section Walk.
Context {S : Type}.
Context (mime_ext : string → option string).
(** [peers.Manager.FromInputPeer], with the number of the peer; the two ways of fetching; and
    the name template on the peer's number, the message and the file, with the clock's time
    already in it. *)
Context (FromInputPeer : InputPeerClass → SM S (res fetch_err Z)).
Context (get_single : InputPeerClass → Z → SM S (res fetch_err Message)).
Context (get_grouped : InputPeerClass → Message → SM S (option (list Message))).
Context (execute : Z → Message → Media → option string).

Record wst := WSt { w_it : iter; w_fs : fs; w_srv : S }.
Definition W (A : Type) : Type := SM wst A.
Definition on_it (f : iter → iter) : W unit := λ w, (tt, WSt (f (w_it w)) (w_fs w) (w_srv w)).
Definition get_it : W iter := λ w, (w_it w, w).
Definition on_files {A} (m : FS A) : W A := λ w, let (a, f) := m (w_fs w) in (a, WSt (w_it w) f (w_srv w)).
Definition on_srv {A} (m : SM S A) : W A := λ w, let (a, s) := m (w_srv w) in (a, WSt (w_it w) (w_fs w) s).

Definition message_file (m : Message) : option Media := x ← msg_Media m; ExtractMedia mime_ext x.
Definition excluded (o : Options) (name : string) : bool :=
  let ext := Ext name in
  (bool_decide (Include o ≠ []) && negb (bool_decide (ext ∈ AddPrefixDot <$> Include o))) ||
  bool_decide (ext ∈ AddPrefixDot <$> Exclude o).

(** A file of the same name and size stands in the directory. *)
Definition same_file (name : string) (size : Z) : W bool :=
  do! i := get_it in
  if SkipSame (opts i) then
    do! st := on_files (Stat (Join (Dir (opts i)) name)) in
    done! match st with
          | Ok n => bool_decide (GetNameWithoutExt name = GetNameWithoutExt (Base (Join (Dir (opts i)) name))) && (node_size n =? size)
          | Err _ => false
          end
  else done! false.
(** [os.Create]. *)
Definition Create (p : string) : FS (res errno unit) :=
  sys (λ d, match d !! p with
            | Some DirNode => (Err EISDIR, d)
            | _ => (Ok tt, <[p := FileNode ""]> d)
            end).

(** The results are [ret] and [skip]. *)
Definition processSingle (m : Message) (from pos : Z) : W (bool * bool) :=
  do! i := get_it in
  match message_file m with
  | None => done! (false, true)
  | Some x =>
      if excluded (opts i) (media_Name x) then done! (false, true)
      else match execute from m x with
           | None => do! _ := on_it (set_err TemplateErr) in done! (false, false)
           | Some name =>
               do! same := same_file name (media_Size x) in
               if same : bool then done! (false, true)
               else
                 let path := Join (Dir (opts i)) (name +:+ tempExt) in
                 do! mk := on_files (MkdirAll (Paths.Dir path)) in
                 match mk with
                 | Err e => do! _ := on_it (set_err (CreateDirErr e)) in done! (false, false)
                 | Ok _ =>
                     do! cr := on_files (Create path) in
                     match cr with
                     | Err e => do! _ := on_it (set_err (CreateFileErr e)) in done! (false, false)
                     | Ok _ => do! _ := on_it (push_elem pos from m x path) in done! (true, false)
                     end
                 end
           end
  end.

(** The loop over an album; [None] is the early return after an error. *)
Fixpoint grouped_loop (from : Z) (l : list Message) (pos : Z) (hasValid : bool) : W (option bool) :=
  match l with
  | [] => done! (Some hasValid)
  | m :: l =>
      do! i := get_it in
      if decide (pos ∈ finished i) then grouped_loop from l (pos + 1) hasValid
      else
        do! r := processSingle m from pos in
        match r with
        | (false, false) => done! None
        | (ret, _) => grouped_loop from l (pos + 1) (hasValid || ret)
        end
  end.
Definition processGrouped (peer : InputPeerClass) (m : Message) (from start : Z) : W (bool * bool) :=
  do! g := on_srv (get_grouped peer m) in
  match g with
  | None => do! _ := on_it (set_err GroupedErr) in done! (false, false)
  | Some l =>
      do! v := grouped_loop from l start false in
      match v with
      | None => done! (false, false)
      | Some hasValid =>
          do! _ := on_it (add_logical (Z.of_nat (length l))) in
          done! (hasValid, negb hasValid)
      end
  end.

(** The deferred step to the next message. *)
Definition advance (i : iter) : iter :=
  let m := Datatypes.S (messageIndex i) in
  match dialogs i !! dialogIndex i with
  | Some d => if (length (Messages d) <=? m)%nat then set_index (Datatypes.S (dialogIndex i)) 0 i else set_index (dialogIndex i) m i
  | None => set_index (dialogIndex i) m i
  end.
(** The body of [process] at a message, before the deferred step. *)
Definition process_at (peer : InputPeerClass) (msg : Z) : W (bool * bool) :=
  do! f := on_srv (FromInputPeer peer) in
  match f with
  | Err e => do! _ := on_it (set_err (FromPeerErr e)) in done! (false, false)
  | Ok from =>
      do! r := on_srv (get_single peer msg) in
      match r with
      | Err MessageDeleted =>
          do! _ := on_it (skip_deleted (itoa (GetInputPeerID peer) +:+ "/" +:+ itoa msg)) in
          done! (false, true)
      | Err e => do! _ := on_it (set_err (ResolveErr e)) in done! (false, false)
      | Ok m =>
          do! i := get_it in
          let start := logicalPos i in
          if bool_decide (GroupedID m ≠ None) && Group (opts i) then processGrouped peer m from start
          else if decide (start ∈ finished i) then
            do! _ := on_it (add_logical 1) in done! (false, true)
          else
            do! r := processSingle m from start in
            do! _ := on_it (add_logical 1) in
            done! r
      end
  end.
(** The message at the current position; none at the end or after an error. *)
Definition current (i : iter) : option (InputPeerClass * Z) :=
  d ← dialogs i !! dialogIndex i;
  msg ← Messages d !! messageIndex i;
  match err i with Some _ => None | None => Some (Peer d, msg) end.
Definition process : W (bool * bool) :=
  do! i := get_it in
  match current i with
  | None => done! (false, false)
  | Some (peer, msg) =>
      do! r := process_at peer msg in
      do! _ := on_it advance in
      done! r
  end.

(** [Next]; [None] is a loop that has not ended within the fuel, [ctx_done] a context that
    has ended. *)
Fixpoint next_loop (fuel : nat) : W (option bool) :=
  match fuel with
  | O => done! None
  | Datatypes.S fuel =>
      do! r := process in
      match r with
      | (_, true) => next_loop fuel
      | (ok, false) => done! (Some ok)
      end
  end.
Definition iter_Next (fuel : nat) (ctx_done : bool) : W (option bool) :=
  if ctx_done then do! _ := on_it (set_err CtxErr) in done! (Some false)
  else
    do! i := get_it in
    match elems i with
    | _ :: _ => done! (Some true)
    | [] => next_loop fuel
    end.
(** [Value] takes from the channel; it waits, here [None], when it is empty. *)
Definition Value : W (option iterElem) := λ w,
  match elems (w_it w) with
  | [] => (None, w)
  | x :: l => (Some x, WSt (set_elems l (w_it w)) (w_fs w) (w_srv w))
  end.

(** The loop of [runDownloadLoop] over the elements, without the downloads. *)
Fixpoint drain (n fuel : nat) : W (list iterElem) :=
  match n with
  | O => done! []
  | Datatypes.S n =>
      do! ok := iter_Next fuel false in
      match ok with
      | Some true =>
          do! v := Value in
          do! rest := drain n fuel in
          done! (opt_list v ++ rest)
      | _ => done! []
      end
  end.
End Walk.
Arguments wst : clear implicits.

(** ** The end of a download (progress.go) *)

(** [os.Rename], which replaces a file; [os.Chtimes]. *)
Definition Rename (src dst : string) : FS (res errno unit) :=
  sys (λ d, match d !! src, d !! dst with
            | None, _ => (Err ENOENT, d)
            | Some _, Some DirNode => (Err EEXIST, d)
            | Some n, _ => (Ok tt, <[dst := n]> (delete src d))
            end).
Definition Chtimes : FS (res errno unit) := sys (λ d, (Ok tt, d)).

Section Done.
(** The extension [mimetype.DetectFile] finds for a file; [None] when it cannot be read. *)
Context (detect : string → disk → option string).

Definition final_name (o : Options) (path : string) (d : disk) : option string :=
  let newfile := TrimSuffix (Base path) tempExt in
  if RewriteExt o then
    ext ← detect path d;
    Some (if decide (ext ≠ "" ∧ Ext newfile ≠ ext) then GetNameWithoutExt newfile +:+ ext else newfile)
  else Some newfile.
(** [false] is an error, which is reported to the user. *)
Definition donePost (o : Options) (x : iterElem) : FS bool :=
  do! name := (λ f : fs, (final_name o (to_ x) (Fscommit.files f), f)) in
  match name with
  | None => done! false
  | Some name =>
      let newpath := Join (Paths.Dir (to_ x)) name in
      do! r := Rename (to_ x) newpath in
      match r with
      | Err _ => done! false
      | Ok _ => if 0 <? media_Date (file x) then do! t := Chtimes in done! is_ok t else done! true
      end
  end.
Definition OnDone (x : iterElem) (failed : bool) (i : iter) : FS iter :=
  do! c := Fsync in
  match c with
  | Err _ => done! i
  | Ok _ =>
      if failed then do! _ := Remove (to_ x) in done! i
      else
        let i := Finish (el_logicalPos x) i in
        do! _ := donePost (opts i) x in
        done! i
  end.
End Done.

(** ** Resuming (dl.go) *)

(** The store of finished positions, by key; for each coming access whether it fails. *)
Record kvst := Kv { kv : gmap string (gset Z); kvfaults : list bool }.
Definition kv_op {A} (f : gmap string (gset Z) → A * gmap string (gset Z)) : ST kvst unit A := λ s,
  if hd false (kvfaults s) then (Err tt, Kv (kv s) (tl (kvfaults s)))
  else let (a, m) := f (kv s) in (Ok a, Kv m (tl (kvfaults s))).

Section Resume.
Context (sha256Hex : string → string).

Definition fingerprint (ds : list Dialog) : string := sha256Hex (fingerprint_bytes ds).
Definition resume_key (ds : list Dialog) : string := "resume:" +:+ fingerprint ds.
(** [answer] is the user's to the question, [None] when asking fails. *)
Definition resume (ask : bool) (answer : option bool) (i : iter) : ST kvst unit iter :=
  let! b := kv_op (λ m, (m !! resume_key (dialogs i), m)) in
  match b with
  | None => return! i
  | Some fin =>
      if decide (fin = ∅) then return! i
      else match (if ask then answer else Some true) with
           | None => fail! tt
           | Some false => let! _ := kv_op (λ m, (tt, delete (resume_key (dialogs i)) m)) in return! i
           | Some true => return! (set_finished fin i)
           end
  end.
Definition saveProgress (i : iter) : ST kvst unit unit :=
  kv_op (λ m, (tt, <[resume_key (dialogs i) := finished i]> m)).
End Resume.
