(* ===== verification/IterProps.v ===== *)
(** * What the command-line iterator guarantees

    Theorems on Iter.v: [Next] ends; without albums every wanted message is yielded exactly
    once and in order; the fingerprint does not depend on the order of the request; progress
    that was saved is read back; what a finished download leaves. *)
From S2P Require Import Prelude Paths Fscommit Json Media Peers Fetch Iter.

(** ** Where the walk stands *)

Definition same_place (i i' : iter) : Prop :=
  dialogs i' = dialogs i ∧ opts i' = opts i ∧ finished i' = finished i ∧ dialogIndex i' = dialogIndex i ∧ messageIndex i' = messageIndex i.
Lemma same_place_refl i : same_place i i.
Proof. by repeat split. Qed.
Lemma same_place_trans i1 i2 i3 : same_place i1 i2 → same_place i2 i3 → same_place i1 i3.
Proof. unfold same_place. intuition congruence. Qed.

(** The messages from the current one on. *)
Definition remaining (i : iter) : list (InputPeerClass * Z) :=
  match drop (dialogIndex i) (dialogs i) with
  | [] => []
  | d :: ds => (pair (Peer d) <$> drop (messageIndex i) (Messages d)) ++ concat ((λ d, pair (Peer d) <$> Messages d) <$> ds)
  end.

Lemma drop_lookup {A} (l : list A) n x : l !! n = Some x → drop n l = x :: drop (S n) l.
Proof. intros Hx. by apply drop_S. Qed.

Lemma remaining_current i p msg :
  current i = Some (p, msg) → err i = None ∧ ∃ l, remaining i = (p, msg) :: l ∧ ∀ i', same_place i i' → remaining (advance i') = l.
Proof.
  unfold current, remaining. destruct (dialogs i !! dialogIndex i) as [d|] eqn:Hd; [|done]. simpl.
  destruct (Messages d !! messageIndex i) as [m|] eqn:Hm; [|done]. simpl. destruct (err i); [done|]. intros [= <- <-]. split; [done|].
  rewrite (drop_lookup _ _ _ Hd), (drop_lookup _ _ _ Hm), fmap_cons. simpl. eexists. split; [reflexivity|].
  intros i' (H1 & _ & _ & H4 & H5). unfold advance. rewrite H1, H4, H5, Hd.
  destruct (length (Messages d) <=? S (messageIndex i))%nat eqn:Hl; unfold set_index; cbn [dialogs dialogIndex messageIndex]; rewrite H1.
  - apply Nat.leb_le in Hl. rewrite (drop_ge (Messages d)) by done. simpl.
    destruct (drop (S (dialogIndex i)) (dialogs i)) as [|d' ds]; [done|]. by rewrite drop_0.
  - by rewrite (drop_lookup _ _ _ Hd).
Qed.

Section Steps.
Context {S : Type} (mime_ext : string → option string).
Context (FromInputPeer : InputPeerClass → SM S (res fetch_err Z)).
Context (get_single : InputPeerClass → Z → SM S (res fetch_err Message)).
Context (get_grouped : InputPeerClass → Message → SM S (option (list Message))).
Context (execute : Z → Message → Media → option string).

(** Steps that stay at the message. *)
Definition stays {A} (m : W A) : Prop := ∀ w : wst S, same_place (w_it w) (w_it (m w).2).
Lemma stays_ret {A} (a : A) : stays (sm_ret a).
Proof. intros w. apply same_place_refl. Qed.
Lemma stays_bind {A B} (m : W A) (k : A → W B) : stays m → (∀ a, stays (k a)) → stays (sm_bind m k).
Proof.
  intros Hm Hk w. unfold sm_bind. specialize (Hm w). destruct (m w) as [a w1]. eapply same_place_trans; [exact Hm|]. apply Hk.
Qed.
Lemma stays_files {A} (m : FS A) : stays (on_files m).
Proof. intros w. unfold on_files. destruct (m (w_fs w)). apply same_place_refl. Qed.
Lemma stays_srv {A} (m : SM S A) : stays (on_srv m).
Proof. intros w. unfold on_srv. destruct (m (w_srv w)). apply same_place_refl. Qed.
Lemma stays_it f : (∀ i, same_place i (f i)) → stays (on_it f).
Proof. intros Hf w. apply Hf. Qed.
Lemma stays_get : stays get_it.
Proof. intros w. apply same_place_refl. Qed.

Ltac stays_tac :=
  repeat first [ apply stays_ret | apply stays_get | apply stays_files | apply stays_srv
               | apply stays_it; intros; exact (same_place_refl _)
               | apply stays_bind; [|intros] | progress case_match | assumption ].

Lemma processSingle_stays m from pos : stays (processSingle mime_ext execute m from pos).
Proof. unfold processSingle, same_file. stays_tac. Qed.
Lemma grouped_loop_stays from l pos v : stays (grouped_loop mime_ext execute from l pos v).
Proof.
  revert pos v. induction l as [|m l IH]; intros pos v; cbn [grouped_loop]; [apply stays_ret|].
  apply stays_bind; [apply stays_get|]. intros i. case_decide; [apply IH|].
  apply stays_bind; [apply processSingle_stays|]. intros [[] []]; first [apply IH|apply stays_ret].
Qed.
Lemma process_at_stays peer msg : stays (process_at mime_ext FromInputPeer get_single get_grouped execute peer msg).
Proof.
  unfold process_at, processGrouped. stays_tac; try (apply grouped_loop_stays || apply processSingle_stays); stays_tac.
Qed.

Abbreviation next := (iter_Next mime_ext FromInputPeer get_single get_grouped execute).
Abbreviation step := (process mime_ext FromInputPeer get_single get_grouped execute).
Abbreviation loop := (next_loop mime_ext FromInputPeer get_single get_grouped execute).

Lemma process_moves w r w' :
  step w = (r, w') → (r.2 = true → length (remaining (w_it w')) < length (remaining (w_it w)))%nat ∧
    (length (remaining (w_it w')) <= length (remaining (w_it w)))%nat.
Proof.
  unfold process, sm_bind, get_it. destruct (current (w_it w)) as [[p msg]|] eqn:Hc.
  - pose proof (process_at_stays p msg w) as Hs. destruct (process_at _ _ _ _ _ p msg w) as [r1 w1]. simpl in Hs.
    intros [= <- <-]. destruct (remaining_current _ _ _ Hc) as (_ & l & Hl & Hadv). cbn [w_it].
    rewrite (Hadv _ Hs), Hl. simpl. lia.
  - intros [= <- <-]. simpl. split; [done|lia].
Qed.

Lemma next_loop_ends fuel w : (length (remaining (w_it w)) < fuel)%nat → ∃ ok w', loop fuel w = (Some ok, w').
Proof.
  revert w. induction fuel as [|fuel IH]; intros w Hf; [lia|]. cbn [next_loop]. unfold sm_bind.
  destruct (step w) as [[ok skip] w1] eqn:Hs. apply process_moves in Hs as [H1 H2]. destruct skip.
  - apply IH. specialize (H1 eq_refl). lia.
  - by eexists _, _.
Qed.
End Steps.


(** ** Every wanted message once *)

Section Exact.
Context {S : Type} (mime_ext : string → option string).
Context (FromInputPeer : InputPeerClass → SM S (res fetch_err Z)).
(** The server answers the same every time. *)
Context (single : InputPeerClass → Z → res fetch_err Message).
Context (get_grouped : InputPeerClass → Message → SM S (option (list Message))).
Context (execute : Z → Message → Media → option string).
Context (o : Options) (fin : gset Z).

Definition wanted (m : Message) : bool :=
  match message_file mime_ext m with Some x => negb (excluded o (media_Name x)) | None => false end.
(** The positions to download from position [k] on, with their messages. *)
Fixpoint expected (k : Z) (l : list (InputPeerClass * Z)) : list (Z * Message) :=
  match l with
  | [] => []
  | (p, id) :: l =>
      match single p id with
      | Ok m => if decide ((k ∉ fin) ∧ wanted m = true) then (k, m) :: expected (k + 1) l else expected (k + 1) l
      | Err _ => expected (k + 1) l
      end
  end.

Abbreviation ask := (λ p id (s : S), (single p id, s)).
Abbreviation step := (process mime_ext FromInputPeer ask get_grouped execute).
Abbreviation loop := (next_loop mime_ext FromInputPeer ask get_grouped execute).

(** The walk stands at a message or past the last dialog. *)
Definition placed (i : iter) : Prop :=
  match dialogs i !! dialogIndex i with Some d => (messageIndex i < length (Messages d))%nat | None => True end.
(** The iterator stands at position [k] with [l] ahead, nothing queued. *)
Record at_pos (k : Z) (l : list (InputPeerClass * Z)) (i : iter) : Prop := {
  at_l : remaining i = l; at_k : logicalPos i = k; at_o : opts i = o; at_fin : finished i = fin;
  at_ne : Forall (λ d, Messages d ≠ []) (dialogs i); at_pl : placed i; at_q : elems i = []; at_err : err i = None;
}.

Lemma current_at k l i : at_pos k l i → current i = head l.
Proof.
  intros [Hl _ _ _ _ Hp _ He]. unfold current, remaining, placed in *. rewrite He.
  destruct (dialogs i !! dialogIndex i) as [d|] eqn:Hd; simpl.
  - rewrite (drop_lookup _ _ _ Hd) in Hl. apply lookup_lt_is_Some in Hp as [m Hm]. rewrite Hm. simpl.
    rewrite (drop_lookup _ _ _ Hm) in Hl. by rewrite <- Hl.
  - rewrite drop_ge in Hl by (by apply lookup_ge_None). by rewrite <- Hl.
Qed.
Lemma placed_advance i : Forall (λ d, Messages d ≠ []) (dialogs i) → placed i → placed (advance i).
Proof.
  unfold placed, advance. rewrite Forall_forall. intros Hne Hp. destruct (dialogs i !! dialogIndex i) as [d|] eqn:Hd.
  - destruct (length (Messages d) <=? _)%nat eqn:Hl; unfold set_index; cbn [dialogs dialogIndex messageIndex].
    + destruct (dialogs i !! Datatypes.S (dialogIndex i)) as [d'|] eqn:Hd'; [|done]. apply list_elem_of_lookup_2, Hne in Hd'.
      destruct (Messages d'); [done|]. simpl. lia.
    + rewrite Hd. apply Nat.leb_gt in Hl. lia.
  - unfold set_index. cbn [dialogs dialogIndex messageIndex]. by rewrite Hd.
Qed.
(** One step ahead from any state at the same place. *)
Lemma at_pos_advance k p id l i i' :
  at_pos k ((p, id) :: l) i → same_place i i' → logicalPos i' = k + 1 → elems i' = [] → err i' = None → at_pos (k + 1) l (advance i').
Proof.
  intros Hat Hs Hk Hq He. pose proof (current_at _ _ _ Hat) as Hc. destruct Hat as [Hl _ Ho Hf Hne Hp _ _].
  destruct (remaining_current _ _ _ Hc) as (_ & l' & Hl' & Hadv). destruct Hs as (H1 & H2 & H3 & H4 & H5) eqn:Heq.
  assert (l' = l) as -> by congruence.
  assert (dialogs (advance i') = dialogs i' ∧ opts (advance i') = opts i' ∧ finished (advance i') = finished i' ∧
          logicalPos (advance i') = logicalPos i' ∧ elems (advance i') = elems i' ∧ err (advance i') = err i') as (A1 & A2 & A3 & A4 & A5 & A6).
  { unfold advance. destruct (dialogs i' !! _); [destruct (_ <=? _)%nat|]; done. }
  split; try congruence.
  - by apply Hadv.
  - apply placed_advance; [by rewrite H1|]. unfold placed in *. by rewrite H1, H4, H5.
Qed.

Lemma processSingle_cases m from pos (w : wst S) :
  opts (w_it w) = o → SkipSame o = false → elems (w_it w) = [] → err (w_it w) = None →
  let '(r, w') := processSingle mime_ext execute m from pos w in
  same_place (w_it w) (w_it w') ∧ logicalPos (w_it w') = logicalPos (w_it w) ∧
  ((r = (false, true) ∧ wanted m = false ∧ elems (w_it w') = [] ∧ err (w_it w') = None) ∨
   (r = (true, false) ∧ wanted m = true ∧ err (w_it w') = None ∧
      ∃ e, elems (w_it w') = [e] ∧ el_logicalPos e = pos ∧ fromMsg e = m) ∨
   (r = (false, false) ∧ err (w_it w') ≠ None ∧ elems (w_it w') = [])).
Proof.
  intros Ho Hss Hq He. pose proof (processSingle_stays mime_ext execute m from pos w) as Hst.
  destruct (processSingle _ _ m from pos w) as [r w'] eqn:Hp. split; [exact Hst|]. clear Hst. revert Hp.
  unfold processSingle, same_file, wanted, sm_bind, sm_ret, get_it, on_it, on_files. cbv beta iota zeta. rewrite Ho.
  destruct (message_file mime_ext m) as [x|]; [|intros [= <- <-]; split; [done|]; left; done].
  destruct (excluded o (media_Name x)); [intros [= <- <-]; split; [done|]; left; done|].
  destruct (execute from m x) as [name|]; [|intros [= <- <-]; split; [done|]; right; right; done].
  rewrite ?Ho, Hss. destruct (MkdirAll _ (w_fs w)) as [[u|er] f1]; [|intros [= <- <-]; split; [done|]; right; right; done].
  cbn [w_fs]. destruct (Create _ f1) as [[u'|er] f2]; intros [= <- <-]; (split; [done|]); right; [left|right; done].
  split_and!; [done..|]. cbn [w_it push_elem elems]. rewrite Hq. eexists. split; [reflexivity|]. done.
Qed.

Context (Hss : SkipSame o = false) (Hgroup : Group o = false).

Definition tag (e : iterElem) : Z * Message := (el_logicalPos e, fromMsg e).
(** One round at the head of what lies ahead: nothing to do here, or one file queued, or the
    walk ends with an error. *)
Lemma step_spec k l w :
  at_pos k l (w_it w) →
  let '(r, w') := step w in
  match l with
  | [] => r = (false, false) ∧ w' = w
  | _ :: l' =>
      (r = (false, true) ∧ at_pos (k + 1) l' (w_it w') ∧ expected k l = expected (k + 1) l') ∨
      (r = (true, false) ∧ ∃ e, elems (w_it w') = [e] ∧ at_pos (k + 1) l' (set_elems [] (w_it w')) ∧
         expected k l = tag e :: expected (k + 1) l') ∨
      (r = (false, false) ∧ err (w_it w') ≠ None ∧ elems (w_it w') = [])
  end.
Proof.
  intros Hat. unfold process, sm_bind, get_it. rewrite (current_at _ _ _ Hat). destruct l as [|[p id] l]; [done|]. cbn [head].
  unfold process_at, sm_bind, sm_ret, on_srv, on_it. pose proof Hat as [_ Hk Ho Hf _ _ Hq He].
  assert (∀ i', elems (advance i') = elems i' ∧ err (advance i') = err i') as Hadv.
  { intros i'. unfold advance. destruct (dialogs i' !! _); [destruct (_ <=? _)%nat|]; done. }
  destruct (FromInputPeer p (w_srv w)) as [[from|er] s1]; [|right; right; cbn [w_it]; destruct (Hadv (set_err (FromPeerErr er) (w_it w))) as [-> ->]; done].
  cbn [w_srv w_it w_fs expected]. destruct (single p id) as [m|er].
  2: { destruct er as [er| |]; cbn [w_it];
         [right; right; destruct (Hadv (set_err (ResolveErr (FetchRPC er)) (w_it w))) as [-> ->]; done| |
          right; right; destruct (Hadv (set_err (ResolveErr InvalidMessage) (w_it w))) as [-> ->]; done].
       left. split_and!; [done| |done]. eapply at_pos_advance; [exact Hat|done|simpl; lia|done|done]. }
  unfold get_it. cbn [w_it]. rewrite Ho, Hgroup, andb_false_r, Hk, Hf. destruct (decide (k ∈ fin)) as [Hin|Hin].
  { left. rewrite decide_False by tauto. split_and!; [done| |done]. eapply at_pos_advance; [exact Hat|done|simpl; lia|done|done]. }
  pose proof (processSingle_cases m from k (WSt (w_it w) (w_fs w) s1) Ho Hss Hq He) as Hp.
  destruct (processSingle _ _ m from k _) as [r w2]. destruct Hp as (Hs & Hlp & Hcases). cbn [w_it] in Hs, Hlp |- *.
  destruct Hcases as [(-> & Hw & Hq2 & He2)|[(-> & Hw & He2 & e & Hq2 & Hpos & Hmsg)|(-> & He2 & Hq2)]].
  - left. rewrite decide_False by (rewrite Hw; intuition congruence). split_and!; [done| |done].
    eapply at_pos_advance; [exact Hat|exact Hs|simpl; lia|exact Hq2|exact He2].
  - right; left. rewrite decide_True by done. split; [done|]. exists e. destruct (Hadv (add_logical 1 (w_it w2))) as [Ha _]. rewrite Ha.
    split_and!; [exact Hq2| |by unfold tag; rewrite Hpos, Hmsg].
    replace (set_elems [] (advance (add_logical 1 (w_it w2)))) with (advance (set_elems [] (add_logical 1 (w_it w2))))
      by (unfold advance; cbn; destruct (dialogs (w_it w2) !! _); [destruct (_ <=? _)%nat|]; done).
    eapply at_pos_advance; [exact Hat|exact Hs|simpl; lia|done|exact He2].
  - right; right. destruct (Hadv (add_logical 1 (w_it w2))) as [-> ->]. done.
Qed.

Lemma loop_spec fuel k l w :
  at_pos k l (w_it w) → (length l < fuel)%nat →
  ∃ ok w', loop fuel w = (Some ok, w') ∧
    if ok : bool then
      ∃ e k' l', elems (w_it w') = [e] ∧ at_pos k' l' (set_elems [] (w_it w')) ∧ (length l' < length l)%nat ∧
        expected k l = tag e :: expected k' l'
    else elems (w_it w') = [] ∧ (err (w_it w') = None → expected k l = []).
Proof.
  revert k l w. induction fuel as [|fuel IH]; intros k l w Hat Hf; [lia|]. cbn [next_loop]. unfold sm_bind.
  pose proof (step_spec k l w Hat) as Hs. destruct (step w) as [r w1]. destruct l as [|x l].
  { destruct Hs as [-> ->]. exists false, w. split; [done|]. split; [by destruct Hat|done]. }
  destruct Hs as [(-> & Hat1 & Hex)|[(-> & e & Hq & Hat1 & Hex)|(-> & He & Hq)]].
  - destruct (IH (k + 1) l w1 Hat1) as (ok & w' & Hl & Hok); [simpl in Hf; lia|]. exists ok, w'. split; [done|].
    destruct ok; [|by rewrite Hex].
    destruct Hok as (e & k' & l' & H1 & H2 & H3 & H4). exists e, k', l'. rewrite Hex. split_and!; [done..|simpl; lia|done].
  - exists true, w1. split; [done|]. exists e, (k + 1), l. split_and!; [done..|simpl; lia|done].
  - exists false, w1. split; [done|]. split; [done|]. intros Hn. by destruct He.
Qed.

Lemma drain_spec n fuel k l w :
  at_pos k l (w_it w) → (length l < n)%nat → (length l < fuel)%nat →
  let '(es, w') := drain mime_ext FromInputPeer ask get_grouped execute n fuel w in
  (∃ rest, expected k l = (tag <$> es) ++ rest) ∧ (err (w_it w') = None → expected k l = tag <$> es).
Proof.
  revert k l w. induction n as [|n IH]; intros k l w Hat Hn Hf; [lia|]. cbn [drain]. unfold sm_bind, iter_Next, sm_bind, get_it.
  destruct (loop_spec fuel k l w Hat Hf) as (ok & w1 & Hl & Hok). pose proof Hat as [_ _ _ _ _ _ Hq _]. rewrite Hq, Hl.
  destruct ok.
  - destruct Hok as (e & k' & l' & He & Hat' & Hlen & Hex). unfold Value. rewrite He. cbn [opt_list].
    specialize (IH k' l' (WSt (set_elems [] (w_it w1)) (w_fs w1) (w_srv w1)) Hat').
    destruct (drain _ _ _ _ _ n fuel _) as [es w2]. destruct IH as [(rest & Hrest) Hall]; [lia|lia|]. rewrite Hex. split.
    + exists rest. by rewrite Hrest.
    + intros Hn'. by rewrite (Hall Hn').
  - destruct Hok as [_ Hok]. split; [by exists (expected k l)|]. intros He. by rewrite (Hok He).
Qed.
End Exact.

(** Every message of a request, with its chat. *)
Definition requested (ds : list Dialog) : list (InputPeerClass * Z) := concat ((λ d, pair (Peer d) <$> Messages d) <$> ds).

Lemma concat_Permutation {A} (l1 l2 : list (list A)) : l1 ≡ₚ l2 → concat l1 ≡ₚ concat l2.
Proof.
  induction 1 as [|x l1 l2 _ IH|x y l|l1 l2 l3 _ IH1 _ IH2]; simpl; [done|by rewrite IH| |by etrans].
  rewrite !app_assoc. by rewrite (Permutation_app_comm y x).
Qed.
Lemma sortDialogs_requested desc ds : requested (sortDialogs desc ds) ≡ₚ requested ds.
Proof.
  unfold requested, sortDialogs. rewrite <- list_fmap_compose.
  transitivity (concat ((λ d, pair (Peer d) <$> Messages d) <$> merge_sort peer_le ds)).
  - induction (merge_sort peer_le ds) as [|d l IH]; [done|]. rewrite !fmap_cons. simpl. rewrite IH. by rewrite merge_sort_Permutation.
  - apply concat_Permutation. by rewrite merge_sort_Permutation.
Qed.
Lemma remaining_new o ds i : newIter o ds = Some i → remaining i = requested (sortDialogs (Desc o) (flatDialogs ds)).
Proof.
  unfold newIter. case_decide; [done|]. intros [= <-]. unfold remaining, requested. cbn [dialogIndex dialogs messageIndex].
  rewrite drop_0. by destruct (sortDialogs _ _).
Qed.
Lemma expected_sorted mime_ext single o fin k l :
  StronglySorted Z.lt (expected mime_ext single o fin k l).*1 ∧ ∀ x, x ∈ (expected mime_ext single o fin k l).*1 → k <= x.
Proof.
  revert k. induction l as [|[p id] l IH]; intros k; [split; [constructor|by intros x ?%elem_of_nil]|]. cbn [expected].
  destruct (IH (k + 1)) as [H1 H2]. assert (∀ x, x ∈ (expected mime_ext single o fin (k + 1) l).*1 → k <= x) as H3 by (intros x ?%H2; lia).
  destruct (single p id) as [m|e]; [|done]. case_decide; [|done]. rewrite fmap_cons. split.
  - constructor; [done|]. apply Forall_forall. intros x ?%H2. simpl. lia.
  - intros x [->|?]%elem_of_cons; [simpl; lia|auto].
Qed.


Definition ex_opts : Options := Options_ "/dl" false false [] [] false false.
Definition ex_file_msg (id : Z) : Message :=
  Message_ id None None "" 9 (Some (MessageMediaDocument (Some (Document_ id 0 "" 9 "video/mp4" 10 None 2 [])))) None None.


(** A dialog without messages, as an export without media gives, ends the walk: the dialogs
    sorted after it are never visited, and no error is reported. *)
Example empty_dialog_ends_the_walk :
  let ds := [[Dialog_ (InputPeerChat 1) []; Dialog_ (InputPeerChat 2) [8]]] in
  match newIter ex_opts ds with
  | Some i =>
      let '(es, w') := drain (S := unit) (λ _, None) (λ _, sm_ret (Ok 1)) (λ _ id s, (Ok (ex_file_msg id), s)) (λ _ _, sm_ret None)
          (λ _ m _, Some (itoa (msg_ID m))) 5 5 (WSt i (Fs {["/dl" := DirNode; "/" := DirNode]} []) tt) in
      es = [] ∧ err (w_it w') = None
  | None => False
  end.
Proof. vm_compute. done. Qed.

(** Links to a channel and to a user with the same number end up in one dialog. *)
Example links_of_one_number_are_merged :
  FromURL (E := unit) (λ u, if decide (u = "c") then Ok (InputPeerChannel 5 0, 1) else Ok (InputPeerUser 5 0, 2)) ["c"; "u"] =
  Ok [Dialog_ (InputPeerChannel 5 0) [1; 2]].
Proof. vm_compute. reflexivity. Qed.

(** ** The fingerprint *)

#[export] Instance message_le_total desc : base.Total (message_le desc).
Proof. intros a b. unfold message_le. destruct desc; lia. Qed.
#[export] Instance message_le_trans desc : Transitive (message_le desc).
Proof. intros a b c. unfold message_le. destruct desc; lia. Qed.
#[export] Instance peer_le_total : base.Total peer_le.
Proof. intros a b. unfold peer_le. lia. Qed.
#[export] Instance peer_le_trans : Transitive peer_le.
Proof. intros a b c. unfold peer_le. lia. Qed.

Definition sorted_messages (desc : bool) (d : Dialog) : Dialog := Dialog_ (Peer d) (merge_sort (message_le desc) (Messages d)).
(** The same chat with the same messages. *)
Definition same_dialog (a b : Dialog) : Prop := Peer a = Peer b ∧ Messages a ≡ₚ Messages b.

Lemma sorted_messages_same desc a b : same_dialog a b → sorted_messages desc a = sorted_messages desc b.
Proof.
  intros [Hp Hm]. unfold sorted_messages. rewrite Hp. f_equal. eapply (StronglySorted_unique_strong (message_le desc)).
  - intros x y _ _. unfold message_le. destruct desc; lia.
  - apply (StronglySorted_merge_sort (message_le desc)).
  - apply (StronglySorted_merge_sort (message_le desc)).
  - by rewrite !merge_sort_Permutation.
Qed.
Lemma sortDialogs_same desc ds1 ds1' ds2 :
  NoDup (GetInputPeerID ∘ Peer <$> ds1) → ds1 ≡ₚ ds1' → Forall2 same_dialog ds1' ds2 → sortDialogs desc ds1 = sortDialogs desc ds2.
Proof.
  intros Hnd Hp H2. unfold sortDialogs. fold (sorted_messages desc).
  assert (∀ ds, StronglySorted peer_le (sorted_messages desc <$> merge_sort peer_le ds)) as Hsort.
  { intros ds. pose proof (StronglySorted_merge_sort peer_le ds) as Hs. induction Hs as [|d l Hl IH Hd]; [constructor|].
    rewrite fmap_cons. constructor; [done|]. by apply Forall_fmap. }
  assert (sorted_messages desc <$> ds1' = sorted_messages desc <$> ds2) as He.
  { clear -H2. induction H2 as [|a b l1 l2 Hab _ IH]; [done|]. rewrite !fmap_cons. rewrite (sorted_messages_same desc a b Hab). by f_equal. }
  eapply (StronglySorted_unique_strong peer_le); [|apply Hsort..|].
  - intros x y Hx Hy H3 H4. assert (GetInputPeerID (Peer x) = GetInputPeerID (Peer y)) as Hxy by (unfold peer_le in *; lia).
    assert (sorted_messages desc <$> merge_sort peer_le ds2 ≡ₚ sorted_messages desc <$> ds1) as Hperm
      by (by rewrite merge_sort_Permutation, <- He, Hp).
    rewrite Hperm in Hy. rewrite merge_sort_Permutation in Hx.
    apply list_elem_of_fmap in Hx as (a & -> & Ha), Hy as (b & -> & Hb). f_equal.
    apply list_elem_of_lookup in Ha as [ia Ha], Hb as [ib Hb].
    assert (ia = ib) as -> by (eapply (NoDup_lookup _ ia ib (GetInputPeerID (Peer a)) Hnd); rewrite list_lookup_fmap;
      [by rewrite Ha|rewrite Hb; simpl in *; by rewrite Hxy]).
    congruence.
  - by rewrite !merge_sort_Permutation, Hp, He.
Qed.

(** The progress of a download survives an interruption: positions that were saved are
    the ones a later run resumes with, when it asks for the same messages of the same chats,
    each chat once, in whatever order, and when the accesses to the store do not fail. The
    later run walks over the messages in the same order, so that the positions mean the same
    messages. *)
Theorem saved_progress_is_resumed (sha256Hex : string → string) (o : Options) (ds1 ds2 : list (list Dialog)) (mid : list Dialog)
    (i1 i2 : iter) (fin : gset Z) (store : gmap string (gset Z)) :
  NoDup (GetInputPeerID ∘ Peer <$> flatDialogs ds1) → flatDialogs ds1 ≡ₚ mid → Forall2 same_dialog mid (flatDialogs ds2) →
  newIter o ds1 = Some i1 → newIter o ds2 = Some i2 → fin ≠ ∅ →
  ∃ s, saveProgress sha256Hex (set_finished fin i1) (Kv store []) = (Ok tt, s) ∧
    resume sha256Hex false None i2 s = (Ok (set_finished fin i2), s) ∧ dialogs i2 = dialogs i1.
Proof.
  intros Hnd Hp H2 H1 Hi2 Hfin. pose proof (sortDialogs_same (Desc o) _ _ _ Hnd Hp H2) as Hs.
  assert (dialogs i2 = dialogs i1) as Hd.
  { unfold newIter in H1, Hi2. case_decide; [done|]. case_decide; [done|]. injection H1 as <-. injection Hi2 as <-. simpl. congruence. }
  eexists. split; [reflexivity|]. unfold resume, kv_op, st_bind, st_ret. cbn [kvfaults hd tl kv dialogs set_finished finished].
  rewrite Hd, lookup_insert_eq. split; [|done]. by rewrite decide_False.
Qed.
Lemma saved_progress_is_resumed_witness :
  let a := Dialog_ (InputPeerChat 2) [8] in let b := Dialog_ (InputPeerChat 1) [5; 4] in let b' := Dialog_ (InputPeerChat 1) [4; 5] in
  ∃ i1 i2 s, newIter ex_opts [[a]; [b]] = Some i1 ∧ newIter ex_opts [[b'; a]] = Some i2 ∧
    saveProgress (λ x, x) (set_finished {[1]} i1) (Kv ∅ []) = (Ok tt, s) ∧ resume (λ x, x) false None i2 s = (Ok (set_finished {[1]} i2), s).
Proof.
  intros a b b'. set (mk := λ ds, Iter (sortDialogs false (flatDialogs ds)) ex_opts ∅ 0 0 0 (-1) [] [] None).
  exists (mk [[a]; [b]]), (mk [[b'; a]]).
  destruct (saved_progress_is_resumed (λ x, x) ex_opts [[a]; [b]] [[b'; a]] [b; a] (mk [[a]; [b]]) (mk [[b'; a]]) {[1]} ∅) as (s & H1 & H2 & _).
  - apply (bool_decide_unpack _). vm_compute. exact I.
  - apply perm_swap.
  - constructor; [split; [reflexivity|apply perm_swap]|constructor; [split; reflexivity|constructor]].
  - reflexivity.
  - reflexivity.
  - discriminate.
  - exists s. split_and!; [reflexivity|reflexivity|exact H1|exact H2].
Defined.

(** ** The end of a download *)

(** A finished download is marked before it is renamed: when the rename fails, the position
    counts as finished, a later run skips it, and only the temporary file is there. *)
Example finished_without_its_file :
  let x := Elem 0 3 1 (ex_file_msg 4) (Media_ (InputDocumentFileLocation 4 0 "" "") "a.mp4" 10 2 0) "/dl/a.mp4.tmp" in
  let i := Iter [] ex_opts ∅ 0 0 0 (-1) [] [] None in
  let d : disk := {["/dl/a.mp4.tmp" := FileNode "0123456789"]} in
  let '(i', f') := OnDone (λ _ _, None) x false i (Fs d [None; Some EIO]) in
  finished i' = {[3]} ∧ Fscommit.files f' !! "/dl/a.mp4" = None.
Proof. vm_compute. done. Qed.
