(* ===== verification/AuthWizard.v ===== *)
(** * The login wizard (app/daemon/auth_wizard.go)

    The state machine of the login pages: a QR code or a phone code, then perhaps a password,
    over the table of accounts. What the Telegram client answers is an argument of each
    operation; the wizard has a database, and contexts and pictures are left out. The
    theorems: a login only follows the server's consent and the steps before it; the account
    that is saved is the one that logged in; at most one account is active. *)
From S2P Require Import Prelude Sql Targets TargetsProps.

(** ** State *)

(** [tg.User]. *)
Record user := User { us_ID : Z; us_FirstName : string; us_LastName : string; us_Username : string; us_Phone : string; us_Premium : bool }.

Record AuthWizard := Wizard {
  has_client : bool;                   (* client != nil *)
  currentNamespace : string;
  currentFlow : string;                (* idle, qr or phone *)
  qrToken : option (string * Z);       (* URL and time of expiry *)
  phone_ : string;
  phoneCodeHash : string;
  need2FA : bool;
  lastError : string;
  isLoggedIn : bool;
  currentUser : option user;
}.
Definition set_logged (b : bool) (u : option user) (flow : string) (n2 : bool) (w : AuthWizard) : AuthWizard :=
  Wizard (has_client w) (currentNamespace w) flow (qrToken w) (phone_ w) (phoneCodeHash w) n2 (lastError w) b u.
Definition set_namespace (ns : string) (w : AuthWizard) : AuthWizard :=
  Wizard (has_client w) ns (currentFlow w) (qrToken w) (phone_ w) (phoneCodeHash w) (need2FA w) (lastError w) (isLoggedIn w) (currentUser w).
Definition set_error_text (e : string) (w : AuthWizard) : AuthWizard :=
  Wizard (has_client w) (currentNamespace w) (currentFlow w) (qrToken w) (phone_ w) (phoneCodeHash w) (need2FA w) e (isLoggedIn w) (currentUser w).
Definition set_need2FA (w : AuthWizard) : AuthWizard :=
  Wizard (has_client w) (currentNamespace w) (currentFlow w) (qrToken w) (phone_ w) (phoneCodeHash w) true (lastError w) (isLoggedIn w) (currentUser w).

(** The wizard and the database. *)
Record ast := ASt { wiz : AuthWizard; sql : sqlst }.
Definition A_ (T : Type) : Type := SM ast T.
Definition on_wiz (f : AuthWizard → AuthWizard) : A_ unit := λ s, (tt, ASt (f (wiz s)) (sql s)).
Definition get_wiz : A_ AuthWizard := λ s, (wiz s, s).
Definition a_db {T} (m : DB T) : A_ (res dberr T) := λ s, let (r, q) := m (sql s) in (r, ASt (wiz s) q).

Definition account_of_user (ns : string) (u : user) : TelegramAccount :=
  Account ns (us_ID u) (us_FirstName u) (us_LastName u) (us_Username u) (us_Phone u) (us_Premium u) true 0 0.
(** [_ = w.db.SaveAccount(...)], when the user is known. *)
Definition save_self (self : option user) (now : Z) : A_ unit :=
  match self with
  | None => done! tt
  | Some u => do! w := get_wiz in
              do! _ := a_db (SaveAccount (account_of_user (currentNamespace w) u) now) in done! tt
  end.

Inductive reply := Idle | Expired | Need2FA | Waiting | Success (u : option user) (ns : string) | CodeSent (ns phone hash : string)
  | QRCode (ns url : string) | Done.

(** A sign-in by code or token: accepted, a password is needed, or an error. *)
Inductive sign_in := Accepted | PasswordNeeded | SignInError (text : string).

Section Ops.
(** The clock. *)
Context (now : Z).

(** [authorized] and [self] are the answers of [Auth().Status] and [Self]; [None] for a
    failed call. *)
Definition CheckStatus (authorized : option bool) (self : option user) : A_ unit :=
  do! w := get_wiz in
  if has_client w then
    match authorized with
    | Some true =>
        do! _ := on_wiz (λ w, set_logged true (currentUser w) (currentFlow w) (need2FA w) w) in
        match self with
        | Some u =>
            do! _ := on_wiz (λ w, set_logged true (Some u) (currentFlow w) (need2FA w) w) in
            save_self (Some u) now
        | None => done! tt
        end
    | _ => on_wiz (λ w, set_logged false (currentUser w) (currentFlow w) (need2FA w) w)
    end
  else on_wiz (λ w, set_logged false (currentUser w) (currentFlow w) (need2FA w) w).

(** The answer's fields are those of the wizard and the accounts. *)
Definition AuthStatus (authorized : option bool) (self : option user) : A_ (AuthWizard * list TelegramAccount) :=
  do! _ := CheckStatus authorized self in
  do! r := a_db GetAccounts in
  do! w := get_wiz in
  done! (w, match r with Ok l => l | Err _ => [] end).
Definition SetTargetNamespace (ns : string) : A_ unit :=
  if decide (ns = "") then done! tt else on_wiz (set_namespace ns).
Definition SwitchAccount (ns : string) : A_ (res dberr unit) :=
  do! r := a_db (SetActiveAccount ns now) in
  match r with
  | Err e => done! (Err e)
  | Ok _ => do! _ := on_wiz (set_namespace ns) in done! (Ok tt)
  end.
Definition WizardDeleteAccount (ns : string) : A_ (res dberr unit) := a_db (DeleteAccount ns).

(** [token] is the exported token, or the text of the error; [encoded] whether the picture
    could be made. *)
Definition StartQR (ns : string) (token : res string (string * Z)) (encoded : bool) : A_ (res string reply) :=
  do! w := get_wiz in
  if negb (has_client w) then done! (Err "telegram client not initialized")
  else
    do! _ := SetTargetNamespace ns in
    match token with
    | Err e => do! _ := on_wiz (set_error_text e) in done! (Err ("failed to export qr login token: " +:+ e))
    | Ok t =>
        do! _ := on_wiz (λ w, Wizard (has_client w) (currentNamespace w) "qr" (Some t) (phone_ w) (phoneCodeHash w) false ""
                                (isLoggedIn w) (currentUser w)) in
        do! w := get_wiz in
        done! (if encoded : bool then Ok (QRCode (currentNamespace w) t.1) else Err "failed to generate qr png")
    end.
(** The end of every flow that succeeds. *)
Definition finish_login (self : option user) : A_ (res string reply) :=
  do! _ := on_wiz (set_logged true self "idle" false) in
  do! _ := save_self self now in
  do! w := get_wiz in
  done! (Ok (Success self (currentNamespace w))).
Definition PollQR (answer : option sign_in) (self : option user) : A_ (res string reply) :=
  do! w := get_wiz in
  match (if decide (currentFlow w = "qr") then qrToken w else None) with
  | None => done! (Ok Idle)
  | Some (url, expires) =>
      if decide (url = "") then done! (Ok Idle)
      else if expires <? now then done! (Ok Expired)
      else match answer with
           | Some PasswordNeeded => do! _ := on_wiz set_need2FA in done! (Ok Need2FA)
           | Some (SignInError _) => done! (Ok Waiting)
           | Some Accepted => finish_login self
           | None => done! (Ok Waiting)
           end
  end.

(** [sent]: the code was sent, with its hash; or the login succeeded at once ([None]); or an
    error. *)
Definition SendPhoneCode (phone ns : string) (sent : res string (option string)) (self : option user) : A_ (res string reply) :=
  do! w := get_wiz in
  if negb (has_client w) then done! (Err "telegram client not initialized")
  else
    do! _ := SetTargetNamespace ns in
    match sent with
    | Err e => do! _ := on_wiz (set_error_text e) in done! (Err e)
    | Ok None =>
        do! _ := on_wiz (λ w, set_logged true self "idle" (need2FA w) w) in
        do! _ := save_self self now in
        do! w := get_wiz in
        done! (Ok (Success self (currentNamespace w)))
    | Ok (Some hash) =>
        do! _ := on_wiz (λ w, Wizard (has_client w) (currentNamespace w) "phone" (qrToken w) phone hash false "" (isLoggedIn w)
                                (currentUser w)) in
        do! w := get_wiz in
        done! (Ok (CodeSent (currentNamespace w) phone hash))
    end.
Definition VerifyPhoneCode (answer : sign_in) (self : option user) : A_ (res string reply) :=
  do! w := get_wiz in
  if decide (phone_ w = "" ∨ phoneCodeHash w = "") then done! (Err "no pending phone verification")
  else match answer with
       | PasswordNeeded => do! _ := on_wiz set_need2FA in done! (Ok Need2FA)
       | SignInError e => do! _ := on_wiz (set_error_text e) in done! (Err e)
       | Accepted => finish_login self
       end.
Definition Verify2FA (accepted : res string unit) (self : option user) : A_ (res string reply) :=
  do! w := get_wiz in
  if negb (need2FA w) then done! (Err "2FA verification is not pending")
  else match accepted with
       | Err e => do! _ := on_wiz (set_error_text e) in done! (Err e)
       | Ok _ => finish_login self
       end.
Definition Logout : A_ unit :=
  do! w := get_wiz in
  do! _ := a_db (DeleteAccount (currentNamespace w)) in
  on_wiz (set_logged false None "idle" false).
End Ops.

Definition NewAuthWizard (has_client : bool) (ns : string) : AuthWizard :=
  Wizard has_client (if decide (ns = "") then "default" else ns) "" None "" "" false "" false None.

(** ** Runs of the wizard *)

Inductive wiz_op :=
| OpCheck (authorized : option bool) (self : option user)
| OpNamespace (ns : string)
| OpSwitch (ns : string)
| OpRemove (ns : string)
| OpStartQR (ns : string) (token : res string (string * Z)) (encoded : bool)
| OpPollQR (answer : option sign_in) (self : option user)
| OpSendCode (phone ns : string) (sent : res string (option string)) (self : option user)
| OpVerifyCode (answer : sign_in) (self : option user)
| OpVerify2FA (accepted : res string unit) (self : option user)
| OpLogout.
Definition forget {T} (m : A_ T) : A_ unit := do! _ := m in done! tt.
Definition wiz_step (now : Z) (op : wiz_op) : A_ unit :=
  match op with
  | OpCheck a u => CheckStatus now a u
  | OpNamespace ns => SetTargetNamespace ns
  | OpSwitch ns => forget (SwitchAccount now ns)
  | OpRemove ns => forget (WizardDeleteAccount ns)
  | OpStartQR ns t e => forget (StartQR ns t e)
  | OpPollQR a u => forget (PollQR now a u)
  | OpSendCode p ns r u => forget (SendPhoneCode now p ns r u)
  | OpVerifyCode a u => forget (VerifyPhoneCode now a u)
  | OpVerify2FA a u => forget (Verify2FA now a u)
  | OpLogout => Logout
  end.
(** The server agreed to a login. *)
Definition consent (op : wiz_op) : option (option user) :=
  match op with
  | OpCheck (Some true) u | OpPollQR (Some Accepted) u | OpSendCode _ _ (Ok None) u | OpVerifyCode Accepted u | OpVerify2FA (Ok _) u => Some u
  | _ => None
  end.
(** The step the operation rests on has been taken. *)
Definition prepared (now : Z) (op : wiz_op) (w : AuthWizard) : Prop :=
  match op with
  | OpPollQR _ _ => currentFlow w = "qr" ∧ ∃ url e, qrToken w = Some (url, e) ∧ now <= e
  | OpVerifyCode _ _ => phone_ w ≠ "" ∧ phoneCodeHash w ≠ ""
  | OpVerify2FA _ _ => need2FA w = true
  | _ => has_client w = true
  end.

(** States reached from the start by operations in turn, with no failing statement. *)
Inductive reached (has_client : bool) (ns : string) (d : db) : ast → Prop :=
| reached_start : reached has_client ns d (ASt (NewAuthWizard has_client ns) (Sql d []))
| reached_step now op s : reached has_client ns d s → reached has_client ns d (wiz_step now op s).2.

(** Without a client no flow has begun and nobody is logged in. *)
Record wiz_ok (w : AuthWizard) : Prop := {
  wf_client : has_client w = false →
    currentFlow w ≠ "qr" ∧ currentFlow w ≠ "phone" ∧ phoneCodeHash w = "" ∧ need2FA w = false ∧ isLoggedIn w = false;
  wf_qr : currentFlow w = "qr" → is_Some (qrToken w);
}.
(** No statement is to fail, and at most one account is active. *)
Definition db_ok (q : sqlst) : Prop := faults q = [] ∧ one_active (tabs q).
Definition wiz_wf (s : ast) : Prop := wiz_ok (wiz s) ∧ db_ok (sql s).

(** A call on the accounts keeps what the database must satisfy. *)
Lemma a_db_account now o s :
  db_ok (sql s) →
  let s' := (a_db (exec_account now o) s).2 in
  wiz s' = wiz s ∧ db_ok (sql s') ∧ tabs (sql s') = (run (exec_account now o) (tabs (sql s))).2.
Proof.
  destruct s as [w [d fl]]. unfold db_ok. simpl. intros [-> Ha]. pose proof (one_active_exec now o d Ha) as H1. unfold run, a_db in *.
  cbn [sql wiz]. destruct (exec_account now o (Sql d [])) as [r q] eqn:He. simpl in *. split_and!; try done.
  destruct o as [a|n|n]; simpl in He.
  - unfold SaveAccount in He. destruct (IsActive a); vm_compute in He; injection He as _ <-; reflexivity.
  - vm_compute in He. injection He as _ <-. reflexivity.
  - vm_compute in He. injection He as _ <-. reflexivity.
Qed.

Lemma save_self_spec self now s :
  db_ok (sql s) →
  let s' := (save_self self now s).2 in
  wiz s' = wiz s ∧ db_ok (sql s') ∧
  match self with
  | Some u => tabs (sql s') = (run (SaveAccount (account_of_user (currentNamespace (wiz s)) u) now) (tabs (sql s))).2
  | None => s' = s
  end.
Proof.
  intros Hd. destruct self as [u|]; [|done]. unfold save_self, sm_bind, get_wiz.
  pose proof (a_db_account now (OpSave (account_of_user (currentNamespace (wiz s)) u)) s Hd) as Ha. simpl in Ha.
  destruct (a_db _ s) as [r s1]. exact Ha.
Qed.
Lemma finish_login_spec now self s :
  db_ok (sql s) →
  let s' := (finish_login now self s).2 in
  wiz s' = set_logged true self "idle" false (wiz s) ∧ db_ok (sql s') ∧
  match self with
  | Some u => tabs (sql s') = (run (SaveAccount (account_of_user (currentNamespace (wiz s)) u) now) (tabs (sql s))).2
  | None => sql s' = sql s
  end.
Proof.
  intros Hd. unfold finish_login, sm_bind, on_wiz, get_wiz.
  pose proof (save_self_spec self now (ASt (set_logged true self "idle" false (wiz s)) (sql s)) Hd) as Hs.
  destruct (save_self self now _) as [u s1]. destruct Hs as (H1 & H2 & H3). split_and!; [exact H1|exact H2|].
  destruct self; [exact H3|]. simpl in H3. simpl. by rewrite H3.
Qed.
Lemma wiz_ok_login w self flow n2 : wiz_ok w → flow ≠ "qr" → flow ≠ "phone" → has_client w = true → wiz_ok (set_logged true self flow n2 w).
Proof. intros [H1 H2] Hq Hp Hc. split; simpl; [by rewrite Hc|done]. Qed.
Lemma wiz_ok_same w w' :
  wiz_ok w → has_client w' = has_client w → currentFlow w' = currentFlow w → qrToken w' = qrToken w →
  phoneCodeHash w' = phoneCodeHash w → need2FA w' = need2FA w → isLoggedIn w' = isLoggedIn w → wiz_ok w'.
Proof. intros [H1 H2] E1 E2 E3 E4 E5 E6. split; rewrite ?E1, ?E2, ?E3, ?E4, ?E5, ?E6; done. Qed.

(** An operation that rests on an earlier step finds the client there. *)
Lemma client_there w : wiz_ok w → currentFlow w = "qr" ∨ phoneCodeHash w ≠ "" ∨ need2FA w = true → has_client w = true.
Proof.
  intros [H1 _] Hc. destruct (has_client w); [done|]. destruct (H1 eq_refl) as (? & ? & ? & ? & ?). destruct Hc as [?|[?|?]]; congruence.
Qed.

Lemma namespace_wf ns s : wiz_wf s → wiz_wf (SetTargetNamespace ns s).2.
Proof.
  intros [Hw Hd]. unfold SetTargetNamespace. case_decide; [done|]. split; [|done]. by eapply wiz_ok_same; [exact Hw|..].
Qed.
Lemma namespace_keeps ns s : has_client (wiz (SetTargetNamespace ns s).2) = has_client (wiz s).
Proof. unfold SetTargetNamespace. by case_decide. Qed.

Lemma check_wf now a self s : wiz_wf s → wiz_wf (CheckStatus now a self s).2.
Proof.
  intros [Hw Hd]. unfold CheckStatus, sm_bind, get_wiz, on_wiz.
  assert (wiz_wf (ASt (set_logged false (currentUser (wiz s)) (currentFlow (wiz s)) (need2FA (wiz s)) (wiz s)) (sql s))) as Hout.
  { split; [|done]. destruct Hw as [H1 H2]. split; simpl; [|done]. intros Hc. destruct (H1 Hc) as (? & ? & ? & ? & ?). done. }
  destruct (has_client (wiz s)) eqn:Hc; [|done]. destruct a as [[]|]; [|done|done].
  assert (∀ u, wiz_ok (set_logged true u (currentFlow (wiz s)) (need2FA (wiz s)) (wiz s))) as Hin.
  { intros u. destruct Hw as [H1 H2]. split; simpl; [by rewrite Hc|done]. }
  destruct self as [u|]; [|split; [apply Hin|done]]. cbn [wiz sql].
  match goal with |- context [save_self ?x now ?y] => pose proof (save_self_spec x now y Hd) as Hs; destruct (save_self x now y) as [v s1] end.
  destruct Hs as (H1 & H2 & _). simpl in H1, H2. split; [|done]. simpl. rewrite H1. apply (Hin (Some u)).
Qed.

Lemma step_wf now op s : wiz_wf s → wiz_wf (wiz_step now op s).2.
Proof.
  intros Hwf. pose proof Hwf as [Hw Hd]. destruct op as [a u|ns|ns|ns|ns t e|a u|p ns r u|a u|a u|]; cbn [wiz_step]; unfold forget, sm_bind, sm_ret.
  - by apply check_wf.
  - by apply namespace_wf.
  - unfold SwitchAccount, sm_bind, sm_ret, on_wiz. pose proof (a_db_account now (OpActivate ns) s Hd) as Ha. simpl in Ha.
    destruct (a_db _ s) as [[r|er] s1]; destruct Ha as (H1 & H2 & _); simpl in H1, H2 |- *; (split; [|done]); simpl; rewrite H1; [|done].
    by eapply wiz_ok_same; [exact Hw|..].
  - unfold WizardDeleteAccount. pose proof (a_db_account now (OpDelete ns) s Hd) as Ha. simpl in Ha.
    destruct (a_db _ s) as [r s1]; destruct Ha as (H1 & H2 & _); simpl in H1, H2 |- *. split; [|done]. by rewrite H1.
  - unfold StartQR, sm_bind, sm_ret, on_wiz, get_wiz. destruct (has_client (wiz s)) eqn:Hc; [|done]. simpl.
    pose proof (namespace_wf ns s Hwf) as Hn. pose proof (namespace_keeps ns s) as Hk. destruct (SetTargetNamespace ns s) as [v s1].
    simpl in Hn, Hk. destruct Hn as [Hw1 Hd1]. destruct t as [t|er]; [destruct e|]; simpl; (split; [|done]); simpl.
    1,2: split; simpl; [rewrite Hk, Hc; done|done].
    by eapply wiz_ok_same; [exact Hw1|..].
  - unfold PollQR, sm_bind, sm_ret, on_wiz, get_wiz. case_decide as Hf; [|done]. destruct (qrToken (wiz s)) as [[url ex]|]; [|done].
    case_decide; [done|]. destruct (ex <? now); [done|]. pose proof (client_there _ Hw ltac:(by left)) as Hc. destruct a as [[]|]; [| |done|done].
    + pose proof (finish_login_spec now u s Hd) as Hs. destruct (finish_login now u s) as [v s1]. destruct Hs as (H1 & H2 & _).
      simpl in H1, H2 |- *. split; [rewrite H1; by apply wiz_ok_login|done].
    + split; [|done]. destruct Hw as [H1 H2]. split; simpl; [by rewrite Hc|done].
  - unfold SendPhoneCode, sm_bind, sm_ret, on_wiz, get_wiz. destruct (has_client (wiz s)) eqn:Hc; [|done]. simpl.
    pose proof (namespace_wf ns s Hwf) as Hn. pose proof (namespace_keeps ns s) as Hk. destruct (SetTargetNamespace ns s) as [v s1].
    simpl in Hn, Hk. destruct Hn as [Hw1 Hd1]. rewrite Hc in Hk. destruct r as [[hash|]|er].
    + split; [|done]. split; simpl; [by rewrite Hk|done].
    + match goal with |- context [save_self ?x now ?y] => pose proof (save_self_spec x now y Hd1) as Hs; destruct (save_self x now y) as [v' s2] end.
      destruct Hs as (H1 & H2 & _). simpl in H1, H2 |- *. split; [|done]. simpl. rewrite H1. by apply wiz_ok_login.
    + split; [|done]. by eapply wiz_ok_same; [exact Hw1|..].
  - unfold VerifyPhoneCode, sm_bind, sm_ret, on_wiz, get_wiz. case_decide as Hp; [done|]. pose proof (client_there _ Hw ltac:(tauto)) as Hc.
    destruct a.
    + pose proof (finish_login_spec now u s Hd) as Hs. destruct (finish_login now u s) as [v s1]. destruct Hs as (H1 & H2 & _).
      simpl in H1, H2 |- *. split; [rewrite H1; by apply wiz_ok_login|done].
    + split; [|done]. destruct Hw as [H1 H2]. split; simpl; [by rewrite Hc|done].
    + split; [|done]. by eapply wiz_ok_same; [exact Hw|..].
  - unfold Verify2FA, sm_bind, sm_ret, on_wiz, get_wiz. destruct (need2FA (wiz s)) eqn:Hn; [|done]. pose proof (client_there _ Hw ltac:(tauto)) as Hc.
    simpl. destruct a as [v|er].
    + pose proof (finish_login_spec now u s Hd) as Hs. destruct (finish_login now u s) as [v' s1]. destruct Hs as (H1 & H2 & _).
      simpl in H1, H2 |- *. split; [rewrite H1; by apply wiz_ok_login|done].
    + split; [|done]. by eapply wiz_ok_same; [exact Hw|..].
  - unfold Logout, sm_bind, on_wiz, get_wiz. pose proof (a_db_account now (OpDelete (currentNamespace (wiz s))) s Hd) as Ha. simpl in Ha.
    destruct (a_db _ s) as [r s1]; destruct Ha as (H1 & H2 & _); simpl in H1, H2 |- *. split; [|done]. simpl. rewrite H1.
    split; simpl; [|done]. intros Hc. destruct Hw as [Hw1 _]. by destruct (Hw1 Hc) as (? & ? & ? & _).
Qed.

Lemma reached_wf hc ns d s : one_active d → reached hc ns d s → wiz_wf s.
Proof.
  intros Ha. induction 1 as [|now op s _ IH]; [|by apply step_wf].
  split; [|done]. split; [|done]. intros _. split_and!; try done.
Qed.

(** The wizard in any state it can reach with no failing statement: at most one account
    is active; a QR flow has a token; and where there is no client, no operation calls it:
    polling is idle, and verifying a code or a password is refused, although none of these
    three looks at the client first. *)
Theorem wizard_never_needs_a_missing_client (hc : bool) (ns : string) (d : db) (s : ast) :
  one_active d → reached hc ns d s →
  one_active (tabs (sql s)) ∧ (currentFlow (wiz s) = "qr" → is_Some (qrToken (wiz s))) ∧
  (has_client (wiz s) = false → isLoggedIn (wiz s) = false ∧
     ∀ now a b c u, (PollQR now a u s).1 = Ok Idle ∧ (VerifyPhoneCode now b u s).1 = Err "no pending phone verification" ∧
       (Verify2FA now c u s).1 = Err "2FA verification is not pending").
Proof.
  intros Ha Hr. destruct (reached_wf hc ns d s Ha Hr) as [[H1 H2] [_ H3]]. split; [done|]. split; [done|].
  intros Hc. destruct (H1 Hc) as (Hq & _ & Hh & Hn & Hl). split; [done|]. intros now a b c u.
  unfold PollQR, VerifyPhoneCode, Verify2FA, sm_bind, sm_ret, get_wiz.
  rewrite decide_False by done. rewrite decide_True by tauto. by rewrite Hn.
Qed.
Lemma wizard_never_needs_a_missing_client_witness :
  let s := (wiz_step 5 (OpPollQR (Some Accepted) None) (ASt (NewAuthWizard false "a") (Sql empty_db []))).2 in
  isLoggedIn (wiz s) = false ∧ one_active (tabs (sql s)).
Proof.
  assert (one_active empty_db) as Ha by (intros n1 n2 r1 r2 H1; destruct (lookup_empty_Some n1 r1 H1)).
  destruct (wizard_never_needs_a_missing_client false "a" empty_db _ Ha (reached_step _ _ _ 5 (OpPollQR (Some Accepted) None) _ (reached_start _ _ _)))
    as (H1 & _ & H2). split; [apply (H2 eq_refl)|exact H1].
Defined.

Lemma saved_user_row ns u now d :
  ∃ r, accounts (run (SaveAccount (account_of_user ns u) now) d).2 !! ns = Some r ∧ is_active r = true ∧ user_id r = us_ID u.
Proof. eexists. split; [apply lookup_insert_eq|]. done. Qed.


Definition ex_user (id : Z) : user := User id "Ann" "" "ann" "1" false.
Definition ex_start (d : db) : ast := ASt (NewAuthWizard true "a") (Sql d []).
Definition run_ops (now : Z) (ops : list wiz_op) (s : ast) : ast := foldl (λ s o, (wiz_step now o s).2) s ops.


(** Switching the account leaves the client as it is: the next status check saves the user
    the client is logged in as under the name space switched to, over the account that was
    there. *)
Example switched_account_is_overwritten :
  let d := Db ∅ ∅ ∅ ∅ ∅ {["a" := AccRow 1 "" "" "" "" false true 0 0; "b" := AccRow 2 "" "" "" "" false false 0 0]} in
  let s := run_ops 5 [OpCheck (Some true) (Some (ex_user 1)); OpSwitch "b"; OpCheck (Some true) (Some (ex_user 1))] (ex_start d) in
  user_id <$> accounts (tabs (sql s)) !! "b" = Some 1.
Proof. vm_compute. reflexivity. Qed.

(** The phone code survives the login and the logout: a code can still be verified then, and
    the wizard asks for a password although no flow is under way. *)
Example phone_code_survives_logout :
  let s := run_ops 5 [OpSendCode "1" "" (Ok (Some "hash")) None; OpVerifyCode Accepted (Some (ex_user 1)); OpLogout;
                      OpVerifyCode PasswordNeeded None] (ex_start empty_db) in
  currentFlow (wiz s) = "idle" ∧ need2FA (wiz s) = true ∧ isLoggedIn (wiz s) = false.
Proof. vm_compute. done. Qed.

(** A session that ended on the server leaves the user in place: the status then says logged
    out and shows a user. *)
Example status_keeps_the_old_user :
  let s := run_ops 5 [OpCheck (Some true) (Some (ex_user 1)); OpCheck (Some false) None] (ex_start empty_db) in
  isLoggedIn (wiz s) = false ∧ currentUser (wiz s) = Some (ex_user 1).
Proof. vm_compute. done. Qed.
