(* ===== verification/Proxy.v ===== *)
(** * The proxy manager (app/daemon/proxy_manager.go)

    Statistics of the proxy nodes, the list of nodes of the local controller, switching, and
    one turn of the watchdog that leaves a dead node. The controller's answers are arguments
    that may change a state of their own; floating-point numbers are a type with the
    operations the code uses and no laws; contexts, the JSON form of the statistics and the
    text of the metrics are left out. A trace of pings and switches, which the program does
    not keep, records what a turn did. The theorems: the watchdog switches only after four
    failed probes of the active node, to the first live node that follows it in the ring;
    samples are kept for a day. *)
From S2P Require Import Prelude.

Section Proxy.
(** [float64]. *)
Context {F : Type} (f_lt : F → F → bool) (f_add f_mul f_div : F → F → F) (f_of : Z → F) (f_trunc : F → Z).

Record NodeSample := Sample { Timestamp : Z; SpeedBPS : F }.
Record NodeStat := Stat { Samples : list NodeSample; LastPing : option Z; LastActive : Z }.
Definition empty_stat : NodeStat := Stat [] None 0.

Record ProxyNode := Node {
  Tag : string; n_Type : string; PeakSpeedBPS : Z; AvgSpeedBPS : Z; TotalBytes24h : F; ActiveSamplesCount : Z;
  LastPingMS : option Z; IsPeakLeader : bool;
}.
(** An entry of the controller's answer. *)
Record ProxyData := Data { pd_Type : string; pd_Now : string; pd_All : list string; pd_History : list Z }.

(** [saved] is what the statistics file holds; [has_file] says whether one is configured. *)
Record ProxyManager := PM {
  has_file : bool; nodeStats : gmap string NodeStat; activeTag : string; lastSave : Z; saved : gmap string NodeStat;
}.
Definition set_active_tag (tag : string) (m : ProxyManager) : ProxyManager :=
  PM (has_file m) (nodeStats m) tag (lastSave m) (saved m).
Definition set_stat (tag : string) (s : NodeStat) (m : ProxyManager) : ProxyManager :=
  PM (has_file m) (<[tag := s]> (nodeStats m)) (activeTag m) (lastSave m) (saved m).

(** ** Statistics *)

Definition day : Z := 86400.
Definition recent (now : Z) (l : list NodeSample) : list NodeSample := filter (λ s, now - day <= Timestamp s) l.
(** [loaded] is the decoded file, [None] when it cannot be read; a null entry is [None]. *)
Definition loadStats (loaded : option (gmap string (option NodeStat))) (now : Z) (m : ProxyManager) : ProxyManager :=
  match loaded with
  | Some l => if has_file m then
                PM (has_file m) (omap (λ s, (λ s, Stat (recent now (Samples s)) (LastPing s) (LastActive s)) <$> s) l ∪ nodeStats m)
                  (activeTag m) (lastSave m) (saved m)
              else m
  | None => m
  end.
(** [written] says whether the file could be written. *)
Definition saveStatsLocked (now : Z) (written : bool) (m : ProxyManager) : ProxyManager :=
  if negb (has_file m) || (now - lastSave m <? 10) then m
  else PM (has_file m) (nodeStats m) (activeTag m) now (if written then nodeStats m else saved m).
Definition RecordDownloadSpeed (tag : string) (speed : F) (now : Z) (written : bool) (m : ProxyManager) : ProxyManager :=
  if bool_decide (tag = "") || f_lt speed (f_of 0) then m
  else
    let stat := default empty_stat (nodeStats m !! tag) in
    let stat := Stat (recent now (Samples stat) ++ [Sample now speed]) (LastPing stat)
                  (if f_lt (f_of 10240) speed then now else LastActive stat) in
    saveStatsLocked now written (set_stat tag stat m).

(** ** The list of nodes *)

Record metrics := Metrics { m_peak : F; m_count : Z; m_sum : F; m_total : F }.
(** The loop over the samples; [prev] is the sample before, recent or not. *)
Fixpoint sample_loop (now : Z) (l : list NodeSample) (prev : option NodeSample) (a : metrics) : metrics :=
  match l with
  | [] => a
  | x :: l =>
      sample_loop now l (Some x)
        (if Timestamp x <? now - day then a
         else
           let s := SpeedBPS x in
           let peak := if f_lt (m_peak a) s then s else m_peak a in
           let fast := negb (f_lt s (f_of 51200)) in
           let total :=
             match prev with
             | Some y => let dt := Timestamp x - Timestamp y in
                         if (0 <? dt) && (dt <=? 10) then f_add (m_total a) (f_mul (f_div (f_add s (SpeedBPS y)) (f_of 2)) (f_of dt)) else m_total a
             | None => m_total a
             end in
           Metrics peak (if fast then m_count a + 1 else m_count a) (if fast then f_add (m_sum a) s else m_sum a) total)
  end.
Definition node_of (m : ProxyManager) (proxies : list (string * ProxyData)) (now : Z) (name : string) : ProxyNode :=
  let stat := nodeStats m !! name in
  let data := snd <$> find (λ kv, String.eqb kv.1 name) proxies in
  let ping := s ← stat; LastPing s in
  let tp := match data with Some d => if decide (pd_Type d = "") then "vless" else pd_Type d | None => "vless" end in
  let ping := match ping, (d ← data; last (pd_History d)) with
              | None, Some p => if 0 <? p then Some p else None
              | _, _ => ping
              end in
  let a := sample_loop now (match stat with Some s => Samples s | None => [] end) None (Metrics (f_of 0) 0 (f_of 0) (f_of 0)) in
  let avg := if 0 <? m_count a then f_div (m_sum a) (f_of (m_count a)) else f_of 0 in
  Node name tp (f_trunc (m_peak a)) (f_trunc avg) (m_total a) (m_count a) ping false.
Definition mark_leader (peak : Z) (n : ProxyNode) : ProxyNode :=
  if (0 <? peak) && (PeakSpeedBPS n =? peak) then
    Node (Tag n) (n_Type n) (PeakSpeedBPS n) (AvgSpeedBPS n) (TotalBytes24h n) (ActiveSamplesCount n) (LastPingMS n) true
  else n.
(** The first selector the visit of the map meets gives the current node and the list. *)
Definition selector (proxies : list (string * ProxyData)) : string * list string :=
  match find (λ kv, String.eqb (pd_Type kv.2) "Selector") proxies with
  | Some (_, d) => (pd_Now d, pd_All d)
  | None => ("", [])
  end.
Definition list_nodes (proxies : list (string * ProxyData)) (now : Z) (m : ProxyManager) : list ProxyNode * string * ProxyManager :=
  let (cur, all) := selector proxies in
  let m := if decide (cur = "") then m else set_active_tag cur m in
  let nodes := node_of m proxies now <$> all in
  (mark_leader (foldl (λ a n, Z.max a (PeakSpeedBPS n)) 0 nodes) <$> nodes, cur, m).

(** ** Calls to the controller *)

Inductive event := EvPing (name : string) (alive : bool) | EvSwitch (name : string).

Section Controller.
Context {S : Type}.
Context (get_proxies : SM S (option (list (string * ProxyData)))).      (* GET /proxies, decoded *)
Context (put_proxy : string → string → SM S (option Z)).               (* PUT /proxies/group: the status *)
Context (get_delay : string → SM S (option Z)).                        (* GET /proxies/name/delay, decoded *)

Record pst := PSt { p_m : ProxyManager; p_net : S; p_trace : list event }.
Definition PX (A : Type) : Type := SM pst A.
Definition net {A} (m : SM S A) : PX A := λ p, let (a, s) := m (p_net p) in (a, PSt (p_m p) s (p_trace p)).
Definition on_pm (f : ProxyManager → ProxyManager) : PX unit := λ p, (tt, PSt (f (p_m p)) (p_net p) (p_trace p)).
Definition get_pm : PX ProxyManager := λ p, (p_m p, p).
Definition note (e : event) : PX unit := λ p, (tt, PSt (p_m p) (p_net p) (p_trace p ++ [e])).

Definition GetProxyList (now : Z) : PX (option (list ProxyNode * string)) :=
  do! r := net get_proxies in
  match r with
  | None => done! None
  | Some proxies => λ p, let '(nodes, cur, m) := list_nodes proxies now (p_m p) in (Some (nodes, cur), PSt m (p_net p) (p_trace p))
  end.
Definition good_status (s : Z) : bool := (200 <=? s) && (s <? 300).
(** [true] is a switch that succeeded; a refused "proxy" group is tried as "GLOBAL". *)
Definition put_group (group name : string) : PX (option bool) :=
  do! r := net (put_proxy group name) in
  match r with
  | None => done! None
  | Some s => if good_status s then do! _ := on_pm (set_active_tag name) in done! (Some true) else done! (Some false)
  end.
Definition SwitchProxy (group name : string) : PX bool :=
  do! _ := note (EvSwitch name) in
  let group := if decide (group = "") then "proxy" else group in
  do! r := put_group group name in
  match r with
  | Some false => if decide (group = "proxy") then do! r := put_group "GLOBAL" name in done! bool_decide (r = Some true) else done! false
  | _ => done! bool_decide (r = Some true)
  end.
(** The delay of a node, [None] for an error; the answer's status is not looked at. *)
Definition PingProxy (name : string) : PX (option Z) :=
  do! r := net (get_delay name) in
  do! _ := note (EvPing name (match r with Some d => 0 <? d | None => false end)) in
  match r with
  | None => done! None
  | Some d =>
      do! _ := on_pm (λ m, let s := default empty_stat (nodeStats m !! name) in set_stat name (Stat (Samples s) (Some d) (LastActive s)) m) in
      done! (Some d)
  end.
Definition alive (name : string) : PX bool :=
  do! r := PingProxy name in done! match r with Some d => 0 <? d | None => false end.

(** ** The watchdog *)

(** Up to [n] further probes: [Some true] when all fail, [None] when the context ends, as
    [stop] says of each wait. *)
Fixpoint confirm_dead (n : nat) (stop : list bool) (active : string) : PX (option bool) :=
  match n with
  | O => done! (Some true)
  | Datatypes.S n =>
      if hd false stop then done! None
      else
        do! ok := alive active in
        if ok : bool then done! (Some false) else confirm_dead n (tl stop) active
  end.
Definition group_type (tp : string) : bool := bool_decide (tp = "Selector") || bool_decide (tp = "Fallback") || bool_decide (tp = "Direct").
Fixpoint index_of (cur : string) (nodes : list ProxyNode) (i : Z) : Z :=
  match nodes with
  | [] => -1
  | n :: nodes => if decide (Tag n = cur) then i else index_of cur nodes (i + 1)
  end.
(** The candidates at [(currentIdx + step) % len(nodes)] for the steps from 1 on. *)
Definition ring (idx : Z) (nodes : list ProxyNode) : list ProxyNode :=
  omap (λ k, nodes !! Z.to_nat ((idx + Z.of_nat k) mod Z.of_nat (length nodes))) (seq 1 (length nodes)).
Fixpoint try_candidates (l : list ProxyNode) : PX unit :=
  match l with
  | [] => done! tt
  | c :: l =>
      if group_type (n_Type c) then try_candidates l
      else
        do! ok := alive (Tag c) in
        if ok : bool then do! _ := SwitchProxy "proxy" (Tag c) in done! tt else try_candidates l
  end.
Definition rotate (now : Z) : PX unit :=
  do! r := GetProxyList now in
  match r with
  | Some (n :: nodes, cur) => try_candidates (ring (index_of cur (n :: nodes) 0) (n :: nodes))
  | _ => done! tt
  end.
(** What the timer starts; [false] when the watchdog ends. *)
Definition active_node (now : Z) : PX string :=
  do! m := get_pm in
  if decide (activeTag m = "") then
    do! r := GetProxyList now in
    match r with
    | Some (_, cur) => if decide (cur = "") then done! "" else do! _ := on_pm (set_active_tag cur) in done! cur
    | None => done! ""
    end
  else done! (activeTag m).
Definition watchdog_turn (now : Z) (stop : list bool) : PX bool :=
  do! active := active_node now in
  if decide (active = "") then done! true
  else
    do! ok := alive active in
    if ok : bool then done! true
    else
      do! d := confirm_dead 3 stop active in
      match d with
      | None => done! false
      | Some true => do! _ := rotate now in done! true
      | Some false => done! true
      end.

(** ** The order of the candidates *)

(** The nodes after the current one, then those before it and itself; all of them in their
    order when the current one is not listed. *)
Definition after_current (cur : string) (nodes : list ProxyNode) : list ProxyNode :=
  match list_find (λ n, Tag n = cur) nodes with
  | Some (i, _) => drop (Datatypes.S i) nodes ++ take (Datatypes.S i) nodes
  | None => nodes
  end.
Lemma ring_rotation (nodes : list ProxyNode) (k : nat) :
  (k <= length nodes)%nat → ring (Z.of_nat k - 1) nodes = drop k nodes ++ take k nodes.
Proof. apply cyclic_rotation. Qed.
Lemma index_of_find cur nodes : ∀ i,
  index_of cur nodes i = match list_find (λ n, Tag n = cur) nodes with Some (k, _) => i + Z.of_nat k | None => -1 end.
Proof.
  induction nodes as [|n nodes IH]; intros i; cbn; [done|].
  case_decide; [by rewrite Z.add_0_r|]. rewrite IH.
  destruct (list_find _ nodes) as [[k x]|]; cbn; lia.
Qed.
Lemma ring_after_current cur nodes : ring (index_of cur nodes 0) nodes = after_current cur nodes.
Proof.
  rewrite index_of_find. unfold after_current.
  destruct (list_find _ nodes) as [[k x]|] eqn:E.
  - apply list_find_Some in E as (E & _ & _). apply lookup_lt_Some in E.
    rewrite <- ring_rotation by lia. f_equal. lia.
  - pose proof (ring_rotation nodes 0 ltac:(lia)) as R. cbn [drop take] in R. by rewrite app_nil_r in R.
Qed.

(** ** What a turn of the watchdog does *)

Definition candidates (cur : string) (nodes : list ProxyNode) : list string :=
  Tag <$> filter (λ c, group_type (n_Type c) = false) (after_current cur nodes).
Definition failed (l : list string) : list event := (λ n, EvPing n false) <$> l.
(** The probes of the candidates: each fails up to the one switched to, or all do. *)
Definition rotation (cands : list string) (T : list event) : Prop :=
  T = failed cands ∨ ∃ l c rest, cands = l ++ c :: rest ∧ T = failed l ++ [EvPing c true; EvSwitch c].

Lemma trace_alive name p : ∃ b p', alive name p = (b, p') ∧ p_trace p' = p_trace p ++ [EvPing name b].
Proof.
  unfold alive, PingProxy, net, note, on_pm, sm_bind, sm_ret. cbn.
  destruct (get_delay name (p_net p)) as [[d|] s]; cbn; eauto.
Qed.
Lemma trace_put group name p : p_trace (put_group group name p).2 = p_trace p.
Proof.
  unfold put_group, net, on_pm, sm_bind, sm_ret. cbn.
  destruct (put_proxy group name (p_net p)) as [[c|] s]; cbn; [by destruct (good_status c)|done].
Qed.
Lemma trace_switch group name p : p_trace (SwitchProxy group name p).2 = p_trace p ++ [EvSwitch name].
Proof.
  unfold SwitchProxy, note, sm_bind, sm_ret. cbn -[put_group].
  set (g := if decide (group = "") then _ else _). set (q := PSt _ _ _).
  pose proof (trace_put g name q) as Hq. destruct (put_group g name q) as [[[|]|] q'] eqn:E; cbn in *; try done.
  case_decide; [|done]. pose proof (trace_put "GLOBAL" name q') as H'.
  destruct (put_group "GLOBAL" name q') as [r q'']; cbn in *. congruence.
Qed.
Lemma trace_list now p : p_trace (GetProxyList now p).2 = p_trace p.
Proof.
  unfold GetProxyList, net, sm_bind, sm_ret. cbn.
  destruct (get_proxies (p_net p)) as [[l|] s]; cbn; [|done]. by destruct (list_nodes l now (p_m p)) as [[? ?] ?].
Qed.
Lemma trace_candidates l : ∀ p, ∃ T,
  p_trace (try_candidates l p).2 = p_trace p ++ T ∧ rotation (Tag <$> filter (λ c, group_type (n_Type c) = false) l) T.
Proof.
  induction l as [|c l IH]; intros p.
  { exists []. rewrite app_nil_r. split; [done|]. by left. }
  cbn [try_candidates]. rewrite filter_cons. destruct (group_type (n_Type c)) eqn:G.
  { rewrite decide_False by done. apply IH. }
  rewrite decide_True by done. unfold sm_bind at 1.
  destruct (trace_alive (Tag c) p) as (b & p' & -> & Hp). destruct b.
  - exists [EvPing (Tag c) true; EvSwitch (Tag c)]. split.
    + pose proof (trace_switch "proxy" (Tag c) p') as Hs. unfold sm_bind, sm_ret.
      destruct (SwitchProxy "proxy" (Tag c) p') as [b q]; cbn in *. by rewrite Hs, Hp, <- app_assoc.
    + right. by eexists [], (Tag c), _.
  - destruct (IH p') as (T & HT & Hr). exists (EvPing (Tag c) false :: T).
    split; [by rewrite HT, Hp, <- app_assoc|].
    destruct Hr as [->|(l1 & d & rest & E & ->)]; [by left|].
    right. exists (Tag c :: l1), d, rest. cbn. by rewrite E.
Qed.
Lemma trace_confirm n : ∀ stop a p, ∃ k r p',
  confirm_dead n stop a p = (r, p') ∧ (k <= n)%nat ∧
  match r with
  | Some true => k = n ∧ p_trace p' = p_trace p ++ replicate k (EvPing a false)
  | Some false => (k < n)%nat ∧ p_trace p' = p_trace p ++ replicate k (EvPing a false) ++ [EvPing a true]
  | None => (k < n)%nat ∧ p_trace p' = p_trace p ++ replicate k (EvPing a false)
  end.
Proof.
  induction n as [|n IH]; intros stop a p; cbn [confirm_dead].
  { exists 0%nat, (Some true), p. cbn. by rewrite app_nil_r. }
  destruct (hd false stop).
  { exists 0%nat, None, p. cbn. rewrite app_nil_r. repeat split; lia. }
  unfold sm_bind. destruct (trace_alive a p) as (b & p1 & -> & Hp). destruct b.
  { exists 0%nat, (Some false), p1. cbn. rewrite Hp. repeat split; lia. }
  destruct (IH (tl stop) a p1) as (k & r & p' & -> & Hk & Hr). exists (Datatypes.S k), r, p'.
  split; [done|]. split; [lia|].
  destruct r as [[|]|]; destruct Hr as [? ->]; rewrite Hp, <- app_assoc; cbn; split; (lia || done).
Qed.
Lemma trace_rotate now p : ∃ T,
  p_trace (rotate now p).2 = p_trace p ++ T ∧
  match (GetProxyList now p).1 with
  | Some (nodes, cur) => rotation (candidates cur nodes) T
  | None => T = []
  end.
Proof.
  unfold rotate, sm_bind. pose proof (trace_list now p) as Hl.
  destruct (GetProxyList now p) as [[[[|n nodes] cur]|] q]; cbn [fst snd sm_ret] in *.
  - exists []. rewrite Hl, app_nil_r. split; [done|]. by left.
  - destruct (trace_candidates (ring (index_of cur (n :: nodes) 0) (n :: nodes)) q) as (T & HT & Hr).
    exists T. rewrite HT, Hl. split; [done|]. unfold candidates. by rewrite <- ring_after_current.
  - exists []. by rewrite Hl, app_nil_r.
Qed.
Lemma active_node_trace now p : p_trace (active_node now p).2 = p_trace p.
Proof.
  unfold active_node, get_pm, sm_bind, sm_ret. cbn. case_decide; [|done].
  pose proof (trace_list now p) as Hl. destruct (GetProxyList now p) as [[[nodes cur]|] q]; cbn in *; [|done].
  by case_decide.
Qed.

(** C36. A turn of the watchdog touches nothing while no node is active. Otherwise it probes
    the active node: it ends after the first of up to four probes that succeeds, or gives up
    when the daemon stops in between, without any switch; only after four failed probes does
    it ask for the nodes, and then it probes the eligible ones in ring order from the one
    after the current node on, switches to the first that answers and to no other, and
    switches to none only when all of them fail. *)
Theorem watchdog_turn_outcome (now : Z) (stop : list bool) (p : pst) :
  let a := (active_node now p).1 in
  ∃ T, p_trace (watchdog_turn now stop p).2 = p_trace p ++ T ∧
    ((a = "" ∧ T = [] ∧ (watchdog_turn now stop p).1 = true) ∨
     (a ≠ "" ∧ ∃ k, (k <= 3)%nat ∧ T = replicate k (EvPing a false) ++ [EvPing a true] ∧ (watchdog_turn now stop p).1 = true) ∨
     (a ≠ "" ∧ ∃ k, (1 <= k <= 3)%nat ∧ T = replicate k (EvPing a false) ∧ (watchdog_turn now stop p).1 = false) ∨
     (a ≠ "" ∧ (watchdog_turn now stop p).1 = true ∧ ∃ U, T = replicate 4 (EvPing a false) ++ U ∧
        match (GetProxyList now (confirm_dead 3 stop a (alive a (active_node now p).2).2).2).1 with
        | Some (nodes, cur) => rotation (candidates cur nodes) U
        | None => U = []
        end)).
Proof.
  cbn zeta. destruct (watchdog_turn now stop p) as [ok q] eqn:W. unfold watchdog_turn, sm_bind in W. cbn [fst snd].
  pose proof (active_node_trace now p) as Ha. destruct (active_node now p) as [a p0]; cbn [fst snd] in *.
  case_decide as E.
  { unfold sm_ret in W. simplify_eq. exists []. rewrite app_nil_r. split; [done|]. by left. }
  destruct (trace_alive a p0) as (b & p1 & Hb & Hp). rewrite Hb in W. rewrite Ha in Hp. destruct b.
  { unfold sm_ret in W. simplify_eq. exists [EvPing a true]. split; [done|]. right. left. split; [done|].
    exists 0%nat. by split; [lia|]. }
  destruct (trace_confirm 3 stop a p1) as (k & r & p2 & Hc & Hk & Hr). rewrite Hc in W. rewrite Hp in Hr.
  destruct r as [[|]|]; destruct Hr as [Hk' Hr]; rewrite <- app_assoc in Hr; unfold sm_ret in W.
  - subst k. destruct (trace_rotate now p2) as (U & HU & Hm). destruct (rotate now p2) as [[] p3].
    cbn [snd] in HU. simplify_eq. exists (replicate 4 (EvPing a false) ++ U).
    rewrite HU, Hr, <- app_assoc. split; [done|]. right. right. right. split; [done|]. split; [done|].
    exists U. split; [done|]. by rewrite Hb; cbn [snd]; rewrite Hc.
  - simplify_eq. exists (replicate (Datatypes.S k) (EvPing a false) ++ [EvPing a true]). split; [done|].
    right. left. split; [done|]. exists (Datatypes.S k). by split; [lia|].
  - simplify_eq. exists (replicate (Datatypes.S k) (EvPing a false)). split; [done|].
    right. right. left. split; [done|]. exists (Datatypes.S k). by split; [lia|].
Qed.
End Controller.
End Proxy.

(** The list of nodes and the current one come from whichever selector the visit of the
    decoded map meets first: with two selectors the answer depends on the order. *)
Example selector_depends_on_the_visit :
  let a := ("proxy", Data "Selector" "hk-1" ["hk-1"; "hk-2"] []) in
  let b := ("GLOBAL", Data "Selector" "DIRECT" ["DIRECT"; "proxy"] []) in
  selector [a; b] = ("hk-1", ["hk-1"; "hk-2"]) ∧ selector [b; a] = ("DIRECT", ["DIRECT"; "proxy"]).
Proof. by split. Qed.
(** An answer without a delay, such as the controller's error for a node that timed out,
    is stored as a delay of 0 milliseconds and then hides the delay the controller knows. *)
Example failed_probe_shows_zero :
  let m := PM false ∅ "" 0 ∅ : ProxyManager (F := Z) in
  let p := (PingProxy (λ _, sm_ret (Some 0)) "hk-1" (PSt m tt [])).2 in
  LastPingMS (node_of Z.ltb Z.add Z.mul Z.div id id (p_m p) [("hk-1", Data "vless" "" [] [120])] 0 "hk-1") = Some 0.
Proof. by vm_compute. Qed.
