(* ===== verification/Web.v ===== *)
(** * Sessions and routes of the web server (app/daemon/web_server.go)

    The password, the sessions a login opens, the check in front of the handlers and the
    table of routes. Times are nanoseconds. A request is its method, its cleaned path, its
    Authorization header and its session cookie; bodies are decoded and an argument. The
    theorems: with a password set, a handler behind the check runs only for a request that
    carries the password or the token of a login with that password less than a week ago;
    which routes have no check. *)
From S2P Require Import Prelude Paths Planner.

Record WebServer := Server { password : string; sessions : gmap string Z }.
Record http_request := HttpReq { q_Method : string; q_Path : string; q_Authorization : string; q_Cookie : option string }.

(** ** Sessions *)

Definition week : Z := 7 * 24 * 3600 * 1000000000.
(** [ok && time.Now().Before(expireAt)]. *)
Definition live_session (now : Z) (s : WebServer) (token : string) : bool :=
  match sessions s !! token with Some e => now <? e | None => false end.
Definition isSessionValid (now : Z) (s : WebServer) (r : http_request) : bool :=
  if decide (password s = "") then true
  else match q_Cookie r with
       | Some c => if decide (c = "") then false else live_session now s c
       | None => false
       end.

Inductive verdict := Admit | Unauthorized (msg : string) | ToLogin.
#[export] Instance verdict_eq_dec : EqDecision verdict.
Proof. solve_decision. Defined.

Definition bearer (r : http_request) : string :=
  if HasPrefix (q_Authorization r) "Bearer " then TrimSpace (TrimPrefix (q_Authorization r) "Bearer ") else "".
Definition refuse (prefixes : list string) (msg : string) (r : http_request) : verdict :=
  if existsb (HasPrefix (q_Path r)) prefixes then Unauthorized msg else ToLogin.
Definition requireAuth (now : Z) (s : WebServer) (r : http_request) : verdict :=
  if decide (password s = "") then Admit
  else if negb (bool_decide (bearer r = "")) && (bool_decide (bearer r = password s) || live_session now s (bearer r)) then Admit
  else
    match (match q_Cookie r with Some c => if decide (c = "") then None else Some c | None => None end) with
    | None => refuse ["/api/"; "/get_"; "/download_"] "unauthorized" r
    | Some c =>
        match sessions s !! c with
        | Some e => if e <? now then refuse ["/api/"; "/get_"; "/set_"; "/download_"] "session expired" r else Admit
        | None => refuse ["/api/"; "/get_"; "/set_"; "/download_"] "session expired" r
        end
    end.

Inductive login_reply := LoginPage | LoginError (status : Z) (msg : string) | LoggedIn (cookie : string).
Definition session_token (nano : Z) : string := "sess_" +:+ itoa nano +:+ "_token".
(** [body] is the decoded password, [None] for a body that is not JSON; [nano] and [now] are
    the clock when the token and its end are computed. *)
Definition handleLogin (method : string) (body : option string) (nano now : Z) (s : WebServer) : login_reply * WebServer :=
  if decide (method = "GET") then (LoginPage, s)
  else if decide (method ≠ "POST") then (LoginError 405 "method not allowed", s)
  else match body with
       | None => (LoginError 400 "invalid json", s)
       | Some p =>
           if decide (password s ≠ "" ∧ p ≠ password s) then (LoginError 401 "password error", s)
           else (LoggedIn (session_token nano), Server (password s) (<[session_token nano := now + week]> (sessions s)))
       end.
(** The cookie is cleared in the browser and the request is sent to the login page. *)
Definition handleLogout (s : WebServer) : verdict * WebServer := (ToLogin, s).

(** ** Routes *)

(** A path, a path with one more segment, or everything below a path. *)
Inductive pattern := Exact (p : string) | Segment (p : string) | Below (p : string).
Record route := Route { rt_pattern : pattern; rt_methods : list string; rt_guarded : bool }.
Definition guarded (p : string) (methods : list string) : route := Route (Exact p) methods true.
Definition open (p : string) (methods : list string) : route := Route (Exact p) methods false.

(** In the order of [Handler]; no methods means any. *)
Definition Handler : list route := [
  Route (Below "/static/") [] false;
  open "/healthz" ["GET"; "HEAD"];
  open "/api/status" ["GET"];
  open "/api/gate" ["GET"];
  open "/api/system/storage" ["GET"];
  open "/api/tasks" ["GET"; "POST"];
  Route (Segment "/api/tasks/") ["GET"] false;
  guarded "/api/conflicts" ["GET"];
  guarded "/api/conflicts/resolve" ["POST"];
  open "/api/chat/history" ["POST"];
  open "/api/chat/resolve" ["POST"];
  guarded "/api/control" ["POST"];
  open "/login" [];
  open "/logout" [];
  guarded "/api/auth/status" ["GET"];
  guarded "/api/auth/qr/start" ["POST"];
  guarded "/api/auth/qr/poll" ["GET"];
  guarded "/api/auth/phone/send_code" ["POST"];
  guarded "/api/auth/phone/verify_code" ["POST"];
  guarded "/api/auth/2fa/verify" ["POST"];
  guarded "/api/auth/logout" ["POST"];
  guarded "/api/accounts" ["GET"];
  guarded "/api/accounts/switch" ["POST"];
  guarded "/api/accounts/delete" ["POST"];
  guarded "/" ["GET"; "HEAD"];
  open "/get_app_version" ["GET"];
  guarded "/get_download_status" ["GET"];
  guarded "/get_download_list" ["GET"];
  guarded "/api/downloaded_records" ["GET"];
  guarded "/api/events" ["GET"];
  guarded "/api/listen_targets" [];
  guarded "/api/target/update" ["POST"];
  guarded "/api/dialogs" ["GET"];
  guarded "/api/resolve_target" ["POST"];
  guarded "/api/add_target" ["POST"];
  guarded "/api/target_progress" ["GET"];
  guarded "/api/chat_context" ["GET"];
  guarded "/api/settings/concurrency" [];
  guarded "/api/proxy/list" ["GET"];
  guarded "/api/proxy/switch" ["POST"];
  guarded "/api/proxy/ping" ["POST"]
].
Definition no_slash (s : string) : bool := forallb (λ c, negb (Ascii.eqb c slash)) (String.list_ascii_of_string s).
Definition path_matches (p : pattern) (path : string) : bool :=
  match p with
  | Exact p => String.eqb p path
  | Below p => HasPrefix path p
  | Segment p => HasPrefix path p && let rest := TrimPrefix path p in negb (String.eqb rest "") && no_slash rest
  end.
Definition route_matches (r : http_request) (x : route) : bool :=
  path_matches (rt_pattern x) (q_Path r) && (bool_decide (rt_methods x = []) || bool_decide (q_Method r ∈ rt_methods x)).
(** The route whose handler runs for a request, after the check where there is one. *)
Definition serve (now : Z) (s : WebServer) (r : http_request) : option route :=
  match find (route_matches r) Handler with
  | Some x => if negb (rt_guarded x) || bool_decide (requireAuth now s r = Admit) then Some x else None
  | None => None
  end.

(** ** Who gets in *)

(** An accepted login: the token and the time its end was counted from. *)
Record login := Login { lg_token : string; lg_time : Z }.
(** The servers a process with this password can come to, with the logins that gave the
    password, newest first. *)
Inductive served (pw : string) : WebServer → list login → Prop :=
| served_start : served pw (Server pw ∅) []
| served_login s h method body nano now :
    served pw s h →
    served pw (handleLogin method body nano now s).2
      (if decide (method = "POST" ∧ body = Some pw) then Login (session_token nano) now :: h else h)
| served_logout s h : served pw s h → served pw (handleLogout s).2 h.
#[local] Hint Constructors served : core.

Lemma served_sessions pw s h : pw ≠ "" → served pw s h →
  password s = pw ∧ ∀ token e, sessions s !! token = Some e → ∃ t, Login token t ∈ h ∧ e = t + week.
Proof.
  intros Hpw. induction 1 as [|s h method body nano now _ [Hp IH]|s h _ IH]; [done| |exact IH].
  unfold handleLogin. destruct (decide (method = "GET")) as [->|Hg].
  { rewrite decide_False by (intros [[=] _]). done. }
  destruct (decide (method ≠ "POST")) as [Hm|Hm].
  { rewrite decide_False by tauto. done. }
  assert (method = "POST") as -> by (destruct (decide (method = "POST")); tauto).
  destruct body as [p|]; [|rewrite decide_False by (intros [_ [=]]); done].
  rewrite Hp. destruct (decide (p = pw)) as [->|Hne].
  - rewrite (decide_True _ _ (conj eq_refl eq_refl)), decide_False by tauto. split; [done|]. cbn [snd sessions].
    intros token e [[<- <-]|[_ He]]%lookup_insert_Some; [by exists now; split; [left|]|].
    destruct (IH _ _ He) as (t & Ht & ->). exists t. by split; [right|].
  - rewrite (decide_False (P := _ ∧ Some p = _)) by (intros [_ [= ?]]; done). by rewrite decide_True by done.
Qed.
Lemma live_session_expiry now s token : live_session now s token = true → ∃ e, sessions s !! token = Some e ∧ now < e.
Proof. unfold live_session. destruct (sessions s !! token) as [e|]; [|done]. intros ?%Z.ltb_lt. eauto. Qed.

Lemma require_auth_admits now s r : password s ≠ "" → requireAuth now s r = Admit →
  bearer r = password s ∨ ∃ token e, (bearer r = token ∨ q_Cookie r = Some token) ∧ sessions s !! token = Some e ∧ now <= e.
Proof.
  intros Hp. unfold requireAuth. rewrite decide_False by done.
  destruct (negb _ && _) eqn:Hb.
  - intros _. apply andb_true_iff in Hb as [_ [Hb%bool_decide_eq_true|Hb]%orb_true_iff]; [by left|].
    apply live_session_expiry in Hb as (e & He & ?). right. exists (bearer r), e. split; [by left|]. split; [done|lia].
  - unfold refuse. destruct (q_Cookie r) as [c|]; [destruct (decide (c = ""))|]; [by destruct (existsb _ _)| |by destruct (existsb _ _)].
    destruct (sessions s !! c) as [e|] eqn:E; [|by destruct (existsb _ _)].
    destruct (e <? now) eqn:Hlt; [by destruct (existsb _ _)|]. apply Z.ltb_ge in Hlt. intros _. right. exists c, e. auto.
Qed.

(** C37. With a password set, whatever logins and logouts came before: the handler of a route
    with a check runs only for a request that carries the password, or the token of a login
    that gave the password and is at most a week old. *)
Theorem guarded_routes_need_the_password (pw : string) (s : WebServer) (h : list login) (now : Z) (r : http_request) (x : route) :
  pw ≠ "" → served pw s h → serve now s r = Some x → rt_guarded x = true →
  bearer r = pw ∨ ∃ token t, (bearer r = token ∨ q_Cookie r = Some token) ∧ Login token t ∈ h ∧ now <= t + week.
Proof.
  intros Hpw Hs Hx Hg. destruct (served_sessions _ _ _ Hpw Hs) as [Hp Hsess]. unfold serve in Hx.
  destruct (find _ _) as [y|]; [|done]. destruct (negb _ || _) eqn:Hb; [|done]. injection Hx as ->.
  rewrite Hg in Hb. apply bool_decide_eq_true in Hb. rewrite <- Hp.
  destruct (require_auth_admits now s r) as [|(token & e & Ht & He & ?)]; [congruence|done|by left|].
  right. destruct (Hsess _ _ He) as (t & Hin & ->). eauto.
Qed.
Lemma guarded_routes_need_the_password_witness :
  ∃ s h x, served "pw" s h ∧ serve 50 s (HttpReq "POST" "/api/control" "" (Some "sess_7_token")) = Some x ∧
    ∃ token t, Some "sess_7_token" = Some token ∧ Login token t ∈ h ∧ 50 <= t + week.
Proof.
  set (s := (handleLogin "POST" (Some "pw") 7 8 (Server "pw" ∅)).2).
  assert (served "pw" s [Login (session_token 7) 8]) as Hs by exact (served_login "pw" _ [] "POST" (Some "pw") 7 8 (served_start "pw")).
  exists s, [Login (session_token 7) 8], (guarded "/api/control" ["POST"]).
  split; [exact Hs|]. split; [vm_compute; reflexivity|].
  destruct (guarded_routes_need_the_password "pw" s _ 50 (HttpReq "POST" "/api/control" "" (Some "sess_7_token"))
    (guarded "/api/control" ["POST"]) ltac:(discriminate) Hs ltac:(vm_compute; reflexivity) eq_refl) as [Hb|(token & t & [Hb|Hc] & Hin & Hw)].
  - vm_compute in Hb. discriminate.
  - exists token, t. vm_compute in Hb. subst token. apply list_elem_of_singleton in Hin. discriminate.
  - exists token, t. split; [exact Hc|]. split; [exact Hin|exact Hw].
Defined.

(** The routes without a check: besides pages and health they let anybody list and submit
    tasks and read chats. *)
Example open_routes : (rt_pattern <$> filter (λ x, rt_guarded x = false) Handler) =
  [Below "/static/"; Exact "/healthz"; Exact "/api/status"; Exact "/api/gate"; Exact "/api/system/storage"; Exact "/api/tasks";
   Segment "/api/tasks/"; Exact "/api/chat/history"; Exact "/api/chat/resolve"; Exact "/login"; Exact "/logout"; Exact "/get_app_version"].
Proof. reflexivity. Qed.
(** A task is submitted without a password. *)
Example tasks_need_no_password :
  is_Some (serve 0 (Server "pw" ∅) (HttpReq "POST" "/api/tasks" "" None)).
Proof. vm_compute. eauto. Qed.
(** After a logout the token still opens the handlers: the session stays in the map. *)
Example logout_keeps_the_session :
  let s := (handleLogout (handleLogin "POST" (Some "pw") 7 8 (Server "pw" ∅)).2).2 in
  is_Some (serve 50 s (HttpReq "POST" "/api/control" "" (Some "sess_7_token"))).
Proof. vm_compute. eauto. Qed.
(** A session of the very moment it ends is taken as a cookie and refused as a bearer. *)
Example session_end_differs :
  let s := Server "pw" {["t" := 9]} in
  requireAuth 9 s (HttpReq "GET" "/api/events" "" (Some "t")) = Admit ∧
  requireAuth 9 s (HttpReq "GET" "/api/events" "Bearer t" None) = Unauthorized "unauthorized".
Proof. by vm_compute. Qed.
