(* ===== verification/WebTargets.v ===== *)
(** * Handlers of the web server (app/daemon/web_server.go)

    Pausing, submitting tasks, resolving conflicts, the number of parallel files, and the
    handlers of targets, dialogs, progress and context, over the daemon and the update
    stream. Bodies are decoded and an argument, [None] when that fails; answers of the
    Telegram client are arguments, [None] without a client. The server has a database and an
    orchestrator. The theorems: what updating a target does whatever statement fails; pausing
    stops the scan and the dispatch; the list of dialogs shows every target and every dialog
    once. *)
From S2P Require Import Prelude Sql Downloads Registry Planner World Transfer Orchestrator Targets TargetsProps.
From S2P Require Import Media Peers Fetch Updates Telegram ChatService.

(** [writeJSON] and [writeError]. *)
Inductive http_reply (A : Type) := HOk (status : Z) (body : A) | HErr (status : Z) (msg : string).
Arguments HOk {A} _ _. Arguments HErr {A} _ _.

(** ** Control, tasks, conflicts and settings *)

Definition desired_action (action state download_state : string) : string :=
  let desired := ToLower (TrimSpace action) in
  if decide (desired = "") then
    let st := ToLower (TrimSpace state) in
    let st := if decide (st = "") then ToLower (TrimSpace download_state) else st in
    if decide (st = "paused") then "pause" else if decide (st = "running") then "resume" else desired
  else desired.
(** The answer says whether downloads are paused. *)
Definition handleControl (body : option (string * string * string)) : M (http_reply bool) :=
  match body with
  | None => done! (HErr 400 "invalid json")
  | Some (action, state, download_state) =>
      let desired := desired_action action state download_state in
      if decide (desired = "pause" ∨ desired = "resume") then
        let run := bool_decide (desired = "resume") in
        do! _ := modify (SetRunning run) in
        do! _ := o_reg (SetPaused (negb run)) in
        do! running := ask o_running in
        do! reg_paused := ask_reg paused false in
        done! (HOk 200 (negb running || reg_paused))
      else done! (HErr 400 "action must be pause or resume")
  end.

Definition regerr_text (e : regerr) : string :=
  match e with
  | ErrQueueFull => "task queue is full" | ErrIDConflict => "task id already exists with different input"
  | ErrTaskActive => "task is currently active" | ErrTaskNotFound => "task not found" | ErrInvalid t => t
  | ErrDecider => ""                                       (* not returned: every task has a cell *)
  end.
(** Without a registry the handler crashes, which closes the connection. *)
Definition post_task (body : option TaskRequest) (nano : Z) : M (option (http_reply (option TaskSnapshot))) :=
  match body with
  | None => done! (Some (HErr 400 "invalid json"))
  | Some req => λ o,
      match w_reg (o_world o) with
      | None => (None, o)
      | Some r =>
          let (x, r') := Submit req nano r in
          let o := with_world (World.World (w_fs (o_world o)) (w_sql (o_world o)) (Some r')) o in
          match x with
          | Err e => (Some (HErr (match e with ErrQueueFull => 429 | ErrIDConflict => 409 | _ => 400 end) (regerr_text e)), o)
          | Ok (snap, created) =>
              (do! _ := o_db (EnsureDownloadRecord (Peer req, MessageID req) (FinalPath req) (ExpectedSize req) (nano / ns_per_s)) in
               done! (Some (HOk (if created : bool then 202 else 200) snap))) o
          end
      end
  end.

Definition conflicts_resolve (chatID : string) (messageID nano : Z) : M (http_reply unit) :=
  if decide (chatID = "" ∨ messageID = 0) then done! (HErr 400 "chat_id and message_id are required")
  else
    do! x := resolve_conflict (chatID, messageID) nano in
    done! match x with
          | Ok _ => HOk 200 tt
          | Err (inl ErrQueueFull) => HErr 429 "task queue is full"
          | Err (inl ErrTaskActive) => HErr 409 "task is currently active"
          | Err (inr ErrConflictRecordNotFound) => HErr 404 "conflict record not found"
          | Err (inl e) => HErr 500 (regerr_text e)
          | Err (inr e) => HErr 500 (dberr_text e)
          end.

Definition handleConcurrencySettings (method : string) (body : option Z) : M (http_reply Z) :=
  if decide (method = "GET") then do! m := ask o_transfer in done! (HOk 200 (FileConcurrency (Some m)))
  else if decide (method ≠ "POST") then done! (HErr 405 "method not allowed")
  else match body with
       | None => done! (HErr 400 "invalid json")
       | Some n =>
           if (n <? 1) || (64 <? n) then done! (HErr 400 "max_active_files must be between 1 and 64")
           else λ o,
             match SetFileConcurrency (Some (o_transfer o)) n with
             | (Err e, _) => (HErr 400 e, o)
             | (Ok _, Some m) => (HOk 200 n, with_transfer m o)
             | (Ok _, None) => (HOk 200 n, o)
             end
       end.

(** ** Targets *)

Record UpdateSingleTargetRequestDTO := UpdateReq {
  up_ChatID : string;
  up_Enabled : option bool;
  up_Priority : option Z;
  up_LastReadMessageID : option Z;
  up_DownloadFilter : option string;
  up_UploadTelegramChatID : option string;
  up_Title : string;
  up_Username : string;
  up_Type : string;
}.

(** Cancels the tasks of the disabled targets of a list. [order] is the order of the range
    over the registry's map. *)
Fixpoint cancel_disabled (l : list ListenTarget) (order : list string) (nano : Z) : M unit :=
  match l with
  | [] => done! tt
  | t :: l =>
      do! _ := if lt_Enabled t then done! tt else CancelTasksByChatID (lt_ChatID t) order nano in
      cancel_disabled l order nano
  end.
Definition d_db {A} (m : DB A) : SM sst (res dberr A) := on_daemon (o_db m).

Definition get_targets : SM sst (http_reply (list ListenTarget)) :=
  do! l := d_db GetListenTargets in
  done! match l with Ok l => HOk 200 l | Err e => HErr 500 (dberr_text e) end.
(** [body] is the decoded list or the message of the refusal. *)
Definition post_targets (body : res string (list ListenTarget)) (order : list string) (nano : Z) : SM sst (http_reply (list ListenTarget)) :=
  match body with
  | Err msg => done! (HErr 400 msg)
  | Ok l =>
      do! r := d_db (SaveListenTargets l (nano / ns_per_s)) in
      match r with
      | Err e => done! (HErr 500 (dberr_text e))
      | Ok _ =>
          do! _ := on_daemon (cancel_disabled l order nano) in
          do! _ := refreshTargetCache in
          do! saved := d_db GetListenTargets in
          done! (HOk 200 (match saved with Ok l => l | Err _ => [] end))
      end
  end.

(** A name is resolved first, and fills the fields that are not given. [info] is the answer
    of [ResolvePeerInfo], [None] for an error or without a client. *)
Definition canonical_item (info : option DialogDTO) (i : UpdateSingleTargetRequestDTO) : string * UpdateSingleTargetRequestDTO :=
  match (if HasPrefix (up_ChatID i) "@" then info else None) with
  | Some d =>
      if decide (dd_ChatID d = "") then (up_ChatID i, i)
      else (dd_ChatID d, UpdateReq (up_ChatID i) (up_Enabled i) (up_Priority i) (up_LastReadMessageID i) (up_DownloadFilter i)
                           (up_UploadTelegramChatID i) (or_else (up_Title i) (dd_Title d)) (or_else (up_Username i) (dd_Username d))
                           (or_else (up_Type i) (dd_Type d)))
  | None => (up_ChatID i, i)
  end.
Definition new_target (chatID : string) (i : UpdateSingleTargetRequestDTO) : ListenTarget :=
  Target chatID false (up_Title i) (up_Username i) (up_Type i) "" "" 0 0 0 0 0.
Definition apply_item (i : UpdateSingleTargetRequestDTO) (t : ListenTarget) : ListenTarget :=
  Target (lt_ChatID t) (default (lt_Enabled t) (up_Enabled i)) (or_else (up_Title i) (lt_Title t))
    (or_else (up_Username i) (lt_Username t)) (lt_ChatType t) (default (lt_DownloadFilter t) (up_DownloadFilter i))
    (default (lt_UploadTelegramChatID t) (up_UploadTelegramChatID i)) (default (lt_Priority t) (up_Priority i))
    (default (lt_LastReadMessageID t) (up_LastReadMessageID i)) (lt_CreatedAt t) (lt_UpdatedAt t) (lt_Revision t).
(** The target as the list shows it, or a fresh one. *)
Definition current_target (l : list ListenTarget) (chatID : string) (i : UpdateSingleTargetRequestDTO) : ListenTarget :=
  default (new_target chatID i) (find (λ t, bool_decide (lt_ChatID t = chatID)) l).
(** The error of reading the targets is dropped. *)
Definition handleUpdateSingleTarget (body : option UpdateSingleTargetRequestDTO) (info : option DialogDTO) (order : list string) (nano : Z)
    : SM sst (http_reply ListenTarget) :=
  match body with
  | None => done! (HErr 400 "invalid json")
  | Some item =>
      if decide (up_ChatID item = "") then done! (HErr 400 "chat_id is required")
      else
        let (chatID, item) := canonical_item info item in
        do! l := d_db GetListenTargets in
        let t := apply_item item (current_target (match l with Ok l => l | Err _ => [] end) chatID item) in
        do! r := d_db (SaveSingleListenTarget t (nano / ns_per_s)) in
        match r with
        | Err e => done! (HErr 500 (dberr_text e))
        | Ok _ =>
            do! _ := on_daemon (cancel_disabled [t] order nano) in
            do! _ := refreshTargetCache in
            done! (HOk 200 t)
        end
  end.

(** [ID] is the chat, the three flags are one, and so are the three times of messages and
    scans. *)
Record TargetDialogDTO := TDialog {
  td_ChatID : string; td_Title : string; td_Username : string; td_Type : string; td_Pinned : bool; td_UnreadCount : Z;
  td_TopMessageID : Z; td_LastReadMessageID : Z; td_Enabled : bool; td_Priority : Z; td_DownloadFilter : string;
  td_UploadTelegramChatID : string; td_LastMessageAt : Z; td_UpdatedAt : Z;
}.
Definition added_target (d : DialogDTO) : ListenTarget :=
  Target (dd_ChatID d) true (dd_Title d) (dd_Username d) (dd_Type d) "" "" 0 (dd_TopMessageID d) 0 0 0.
(** [info] is the answer to the first of the three texts that is not empty. *)
Definition handleAddTarget (body : option (string * string * string)) (info : option (string → res string DialogDTO)) (nano : Z)
    : SM sst (http_reply TargetDialogDTO) :=
  match body, info with
  | None, _ => done! (HErr 400 "invalid json")
  | _, None => done! (HErr 503 "telegram access not available")
  | Some (query, target, chatID), Some resolve =>
      match resolve (or_else (or_else query target) chatID) with
      | Err e => done! (HErr 400 e)
      | Ok d =>
          do! r := d_db (SaveSingleListenTarget (added_target d) (nano / ns_per_s)) in
          match r with
          | Err e => done! (HErr 500 ("failed to save listen target: " +:+ dberr_text e))
          | Ok _ =>
              do! _ := refreshTargetCache in
              done! (HOk 200 (TDialog (dd_ChatID d) (dd_Title d) (dd_Username d) (dd_Type d) false 0 (dd_TopMessageID d)
                                (dd_TopMessageID d) true 0 "" "" 0 (nano / ns_per_s)))
          end
      end
  end.

(** ** Dialogs *)

(** [SELECT COALESCE(MAX(c), 0) FROM chat_messages WHERE chat_id = ?], 0 when it fails. *)
Definition max_of (l : list Z) : Z := match l with [] => 0 | x :: l => foldl Z.max x l end.
Definition max_message (f : key * message_row → Z) (chatID : string) : SM sst Z :=
  do! r := d_db (query (λ d, max_of (f <$> chat_rows (λ _, true) chatID d))) in
  done! match r with Ok n => n | Err _ => 0 end.
Definition decorate (raw : list DialogDTO) (t : ListenTarget) : SM sst TargetDialogDTO :=
  do! c := d_db (GetScanCursorWithTime (lt_ChatID t)) in
  let cursor := match c with Ok ct => ct.1 | Err _ => 0 end in
  do! at_ := max_message (λ m, date m.2) (lt_ChatID t) in
  let at_ := if at_ =? 0 then lt_UpdatedAt t else at_ in
  do! top :=
    match find (λ d, bool_decide (dd_ChatID d = lt_ChatID t)) (rev raw) with
    | Some d => if 0 <? dd_TopMessageID d then done! (dd_TopMessageID d) else max_message (λ m, m.1.2) (lt_ChatID t)
    | None => max_message (λ m, m.1.2) (lt_ChatID t)
    end in
  let top := if top =? 0 then if 0 <? cursor then cursor else if 0 <? lt_LastReadMessageID t then lt_LastReadMessageID t else 0 else top in
  done! (TDialog (lt_ChatID t) (lt_Title t) (lt_Username t) (lt_ChatType t) false 0 top cursor (lt_Enabled t) (lt_Priority t)
           (lt_DownloadFilter t) (lt_UploadTelegramChatID t) at_ (lt_UpdatedAt t)).
Fixpoint decorate_all (raw : list DialogDTO) (l : list ListenTarget) : SM sst (list TargetDialogDTO) :=
  match l with
  | [] => done! []
  | t :: l => do! x := decorate raw t in do! xs := decorate_all raw l in done! (x :: xs)
  end.
Fixpoint unconfigured (seen : gset string) (raw : list DialogDTO) : list TargetDialogDTO :=
  match raw with
  | [] => []
  | d :: raw =>
      if decide (dd_ChatID d ∈ seen) then unconfigured seen raw
      else TDialog (dd_ChatID d) (dd_Title d) (dd_Username d) (dd_Type d) (dd_Pinned d) (dd_UnreadCount d) (dd_TopMessageID d) 0 false 0
             "" "" 0 0 :: unconfigured ({[dd_ChatID d]} ∪ seen) raw
  end.
(** [dialogs] is the answer of [GetDialogs]; it is asked for only to refresh or when there
    are no targets. *)
Definition handleDialogs (refresh : bool) (dialogs : option (res string (list DialogDTO))) : SM sst (http_reply (list TargetDialogDTO)) :=
  do! l := d_db GetListenTargets in
  match l with
  | Err e => done! (HErr 500 (dberr_text e))
  | Ok targets =>
      let asked := if refresh || bool_decide (targets = []) then dialogs else None in
      match asked, refresh with
      | Some (Err e), true => done! (HErr 500 e)
      | _, _ =>
          let raw := match asked with Some (Ok raw) => raw | _ => [] end in
          do! xs := decorate_all raw targets in
          done! (HOk 200 (xs ++ unconfigured (list_to_set (lt_ChatID <$> targets)) raw))
      end
  end.

(** ** Progress and context *)

Record TargetProgressItemDTO := PItem {
  pi_ChatID : string; pi_Title : string; pi_Enabled : bool; pi_LastReadMessageID : Z; pi_ScanStatus : string; pi_ScanError : string;
  pi_Stat : TargetProgressStat;
}.
Fixpoint progress_items (stats : gmap string TargetProgressStat) (l : list ListenTarget) : SM sst (list TargetProgressItemDTO) :=
  match l with
  | [] => done! []
  | t :: l =>
      do! c := d_db (GetScanCursor (lt_ChatID t)) in
      do! xs := progress_items stats l in
      done! (PItem (lt_ChatID t) (lt_Title t) (lt_Enabled t) (match c with Ok n => n | Err _ => 0 end)
               (match c with Ok _ => "ok" | Err _ => "error" end) (match c with Ok _ => "" | Err e => dberr_text e end)
               (default zero_stat (stats !! lt_ChatID t)) :: xs)
  end.
Definition handleTargetProgress : SM sst (http_reply (list TargetProgressItemDTO)) :=
  do! l := d_db GetListenTargets in
  match l with
  | Err e => done! (HErr 500 (dberr_text e))
  | Ok targets =>
      do! s := d_db GetTargetProgressStats in
      match s with
      | Err e => done! (HErr 500 ("failed to get target progress stats: " +:+ dberr_text e))
      | Ok stats => do! xs := progress_items stats targets in done! (HOk 200 xs)
      end
  end.

(** The limits of a context: [limit] and the explicit halves are [None] when absent or not
    numbers. *)
Definition positive (o : option Z) (d : Z) : Z := match o with Some n => if 0 <? n then n else d | None => d end.
Definition context_limits (limit before after : option Z) : Z * Z :=
  let limit := Z.min 100 (positive limit 30) in
  (positive before (limit / 2), positive after (limit - limit / 2)).
Definition context_request (chatID : string) (mid before after : Z) : HistoryRequest := History chatID (mid + after) (before + after) true.
Definition message_of_dto (m : MessageDTO) : ChatMessage :=
  Msg (md_ChatID m) (md_ID m) (md_SenderID m) "" (md_Text m) (md_MediaType m) (md_HasMedia m) (md_ReplyToMessageID m) (md_Date m)
    (md_FileName m) (md_FileSize m).
Fixpoint ingest_all (l : list MessageDTO) (now : Z) : SM sst unit :=
  match l with
  | [] => done! tt
  | m :: l => do! _ := d_db (IngestMessage (message_of_dto m) now) in ingest_all l now
  end.
(** [history] answers the request for messages from Telegram, [None] without a client. *)
Definition handleChatContext (chatID : string) (mid : Z) (limit before after : option Z)
    (history : option (HistoryRequest → option (list MessageDTO))) (now : Z) : SM sst (list ChatMessage) :=
  let (lb, la) := context_limits limit before after in
  do! r := d_db (GetChatMessagesAround chatID mid lb la) in
  let stored := match r with Ok l => l | Err _ => [] end in
  match stored, history with
  | [], Some ask =>
      match ask (context_request chatID mid lb la) with
      | Some (m :: l) =>
          do! _ := ingest_all (m :: l) now in
          do! r := d_db (GetChatMessagesAround chatID mid lb la) in
          done! match r with Ok l => l | Err _ => [] end
      | _ => done! []
      end
  | _, _ => done! stored
  end.

(** ** Statements and cancellations in the daemon *)

Definition st_sql (s : sst) : sqlst := w_sql (o_world (st_daemon s)).
Definition set_sql (q : sqlst) (s : sst) : sst :=
  SSt (st_cache s) (with_world (World.World (w_fs (o_world (st_daemon s))) q (w_reg (o_world (st_daemon s)))) (st_daemon s)).
Lemma d_db_run {A} (m : DB A) s : d_db m s = ((m (st_sql s)).1, set_sql (m (st_sql s)).2 s).
Proof. unfold d_db, on_daemon, o_db, in_world, on_db, st_sql. by destruct (m _). Qed.

(** What the decider keeps of its state, cancelling keeps. *)
Lemma cancel_queued_keeps {D} (P : D → Prop) hit (dec : taskState → D → bool * D) text now :
  (∀ t d, P d → P (dec t d).2) → ∀ q h d, P d → P (cancel_queued hit dec text now q h d).2.
Proof.
  intros Hdec. induction q as [|p q IH]; intros h d Hd; cbn [cancel_queued]; [done|].
  destruct (h !! p) as [t|]; [destruct (hit t)|].
  - specialize (Hdec t d Hd). destruct (dec t d) as [ok d'], ok; cbn [snd] in Hdec; [by apply IH|].
    specialize (IH h d' Hdec). by destruct (cancel_queued _ _ _ _ _ _ _) as [[? ?] ?].
  - specialize (IH h d Hd). by destruct (cancel_queued _ _ _ _ _ _ _) as [[? ?] ?].
  - specialize (IH h d Hd). by destruct (cancel_queued _ _ _ _ _ _ _) as [[? ?] ?].
Qed.
Lemma cancel_tasks_keeps {D} (P : D → Prop) ch (dec : string → Z → string → D → bool * D) text now :
  (∀ p m g d, P d → P (dec p m g d).2) → ∀ order r d, P d → P (cancel_tasks ch dec text now order r d).2.
Proof.
  intros Hdec. induction order as [|id order IH]; intros r d Hd; cbn [cancel_tasks]; [done|].
  destruct (tasks r !! id) as [p|]; [|by apply IH]. destruct (heap r !! p) as [t|]; [|by apply IH].
  destruct (negb _ && _); [|by apply IH].
  specialize (Hdec (Peer (t_request t)) (MessageID (t_request t)) (attemptGen t) d Hd).
  destruct (dec _ _ _ d) as [ok d'], ok; by apply IH.
Qed.
Lemma cancel_by_chat_keeps {D} (P : D → Prop) ch (dec : string → Z → string → D → bool * D) order now r d :
  (∀ p m g d, P d → P (dec p m g d).2) → P d → P (CancelTasksByChatIDWithDecider ch dec order now r d).2.
Proof.
  intros Hdec Hd. unfold CancelTasksByChatIDWithDecider.
  pose proof (cancel_queued_keeps P (peer_matches ch) (λ t, dec (Peer (t_request t)) (MessageID (t_request t)) (attemptGen t))
    "target disabled by user" now ltac:(intros; by apply Hdec) (queue r) (heap r) d Hd) as Hq.
  destruct (cancel_queued _ _ _ _ _ _ _) as [[q h] d']. cbn [snd] in Hq.
  pose proof (cancel_tasks_keeps P ch dec "target disabled by user" now Hdec order (with_queue q (with_heap h r)) d' Hq) as Ht.
  by destruct (cancel_tasks _ _ _ _ _ _ _).
Qed.

(** Cancelling downloads touches neither targets nor cursors and lets no later statement
    fail. *)
Definition target_frame (d : db) (calm : bool) (q : sqlst) : Prop :=
  targets (tabs q) = targets d ∧ cursors (tabs q) = cursors d ∧ (calm = true → faults q = []).
Lemma cancel_download_frame d calm k g reason now q :
  target_frame d calm q → target_frame d calm (CancelDownload k g reason now q).2.
Proof.
  intros (Ht & Hc & Hf). unfold CancelDownload, update_record, stmt, st_bind, st_ret, st_err.
  assert (∀ d', targets d' = targets (tabs q) → cursors d' = cursors (tabs q) → target_frame d calm (Sql d' (tl (faults q)))) as Hd.
  { intros d' H1 H2. split; [cbn; congruence|]. split; [cbn; congruence|]. intros E. cbn. by rewrite (Hf E). }
  destruct (hd false (faults q)); cbn [snd]; [by apply Hd|].
  destruct (records (tabs q) !! k) as [row|]; [|destruct (_ =? 0); by apply Hd].
  destruct (bool_decide _); destruct (_ =? 0); by apply Hd.
Qed.
Lemma cancel_disabled_frame d calm order nano : ∀ l o,
  target_frame d calm (w_sql (o_world o)) → target_frame d calm (w_sql (o_world (cancel_disabled l order nano o).2)).
Proof.
  induction l as [|t l IH]; intros o Ho; [done|]. cbn [cancel_disabled]. unfold sm_bind. destruct (lt_Enabled t); [by apply IH|].
  unfold CancelTasksByChatID. destruct (w_reg (o_world o)) as [r|]; [|by apply IH].
  pose proof (cancel_by_chat_keeps (target_frame d calm) (lt_ChatID t) (cancel_decider (nano / ns_per_s)) order nano r (w_sql (o_world o))) as Hk.
  destruct (CancelTasksByChatIDWithDecider _ _ _ _ _ _) as [r' q]. apply IH. apply Hk; [|done].
  intros p m g q' Hq'. unfold cancel_decider.
  pose proof (cancel_download_frame d calm (p, m) g "target disabled by user" (nano / ns_per_s) q' Hq') as Hd.
  by destruct (CancelDownload _ _ _ _ q').
Qed.

Lemma calm_stmt {A} (f : db → A * db) q : faults q = [] → faults (stmt f q).2 = [].
Proof. intros E. unfold stmt. rewrite E. cbn. by destruct (f (tabs q)). Qed.
Lemma calm_save t now q : faults q = [] → ∃ q', SaveSingleListenTarget t now q = (Ok tt, q') ∧ faults q' = [].
Proof.
  intros E. unfold SaveSingleListenTarget, with_tx, save_one, query, exec, stmt, st_bind, st_ret. rewrite E. cbn.
  destruct (0 <? _); cbn; eauto.
Qed.
Lemma find_listed d id i : current_target (listed d) id i = default (new_target id i) (read_target d id).
Proof.
  unfold current_target. f_equal. destruct (find _ (listed d)) as [t|] eqn:E.
  - apply find_some in E as [Hin He%bool_decide_eq_true]. apply list_elem_of_In, elem_of_listed in Hin. by rewrite He in Hin.
  - destruct (read_target d id) as [t|] eqn:R; [|done].
    assert (lt_ChatID t = id) as Hid by (unfold read_target in R; apply fmap_Some in R as (x & _ & ->); apply target_of_row_id).
    assert (In t (listed d)) as Hin by (apply list_elem_of_In, elem_of_listed; by rewrite Hid).
    pose proof (find_none _ _ E t Hin) as Hn. by apply bool_decide_eq_false in Hn.
Qed.
Lemma refresh_run s :
  (refreshTargetCache s).2 = SSt (if hd false (faults (st_sql s)) then st_cache s else cache_of (listed (st_tabs s)))
    (st_daemon (set_sql (Sql (st_tabs s) (tl (faults (st_sql s)))) s)).
Proof.
  unfold refreshTargetCache, sm_bind, sm_ret. fold (d_db GetListenTargets). rewrite d_db_run.
  unfold GetListenTargets, query, stmt. by destruct (hd false (faults (st_sql s))).
Qed.

Lemma elem_of_listed_ids d id : id ∈ lt_ChatID <$> listed d ↔ is_Some (targets d !! id).
Proof.
  rewrite list_elem_of_fmap. split.
  - intros (t & -> & Ht%elem_of_listed). unfold read_target in Ht. by apply fmap_Some in Ht as (x & -> & _).
  - intros [row Hr]. exists (target_of_row d (id, row)). rewrite target_of_row_id. split; [done|].
    apply elem_of_listed. rewrite target_of_row_id. unfold read_target. cbn [fst]. by rewrite Hr.
Qed.
Lemma listed_enabled d (xs : list TargetDialogDTO) x :
  td_ChatID <$> xs = lt_ChatID <$> listed d → td_Enabled <$> xs = lt_Enabled <$> listed d → x ∈ xs → td_Enabled x = true →
  ∃ t, read_target d (td_ChatID x) = Some t ∧ lt_Enabled t = true.
Proof.
  intros H1 H2 [i Hi]%list_elem_of_lookup He.
  assert ((td_ChatID <$> xs) !! i = Some (td_ChatID x)) as Hc by by rewrite list_lookup_fmap, Hi.
  assert ((td_Enabled <$> xs) !! i = Some true) as Hb by (rewrite list_lookup_fmap, Hi; cbn; by rewrite He).
  rewrite H1, list_lookup_fmap in Hc. rewrite H2, list_lookup_fmap in Hb.
  destruct (listed d !! i) as [t|] eqn:Ht; [|done]. cbn in *. injection Hc as Hc. injection Hb as Hb.
  exists t. split; [|done]. rewrite <- Hc. apply elem_of_listed. by eapply list_elem_of_lookup_2.
Qed.

(** ** What the handlers do *)

Lemma save_single_run t now q :
  match SaveSingleListenTarget t now q with
  | (Ok _, q') => targets (tabs q') = <[lt_ChatID t := saved_target now t (targets (tabs q) !! lt_ChatID t)]> (targets (tabs q))
  | (Err _, q') => tabs q' = tabs q
  end.
Proof.
  destruct (SaveSingleListenTarget t now q) as [r q'] eqn:E. apply tx_all_or_nothing in E. destruct r as [[]|e]; [|done].
  destruct E as (f & f' & Hs%save_one_ok). cbn in Hs. by rewrite Hs, apply_save_targets.
Qed.
(** The part of the handler after the body was read. *)
Lemma update_tail t order nano s :
  let s1 := (on_daemon (cancel_disabled [t] order nano) s).2 in
  let s2 := (refreshTargetCache s1).2 in
  targets (st_tabs s2) = targets (st_tabs s) ∧
  (st_cache s2 = cache_of (listed (st_tabs s2)) ∨ st_cache s2 = st_cache s) ∧
  (faults (st_sql s) = [] → st_cache s2 = cache_of (listed (st_tabs s2))).
Proof.
  intros s1 s2. pose proof (cancel_disabled_frame (st_tabs s) (bool_decide (faults (st_sql s) = [])) order nano [t] (st_daemon s)) as Hf.
  destruct Hf as (Ht & _ & Hc); [split; [done|]; split; [done|]; by intros ?%bool_decide_eq_true|].
  assert (st_daemon s1 = (cancel_disabled [t] order nano (st_daemon s)).2 ∧ st_cache s1 = st_cache s) as [Hd Hcache]
    by (unfold s1, on_daemon; by destruct (cancel_disabled _ _ _ _)).
  unfold s2. rewrite refresh_run. unfold st_tabs, st_sql in *. cbn [st_cache st_daemon set_sql with_world o_world w_sql tabs].
  rewrite Hd in *. split; [done|]. split.
  - destruct (hd false _); [right|left]; done.
  - intros E. rewrite Hc by (by apply bool_decide_eq_true). done.
Qed.


(** Pausing: [true] is answered exactly for a pause, and then neither the scan nor the
    dispatcher starts anything until a resume. *)
Theorem pause_stops_the_daemon (action state download_state : string) (o o' : ost) (st : Z) (b : bool) :
  handleControl (Some (action, state, download_state)) o = (HOk st b, o') →
  (b = true ↔ desired_action action state download_state = "pause") ∧ o_running o' = negb b ∧
  (b = true → ∀ nano rec, dispatch_turn nano o' = (None, o') ∧ scan_tick nano o' = (tt, o') ∧ SubmitRecord rec nano o' = (Err NotRunning, o')).
Proof.
  unfold handleControl. case_decide as Hd; [|done]. unfold sm_bind, sm_ret, modify, ask_reg, ask. intros [= _ <- <-].
  set (a := desired_action _ _ _) in *.
  assert ((negb (bool_decide (a = "resume")) = true ↔ a = "pause")) as Ha.
  { destruct Hd as [->| ->]; vm_compute; split; congruence. }
  unfold o_reg, in_world, on_reg. cbn. destruct (w_reg (o_world o)) as [r|]; cbn; rewrite ?orb_diag, ?orb_false_r.
  all: split; [exact Ha|]; split; [by rewrite negb_involutive|]; intros Hb nano rec; apply negb_true_iff in Hb;
    unfold dispatch_turn, scan_tick, SubmitRecord, sm_bind, ask; cbn; by rewrite Hb.
Qed.

(** ** The list of dialogs *)

Lemma d_db_quiet {A} (m : DB A) s : quiet m → st_tabs (d_db m s).2 = st_tabs s ∧ st_cache (d_db m s).2 = st_cache s ∧ st_reg (d_db m s).2 = st_reg s.
Proof. intros Hm. rewrite d_db_run. unfold st_tabs, st_reg. cbn. by rewrite Hm. Qed.
Definition unchanged (s s' : sst) : Prop := st_tabs s' = st_tabs s ∧ st_cache s' = st_cache s ∧ st_reg s' = st_reg s.
Lemma unchanged_trans s1 s2 s3 : unchanged s1 s2 → unchanged s2 s3 → unchanged s1 s3.
Proof. unfold unchanged. intuition congruence. Qed.
Lemma max_message_reads f chat s : unchanged s (max_message f chat s).2.
Proof.
  unfold max_message, sm_bind, sm_ret. pose proof (d_db_quiet (query (λ d, max_of (f <$> chat_rows (λ _, true) chat d))) s) as Hq.
  destruct (d_db _ s). apply Hq, quiet_query.
Qed.
Lemma decorate_reads raw t s : ∃ x s', decorate raw t s = (x, s') ∧ unchanged s s' ∧ td_ChatID x = lt_ChatID t ∧ td_Enabled x = lt_Enabled t.
Proof.
  unfold decorate, sm_bind, sm_ret.
  pose proof (d_db_quiet (GetScanCursorWithTime (lt_ChatID t)) s (quiet_query _)) as H1. destruct (d_db _ s) as [c s1].
  pose proof (max_message_reads (λ m, date m.2) (lt_ChatID t) s1) as H2. destruct (max_message _ _ s1) as [n s2].
  pose proof (max_message_reads (λ m, m.1.2) (lt_ChatID t) s2) as H3. cbn [snd] in *.
  destruct (find _ _) as [d|]; [destruct (0 <? dd_TopMessageID d)|].
  2-3: destruct (max_message _ _ s2) as [n' s3]; cbn [snd] in H3.
  all: eexists _, _; split; [reflexivity|]; split; [|done].
  - by eapply unchanged_trans.
  - eapply unchanged_trans; [by eapply unchanged_trans|done].
  - eapply unchanged_trans; [by eapply unchanged_trans|done].
Qed.
Lemma decorate_all_reads raw : ∀ l s, ∃ xs s', decorate_all raw l s = (xs, s') ∧ unchanged s s' ∧
  td_ChatID <$> xs = lt_ChatID <$> l ∧ td_Enabled <$> xs = lt_Enabled <$> l.
Proof.
  induction l as [|t l IH]; intros s; cbn [decorate_all]; [by eexists [], s|]. unfold sm_bind, sm_ret.
  destruct (decorate_reads raw t s) as (x & s1 & -> & H1 & Hx & He). destruct (IH s1) as (xs & s2 & -> & H2 & Hxs & Hes).
  exists (x :: xs), s2. split; [done|]. split; [by eapply unchanged_trans|]. cbn. by rewrite Hx, He, Hxs, Hes.
Qed.
Lemma unconfigured_ids raw : ∀ seen,
  let l := unconfigured seen raw in
  NoDup (td_ChatID <$> l) ∧ Forall (λ x, td_Enabled x = false) l ∧
  (∀ id, id ∈ td_ChatID <$> l ↔ (id ∉ seen) ∧ id ∈ dd_ChatID <$> raw).
Proof.
  induction raw as [|d raw IH]; intros seen; cbn [unconfigured fmap list_fmap].
  { split_and!; [constructor|constructor|]. intros id. split; [by intros ?%elem_of_nil|by intros [_ ?%elem_of_nil]]. }
  case_decide as Hin.
  - destruct (IH seen) as (H1 & H2 & H3). split_and!; [done..|]. intros id. rewrite H3, elem_of_cons.
    split; [tauto|]. intros [? [->|?]]; tauto.
  - destruct (IH ({[dd_ChatID d]} ∪ seen)) as (H1 & H2 & H3). cbn [fmap list_fmap td_ChatID]. split_and!.
    + constructor; [|done]. rewrite H3. set_solver.
    + by constructor.
    + intros id. rewrite !elem_of_cons, H3. destruct (decide (id = dd_ChatID d)) as [->|]; set_solver.
Qed.

(** Listing the dialogs only reads, whatever statement fails; and a list that is answered
    shows every target and every dialog of the account once, and nothing else, with only
    the enabled targets as enabled. *)
Theorem dialogs_are_listed_once (refresh : bool) (raw : option (res string (list DialogDTO))) (s : sst) :
  let '(r, s') := handleDialogs refresh raw s in
  unchanged s s' ∧
  ∀ st l, r = HOk st l → ∃ dialogs, (raw = Some (Ok dialogs) ∨ dialogs = []) ∧
    NoDup (td_ChatID <$> l) ∧
    (∀ id, id ∈ td_ChatID <$> l ↔ is_Some (targets (st_tabs s) !! id) ∨ id ∈ dd_ChatID <$> dialogs) ∧
    (∀ x, x ∈ l → td_Enabled x = true → ∃ t, read_target (st_tabs s) (td_ChatID x) = Some t ∧ lt_Enabled t = true).
Proof.
  unfold handleDialogs, sm_bind, sm_ret. pose proof (d_db_quiet GetListenTargets s (quiet_query _)) as H1.
  assert ((d_db GetListenTargets s).1 = (if hd false (faults (st_sql s)) then Err ErrSQL else Ok (listed (st_tabs s)))) as Hr.
  { rewrite d_db_run. unfold GetListenTargets, query, stmt. by destruct (hd false _). }
  destruct (d_db GetListenTargets s) as [l0 s1]. cbn [fst snd] in *. subst l0. destruct (hd false _); [by split|].
  set (T := listed (st_tabs s)). set (asked := if refresh || bool_decide (T = []) then raw else None).
  assert (∀ dialogs, (raw = Some (Ok dialogs) ∨ dialogs = []) →
    let '(r, s') := (let (xs, s') := decorate_all dialogs T s1 in
                     (HOk 200 (xs ++ unconfigured (list_to_set (lt_ChatID <$> T)) dialogs), s')) in
    unchanged s s' ∧ ∀ st l, r = HOk st l → ∃ dialogs, (raw = Some (Ok dialogs) ∨ dialogs = []) ∧
      NoDup (td_ChatID <$> l) ∧
      (∀ id, id ∈ td_ChatID <$> l ↔ is_Some (targets (st_tabs s) !! id) ∨ id ∈ dd_ChatID <$> dialogs) ∧
      (∀ x, x ∈ l → td_Enabled x = true → ∃ t, read_target (st_tabs s) (td_ChatID x) = Some t ∧ lt_Enabled t = true)) as Hmain.
  { intros dialogs Hd. destruct (decorate_all_reads dialogs T s1) as (xs & s2 & -> & H2 & Hids & Hen).
    split; [by eapply unchanged_trans|]. intros st l [= _ <-]. exists dialogs. split; [done|].
    destruct (unconfigured_ids dialogs (list_to_set (lt_ChatID <$> T))) as (Hn & Hf & Hm).
    assert (∀ id, id ∈ lt_ChatID <$> T ↔ is_Some (targets (st_tabs s) !! id)) as HT by apply elem_of_listed_ids.
    split_and!.
    - rewrite fmap_app, Hids. apply NoDup_app. split_and!; [apply listed_ids| |done]. intros id Hin Hin2%Hm.
      destruct Hin2 as [Hin2 _]. by apply Hin2, elem_of_list_to_set.
    - intros id. rewrite fmap_app, elem_of_app, Hids, Hm, HT, elem_of_list_to_set, HT. destruct (decide (is_Some (targets (st_tabs s) !! id))); tauto.
    - intros x [Hx|Hx]%elem_of_app He; [|rewrite Forall_forall in Hf; rewrite (Hf x Hx) in He; done].
      by apply (listed_enabled _ xs). }
  destruct asked as [[d|e]|] eqn:Ea; [destruct refresh|destruct refresh; [by split|]|destruct refresh].
  - apply Hmain. left. unfold asked in Ea. by destruct (_ || _).
  - apply Hmain. left. unfold asked in Ea. by destruct (_ || _).
  - apply Hmain. by right.
  - apply Hmain. by right.
  - apply Hmain. by right.
Qed.

(** ** Places where the handlers fall short *)

Definition ex_db : db :=
  Db ∅ ∅ ∅ ∅ {["-1005" := TRow 1 "news" "" "channel" "size > 5" "-7" 3 0 0 1]} ∅.
Definition ex_state (fs : list bool) : sst :=
  SSt (cache_of (listed ex_db)) (OSt (World.World (Fscommit.Fs ∅ []) (Sql ex_db fs) (Some (NewRegistry 8 8)))
    (Fscommit.NewSSDAdmission "/" 0) (NewTransferManager 5 4) true 0 ∅ ∅ false false).
Definition ex_priority (n : Z) : UpdateSingleTargetRequestDTO := UpdateReq "-1005" None (Some n) None None None "" "" "".
(** Changing the priority of a target while the targets cannot be read disables it and drops
    its filter and its upload chat, and answers with success. *)
Example read_error_resets_target :
  match handleUpdateSingleTarget (Some (ex_priority 4)) None [] 0 (ex_state [true]) with
  | (HOk 200 t, s') => lt_Enabled t = false ∧ targets (st_tabs s') !! "-1005" = Some (TRow 0 "news" "" "channel" "" "" 4 0 0 2)
  | _ => False
  end.
Proof. vm_compute. done. Qed.
(** Without the failure only the priority changes. *)
Example priority_update :
  match handleUpdateSingleTarget (Some (ex_priority 4)) None [] 0 (ex_state []) with
  | (HOk 200 t, s') => targets (st_tabs s') !! "-1005" = Some (TRow 1 "news" "" "channel" "size > 5" "-7" 4 0 0 2)
  | _ => False
  end.
Proof. vm_compute. done. Qed.
(** Adding a target that exists resets its priority, filter and upload chat. *)
Example added_target_loses_its_settings :
  let info := λ _, Ok (peer_info (RChannel 5 "news" "" true)) in
  match handleAddTarget (Some ("@news", "", "")) (Some info) 0 (ex_state []) with
  | (HOk 200 _, s') => targets (st_tabs s') !! "-1005" = Some (TRow 1 "news" "" "channel" "" "" 0 0 0 2)
  | _ => False
  end.
Proof. vm_compute. done. Qed.
(** The fallback of a context asks Telegram only for messages above those of the context: the
    least number of the request is the message's plus the number of later ones. *)
Example context_fallback_skips_the_message (chat : string) (mid before after : Z) :
  0 < mid → 0 < before → 0 < after → before + after <= 500 →
  history_window (context_request chat mid before after) = (mid + after, - (before + after), before + after, mid + after).
Proof.
  intros. unfold history_window, context_request, history_limit. cbn.
  destruct (Z.leb_spec (before + after) 0); [lia|]. destruct (Z.ltb_spec 500 (before + after)); [lia|].
  by destruct (Z.ltb_spec 0 (mid + after)); [|lia].
Qed.
