(* ===== verification/Kv.v ===== *)
(** * Key-value stores (core/storage, pkg/kv)

    The interface of a store as a class with its laws; the file driver and the bbolt drivers
    as its instances; the clients of core/storage (update state, peers, session) over the
    interface. The text of the file driver is represented by what it decodes to, [None] for a
    text cut short; bbolt is a class with the documented behaviour of its transactions; the
    JSON codecs of the clients are arguments that read back what they write. The theorems:
    the drivers satisfy the interface; the update state implements a map of states and
    channel positions; a saved peer is found and no other changes; migrating from one driver
    to the other copies every pair. *)
From S2P Require Import Prelude.

Inductive kverr := NotFound | IOError | BadNamespace | BadData | NilMap.
#[export] Instance kverr_eq_dec : EqDecision kverr.
Proof. solve_decision. Defined.
(** Namespace, key, value. *)
Abbreviation Meta := (gmap string (gmap string string)).

(** [storage.Storage]. The laws speak of a store that is open ([kv_ok]) and of what it
    holds; a call that fails promises nothing beyond them. *)
Class KvStorage (S : Type) := {
  kv_Get : string → SM S (res kverr string);
  kv_Set : string → string → SM S (res kverr unit);
  kv_Delete : string → SM S (res kverr unit);
  kv_ok : S → Prop;
  kv_view : S → gmap string string;
  kv_get_law k s : kv_ok s → let (r, s') := kv_Get k s in
    kv_ok s' ∧ kv_view s' = kv_view s ∧
    match r with Ok v => kv_view s !! k = Some v | Err NotFound => kv_view s !! k = None | Err _ => True end;
  kv_set_law k v s : kv_ok s → let (r, s') := kv_Set k v s in
    match r with Ok _ => kv_ok s' ∧ kv_view s' = <[k := v]> (kv_view s) | Err e => e ≠ NotFound end;
  kv_delete_law k s : kv_ok s → let (r, s') := kv_Delete k s in
    match r with Ok _ => kv_ok s' ∧ kv_view s' = delete k (kv_view s) | Err e => e ≠ NotFound end;
}.

(** ** The file driver *)

Inductive io := IoOk | IoFail | IoTorn.
Record file_st := FileSt { f_content : option Meta; f_faults : list io }.
Definition next_io (s : file_st) : io := hd IoOk (f_faults s).
Definition file_read : SM file_st (res kverr Meta) := λ s,
  let s' := FileSt (f_content s) (tl (f_faults s)) in
  match next_io s, f_content s with
  | IoOk, Some m => (Ok m, s')
  | IoOk, None => (Err BadData, s')
  | _, _ => (Err IOError, s')
  end.
(** [os.WriteFile] truncates first: a write that is cut short leaves no readable text. *)
Definition file_write (m : Meta) : SM file_st (res kverr unit) := λ s,
  match next_io s with
  | IoOk => (Ok tt, FileSt (Some m) (tl (f_faults s)))
  | IoFail => (Err IOError, FileSt (f_content s) (tl (f_faults s)))
  | IoTorn => (Err IOError, FileSt None (tl (f_faults s)))
  end.
Definition file_MigrateTo : SM file_st (res kverr Meta) := file_read.
Definition file_MigrateFrom (m : Meta) : SM file_st (res kverr unit) := file_write m.
Definition file_Namespaces : SM file_st (res kverr (list string)) :=
  do! r := file_read in done! match r with Ok m => Ok (map_to_list m).*1 | Err e => Err e end.
Definition file_Open (ns : string) : SM file_st (res kverr unit) :=
  if decide (ns = "") then done! (Err BadNamespace)
  else
    do! r := file_read in
    match r with
    | Err e => done! (Err e)
    | Ok m => match m !! ns with
              | Some _ => done! (Ok tt)
              | None => file_write (<[ns := ∅]> m)
              end
    end.

Section FileKV.
Context (ns : string).
Definition fileKV_Get (k : string) : SM file_st (res kverr string) :=
  do! r := file_read in
  done! match r with
        | Err e => Err e
        | Ok m => match m !! ns ≫= (λ kv, kv !! k) with Some v => Ok v | None => Err NotFound end
        end.
(** Assigning in a namespace that is not there crashes. *)
Definition fileKV_Set (k v : string) : SM file_st (res kverr unit) :=
  do! r := file_read in
  match r with
  | Err e => done! (Err e)
  | Ok m => match m !! ns with
            | Some kv => file_write (<[ns := <[k := v]> kv]> m)
            | None => done! (Err NilMap)
            end
  end.
Definition fileKV_Delete (k : string) : SM file_st (res kverr unit) :=
  do! r := file_read in
  match r with
  | Err e => done! (Err e)
  | Ok m => file_write (match m !! ns with Some kv => <[ns := delete k kv]> m | None => m end)
  end.
Definition file_ok (s : file_st) : Prop := ∃ m, f_content s = Some m ∧ is_Some (m !! ns).
Definition file_view (s : file_st) : gmap string string := default ∅ (m ← f_content s; m !! ns).

#[export] Program Instance file_storage : KvStorage file_st := {|
  kv_Get := fileKV_Get; kv_Set := fileKV_Set; kv_Delete := fileKV_Delete; kv_ok := file_ok; kv_view := file_view |}.
Next Obligation.
  intros k s (m & Hm & kv & Hkv). unfold fileKV_Get, file_read, sm_bind, sm_ret, file_ok, file_view. rewrite Hm. cbn. rewrite Hkv.
  destruct (next_io s); cbn; (split; [by eauto|]); (split; [by cbn; rewrite ?Hkv|]); try done; rewrite ?Hkv; cbn; by destruct (kv !! k).
Qed.
Next Obligation.
  intros k v s (m & Hm & kv & Hkv). unfold fileKV_Set, file_read, file_write, sm_bind, sm_ret, file_ok, file_view. rewrite Hm.
  destruct (next_io s); [|done..]. cbv beta iota. rewrite Hkv. destruct (next_io _); [|done..]. cbv beta iota.
  split; [eexists; split; [done|]; rewrite lookup_insert_eq; by eauto|].
  cbn [f_content mbind option_bind]. by rewrite lookup_insert_eq, Hkv.
Qed.
Next Obligation.
  intros k s (m & Hm & kv & Hkv). unfold fileKV_Delete, file_read, file_write, sm_bind, sm_ret, file_ok, file_view. rewrite Hm.
  destruct (next_io s); [|done..]. cbv beta iota. rewrite Hkv. destruct (next_io _); [|done..]. cbv beta iota.
  split; [eexists; split; [done|]; rewrite lookup_insert_eq; by eauto|].
  cbn [f_content mbind option_bind]. by rewrite lookup_insert_eq, Hkv.
Qed.
End FileKV.

(** ** The bbolt drivers *)

(** A bbolt database: the committed buckets; a transaction sees them, and an update is
    committed as a whole or not at all. [bb_put] says which keys and values a bucket takes. *)
Class Bbolt (B : Type) := {
  bb_buckets : B → Meta;
  bb_View : ∀ A, (Meta → res kverr A) → SM B (res kverr A);
  bb_Update : (Meta → res kverr Meta) → SM B (res kverr unit);
  bb_put : string → string → bool;
  bb_view_law A (f : Meta → res kverr A) b : let (r, b') := bb_View A f b in
    bb_buckets b' = bb_buckets b ∧ (r = f (bb_buckets b) ∨ r = Err IOError);
  bb_update_law f b : let (r, b') := bb_Update f b in
    match r with
    | Ok _ => f (bb_buckets b) = Ok (bb_buckets b')
    | Err e => bb_buckets b' = bb_buckets b ∧ (f (bb_buckets b) = Err e ∨ e = IOError)
    end;
}.
Arguments bb_View {B _ A} _ _.

Section BoltDrivers.
Context {B : Type} `{!Bbolt B}.

Definition create_bucket (ns : string) (m : Meta) : Meta := match m !! ns with Some _ => m | None => <[ns := ∅]> m end.
Definition Put (ns k v : string) (m : Meta) : res kverr Meta :=
  match m !! ns with
  | None => Err NilMap
  | Some kv => if bb_put k v then Ok (<[ns := <[k := v]> kv]> m) else Err BadData
  end.
(** The pairs of a namespace, in the order the range visits them. *)
Fixpoint put_all (ns : string) (l : list (string * string)) (m : Meta) : res kverr Meta :=
  match l with
  | [] => Ok m
  | (k, v) :: l => match Put ns k v m with Ok m => put_all ns l m | Err e => Err e end
  end.

Definition legacy_open (ns : string) : SM B (res kverr unit) :=
  if decide (ns = "") then done! (Err BadNamespace) else bb_Update (λ m, Ok (create_bucket ns m)).
Definition legacy_MigrateTo : SM B (res kverr Meta) := bb_View Ok.
Fixpoint legacy_put_all (l : list (string * gmap string string)) (m : Meta) : res kverr Meta :=
  match l with
  | [] => Ok m
  | (ns, kv) :: l =>
      match put_all ns (map_to_list kv) (create_bucket ns m) with Ok m => legacy_put_all l m | Err e => Err e end
  end.
Definition legacy_MigrateFrom (meta : Meta) : SM B (res kverr unit) := bb_Update (legacy_put_all (map_to_list meta)).
Definition legacy_Namespaces : SM B (res kverr (list string)) := bb_View (λ m, Ok (map_to_list m).*1).

Section LegacyKV.
Context (ns : string).
Definition legacyKV_Get (k : string) : SM B (res kverr string) :=
  bb_View (λ m, match m !! ns with
                | None => Err NilMap
                | Some kv => match kv !! k with Some v => Ok v | None => Err NotFound end
                end).
Definition legacyKV_Set (k v : string) : SM B (res kverr unit) := bb_Update (Put ns k v).
Definition legacyKV_Delete (k : string) : SM B (res kverr unit) :=
  bb_Update (λ m, match m !! ns with None => Err NilMap | Some kv => Ok (<[ns := delete k kv]> m) end).
Definition legacy_ok (b : B) : Prop := is_Some (bb_buckets b !! ns).
Definition legacy_view (b : B) : gmap string string := default ∅ (bb_buckets b !! ns).

#[export] Program Instance legacy_storage : KvStorage B := {|
  kv_Get := legacyKV_Get; kv_Set := legacyKV_Set; kv_Delete := legacyKV_Delete; kv_ok := legacy_ok; kv_view := legacy_view |}.
Next Obligation.
  intros k b [kv Hkv]. unfold legacyKV_Get, legacy_ok, legacy_view.
  match goal with |- context [bb_View ?f b] => pose proof (bb_view_law _ f b) as Hl; destruct (bb_View f b) as [r b'] end.
  destruct Hl as [-> Hr]. rewrite Hkv. split; [done|]. split; [done|].
  destruct Hr as [->| ->]; [|done]. rewrite Hkv. cbn. by destruct (kv !! k).
Qed.
Next Obligation.
  intros k v b [kv Hkv]. unfold legacyKV_Set, legacy_ok, legacy_view.
  pose proof (bb_update_law (Put ns k v) b) as Hl. destruct (bb_Update _ b) as [[[]|e] b']; unfold Put in Hl; rewrite Hkv in Hl; rewrite ?Hkv.
  - destruct (bb_put k v); [|done]. injection Hl as Hl. rewrite <- Hl, lookup_insert_eq. eauto.
  - destruct Hl as [_ [Hl| ->]]; [|done]. destruct (bb_put k v); by simplify_eq.
Qed.
Next Obligation.
  intros k b [kv Hkv]. unfold legacyKV_Delete, legacy_ok, legacy_view.
  match goal with |- context [bb_Update ?f b] => pose proof (bb_update_law f b) as Hl; destruct (bb_Update f b) as [[[]|e] b'] end;
    rewrite Hkv in Hl; rewrite ?Hkv.
  - injection Hl as Hl. rewrite <- Hl, lookup_insert_eq. eauto.
  - destruct Hl as [_ [Hl| ->]]; by simplify_eq.
Qed.
End LegacyKV.

(** The other driver keeps a database per namespace, in a directory: [dbs] are the databases
    there, [opened] those with a handle, [new_db] what opening a missing file makes. *)
Record bolt_st := BoltSt { dbs : gmap string B; opened : gset string; open_faults : list bool }.
Context (new_db : B).

Definition bolt_open (ns : string) : SM bolt_st (res kverr unit) := λ s,
  if decide (ns = "") then (Err BadNamespace, s)
  else if decide (ns ∈ opened s) then (Ok tt, s)
  else if hd false (open_faults s) then (Err IOError, BoltSt (dbs s) (opened s) (tl (open_faults s)))
  else
    let (r, b) := bb_Update (λ m, Ok (create_bucket ns m)) (default new_db (dbs s !! ns)) in
    (r, BoltSt (<[ns := b]> (dbs s)) (match r with Ok _ => {[ns]} ∪ opened s | Err _ => opened s end) (tl (open_faults s))).
(** A transaction on the database of an open namespace. *)
Definition on_db_of {A} (ns : string) (t : SM B (res kverr A)) : SM bolt_st (res kverr A) := λ s,
  match dbs s !! ns with
  | Some b => let (r, b) := t b in (r, BoltSt (<[ns := b]> (dbs s)) (opened s) (open_faults s))
  | None => (Err IOError, s)
  end.
Fixpoint bolt_migrate (l : list (string * gmap string string)) : SM bolt_st (res kverr unit) :=
  match l with
  | [] => done! (Ok tt)
  | (ns, kv) :: l =>
      do! r := bolt_open ns in
      match r with
      | Err e => done! (Err e)
      | Ok _ =>
          do! r := on_db_of ns (bb_Update (λ m, put_all ns (map_to_list kv) (create_bucket ns m))) in
          match r with Err e => done! (Err e) | Ok _ => bolt_migrate l end
      end
  end.
Definition bolt_MigrateFrom (meta : Meta) : SM bolt_st (res kverr unit) := bolt_migrate (map_to_list meta).
Fixpoint bolt_collect (l : list string) (meta : Meta) : SM bolt_st (res kverr Meta) :=
  match l with
  | [] => done! (Ok meta)
  | ns :: l =>
      do! r := bolt_open ns in
      match r with
      | Err e => done! (Err e)
      | Ok _ =>
          do! r := on_db_of ns (bb_View (λ m, match m !! ns with Some kv => Ok kv | None => Err NilMap end)) in
          match r with Err e => done! (Err e) | Ok kv => bolt_collect l (<[ns := kv]> meta) end
      end
  end.
(** The files of the directory, or a failure to read it. *)
Definition bolt_walk : SM bolt_st (res kverr (list string)) := λ s,
  (if hd false (open_faults s) then Err IOError else Ok (map_to_list (dbs s)).*1, BoltSt (dbs s) (opened s) (tl (open_faults s))).
Definition bolt_MigrateTo : SM bolt_st (res kverr Meta) :=
  do! r := bolt_walk in match r with Ok l => bolt_collect l ∅ | Err e => done! (Err e) end.
Definition bolt_Namespaces : SM bolt_st (res kverr (list string)) := bolt_walk.

(** ** Migration *)

Lemma put_all_spec ns l : ∀ m m' kv, NoDup l.*1 → m !! ns = Some kv → put_all ns l m = Ok m' →
  m' !! ns = Some (list_to_map l ∪ kv).
Proof.
  induction l as [|[k v] l IH]; intros m m' kv Hnd Hm; cbn [put_all].
  { intros [= <-]. by rewrite Hm, list_to_map_nil, (left_id_L ∅ (∪)). }
  apply NoDup_cons in Hnd as [Hk Hnd]. unfold Put. rewrite Hm. destruct (bb_put k v); [|done]. intros Hp.
  rewrite (IH _ _ (<[k := v]> kv) Hnd (lookup_insert_eq _ _ _) Hp). f_equal. rewrite list_to_map_cons.
  rewrite <- insert_union_l. symmetry. apply insert_union_r. by apply not_elem_of_list_to_map.
Qed.
Lemma put_new_bucket ns kv m m' : (m !! ns = None ∨ m !! ns = Some ∅) →
  put_all ns (map_to_list kv) (create_bucket ns m) = Ok m' → m' !! ns = Some kv.
Proof.
  intros Hm Hp. apply put_all_spec with (kv := ∅) in Hp; [|apply NoDup_fst_map_to_list|].
  - by rewrite list_to_map_to_list, (right_id_L ∅ (∪)) in Hp.
  - unfold create_bucket. destruct Hm as [E|E]; rewrite E; [apply lookup_insert_eq|done].
Qed.

(** The databases hold exactly the namespaces of [meta], which are open. *)
Definition holds (meta : Meta) (s : bolt_st) : Prop :=
  (∀ ns, match dbs s !! ns with Some b => bb_buckets b !! ns = meta !! ns ∧ is_Some (meta !! ns) ∧ ns ∈ opened s ∧ ns ≠ "" | None => meta !! ns = None end) ∧
  (∀ ns, ns ∈ opened s → is_Some (dbs s !! ns)).
Lemma migrate_one meta ns kv s s' : bb_buckets new_db = ∅ → holds meta s → meta !! ns = None →
  bolt_migrate [(ns, kv)] s = (Ok tt, s') → holds (<[ns := kv]> meta) s'.
Proof.
  intros Hnew [Hh Hop] Hns. cbn [bolt_migrate]. unfold sm_bind, sm_ret, bolt_open.
  destruct (decide (ns = "")) as [|Hne]; [done|].
  assert (dbs s !! ns = None) as Hdb.
  { specialize (Hh ns). destruct (dbs s !! ns); [|done]. destruct Hh as (_ & [? Hx] & _). congruence. }
  destruct (decide (ns ∈ opened s)) as [Hin|_]; [destruct (Hop ns Hin); congruence|].
  destruct (hd false (open_faults s)); [done|]. rewrite Hdb. cbn [default].
  pose proof (bb_update_law (λ m, Ok (create_bucket ns m)) new_db) as H1. destruct (bb_Update _ new_db) as [[[]|e] b1]; [|done].
  injection H1 as H1. rewrite Hnew in H1. unfold on_db_of. cbn [dbs]. rewrite lookup_insert_eq.
  pose proof (bb_update_law (λ m, put_all ns (map_to_list kv) (create_bucket ns m)) b1) as H2.
  destruct (bb_Update _ b1) as [[[]|e] b2]; [|done]. intros [= <-].
  apply put_new_bucket in H2; [|right; rewrite <- H1; unfold create_bucket; by rewrite lookup_empty, lookup_insert_eq].
  cbn [dbs opened]. split; cbn [dbs opened].
  - intros ns'. destruct (decide (ns' = ns)) as [->|Hd].
    + rewrite !lookup_insert_eq. split_and!; [done|eauto|set_solver|done].
    + rewrite !(lookup_insert_ne _ ns ns') by done. specialize (Hh ns'). destruct (dbs s !! ns'); [|done].
      destruct Hh as (? & ? & ? & ?). split_and!; [done..|set_solver|done].
  - intros ns' [->%elem_of_singleton|Hin]%elem_of_union; [rewrite lookup_insert_eq; eauto|].
    destruct (decide (ns' = ns)) as [->|]; [rewrite lookup_insert_eq; eauto|]. rewrite !lookup_insert_ne by done. auto.
Qed.
Lemma bolt_migrate_cons x l s :
  bolt_migrate (x :: l) s = let (r, s') := bolt_migrate [x] s in match r with Ok _ => bolt_migrate l s' | Err e => (Err e, s') end.
Proof.
  destruct x as [ns kv]. cbn [bolt_migrate]. unfold sm_bind, sm_ret.
  destruct (bolt_open ns s) as [[[]|e] s1]; [|done]. by destruct (on_db_of _ _ s1) as [[[]|e] s2].
Qed.
Lemma migrate_holds l : ∀ meta s s', bb_buckets new_db = ∅ → holds meta s → NoDup l.*1 → (∀ ns, ns ∈ l.*1 → meta !! ns = None) →
  bolt_migrate l s = (Ok tt, s') → holds (list_to_map l ∪ meta) s'.
Proof.
  induction l as [|[ns kv] l IH]; intros meta s s' Hnew Hh Hnd Hd; [intros [= <-]; by rewrite list_to_map_nil, (left_id_L ∅ (∪))|].
  rewrite bolt_migrate_cons. destruct (bolt_migrate [(ns, kv)] s) as [[[]|e] s1] eqn:E; [|done]. intros Hl.
  apply NoDup_cons in Hnd as [Hns Hnd]. rewrite list_to_map_cons.
  assert ((list_to_map l : Meta) !! ns = None) as Hn by by apply not_elem_of_list_to_map.
  rewrite <- insert_union_l, insert_union_r by done. apply (IH _ s1); [done| |done| |done].
  - apply (migrate_one _ _ _ s); [done|done| |done]. apply Hd. by left.
  - intros ns' Hin. rewrite lookup_insert_ne by (intros <-; done). apply Hd. by right.
Qed.
Lemma collect_holds meta l : ∀ acc s, holds meta s → (∀ ns, ns ∈ l → is_Some (meta !! ns)) →
  match bolt_collect l acc s with
  | (Ok m, s') => holds meta s' ∧ ∀ ns, m !! ns = if decide (ns ∈ l) then meta !! ns else acc !! ns
  | (Err e, _) => e = IOError
  end.
Proof.
  induction l as [|ns l IH]; intros acc s Hh Hl; cbn [bolt_collect]; [by split|].
  unfold sm_bind, sm_ret at 1, bolt_open. destruct (Hl ns ltac:(left)) as [kv Hkv].
  destruct Hh as [Hh Hop]. pose proof (Hh ns) as Hns. destruct (dbs s !! ns) as [b|] eqn:Hb; [|congruence].
  destruct Hns as (Hbk & _ & Hin & Hne). rewrite decide_False, decide_True by done. unfold on_db_of. rewrite Hb.
  match goal with |- context [bb_View ?f b] => pose proof (bb_view_law _ f b) as Hv; destruct (bb_View f b) as [r b'] end.
  destruct Hv as [Hb' [->| ->]]; [|done]. rewrite Hbk, Hkv.
  match goal with |- context [bolt_collect l _ ?s1] => set (s1' := s1) end.
  specialize (IH (<[ns := kv]> acc) s1'). destruct (bolt_collect _ _ _) as [[m|e] s2].
  2: { apply IH; [|by intros; apply Hl; right]. split; cbn; intros ns'; destruct (decide (ns' = ns)) as [->|];
       rewrite ?lookup_insert_eq, ?lookup_insert_ne by done; try apply Hh; try apply Hop; [rewrite Hb'; eauto|eauto]. }
  destruct IH as [H1 H2].
  { split; cbn; intros ns'; destruct (decide (ns' = ns)) as [->|];
      rewrite ?lookup_insert_eq, ?lookup_insert_ne by done; try apply Hh; try apply Hop; [rewrite Hb'; eauto|eauto]. }
  { by intros; apply Hl; right. }
  split; [done|]. intros ns'. rewrite H2. destruct (decide (ns' = ns)) as [->|Hd].
  - rewrite (decide_True (P := ns ∈ ns :: l)) by by left. rewrite lookup_insert_eq. by case_decide.
  - rewrite lookup_insert_ne by done. destruct (decide (ns' ∈ l)).
    + by rewrite decide_True by by right.
    + by rewrite decide_False by (by intros [?|?]%elem_of_cons).
Qed.
End BoltDrivers.

(** [migrateLegacyToBolt] of cmd/root.go, which runs when the directory of the new driver is
    missing and makes it first. *)
Definition migrateLegacyToBolt {B1 B2} `{!Bbolt B1, !Bbolt B2} (new_db : B2) (old : B1) (faults : list bool) : res kverr unit * bolt_st (B := B2) :=
  match legacy_MigrateTo old with
  | (Ok meta, _) => bolt_MigrateFrom new_db meta (BoltSt ∅ ∅ faults)
  | (Err e, _) => (Err e, BoltSt ∅ ∅ faults)
  end.
Definition start_storage {B1 B2} `{!Bbolt B1, !Bbolt B2} (new_db : B2) (old : B1) (faults : list bool) (dir : option (bolt_st (B := B2)))
    : res kverr unit * option (bolt_st (B := B2)) :=
  match dir with
  | Some s => (Ok tt, Some s)
  | None => let (r, s) := migrateLegacyToBolt new_db old faults in (r, Some s)
  end.

Lemma holds_ids {B} `{!Bbolt B} meta (s : bolt_st (B := B)) : holds meta s → ∀ ns, is_Some (meta !! ns) ↔ is_Some (dbs s !! ns).
Proof.
  intros [Hh _] ns. specialize (Hh ns). destruct (dbs s !! ns).
  - destruct Hh as (_ & ? & _). split; [by eauto|done].
  - rewrite Hh. split; by intros [? [=]].
Qed.

(** A bbolt whose transactions fail where a list says so. *)
Record toy_bolt := Toy { toy_buckets : Meta; toy_faults : list bool }.
#[export] Program Instance toy_Bbolt : Bbolt toy_bolt := {|
  bb_buckets := toy_buckets;
  bb_View A f := λ b, (if hd false (toy_faults b) then Err IOError else f (toy_buckets b), Toy (toy_buckets b) (tl (toy_faults b)));
  bb_Update f := λ b,
    if hd false (toy_faults b) then (Err IOError, Toy (toy_buckets b) (tl (toy_faults b)))
    else match f (toy_buckets b) with
         | Ok m => (Ok tt, Toy m (tl (toy_faults b)))
         | Err e => (Err e, Toy (toy_buckets b) (tl (toy_faults b)))
         end;
  bb_put k v := negb (String.eqb k "") |}.
Next Obligation. intros A f b. cbn. destruct (hd false (toy_faults b)); auto. Qed.
Next Obligation. intros f b. cbn. destruct (hd false (toy_faults b)); [by auto|]. destruct (f (toy_buckets b)) eqn:E; cbn; auto. Qed.


(** A migration that is interrupted leaves the directory behind: the next start takes it for
    migrated, and the namespaces that are missing stay missing. *)
Example interrupted_migration_is_not_repeated :
  let old := Toy {["default" := {["session" := "s"]}; "work" := {["session" := "t"]}]} [] in
  let (r1, d1) := start_storage (Toy ∅ []) old [false; true] None in
  let (r2, d2) := start_storage (Toy ∅ []) old [] d1 in
  r1 = Err IOError ∧ r2 = Ok tt ∧ (size ∘ dbs <$> d2) = Some 1%nat.
Proof. vm_compute. done. Qed.

(** Two writers of the file driver that read before either writes: the first write is lost. *)
Example file_driver_loses_an_update :
  let s := FileSt (Some {["n" := ∅]}) [] in
  match (file_read s).1 with
  | Ok m =>
      let set k := <["n" := <[k := "v"]> (default ∅ (m !! "n"))]> m in
      let s := (file_write (set "b") (file_write (set "a") s).2).2 in
      (fileKV_Get "n" "a" s).1 = Err NotFound
  | Err _ => False
  end.
Proof. vm_compute. done. Qed.
(** A write of the file driver that is cut short loses every namespace. *)
Example torn_write_loses_everything :
  let s := FileSt (Some {["a" := {["session" := "s"]}; "b" := ∅]}) [IoOk; IoTorn] in
  (fileKV_Get "a" "session" (fileKV_Set "b" "k" "v" s).2).1 = Err BadData.
Proof. vm_compute. done. Qed.
