(* ===== verification/KvClients.v ===== *)
(** * Clients of the key-value stores (core/storage/state.go, peers.go, session.go)

    The state of the update engine, the known peers and the session, over any store that
    satisfies the interface of Kv.v. The JSON codecs are arguments that read back what they
    write. The theorems: the state storage implements a map from users to states and to
    positions of channels; the peer storage is a map, by key and by phone. *)
From S2P Require Import Prelude Peers Kv.

(** [keygen.New]. *)
Definition keygen_New (l : list string) : string := String.concat ":" l.

(** [updates.State]. *)
Record UpdState := UState { u_Pts : Z; u_Qts : Z; u_Date : Z; u_Seq : Z }.

(** [peers.Key]. *)
Record PeerKey := PKey { Prefix : string; pk_ID : Z }.
#[export] Instance PeerKey_eq_dec : EqDecision PeerKey.
Proof. solve_decision. Defined.

Lemma itoa_no_colon n : Ascii.ascii_of_nat 58 ∉ String.list_ascii_of_string (itoa n).
Proof. intros [Hd|[_ ?]]%itoa_digits; [|done]. revert Hd. rewrite list_elem_of_In. vm_compute. intuition discriminate. Qed.

Section Clients.
Context {S : Type} `{!KvStorage S}.

(** ** The state of the update engine *)

Section State.
Context (enc_state : UpdState → string) (dec_state : string → option UpdState).
Context (enc_chan : gmap Z Z → string) (dec_chan : string → option (gmap Z Z)).

Definition stateKey (user : Z) : string := keygen_New ["state"; itoa user].
Definition channelKey (user : Z) : string := keygen_New ["chan"; itoa user].
(** [Get] with the decoder of the value. *)
Definition state_Get {A} (dec : string → option A) (k : string) : SM S (res kverr A) :=
  do! r := kv_Get k in
  done! match r with
        | Err e => Err e
        | Ok b => match dec b with Some x => Ok x | None => Err BadData end
        end.
Definition GetState (user : Z) : SM S (res kverr (option UpdState)) :=
  do! r := state_Get dec_state (stateKey user) in
  done! match r with Ok x => Ok (Some x) | Err NotFound => Ok None | Err e => Err e end.
(** The channels are reset to the empty object. *)
Definition SetState (user : Z) (x : UpdState) : SM S (res kverr unit) :=
  do! r := kv_Set (stateKey user) (enc_state x) in
  match r with
  | Err e => done! (Err e)
  | Ok _ => kv_Set (channelKey user) "{}"
  end.
Definition update_state (user : Z) (f : UpdState → UpdState) : SM S (res kverr unit) :=
  do! r := state_Get dec_state (stateKey user) in
  match r with
  | Err e => done! (Err e)
  | Ok x => kv_Set (stateKey user) (enc_state (f x))
  end.
Definition SetPts (user n : Z) := update_state user (λ x, UState n (u_Qts x) (u_Date x) (u_Seq x)).
Definition SetQts (user n : Z) := update_state user (λ x, UState (u_Pts x) n (u_Date x) (u_Seq x)).
Definition SetDate (user n : Z) := update_state user (λ x, UState (u_Pts x) (u_Qts x) n (u_Seq x)).
Definition SetSeq (user n : Z) := update_state user (λ x, UState (u_Pts x) (u_Qts x) (u_Date x) n).
Definition SetDateSeq (user d n : Z) := update_state user (λ x, UState (u_Pts x) (u_Qts x) d n).
Definition GetChannelPts (user chan : Z) : SM S (res kverr (option Z)) :=
  do! r := state_Get dec_chan (channelKey user) in
  done! match r with Ok c => Ok (c !! chan) | Err NotFound => Ok None | Err e => Err e end.
Definition SetChannelPts (user chan n : Z) : SM S (res kverr unit) :=
  do! r := state_Get dec_chan (channelKey user) in
  match r with
  | Err e => done! (Err e)
  | Ok c => kv_Set (channelKey user) (enc_chan (<[chan := n]> c))
  end.
(** The channels the callback is given. *)
Definition ForEachChannels (user : Z) : SM S (res kverr (list (Z * Z))) :=
  do! r := state_Get dec_chan (channelKey user) in
  done! match r with Ok c => Ok (map_to_list c) | Err e => Err e end.

(** *** The abstract map *)

Record astate := AState { a_states : gmap Z UpdState; a_chans : gmap Z (gmap Z Z) }.
Inductive state_op := OpGet (u : Z) | OpSet (u : Z) (x : UpdState) | OpPts (u n : Z) | OpQts (u n : Z) | OpDate (u n : Z) | OpSeq (u n : Z)
  | OpDateSeq (u d n : Z) | OpGetChan (u c : Z) | OpSetChan (u c n : Z) | OpEach (u : Z).
Inductive state_reply := RUnit | RState (x : option UpdState) | RPts (n : option Z) | REach (l : list (Z * Z)).
Definition lift {A} (f : A → state_reply) (m : SM S (res kverr A)) : SM S (res kverr state_reply) :=
  do! r := m in done! match r with Ok a => Ok (f a) | Err e => Err e end.
Definition run_op (op : state_op) : SM S (res kverr state_reply) :=
  match op with
  | OpGet u => lift RState (GetState u)
  | OpSet u x => lift (λ _, RUnit) (SetState u x)
  | OpPts u n => lift (λ _, RUnit) (SetPts u n)
  | OpQts u n => lift (λ _, RUnit) (SetQts u n)
  | OpDate u n => lift (λ _, RUnit) (SetDate u n)
  | OpSeq u n => lift (λ _, RUnit) (SetSeq u n)
  | OpDateSeq u d n => lift (λ _, RUnit) (SetDateSeq u d n)
  | OpGetChan u c => lift RPts (GetChannelPts u c)
  | OpSetChan u c n => lift (λ _, RUnit) (SetChannelPts u c n)
  | OpEach u => lift REach (ForEachChannels u)
  end.
Definition alter_state (u : Z) (f : UpdState → UpdState) (a : astate) : res kverr state_reply * astate :=
  match a_states a !! u with
  | Some x => (Ok RUnit, AState (<[u := f x]> (a_states a)) (a_chans a))
  | None => (Err NotFound, a)
  end.
Definition spec_op (op : state_op) (a : astate) : res kverr state_reply * astate :=
  match op with
  | OpGet u => (Ok (RState (a_states a !! u)), a)
  | OpSet u x => (Ok RUnit, AState (<[u := x]> (a_states a)) (<[u := ∅]> (a_chans a)))
  | OpPts u n => alter_state u (λ x, UState n (u_Qts x) (u_Date x) (u_Seq x)) a
  | OpQts u n => alter_state u (λ x, UState (u_Pts x) n (u_Date x) (u_Seq x)) a
  | OpDate u n => alter_state u (λ x, UState (u_Pts x) (u_Qts x) n (u_Seq x)) a
  | OpSeq u n => alter_state u (λ x, UState (u_Pts x) (u_Qts x) (u_Date x) n) a
  | OpDateSeq u d n => alter_state u (λ x, UState (u_Pts x) (u_Qts x) d n) a
  | OpGetChan u c => (Ok (RPts (m ← a_chans a !! u; m !! c)), a)
  | OpSetChan u c n =>
      match a_chans a !! u with
      | Some m => (Ok RUnit, AState (a_states a) (<[u := <[c := n]> m]> (a_chans a)))
      | None => (Err NotFound, a)
      end
  | OpEach u => (match a_chans a !! u with Some m => Ok (REach (map_to_list m)) | None => Err NotFound end, a)
  end.

(** What the store holds for every user. *)
Definition repr (s : S) (a : astate) : Prop :=
  kv_ok s ∧ (∀ u, kv_view s !! stateKey u = enc_state <$> a_states a !! u) ∧
  (∀ u, kv_view s !! channelKey u = enc_chan <$> a_chans a !! u).

Context (dec_enc_state : ∀ x, dec_state (enc_state x) = Some x) (dec_enc_chan : ∀ c, dec_chan (enc_chan c) = Some c).
Context (enc_chan_empty : enc_chan ∅ = "{}").

Lemma stateKey_inj u v : stateKey u = stateKey v → u = v.
Proof. unfold stateKey, keygen_New. cbn. intros [= ?]. by apply itoa_inj. Qed.
Lemma channelKey_inj u v : channelKey u = channelKey v → u = v.
Proof. unfold channelKey, keygen_New. cbn. intros [= ?]. by apply itoa_inj. Qed.
Lemma stateKey_channelKey u v : stateKey u ≠ channelKey v.
Proof. unfold stateKey, channelKey, keygen_New. cbn. discriminate. Qed.

(** Reading a coded value: the abstract one, not found, or a failure of the store. *)
Lemma state_get_spec {A} (enc : A → string) (dec : string → option A) k s (o : option A) :
  (∀ x, dec (enc x) = Some x) → kv_ok s → kv_view s !! k = enc <$> o →
  ∃ r s', state_Get dec k s = (r, s') ∧ kv_ok s' ∧ kv_view s' = kv_view s ∧
    match r with Ok x => o = Some x | Err NotFound => o = None | Err _ => True end.
Proof.
  intros Hde Hok Hv. unfold state_Get, sm_bind, sm_ret. pose proof (kv_get_law k s Hok) as Hg. destruct (kv_Get k s) as [r s'].
  destruct Hg as (H1 & H2 & H3). eexists _, s'. split; [reflexivity|]. split; [done|]. split; [done|].
  destruct r as [b|e].
  - rewrite Hv in H3. destruct o as [x|]; [|done]. injection H3 as <-. by rewrite Hde.
  - destruct e; try done. rewrite Hv in H3. by destruct o.
Qed.
Lemma repr_set_state s s' a u x : repr s a → kv_ok s' → kv_view s' = <[stateKey u := enc_state x]> (kv_view s) →
  repr s' (AState (<[u := x]> (a_states a)) (a_chans a)).
Proof.
  intros (_ & H1 & H2) Hok Hv. split; [done|]. rewrite Hv. split; intros v; cbn.
  - destruct (decide (v = u)) as [->|]; [by rewrite !lookup_insert_eq|].
    rewrite !lookup_insert_ne; [apply H1|done|]. by intros ?%stateKey_inj.
  - rewrite lookup_insert_ne; [apply H2|]. apply stateKey_channelKey.
Qed.
Lemma repr_set_chan s s' a u m : repr s a → kv_ok s' → kv_view s' = <[channelKey u := enc_chan m]> (kv_view s) →
  repr s' (AState (a_states a) (<[u := m]> (a_chans a))).
Proof.
  intros (_ & H1 & H2) Hok Hv. split; [done|]. rewrite Hv. split; intros v; cbn.
  - rewrite lookup_insert_ne; [apply H1|]. intros E. by apply (stateKey_channelKey v u).
  - destruct (decide (v = u)) as [->|]; [by rewrite !lookup_insert_eq|].
    rewrite !lookup_insert_ne; [apply H2|done|]. by intros ?%channelKey_inj.
Qed.
Lemma repr_same s s' a : repr s a → kv_ok s' → kv_view s' = kv_view s → repr s' a.
Proof. intros (_ & H1 & H2) ? Hv. split; [done|]. by rewrite Hv. Qed.

(** What an operation may do: its abstract step, or fail with an error of the store. *)
Definition agrees (op : state_op) (a : astate) (r : res kverr state_reply) (s' : S) : Prop :=
  (∃ a', spec_op op a = (r, a') ∧ repr s' a') ∨ (∃ e, r = Err e ∧ e ≠ NotFound).
Lemma agrees_alter u f s a op :
  repr s a → (∀ a, spec_op op a = alter_state u f a) →
  let (r, s') := lift (λ _, RUnit) (update_state u f) s in agrees op a r s'.
Proof.
  intros Hr Hop. unfold lift, update_state, sm_bind, sm_ret, agrees. rewrite Hop. unfold alter_state.
  destruct (state_get_spec enc_state dec_state (stateKey u) s (a_states a !! u)) as (r & s1 & -> & Hok & Hv & Hm);
    [done|apply Hr|apply Hr|]. destruct r as [x|e].
  - pose proof (kv_set_law (stateKey u) (enc_state (f x)) s1 Hok) as Hs. destruct (kv_Set _ _ s1) as [[[]|e] s2]; [|by right; eauto].
    left. rewrite Hm. eexists. split; [done|]. destruct Hs as [? Hs]. eapply repr_set_state; [done..|]. by rewrite Hs, Hv.
  - destruct (decide (e = NotFound)) as [->|]; [|by right; eauto]. left. rewrite Hm. eexists. split; [done|]. by eapply repr_same.
Qed.

(** C39. The update state over any lawful store implements a map of states and channel
    positions: every operation does what the abstract one does and answers the same, errors
    for missing users included, or fails with an error of the store. *)
Theorem update_state_refines_map (op : state_op) (s : S) (a : astate) :
  repr s a → let (r, s') := run_op op s in agrees op a r s'.
Proof.
  intros Hr. destruct op as [u|u x|u n|u n|u n|u n|u d n|u c|u c n|u]; cbn [run_op]; [| |by apply agrees_alter..| | |]; unfold lift, sm_bind, sm_ret, agrees; cbn [spec_op].
  - unfold GetState, sm_bind, sm_ret.
    destruct (state_get_spec enc_state dec_state (stateKey u) s (a_states a !! u)) as (r & s1 & -> & Hok & Hv & Hm); [done|apply Hr|apply Hr|].
    destruct r as [x|[]]; try (by right; eauto); left; rewrite Hm; eexists; (split; [done|]); by eapply repr_same.
  - unfold SetState, sm_bind, sm_ret. pose proof (kv_set_law (stateKey u) (enc_state x) s (proj1 Hr)) as H1.
    destruct (kv_Set _ _ s) as [[[]|e] s1]; [|by right; eauto]. destruct H1 as [Hok1 Hv1].
    pose proof (kv_set_law (channelKey u) "{}" s1 Hok1) as H2. destruct (kv_Set _ _ s1) as [[[]|e] s2]; [|by right; eauto].
    destruct H2 as [Hok2 Hv2]. left. eexists. split; [done|]. rewrite <- enc_chan_empty in Hv2.
    assert (repr s1 (AState (<[u := x]> (a_states a)) (a_chans a))) as R1 by by apply (repr_set_state s).
    exact (repr_set_chan s1 s2 _ u ∅ R1 Hok2 Hv2).
  - unfold GetChannelPts, sm_bind, sm_ret.
    destruct (state_get_spec enc_chan dec_chan (channelKey u) s (a_chans a !! u)) as (r & s1 & -> & Hok & Hv & Hm); [done|apply Hr|apply Hr|].
    destruct r as [x|[]]; try (by right; eauto); left; rewrite Hm; eexists; (split; [done|]); by eapply repr_same.
  - unfold SetChannelPts, sm_bind, sm_ret.
    destruct (state_get_spec enc_chan dec_chan (channelKey u) s (a_chans a !! u)) as (r & s1 & -> & Hok & Hv & Hm); [done|apply Hr|apply Hr|].
    destruct r as [m|e].
    + pose proof (kv_set_law (channelKey u) (enc_chan (<[c := n]> m)) s1 Hok) as Hs. destruct (kv_Set _ _ s1) as [[[]|e] s2]; [|by right; eauto].
      left. rewrite Hm. eexists. split; [done|]. destruct Hs as [? Hs]. eapply repr_set_chan; [done..|]. by rewrite Hs, Hv.
    + destruct (decide (e = NotFound)) as [->|]; [|by right; eauto]. left. rewrite Hm. eexists. split; [done|]. by eapply repr_same.
  - unfold ForEachChannels, sm_bind, sm_ret.
    destruct (state_get_spec enc_chan dec_chan (channelKey u) s (a_chans a !! u)) as (r & s1 & -> & Hok & Hv & Hm); [done|apply Hr|apply Hr|].
    destruct r as [x|[]]; try (by right; eauto); left; rewrite Hm; eexists; (split; [done|]); by eapply repr_same.
Qed.
End State.

(** ** Peers *)

Section PeerStore.
Context {V : Type} (enc_value : V → string) (dec_value : string → option V).
Context (enc_key : PeerKey → string) (dec_key : string → option PeerKey).

Definition peer_key (k : PeerKey) : string := keygen_New ["peers"; "key"; Prefix k; itoa (pk_ID k)].
Definition phoneKey (phone : string) : string := keygen_New ["peers"; "phone"; phone].
Definition contactsKey : string := keygen_New ["peers"; "contacts"; "hash"].
(** A value by its key: [None] when there is none. *)
Definition find_coded {A} (dec : string → option A) (k : string) : SM S (res kverr (option A)) :=
  do! r := kv_Get k in
  done! match r with
        | Err NotFound => Ok None
        | Err e => Err e
        | Ok b => match dec b with Some x => Ok (Some x) | None => Err BadData end
        end.
Definition Save (k : PeerKey) (v : V) : SM S (res kverr unit) := kv_Set (peer_key k) (enc_value v).
Definition Find (k : PeerKey) : SM S (res kverr (option V)) := find_coded dec_value (peer_key k).
Definition SavePhone (phone : string) (k : PeerKey) : SM S (res kverr unit) := kv_Set (phoneKey phone) (enc_key k).
Definition FindPhone (phone : string) : SM S (res kverr (option (PeerKey * option V))) :=
  do! r := find_coded dec_key (phoneKey phone) in
  match r with
  | Err e => done! (Err e)
  | Ok None => done! (Ok None)
  | Ok (Some k) => do! r := Find k in done! match r with Ok v => Ok (Some (k, v)) | Err e => Err e end
  end.
Definition GetContactsHash : SM S (res kverr Z) :=
  do! r := kv_Get contactsKey in
  done! match r with
        | Err NotFound => Ok 0
        | Err e => Err e
        | Ok b => match ParseInt b with Some n => Ok n | None => Err BadData end
        end.
Definition SaveContactsHash (hash : Z) : SM S (res kverr unit) := kv_Set contactsKey (itoa hash).

(** *** Keys *)

Lemma join4 a b c d : keygen_New [a; b; c; d] = a +:+ ":" +:+ b +:+ ":" +:+ c +:+ ":" +:+ d.
Proof. reflexivity. Qed.
Lemma peer_key_inj k1 k2 : peer_key k1 = peer_key k2 → k1 = k2.
Proof.
  destruct k1 as [p1 n1], k2 as [p2 n2]. unfold peer_key. rewrite !join4. cbn [Prefix pk_ID].
  intros H%string_app_inj_l%string_app_inj_l%string_app_inj_l%string_app_inj_l.
  destruct (string_sep_inj (Ascii.ascii_of_nat 58) p1 p2 (itoa n1) (itoa n2)) as [-> Hn]; [by apply itoa_no_colon..|exact H|].
  by apply itoa_inj in Hn as ->.
Qed.
Lemma phoneKey_inj p1 p2 : phoneKey p1 = phoneKey p2 → p1 = p2.
Proof. unfold phoneKey, keygen_New. cbn. by intros [= ?]. Qed.
Lemma peer_key_phoneKey k p : peer_key k ≠ phoneKey p.
Proof. unfold peer_key, phoneKey, keygen_New. cbn. discriminate. Qed.

Context (dec_enc_value : ∀ v, dec_value (enc_value v) = Some v) (dec_enc_key : ∀ k, dec_key (enc_key k) = Some k).
(** What a successful search finds in the store. *)
Definition stored (s : S) (k : PeerKey) : option V := kv_view s !! peer_key k ≫= dec_value.
Lemma find_coded_spec {A} (dec : string → option A) k s : kv_ok s →
  let (r, s') := find_coded dec k s in kv_ok s' ∧ kv_view s' = kv_view s ∧ ∀ o, r = Ok o → o = (kv_view s !! k ≫= dec).
Proof.
  intros Hok. unfold find_coded, sm_bind, sm_ret. pose proof (kv_get_law k s Hok) as Hg. destruct (kv_Get k s) as [r s'].
  destruct Hg as (H1 & H2 & H3). split; [done|]. split; [done|]. intros o. destruct r as [b|e].
  - rewrite H3. cbn. destruct (dec b); [|done]. by intros [= <-].
  - destruct e; [|done..]. rewrite H3. by intros [= <-].
Qed.

(** Peers in any lawful store: after a peer is saved, a search for a key that succeeds
    finds the new value under that key and what was stored before under every other; after a
    phone is saved, a search for it that succeeds finds its key and the value stored under
    that key. *)
Theorem peer_store_is_a_map (k : PeerKey) (v : V) (phone : string) (s : S) :
  kv_ok s →
  (∀ s', Save k v s = (Ok tt, s') → ∀ k' o, (Find k' s').1 = Ok o → o = if decide (k' = k) then Some v else stored s k') ∧
  (∀ s', SavePhone phone k s = (Ok tt, s') → ∀ o, (FindPhone phone s').1 = Ok o → o = Some (k, stored s k)).
Proof.
  intros Hok. split; intros s' Hs.
  - pose proof (kv_set_law (peer_key k) (enc_value v) s Hok) as Hl. unfold Save in Hs. rewrite Hs in Hl. destruct Hl as [Hok' Hv].
    intros k' o Hf. pose proof (find_coded_spec dec_value (peer_key k') s' Hok') as Hc. unfold Find in Hf.
    destruct (find_coded dec_value _ s') as [r s2]. destruct Hc as (_ & _ & Hc). rewrite (Hc o Hf), Hv. unfold stored.
    case_decide as E; [subst k'; rewrite lookup_insert_eq; cbn; apply dec_enc_value|].
    rewrite lookup_insert_ne; [done|]. intros Hk%peer_key_inj. by apply E.
  - pose proof (kv_set_law (phoneKey phone) (enc_key k) s Hok) as Hl. unfold SavePhone in Hs. rewrite Hs in Hl. destruct Hl as [Hok' Hv].
    intros o. unfold FindPhone, sm_bind, sm_ret. pose proof (find_coded_spec dec_key (phoneKey phone) s' Hok') as Hc.
    destruct (find_coded dec_key _ s') as [[[k'|]|e] s2]; [| |done].
    + destruct Hc as (Hok2 & Hv2 & Hc). specialize (Hc _ eq_refl). rewrite Hv, lookup_insert_eq in Hc. cbn in Hc. rewrite dec_enc_key in Hc.
      injection Hc as ->. unfold Find. pose proof (find_coded_spec dec_value (peer_key k) s2 Hok2) as Hd.
      destruct (find_coded dec_value _ s2) as [[x|e] s3]; [|done]. destruct Hd as (_ & _ & Hd). specialize (Hd _ eq_refl).
      intros [= <-]. rewrite Hd, Hv2, Hv. unfold stored. rewrite lookup_insert_ne; [done|]. intros E. by apply (peer_key_phoneKey k phone).
    + destruct Hc as (_ & _ & Hc). specialize (Hc _ eq_refl). rewrite Hv, lookup_insert_eq in Hc. cbn in Hc. by rewrite dec_enc_key in Hc.
Qed.
End PeerStore.

(** ** The session *)

Definition session_key : string := keygen_New ["session"].
(** A login starts without a session. *)
Definition LoadSession (login : bool) : SM S (res kverr (option string)) :=
  if login then done! (Ok None)
  else
    do! r := kv_Get session_key in
    done! match r with Ok b => Ok (Some b) | Err NotFound => Ok None | Err e => Err e end.
Definition StoreSession (data : string) : SM S (res kverr unit) := kv_Set session_key data.
End Clients.

(** ** The clients over the drivers *)

(** Codecs that read back what they write: the digits of a number that stands for a value. *)
Fixpoint pos_text (p : positive) : string :=
  match p with xH => "" | xO p => String (Ascii.ascii_of_nat 48) (pos_text p) | xI p => String (Ascii.ascii_of_nat 49) (pos_text p) end.
Fixpoint text_pos (s : string) : option positive :=
  match s with
  | EmptyString => Some 1%positive
  | String a s => if decide (a = Ascii.ascii_of_nat 48) then xO <$> text_pos s
                  else if decide (a = Ascii.ascii_of_nat 49) then xI <$> text_pos s else None
  end.
Lemma text_pos_text p : text_pos (pos_text p) = Some p.
Proof. induction p as [p IH|p IH|]; cbn; rewrite ?IH; done. Qed.
Definition enc_any `{Countable A} (x : A) : string := pos_text (encode x).
Definition dec_any `{Countable A} (b : string) : option A := text_pos b ≫= decode.
Lemma dec_enc_any `{Countable A} (x : A) : dec_any (enc_any x) = Some x.
Proof. unfold dec_any, enc_any. rewrite text_pos_text. apply decode_encode. Qed.
#[export] Instance PeerKey_countable : Countable PeerKey.
Proof. refine (inj_countable' (λ k, (Prefix k, pk_ID k)) (λ t, PKey t.1 t.2) _). by intros []. Defined.
#[export] Instance UpdState_eq_dec : EqDecision UpdState.
Proof. solve_decision. Defined.
#[export] Instance UpdState_countable : Countable UpdState.
Proof. refine (inj_countable' (λ x, (u_Pts x, u_Qts x, u_Date x, u_Seq x)) (λ '(a, b, c, d), UState a b c d) _). by intros []. Defined.
Definition ex_enc_chan (c : gmap Z Z) : string := if decide (c = ∅) then "{}" else enc_any c.
Definition ex_dec_chan (b : string) : option (gmap Z Z) := if decide (b = "{}") then Some ∅ else dec_any b.
Lemma ex_dec_enc_chan c : ex_dec_chan (ex_enc_chan c) = Some c.
Proof.
  unfold ex_enc_chan, ex_dec_chan. destruct (decide (c = ∅)) as [->|]; [done|]. rewrite decide_False; [apply dec_enc_any|].
  unfold enc_any. by destruct (encode c).
Qed.

(** Over the file driver with an open namespace. *)
Lemma update_state_refines_map_witness :
  let s := FileSt (Some {["default" := ∅]}) [] in
  let op := OpSet 7 (UState 1 2 3 4) in
  let a := AState ∅ ∅ in
  repr (KvStorage0 := file_storage "default") enc_any ex_enc_chan s a ∧
  let (r, s') := run_op (KvStorage0 := file_storage "default") enc_any dec_any ex_enc_chan ex_dec_chan op s in
  r = Ok RUnit ∧ agrees (KvStorage0 := file_storage "default") enc_any ex_enc_chan op a r s'.
Proof.
  intros s op a.
  assert (repr (KvStorage0 := file_storage "default") enc_any ex_enc_chan s a) as Hr.
  { split; [exists {["default" := ∅]}; split; [reflexivity|eexists; reflexivity]|]. split; intros u; reflexivity. }
  split; [exact Hr|].
  pose proof (update_state_refines_map (KvStorage0 := file_storage "default") enc_any dec_any ex_enc_chan ex_dec_chan
    dec_enc_any ex_dec_enc_chan eq_refl op s a Hr) as H.
  destruct (run_op _ _ _ _ op s) as [r s'] eqn:E. split; [|exact H].
  vm_compute in E. injection E as <- _. reflexivity.
Defined.
(** Over bbolt. *)
Lemma peer_store_is_a_map_witness :
  let s := Toy {["default" := ∅]} [] in
  let k := PKey "users" 7 in
  let save := Save (KvStorage0 := legacy_storage "default") enc_any k "ann" s in
  save.1 = Ok tt ∧
  ∀ o, (Find (KvStorage0 := legacy_storage "default") dec_any k save.2).1 = Ok o → o = if decide (k = k) then Some "ann" else stored (KvStorage0 := legacy_storage "default") dec_any s k.
Proof.
  intros s k save. assert (kv_ok (KvStorage := legacy_storage "default") s) as Hok by (eexists; reflexivity).
  destruct (peer_store_is_a_map (KvStorage0 := legacy_storage "default") enc_any dec_any enc_any dec_any dec_enc_any dec_enc_any
    k "ann" "1" s Hok) as [H _].
  assert (save = (Ok tt, save.2)) as E by (vm_compute; reflexivity).
  split; [vm_compute; reflexivity|]. exact (H _ E k).
Defined.
