(* ===== verification/ProxyWatchdog.v ===== *)
(** * Proxy providers and their watchdog (pkg/proxy)

    [NewExternalProxyProvider] and the dialers it builds (external.go), the CONNECT handshake
    of the HTTP dialer, and the watchdog that probes every node and fails over round the ring
    of nodes (watchdog.go). [url.Parse], the SOCKS5 constructor of golang.org/x/net and the
    network are arguments; the network may change a state of its own. A trace, newest first,
    records connections, probe results and calls of the reconnect hook; the program does not
    keep it. The loop's ticker and the locks are left out: [runProbe] is the only writer and
    runs in one goroutine. The theorems: a node is down exactly when its last two probes
    failed, a fail-over takes the next healthy node of the ring and only then, the provider
    in use is always that of the current node, and no probe leaks a connection. *)
From S2P Require Import Prelude.

(** ** Data *)

Definition second : Z := 1000000000.

(** What the code reads of a [url.URL]; the password of the user may be absent. *)
Record URL := Url { Scheme : string; User : option (string * option string); Host : string }.
Inductive proxy_err :=
| EInvalidURL (addr : string)
| ESocksDialer (host : string)
| EUnsupportedScheme (scheme : string).
(** The dialers a provider may hold; [DDirect] is the tuned dialer of direct.go. *)
Inductive ContextDialer :=
| DSocks (host : string) (auth : option (string * string)) (timeout : Z)
| DFallback (host : string) (auth : option (string * string)) (timeout : Z)
| DHttpConnect (proxyURL : URL) (timeout : Z)
| DDirect (timeout : Z).
Record ExternalProxyProvider := Provider {
  rawURL : string; proxyURL : URL; p_timeout : Z; p_dialer : ContextDialer }.
Inductive DialerProvider :=
| External (p : ExternalProxyProvider)
| Direct (d : ContextDialer).

Record NodeHealth := Health {
  Address : string; IsHealthy : bool; Latency : Z; LastProbe : Z; FailCount : Z; TotalProbes : Z }.
Record Watchdog := Dog {
  probeTarget : string; nodes : list string; currentIndex : nat; healthMap : gmap string NodeHealth;
  interval : Z; hook : bool; provider : option ExternalProxyProvider }.
Record Config := Cfg { ProbeTarget : string; Interval : Z; Nodes : list string; Hook : bool }.

Definition set_health (m : gmap string NodeHealth) (w : Watchdog) : Watchdog :=
  Dog (probeTarget w) (nodes w) (currentIndex w) m (interval w) (hook w) (provider w).
Definition set_current (i : nat) (w : Watchdog) : Watchdog :=
  Dog (probeTarget w) (nodes w) i (healthMap w) (interval w) (hook w) (provider w).
Definition set_provider (p : ExternalProxyProvider) (w : Watchdog) : Watchdog :=
  Dog (probeTarget w) (nodes w) (currentIndex w) (healthMap w) (interval w) (hook w) (Some p).

(** ** Base64, for the credentials of the CONNECT request *)

Definition b64_alphabet : string := "ABCDEFGHIJKLMNOPQRSTUVWXYZabcdefghijklmnopqrstuvwxyz0123456789+/".
Definition b64_char (n : nat) : string := String.substring n 1 b64_alphabet.
Fixpoint b64_encode (l : list nat) : string :=
  match l with
  | [] => ""
  | [a] => b64_char (a / 4) +:+ b64_char (a mod 4 * 16) +:+ "=="
  | [a; b] => b64_char (a / 4) +:+ b64_char (a mod 4 * 16 + b / 16) +:+ b64_char (b mod 16 * 4) +:+ "="
  | a :: b :: c :: l =>
      b64_char (a / 4) +:+ b64_char (a mod 4 * 16 + b / 16) +:+
      b64_char (b mod 16 * 4 + c / 64) +:+ b64_char (c mod 64) +:+ b64_encode l
  end.
Definition EncodeToString (s : string) : string := b64_encode (Ascii.nat_of_ascii <$> String.list_ascii_of_string s).

Section Proxies.
Context (url_Parse : string → option URL).
(** The third-party constructor, which keeps the dialer it forwards to and does not use it:
    [None] is its error, [Some b] a dialer that implements [ContextDialer] when [b]. *)
Context (SOCKS5 : string → option (string * string) → option bool).

(** ** Providers *)

Definition buildDialer (timeout : Z) (u : URL) : res proxy_err ContextDialer :=
  let scheme := ToLower (Scheme u) in
  if decide (scheme = "socks5" ∨ scheme = "socks5h") then
    let auth := (λ up : string * option string, (up.1, default "" up.2)) <$> User u in
    match SOCKS5 (Host u) auth with
    | None => Err (ESocksDialer (Host u))
    | Some true => Ok (DSocks (Host u) auth timeout)
    | Some false => Ok (DFallback (Host u) auth timeout)
    end
  else if decide (scheme = "http" ∨ scheme = "https") then Ok (DHttpConnect u timeout)
  else Err (EUnsupportedScheme scheme).

Definition NewExternalProxyProvider (proxyAddr : string) (timeout : Z) : res proxy_err ExternalProxyProvider :=
  let timeout := if decide (timeout <= 0) then 30 * second else timeout in
  match url_Parse proxyAddr with
  | None => Err (EInvalidURL proxyAddr)
  | Some u =>
      match buildDialer timeout u with
      | Err e => Err e
      | Ok d => Ok (Provider proxyAddr u timeout d)
      end
  end.

Definition NewDirectProvider (timeout : Z) : DialerProvider := Direct (DDirect timeout).
Definition GetDialer (p : DialerProvider) : ContextDialer :=
  match p with External p => p_dialer p | Direct d => d end.
(** What a result leaves in a pointer whose error is not looked at. *)
Definition pointer {E A} (r : res E A) : option A := match r with Ok a => Some a | Err _ => None end.

(** [NewWatchdog]: every node starts healthy, the first one is current, and an error of its
    provider is dropped. *)
Definition NewWatchdog (cfg : Config) : Watchdog :=
  Dog (if decide (ProbeTarget cfg = "") then "149.154.167.50:443" else ProbeTarget cfg)
    (Nodes cfg) 0
    (foldl (λ m n, <[n := Health n true 0 0 0 0]> m) ∅ (Nodes cfg))
    (if decide (Interval cfg <= 0) then 30 * second else Interval cfg)
    (Hook cfg)
    (match Nodes cfg with [] => None | n :: _ => pointer (NewExternalProxyProvider n (10 * second)) end).

(** ** The network *)

Inductive net_event :=
| EvOpen (c : Z)
| EvConnect (c : Z) (target : string) (auth : option string)
| EvClose (c : Z)
| EvResult (node : string) (success : bool)
| EvHook (oldNode newNode : string).

Context {W : Type}.
(** A plain TCP dial, a dial through a SOCKS5 dialer, the write of a request, the status of
    the response ([None]: it cannot be read), and the clock. *)
Context (tcp_dial : string → Z → SM W (option Z)) (socks_dial : string → option (string * string) → string → SM W (option Z)).
Context (write_request : Z → SM W bool) (read_status : Z → SM W (option Z)) (time_Now : SM W Z).

Record wst := WSt { w_dog : Watchdog; w_net : W; w_trace : list net_event }.
Definition WX (A : Type) : Type := SM wst A.
Definition net {A} (m : SM W A) : WX A := λ s, let (a, n) := m (w_net s) in (a, WSt (w_dog s) n (w_trace s)).
Definition note (e : net_event) : WX unit := λ s, (tt, WSt (w_dog s) (w_net s) (e :: w_trace s)).
Definition get_dog : WX Watchdog := λ s, (w_dog s, s).
Definition on_dog (f : Watchdog → Watchdog) : WX unit := λ s, (tt, WSt (f (w_dog s)) (w_net s) (w_trace s)).

Definition open_conn (m : SM W (option Z)) : WX (option Z) :=
  do! r := net m in
  match r with
  | Some c => do! _ := note (EvOpen c) in done! (Some c)
  | None => done! None
  end.
Definition close_conn (c : Z) : WX unit := note (EvClose c).

(** The [Proxy-Authorization] header. *)
Definition basic_auth (u : URL) : option string :=
  (λ up : string * option string, "Basic " +:+ EncodeToString (up.1 +:+ ":" +:+ default "" up.2)) <$> User u.

Definition http_DialContext (u : URL) (timeout : Z) (address : string) : WX (option Z) :=
  do! r := open_conn (tcp_dial (Host u) timeout) in
  match r with
  | None => done! None
  | Some conn =>
      do! _ := note (EvConnect conn address (basic_auth u)) in
      do! written := net (write_request conn) in
      if negb written then do! _ := close_conn conn in done! None
      else
        do! resp := net (read_status conn) in
        match resp with
        | None => do! _ := close_conn conn in done! None
        | Some status =>
            if decide (status ≠ 200) then do! _ := close_conn conn in done! None
            else done! (Some conn)
        end
  end.

Definition DialContext (d : ContextDialer) (address : string) : WX (option Z) :=
  match d with
  | DSocks host auth _ | DFallback host auth _ => open_conn (socks_dial host auth address)
  | DHttpConnect u timeout => http_DialContext u timeout address
  | DDirect timeout => open_conn (tcp_dial address timeout)
  end.

(** ** The watchdog *)

Definition health_result (success : bool) (latency now : Z) (h : NodeHealth) : NodeHealth :=
  if success then Health (Address h) true latency now 0 (TotalProbes h + 1)
  else
    let n := FailCount h + 1 in
    Health (Address h) (if decide (2 <= n) then false else IsHealthy h) (Latency h) now n (TotalProbes h + 1).

Definition recordResult (node : string) (success : bool) (latency : Z) : WX unit :=
  do! w := get_dog in
  let h := default (Health node false 0 0 0 0) (healthMap w !! node) in
  do! now := net time_Now in
  do! _ := on_dog (set_health (<[node := health_result success latency now h]> (healthMap w))) in
  note (EvResult node success).

Definition probe_node (node : string) : WX unit :=
  match NewExternalProxyProvider node (5 * second) with
  | Err _ => recordResult node false 0
  | Ok p =>
      do! w := get_dog in
      do! start := net time_Now in
      do! r := DialContext (GetDialer (External p)) (probeTarget w) in
      do! fin := net time_Now in
      match r with
      | None => recordResult node false 0
      | Some conn => do! _ := close_conn conn in recordResult node true (fin - start)
      end
  end.
Fixpoint probe_all (l : list string) : WX unit :=
  match l with
  | [] => done! tt
  | n :: l => do! _ := probe_node n in probe_all l
  end.

Definition healthy (m : gmap string NodeHealth) (node : string) : bool :=
  match m !! node with Some h => IsHealthy h | None => false end.

(** The switch to a candidate: the index moves before the provider is built. *)
Definition switch_to (oldNode candidate : string) (nextIdx : nat) : WX unit :=
  do! _ := on_dog (set_current nextIdx) in
  match NewExternalProxyProvider candidate (10 * second) with
  | Err _ => done! tt
  | Ok p =>
      do! _ := on_dog (set_provider p) in
      do! w := get_dog in
      if hook w then note (EvHook oldNode candidate) else done! tt
  end.
(** The loop over [i], with [todo] candidates left. *)
Fixpoint failover (ns : list string) (curIdx : nat) (curNode : string) (i todo : nat) : WX unit :=
  match todo with
  | O => done! tt
  | S todo =>
      let nextIdx := ((curIdx + 1 + i) mod length ns)%nat in
      do! w := get_dog in
      match ns !! nextIdx with
      | None => done! tt
      | Some candidate =>
          if healthy (healthMap w) candidate then switch_to curNode candidate nextIdx
          else failover ns curIdx curNode (i + 1) todo
      end
  end.

(** One tick; [false] is the panic of an index out of range. *)
Definition runProbe : WX bool :=
  do! w := get_dog in
  let ns := nodes w in
  let curIdx := currentIndex w in
  match ns with
  | [] => done! true
  | _ =>
      do! _ := probe_all ns in
      match ns !! curIdx with
      | None => done! false
      | Some curNode =>
          do! w := get_dog in
          match healthMap w !! curNode with
          | Some h =>
              if negb (IsHealthy h) then do! _ := failover ns curIdx curNode 0 (length ns) in done! true
              else done! true
          | None => done! true
          end
      end
  end.

(** [probeLoop] for a number of ticks. *)
Fixpoint probeLoop (ticks : nat) : WX bool :=
  match ticks with
  | O => done! true
  | S t => do! ok := runProbe in if ok : bool then probeLoop t else done! false
  end.

Definition CurrentProvider (w : Watchdog) : DialerProvider :=
  match provider w with Some p => External p | None => NewDirectProvider (30 * second) end.
Definition NodeHealthList (w : Watchdog) : list NodeHealth := (map_to_list (healthMap w)).*2.

(** ** What a trace says *)

(** The results of the probes of a node, newest first, and the failures since the last success. *)
Definition result_of (node : string) (e : net_event) : option bool :=
  match e with EvResult n b => if decide (n = node) then Some b else None | _ => None end.
Definition results (node : string) (tr : list net_event) : list bool := omap (result_of node) tr.
Fixpoint fails (l : list bool) : Z :=
  match l with false :: l => 1 + fails l | _ => 0 end.
(** Opens less closes of a connection. *)
Definition balance_of (c : Z) (e : net_event) : Z :=
  match e with
  | EvOpen d => if decide (d = c) then 1 else 0
  | EvClose d => if decide (d = c) then -1 else 0
  | _ => 0
  end.
Definition opened (c : Z) (tr : list net_event) : Z := sumZ (balance_of c) tr.
(** The reconnect hook is told of every fail-over. *)
Definition hooks (tr : list net_event) : list (string * string) :=
  omap (λ e, match e with EvHook a b => Some (a, b) | _ => None end) tr.

(** [traffic s s' r]: from [s] to [s'] only connections were opened and closed, and what is
    still open is the connection of [r]. *)
Record traffic (s s' : wst) (r : option Z) : Prop := {
  tr_dog : w_dog s' = w_dog s;
  tr_results n : results n (w_trace s') = results n (w_trace s);
  tr_hooks : hooks (w_trace s') = hooks (w_trace s);
  tr_open c : opened c (w_trace s') = opened c (w_trace s) + (if decide (r = Some c) then 1 else 0) }.

Lemma net_eq {A} (m : SM W A) s : ∃ a n, net m s = (a, WSt (w_dog s) n (w_trace s)).
Proof. unfold net. destruct (m (w_net s)) as [a n]. eauto. Qed.

(** Steps of a computation over [WX]. *)
Ltac wx_step :=
  match goal with
  | |- context [net ?m ?s] => let a := fresh "a" in let n := fresh "n" in let E := fresh "E" in
      destruct (net_eq m s) as (a & n & E); rewrite E; clear E; cbn -[results opened hooks recordResult]
  end.
Ltac wx_run :=
  unfold open_conn, close_conn, note, get_dog, on_dog in *; unfold sm_bind, sm_ret in *; cbn -[results opened hooks recordResult] in *.
Ltac wx_go := repeat (first
  [ wx_step
  | match goal with
    | |- context [match ?x with Some _ => _ | None => _ end] => is_var x; destruct x
    | |- context [if negb ?b then _ else _] => is_var b; destruct b
    end
  | case_decide ]; wx_run).
Ltac wx_open := unfold opened; rewrite ?sumZ_cons; cbn [balance_of]; repeat case_decide; simplify_eq; try lia.

Lemma dial_traffic d address s : traffic s (DialContext d address s).2 (DialContext d address s).1.
Proof.
  destruct d as [h a t|h a t|u t|t]; cbn -[results opened hooks recordResult]; unfold http_DialContext; wx_run; wx_go;
    (constructor; cbn -[opened]; [done|done|done|intros c; wx_open]).
Qed.

Lemma record_result node success latency s :
  let s' := (recordResult node success latency s).2 in
  let h := default (Health node false 0 0 0 0) (healthMap (w_dog s) !! node) in
  w_trace s' = EvResult node success :: w_trace s ∧
  ∃ now, w_dog s' = set_health (<[node := health_result success latency now h]> (healthMap (w_dog s))) (w_dog s).
Proof. unfold recordResult. wx_run. wx_step. eauto. Qed.

(** A probe records one result, closes what it opened and changes nothing but the health of its node. *)
Record probed (node : string) (s s' : wst) : Prop := {
  pb_fields : ∃ h, w_dog s' = set_health (<[node := h]> (healthMap (w_dog s))) (w_dog s) ∧
    ∃ ok lat now, h = health_result ok lat now (default (Health node false 0 0 0 0) (healthMap (w_dog s) !! node)) ∧
      results node (w_trace s') = ok :: results node (w_trace s) ∧
      (pointer (NewExternalProxyProvider node (5 * second)) = None → ok = false);
  pb_others n : n ≠ node → results n (w_trace s') = results n (w_trace s);
  pb_hooks : hooks (w_trace s') = hooks (w_trace s);
  pb_open c : opened c (w_trace s') = opened c (w_trace s) }.

(** A result recorded after traffic that left nothing open. *)
Lemma probed_after node ok lat s0 s1 :
  traffic s0 s1 None → (pointer (NewExternalProxyProvider node (5 * second)) = None → ok = false) →
  probed node s0 (recordResult node ok lat s1).2.
Proof.
  intros [D R K O] Hb. destruct (record_result node ok lat s1) as (T & now & E). rewrite D in E.
  constructor; rewrite ?T.
  - eexists. split; [exact E|]. exists ok, lat, now. split_and!; [done| |done].
    unfold results in *. cbn. rewrite decide_True by done. by rewrite R.
  - intros n Hn. unfold results in *. cbn. rewrite decide_False by done. apply R.
  - unfold hooks in *. cbn. apply K.
  - intros c. specialize (O c). unfold opened in *. rewrite sumZ_cons. cbn [balance_of].
    rewrite decide_False in O by done. lia.
Qed.

Lemma traffic_refl s : traffic s s None.
Proof. constructor; try done. intros c. rewrite decide_False by done. lia. Qed.

Lemma probe_node_probed node s : probed node s (probe_node node s).2.
Proof.
  unfold probe_node. destruct (NewExternalProxyProvider node (5 * second)) as [p|e] eqn:Hp.
  2: { apply probed_after; [apply traffic_refl|done]. }
  wx_run. wx_step. set (s1 := WSt _ _ _).
  pose proof (dial_traffic (p_dialer p) (probeTarget (w_dog s)) s1) as T.
  destruct (DialContext _ _ s1) as [r s2] eqn:Hd. cbn in T; cbn -[recordResult]. wx_step.
  destruct T as [D R K O].
  destruct r as [c|]; wx_run; (apply probed_after; [|try done; by rewrite Hp]); constructor; cbn -[opened]; try done.
  intros d. specialize (O d). unfold opened in O. cbn in O. revert O. wx_open.
Qed.

(** ** Health is the recent results *)

Record matches (h : NodeHealth) (l : list bool) : Prop := {
  ma_fails : FailCount h = fails l;
  ma_healthy : IsHealthy h = bool_decide (fails l < 2);
  ma_total : TotalProbes h = Z.of_nat (length l) }.

Lemma fails_nonneg l : 0 <= fails l.
Proof. induction l as [|[] l IH]; cbn; lia. Qed.
Lemma matches_result h l ok lat now : matches h l → matches (health_result ok lat now h) (ok :: l).
Proof.
  intros [F H T]. pose proof (fails_nonneg l). unfold health_result.
  destruct ok; constructor; cbn [FailCount IsHealthy TotalProbes fails length]; try lia; [by case_bool_decide|].
  rewrite F, H. repeat case_decide; repeat case_bool_decide; done || lia.
Qed.

Definition bad (node : string) : Prop := pointer (NewExternalProxyProvider node (5 * second)) = None.
(** Every listed node has the health its results give it; a node no provider can be built for
    has only failed. *)
Record watched (s : wst) : Prop := {
  wa_health n : n ∈ nodes (w_dog s) → ∃ h, healthMap (w_dog s) !! n = Some h ∧ matches h (results n (w_trace s));
  wa_bad n : bad n → Forall (eq false) (results n (w_trace s)) }.

Lemma probed_watched node s s' : node ∈ nodes (w_dog s) → probed node s s' → watched s → watched s'.
Proof.
  intros Hin [(h & Hd & ok & lat & now & -> & Hr & Hbad) Ho _ _] [H B].
  destruct (H node Hin) as (h0 & Hh & M). rewrite Hh in Hd. cbn in Hd.
  constructor; rewrite ?Hd; cbn.
  - intros n Hn. destruct (decide (n = node)) as [->|Hne].
    + rewrite lookup_insert_eq, Hr. eexists. split; [done|]. by apply matches_result.
    + rewrite lookup_insert_ne by done. rewrite Ho by done. by apply H.
  - intros n Hn. destruct (decide (n = node)) as [->|Hne].
    + rewrite Hr. constructor; [by rewrite Hbad|by apply B].
    + rewrite Ho by done. by apply B.
Qed.

(** [only_health s s']: the watchdog changed in nothing but the health of its nodes, the hook
    was not called and no connection is left open. *)
Record only_health (s s' : wst) : Prop := {
  oh_dog : w_dog s' = set_health (healthMap (w_dog s')) (w_dog s);
  oh_hooks : hooks (w_trace s') = hooks (w_trace s);
  oh_open c : opened c (w_trace s') = opened c (w_trace s) }.
#[local] Instance only_health_preorder : PreOrder only_health.
Proof.
  split.
  - intros s. by destruct s as [[]].
  - intros s1 s2 s3 [D1 K1 O1] [D2 K2 O2]. constructor; [|congruence|congruence].
    rewrite D2, D1. done.
Qed.
Lemma probed_only_health node s s' : probed node s s' → only_health s s'.
Proof. intros [(h & Hd & _) _ K O]. constructor; [by rewrite Hd|done|done]. Qed.

Lemma only_health_nodes s s' : only_health s s' → nodes (w_dog s') = nodes (w_dog s).
Proof. intros [D _ _]. by rewrite D. Qed.

Lemma probe_all_step l s :
  l ⊆ nodes (w_dog s) →
  only_health s (probe_all l s).2 ∧ (watched s → watched (probe_all l s).2).
Proof.
  revert s. induction l as [|n l IH]; intros s Hl; [by split|].
  cbn. unfold sm_bind. pose proof (probe_node_probed n s) as P.
  destruct (probe_node n s) as [[] s1]. cbn in *.
  pose proof (probed_only_health _ _ _ P) as O1.
  destruct (IH s1) as [O2 W2]; [rewrite (only_health_nodes _ _ O1); set_solver|].
  split; [by transitivity s1|]. intros Hw. apply W2. eapply probed_watched; [|done|done]. set_solver.
Qed.

(** A round probes every node as often as it is listed. *)
Lemma probe_all_count l n s :
  length (results n (w_trace (probe_all l s).2)) = (length (filter (eq n) l) + length (results n (w_trace s)))%nat.
Proof.
  revert s. induction l as [|m l IH]; intros s; [done|]. cbn [probe_all]. unfold sm_bind.
  pose proof (probe_node_probed m s) as [(h & _ & ok & lat & now & _ & Hr & _) Ho _ _].
  destruct (probe_node m s) as [[] s1]. cbn -[filter] in *. rewrite IH.
  rewrite filter_cons. destruct (decide (n = m)) as [->|Hne].
  - rewrite Hr. cbn. lia.
  - by rewrite Ho.
Qed.

(** ** The fail-over *)

Lemma rotation_lookup {A} (l : list A) k j :
  (k <= length l)%nat → (j < length l)%nat → (drop k l ++ take k l) !! j = l !! ((k + j) mod length l)%nat.
Proof.
  intros Hk Hj. destruct (decide (k + j < length l)%nat) as [H|H].
  - rewrite Nat.mod_small by done. rewrite lookup_app_l by (rewrite length_drop; lia). apply lookup_drop.
  - replace ((k + j) mod length l)%nat with (k + j - length l)%nat.
    2: { replace (k + j)%nat with (k + j - length l + 1 * length l)%nat at 2 by lia.
         rewrite Nat.Div0.mod_add, Nat.mod_small by lia. lia. }
    rewrite lookup_app_r by (rewrite length_drop; lia). rewrite length_drop.
    rewrite lookup_take_lt by lia. f_equal. lia.
Qed.

(** The next healthy node of the ring after a position, with the position it has. *)
Definition next_healthy (m : gmap string NodeHealth) (ns : list string) (cur : nat) : option (nat * string) :=
  (λ jn : nat * string, ((S cur + jn.1) mod length ns, jn.2)%nat) <$>
  list_find (λ n, healthy m n = true) (drop (S cur) ns ++ take (S cur) ns).

Lemma failover_loop ns cur node : ∀ todo i s,
  (cur < length ns)%nat → (i + todo = length ns)%nat →
  failover ns cur node i todo s =
  match list_find (λ n, healthy (healthMap (w_dog s)) n = true) (drop i (drop (S cur) ns ++ take (S cur) ns)) with
  | Some (j, cand) => switch_to node cand ((cur + 1 + i + j) mod length ns)%nat s
  | None => (tt, s)
  end.
Proof.
  induction todo as [|todo IH]; intros i s Hc Hi.
  - rewrite (drop_ge _ i); [done|]. rewrite length_app, length_drop, length_take. lia.
  - cbn [failover]. unfold sm_bind, get_dog.
    pose proof (rotation_lookup ns (S cur) i ltac:(lia) ltac:(lia)) as R.
    replace (S cur + i)%nat with (cur + 1 + i)%nat in R by lia.
    destruct (lookup_lt_is_Some_2 ns ((cur + 1 + i) mod length ns)%nat) as [c Hcand].
    { apply Nat.mod_upper_bound. lia. }
    rewrite Hcand. rewrite Hcand in R. rewrite (drop_S _ _ _ R). cbn [list_find].
    destruct (decide (healthy _ c = true)) as [H|H].
    + rewrite H. by rewrite Nat.add_0_r.
    + apply not_true_is_false in H. rewrite H, IH by lia.
      replace (i + 1)%nat with (S i) by lia.
      destruct (list_find _ _) as [[j cand]|]; cbn; [|done].
      by replace (cur + 1 + S i + j)%nat with (cur + 1 + i + S j)%nat by lia.
Qed.

(** What a round does once the probes are done: [hm] is the health they left, and the current
    node is looked for in it. *)
Definition settled (s1 : wst) (cur : nat) (curNode : string) : wst :=
  let hm := healthMap (w_dog s1) in
  if healthy hm curNode then s1
  else
    match next_healthy hm (nodes (w_dog s1)) cur with
    | None => s1
    | Some (i, cand) => (switch_to curNode cand i s1).2
    end.

Lemma runProbe_settled s cur :
  watched s → nodes (w_dog s) !! currentIndex (w_dog s) = Some cur →
  let s1 := (probe_all (nodes (w_dog s)) s).2 in
  runProbe s = (true, settled s1 (currentIndex (w_dog s)) cur).
Proof.
  intros Hw Hc s1. destruct (probe_all_step (nodes (w_dog s)) s) as [O Hw1]; [done|]. specialize (Hw1 Hw).
  fold s1 in O, Hw1. unfold runProbe, sm_bind, get_dog.
  pose proof (only_health_nodes _ _ O) as Hn.
  pose proof (list_elem_of_lookup_2 _ _ _ Hc) as Hin.
  assert (nodes (w_dog s) ≠ []) by (intros E; by rewrite E in Hc).
  destruct (wa_health _ Hw1 cur) as (h & Hh & M); [by rewrite Hn|].
  unfold settled, healthy at 1. rewrite Hh, Hn.
  subst s1. destruct (nodes (w_dog s)) as [|n ns] eqn:E; [done|]. rewrite <- E in *.
  destruct (probe_all _ s) as [[] s1] eqn:Es. cbn [fst snd] in *. rewrite Hc, Hh.
  destruct (IsHealthy h) eqn:Hi; [done|]. cbn [negb].
  rewrite failover_loop; [|by eapply lookup_lt_Some|lia]. cbn [drop]. unfold next_healthy.
  destruct (list_find _ _) as [[j cand]|]; cbn [fmap option_fmap option_map fst snd]; [|done].
  replace (currentIndex (w_dog s) + 1 + 0 + j)%nat with (S (currentIndex (w_dog s)) + j)%nat by lia.
  by destruct (switch_to _ _ _ s1) as [[] s2].
Qed.

Lemma switch_fields oldNode cand i s1 :
  let s2 := (switch_to oldNode cand i s1).2 in
  nodes (w_dog s2) = nodes (w_dog s1) ∧ healthMap (w_dog s2) = healthMap (w_dog s1) ∧ currentIndex (w_dog s2) = i ∧
  (∀ n, results n (w_trace s2) = results n (w_trace s1)) ∧ (∀ c, opened c (w_trace s2) = opened c (w_trace s1)) ∧
  match NewExternalProxyProvider cand (10 * second) with
  | Ok p => provider (w_dog s2) = Some p ∧
      hooks (w_trace s2) = (if hook (w_dog s1) then [(oldNode, cand)] else []) ++ hooks (w_trace s1)
  | Err _ => provider (w_dog s2) = provider (w_dog s1) ∧ hooks (w_trace s2) = hooks (w_trace s1)
  end.
Proof.
  unfold switch_to. wx_run. destruct (NewExternalProxyProvider _ _) as [p|e]; [|done].
  destruct (hook (w_dog s1)) eqn:E; cbn; by rewrite ?E.
Qed.

Lemma settled_fields s1 cur curNode :
  let s2 := settled s1 cur curNode in
  nodes (w_dog s2) = nodes (w_dog s1) ∧ healthMap (w_dog s2) = healthMap (w_dog s1) ∧
  (∀ n, results n (w_trace s2) = results n (w_trace s1)) ∧ (∀ c, opened c (w_trace s2) = opened c (w_trace s1)).
Proof.
  unfold settled. destruct (healthy _ _); [done|]. destruct (next_healthy _ _ _) as [[i cand]|]; [|done].
  by destruct (switch_fields curNode cand i s1) as (? & ? & _ & ? & ? & _).
Qed.

Lemma next_healthy_at m ns cur i cand :
  (cur < length ns)%nat → next_healthy m ns cur = Some (i, cand) → ns !! i = Some cand ∧ healthy m cand = true.
Proof.
  unfold next_healthy. intros Hc. destruct (list_find _ _) as [[j c]|] eqn:E; [|done].
  cbn [fmap option_fmap option_map fst snd]. intros [= <- <-].
  apply list_find_Some in E as (E & Hh & _). split; [|done].
  assert (j < length ns)%nat.
  { apply lookup_lt_Some in E. rewrite length_app, length_drop, length_take in E. lia. }
  change (ns !! ((S cur + j) mod length ns)%nat = Some c).
  by rewrite <- (rotation_lookup ns (S cur) j) by lia.
Qed.

(** ** The invariant of the watchdog *)

Record dog_inv (ns : list string) (k : nat) (s : wst) : Prop := {
  di_nodes : nodes (w_dog s) = ns;
  di_watched : watched s;
  di_count n : n ∈ ns → length (results n (w_trace s)) = k;
  di_current : ∃ cur, ns !! currentIndex (w_dog s) = Some cur ∧
    provider (w_dog s) = pointer (NewExternalProxyProvider cur (10 * second)) }.

Lemma usable_timeout node t t' :
  pointer (NewExternalProxyProvider node t) = None → pointer (NewExternalProxyProvider node t') = None.
Proof.
  unfold NewExternalProxyProvider, buildDialer. destruct (url_Parse node) as [u|]; [|done].
  repeat case_decide; try done; by destruct (SOCKS5 _ _) as [[]|].
Qed.

Lemma filter_eq_NoDup (n : string) ns : NoDup ns → n ∈ ns → length (filter (eq n) ns) = 1%nat.
Proof.
  induction 1 as [|m ns Hm _ IH]; [by intros ?%not_elem_of_nil|].
  rewrite filter_cons. intros [->|Hin]%elem_of_cons.
  - rewrite decide_True by done. cbn. f_equal. apply length_zero_iff_nil. apply elem_of_nil_inv.
    by intros x [<- ?]%list_elem_of_filter.
  - rewrite decide_False by (intros ->; done). auto.
Qed.

Lemma fails_all l : Forall (eq false) l → fails l = Z.of_nat (length l).
Proof. induction 1 as [|b l <- _ IH]; cbn; lia. Qed.
Lemma fails_le l : fails l <= Z.of_nat (length l).
Proof. induction l as [|[] l IH]; cbn; lia. Qed.

(** A node that is down has failed at least twice, so a node no provider can be built for has
    failed as often and is down as well. *)
Lemma healthy_usable s ns k cur cand :
  watched s → nodes (w_dog s) = ns → (∀ n, n ∈ ns → length (results n (w_trace s)) = k) →
  cur ∈ ns → cand ∈ ns → healthy (healthMap (w_dog s)) cur = false → healthy (healthMap (w_dog s)) cand = true →
  ¬ bad cand.
Proof.
  intros [H B] <- Hk Hcur Hcand Dn Up Hb.
  destruct (H _ Hcur) as (h & Hh & [_ Mh _]). destruct (H _ Hcand) as (g & Hg & [_ Mg _]).
  unfold healthy in *. rewrite Hh, Mh in Dn. rewrite Hg, Mg in Up.
  apply bool_decide_eq_false in Dn. apply bool_decide_eq_true in Up.
  rewrite (fails_all _ (B _ Hb)), Hk in Up by done. pose proof (fails_le (results cur (w_trace s))) as L.
  rewrite Hk in L by done. lia.
Qed.

Lemma candidate_usable ns k s1 cur curNode i cand :
  dog_inv ns k s1 → ns !! cur = Some curNode → healthy (healthMap (w_dog s1)) curNode = false →
  next_healthy (healthMap (w_dog s1)) ns cur = Some (i, cand) →
  ns !! i = Some cand ∧ ∃ p, NewExternalProxyProvider cand (10 * second) = Ok p.
Proof.
  intros [Hn Hw Hk _] Hc Hh En. apply next_healthy_at in En as [Ei Hu]; [|by eapply lookup_lt_Some].
  assert (¬ bad cand) as Hb.
  { eapply (healthy_usable s1 ns k curNode); eauto using list_elem_of_lookup_2. }
  split; [done|]. destruct (NewExternalProxyProvider cand (10 * second)) as [p|e] eqn:E; [eauto|].
  destruct Hb. unfold bad. apply (usable_timeout _ (10 * second)). by rewrite E.
Qed.

Lemma settled_inv ns k s1 cur curNode :
  dog_inv ns k s1 → currentIndex (w_dog s1) = cur → ns !! cur = Some curNode →
  dog_inv ns k (settled s1 cur curNode).
Proof.
  intros I Hi Hc. destruct (settled_fields s1 cur curNode) as (Fn & Fh & Fr & _).
  pose proof I as [Hn [H B] Hk Hp]. constructor.
  - by rewrite Fn.
  - constructor; [rewrite Fn, Fh|]; intros n; rewrite Fr; auto.
  - intros n. rewrite Fr. auto.
  - unfold settled. destruct (healthy _ curNode) eqn:Hh; [done|].
    rewrite Hn. destruct (next_healthy _ _ _) as [[i cand]|] eqn:En; [|done].
    destruct (candidate_usable _ _ _ _ _ _ _ I Hc Hh En) as [Ei [p Ep]].
    destruct (switch_fields curNode cand i s1) as (_ & _ & -> & _ & _ & Fp). rewrite Ep in Fp.
    exists cand. rewrite Ep. by destruct Fp.
Qed.

Lemma probe_all_inv ns k s : NoDup ns → dog_inv ns k s → dog_inv ns (S k) (probe_all ns s).2.
Proof.
  intros Hnd [Hn Hw Hk (cur & Hc & Hp)].
  destruct (probe_all_step ns s) as [O Hw1]; [by rewrite Hn|].
  pose proof (only_health_nodes _ _ O) as Hn1. pose proof (oh_dog _ _ O) as Hd. constructor.
  - congruence.
  - auto.
  - intros n Hin. rewrite probe_all_count, filter_eq_NoDup, Hk by done. lia.
  - exists cur. by rewrite Hd.
Qed.

Lemma runProbe_inv ns k s : NoDup ns → dog_inv ns k s → ∃ s', runProbe s = (true, s') ∧ dog_inv ns (S k) s'.
Proof.
  intros Hnd I. pose proof I as [Hn Hw _ (cur & Hc & _)].
  eexists. split; [apply (runProbe_settled s cur Hw); by rewrite Hn|]. rewrite Hn.
  apply settled_inv; [by apply probe_all_inv| |done].
  destruct (probe_all_step ns s) as [[Hd _ _] _]; [by rewrite Hn|]. by rewrite Hd.
Qed.

Lemma initial_health l n : ∀ m : gmap string NodeHealth,
  n ∈ l ∨ m !! n = Some (Health n true 0 0 0 0) →
  foldl (λ m n, <[n := Health n true 0 0 0 0]> m) m l !! n = Some (Health n true 0 0 0 0).
Proof.
  induction l as [|x l IH]; intros m H; cbn; [by destruct H as [?%not_elem_of_nil|]|].
  apply IH. destruct (decide (n = x)) as [->|Hne].
  - right. apply lookup_insert_eq.
  - destruct H as [[->|]%elem_of_cons|H]; [done|by left|right]. by rewrite lookup_insert_ne.
Qed.

Definition started (cfg : Config) (net0 : W) : wst := WSt (NewWatchdog cfg) net0 [].
Lemma started_watched cfg net0 : watched (started cfg net0).
Proof.
  constructor; cbn; [|constructor]. intros n Hn. eexists. split; [apply initial_health; by left|done].
Qed.
Lemma started_inv cfg net0 : Nodes cfg ≠ [] → dog_inv (Nodes cfg) 0 (started cfg net0).
Proof.
  intros Hne. constructor; [done|apply started_watched|done|].
  cbn. destruct (Nodes cfg) as [|n ns]; [done|]. by exists n.
Qed.

Lemma probeLoop_inv ns ticks : NoDup ns → ∀ k s, dog_inv ns k s →
  ∃ s', probeLoop ticks s = (true, s') ∧ dog_inv ns (ticks + k) s'.
Proof.
  intros Hnd. induction ticks as [|t IH]; intros k s I; [by exists s|].
  cbn [probeLoop]. unfold sm_bind. destruct (runProbe_inv ns k s Hnd I) as (s1 & -> & I1).
  destruct (IH _ _ I1) as (s2 & E & I2). exists s2. split; [done|]. by rewrite Nat.add_succ_r in I2.
Qed.

(** ** Theorems *)

(** C25. However often the watchdog has probed its nodes, listed once each, it did not fail,
    the provider in use is the one built for the node it calls current, and a node counts as
    healthy exactly when its last two probes did not both fail. *)
Theorem watchdog_provider_follows (cfg : Config) (net0 : W) (ticks : nat) :
  NoDup (Nodes cfg) → Nodes cfg ≠ [] →
  ∃ s, probeLoop ticks (started cfg net0) = (true, s) ∧
  (∃ cur, Nodes cfg !! currentIndex (w_dog s) = Some cur ∧
     provider (w_dog s) = pointer (NewExternalProxyProvider cur (10 * second))) ∧
  ∀ n, n ∈ Nodes cfg → length (results n (w_trace s)) = ticks ∧
    ∃ h, healthMap (w_dog s) !! n = Some h ∧ FailCount h = fails (results n (w_trace s)) ∧
      (IsHealthy h = false ↔ ∃ older, results n (w_trace s) = false :: false :: older).
Proof.
  intros Hnd Hne. destruct (probeLoop_inv _ ticks Hnd 0 _ (started_inv cfg net0 Hne)) as (s & E & [Hn [H _] Hk Hp]).
  rewrite Nat.add_0_r in Hk. exists s. split_and!; [done|done|]. intros n Hin. split; [by apply Hk|].
  rewrite <- Hn in Hin. destruct (H n Hin) as (h & Hh & [F I T]). exists h. split_and!; [done|done|].
  rewrite I, bool_decide_eq_false. set (l := results n (w_trace s)).
  split.
  - destruct l as [|[] [|[] l]]; cbn; try lia. eauto.
  - intros (l' & ->). cbn. pose proof (fails_nonneg l'). lia.
Qed.

(** A round of probes keeps the node and its provider when the node is healthy after it;
    otherwise it moves to the first healthy node that follows in the ring, with the provider of
    that node, and tells the hook; with no healthy node it stays. Every connection the probes
    opened is closed. *)
Theorem watchdog_failover (cfg : Config) (net0 : W) (ticks : nat) :
  NoDup (Nodes cfg) → Nodes cfg ≠ [] →
  let s := (probeLoop ticks (started cfg net0)).2 in
  ∃ s' cur, runProbe s = (true, s') ∧ Nodes cfg !! currentIndex (w_dog s) = Some cur ∧
  (∀ c, opened c (w_trace s') = opened c (w_trace s)) ∧
  let stays := currentIndex (w_dog s') = currentIndex (w_dog s) ∧ provider (w_dog s') = provider (w_dog s) ∧
    hooks (w_trace s') = hooks (w_trace s) in
  let hm := healthMap (w_dog s') in
  if healthy hm cur then stays
  else
    match next_healthy hm (Nodes cfg) (currentIndex (w_dog s)) with
    | None => stays
    | Some (i, cand) =>
        currentIndex (w_dog s') = i ∧
        (∃ p, NewExternalProxyProvider cand (10 * second) = Ok p ∧ provider (w_dog s') = Some p) ∧
        hooks (w_trace s') = (if hook (w_dog s) then [(cur, cand)] else []) ++ hooks (w_trace s)
    end.
Proof.
  intros Hnd Hne s. destruct (probeLoop_inv _ ticks Hnd 0 _ (started_inv cfg net0 Hne)) as (s0 & E & I).
  subst s. rewrite E. cbn [snd]. clear E net0. rename s0 into s. set (ns := Nodes cfg) in *.
  pose proof I as [Hn Hw _ (cur & Hc & _)].
  pose proof (probe_all_inv _ _ _ Hnd I) as I1. destruct (probe_all_step ns s) as [[Hd Hh Ho] _]; [by rewrite Hn|].
  pose proof (runProbe_settled s cur Hw) as E. rewrite Hn in E. specialize (E Hc). cbn zeta in E.
  set (s1 := (probe_all ns s).2) in *. destruct (settled_fields s1 (currentIndex (w_dog s)) cur) as (_ & Fh & _ & Fo).
  eexists _, cur. split_and!; [exact E|done|intros c; by rewrite Fo, Ho|]. cbn zeta. rewrite Fh. unfold settled.
  destruct (healthy _ cur) eqn:Hu; [by rewrite Hd, Hh|].
  rewrite (di_nodes _ _ _ I1). destruct (next_healthy _ _ _) as [[i cand]|] eqn:En; [|by rewrite Hd, Hh].
  destruct (candidate_usable _ _ _ _ _ _ _ I1 Hc Hu En) as [_ [p Ep]].
  destruct (switch_fields cur cand i s1) as (_ & _ & -> & _ & _ & Fp). rewrite Ep in Fp. destruct Fp as [Fp Fk].
  split_and!; [done|eauto|]. rewrite Fk, Hh. by rewrite Hd.
Qed.

(** A first node no provider can be built for leaves the watchdog without a provider, and the
    connections then go out directly, past the proxies that are configured. *)
Theorem bad_first_node_direct (cfg : Config) (n : string) (ns : list string) :
  Nodes cfg = n :: ns → bad n → CurrentProvider (NewWatchdog cfg) = NewDirectProvider (30 * second).
Proof.
  intros E Hb. unfold CurrentProvider, NewWatchdog. rewrite E. cbn [provider].
  by rewrite (usable_timeout _ _ (10 * second) Hb).
Qed.

End Proxies.

(** ** A concrete network *)

(** Addresses of the form [scheme://host], a SOCKS5 library that accepts every host, and a
    network in which the hosts [a] and [dead] refuse connections; the state is a counter. *)
Definition demo_Parse (s : string) : option URL :=
  match String.index 0 "://" s with
  | Some i => Some (Url (String.substring 0 i s) None (String.substring (i + 3) (String.length s) s))
  | None => None
  end.
Definition demo_socks (host : string) (auth : option (string * string)) : option bool := Some true.
Definition demo_dial (host : string) : SM Z (option Z) :=
  λ n, (if bool_decide (host = "a" ∨ host = "dead") then None else Some n, n + 1).
Definition demo_runs (ticks : nat) (ns : list string) : bool * wst :=
  probeLoop demo_Parse demo_socks (λ h _, demo_dial h) (λ h _ _, demo_dial h) (λ _ n, (true, n)) (λ _ n, (Some 200, n))
    (λ n, (n, n + 1)) ticks (started demo_Parse demo_socks (Cfg "" 0 ns true) 0).

Example demo_failover :
  let s := (demo_runs 2 ["socks5://a"; "http://dead"; "ftp://x"; "http://b"]).2 in
  (currentIndex (w_dog s), rawURL <$> provider (w_dog s), hooks (w_trace s)) =
  (3%nat, Some "http://b", [("socks5://a", "http://b")]).
Proof. vm_compute. reflexivity. Qed.

Lemma watchdog_provider_follows_witness :
  ∃ s, demo_runs 2 ["socks5://a"; "http://b"] = (true, s) ∧
  ∃ cur, ["socks5://a"; "http://b"] !! currentIndex (w_dog s) = Some cur ∧
    provider (w_dog s) = pointer (NewExternalProxyProvider demo_Parse demo_socks cur (10 * second)).
Proof.
  unfold demo_runs.
  destruct (watchdog_provider_follows demo_Parse demo_socks (λ h _, demo_dial h) (λ h _ _, demo_dial h)
    (λ _ n, (true, n)) (λ _ n, (Some 200, n)) (λ n, (n, n + 1)) (Cfg "" 0 ["socks5://a"; "http://b"] true) 0 2)
    as (s & E & H & _); [apply (bool_decide_unpack _); vm_compute; exact I|done|].
  exists s. exact (conj E H).
Defined.

Lemma watchdog_failover_witness :
  let s := (demo_runs 1 ["socks5://a"; "http://b"]).2 in
  ∃ s', runProbe demo_Parse demo_socks (λ h _, demo_dial h) (λ h _ _, demo_dial h)
    (λ _ n, (true, n)) (λ _ n, (Some 200, n)) (λ n, (n, n + 1)) s = (true, s') ∧
    ∀ c, opened c (w_trace s') = opened c (w_trace s).
Proof.
  unfold demo_runs.
  destruct (watchdog_failover demo_Parse demo_socks (λ h _, demo_dial h) (λ h _ _, demo_dial h)
    (λ _ n, (true, n)) (λ _ n, (Some 200, n)) (λ n, (n, n + 1)) (Cfg "" 0 ["socks5://a"; "http://b"] true) 0 1)
    as (s' & cur & E & _ & O & _); [apply (bool_decide_unpack _); vm_compute; exact I|done|].
  exists s'. exact (conj E O).
Defined.

(** A node listed twice is counted twice: one round of failures takes it down, and the index
    moves to a node no provider can be built for while the provider stays that of the old one. *)
Theorem duplicate_node_diverges :
  let s := (demo_runs 1 ["socks5://a"; "socks5://a"; "ftp://x"]).2 in
  currentIndex (w_dog s) = 2%nat ∧ rawURL <$> provider (w_dog s) = Some "socks5://a".
Proof. vm_compute. done. Qed.
