(* ===== verification/ClientPool.v ===== *)
(** * Telegram invokers, their middlewares and the data-centre pool
      (core/dcpool, core/middlewares, core/tclient, core/util/netutil)

    An invoker is a connection wrapped in middlewares: retry of internal server errors,
    recovery of lost connections, takeout sessions. The pool makes one invoker per data
    centre under a lock per data centre, with five attempts, a cool-down of five seconds after
    a failure, and closes what it made. Many goroutines ask the pool at once: their steps
    between two lock operations are atomic and interleave freely. The connections of the
    Telegram library, the back-off library, the context and the clock are arguments that may
    change a state of their own. The theorems: one connection per data centre whatever the
    interleaving, none lost; no attempt during a cool-down; what the middlewares repeat. *)
From S2P Require Import Prelude.

(** ** Addresses (net.SplitHostPort) *)

Definition colon : Ascii.ascii := Ascii.Ascii false true false true true true false false.
Definition lbracket : Ascii.ascii := Ascii.Ascii true true false true true false true false.
Definition rbracket : Ascii.ascii := Ascii.Ascii true false true true true false true false.

Inductive addr_err := MissingPort | TooManyColons | MissingBracket | UnexpectedBracket.
(** The position of the first and of the last occurrence of a character. *)
Definition IndexByte (l : list Ascii.ascii) (c : Ascii.ascii) : option nat := fst <$> list_find (eq c) l.
Definition LastIndexByte (l : list Ascii.ascii) (c : Ascii.ascii) : option nat :=
  (λ j, length l - 1 - j)%nat <$> IndexByte (rev l) c.
Definition split_tail (l host : list Ascii.ascii) (i j k : nat) : res addr_err (string * string) :=
  match IndexByte (drop j l) lbracket, IndexByte (drop k l) rbracket with
  | None, None => Ok (String.string_of_list_ascii host, String.string_of_list_ascii (drop (i + 1) l))
  | _, _ => Err UnexpectedBracket
  end.
Definition SplitHostPort (hostport : string) : res addr_err (string * string) :=
  let l := String.list_ascii_of_string hostport in
  match LastIndexByte l colon with
  | None => Err MissingPort
  | Some i =>
      if decide (head l = Some lbracket) then
        match IndexByte l rbracket with
        | None => Err MissingBracket
        | Some e =>
            if decide (e + 1 = length l)%nat then Err MissingPort
            else if decide (e + 1 = i)%nat then split_tail l (take (e - 1) (drop 1 l)) i 1 (e + 1)
            else if decide (l !! (e + 1)%nat = Some colon) then Err TooManyColons else Err MissingPort
        end
      else
        match IndexByte (take i l) colon with
        | Some _ => Err TooManyColons
        | None => split_tail l (take i l) i 0 0
        end
  end.
(** The guard of the two dialers: a target whose host is an IPv6 address is refused. *)
Definition ipv6_target (addr : string) : bool :=
  match SplitHostPort addr with Ok (host, _) => Contains host ":" | Err _ => false end.

Example split_plain : SplitHostPort "149.154.167.50:443" = Ok ("149.154.167.50", "443").
Proof. vm_compute. reflexivity. Qed.
Example split_ipv6 : SplitHostPort "[2001:67c::a]:443" = Ok ("2001:67c::a", "443") ∧ SplitHostPort "2001:67c::a" = Err TooManyColons.
Proof. vm_compute. done. Qed.

(** ** Errors, requests, invokers *)

Inductive rpc_error :=
| TgError (code : string)
| FloodWait (d : Z)
| OtherError (msg : string)
| CtxError
| Wrapped (msg : string) (err : rpc_error).
(** [errors.As] and [tgerr.As] look through wrappers. *)
Fixpoint cause (e : rpc_error) : rpc_error := match e with Wrapped _ e => cause e | e => e end.
Definition tgerr_As (e : rpc_error) : bool := match cause e with TgError _ | FloodWait _ => true | _ => false end.
Definition tgerr_Is (e : rpc_error) (types : list string) : bool :=
  match cause e with
  | TgError c => bool_decide (c ∈ types)
  | FloodWait _ => bool_decide ("FLOOD_WAIT" ∈ types)
  | _ => false
  end.
Definition AsFloodWait (e : rpc_error) : option Z := match cause e with FloodWait d => Some d | _ => None end.

Inductive Request := RPlain (name : string) | RTakeout (id : Z) (query : Request).
Inductive Middleware := MRetry (max : Z) (errors : list string) | MRecovery | MTakeout (id : Z).
(** A connection the pool made is known by its serial number. *)
Inductive Invoker :=
| IApi
| IConn (serial : nat)
| IMiddleware (m : Middleware) (next : Invoker)
| IFailed (dc : Z) (err : rpc_error).

(** The loop of [chainMiddlewares], from the last index down. *)
Fixpoint chain_from (invoker : Invoker) (chain : list Middleware) (n : nat) : Invoker :=
  match n with
  | O => invoker
  | S i => match chain !! i with
           | Some m => chain_from (IMiddleware m invoker) chain i
           | None => invoker
           end
  end.
Definition chainMiddlewares (invoker : Invoker) (chain : list Middleware) : Invoker :=
  chain_from invoker chain (length chain).

Definition internalErrors : list string :=
  ["Timedout"; "No workers running"; "RPC_CALL_FAIL"; "RPC_MCGET_FAIL"; "WORKER_BUSY_TOO_LONG_RETRY"; "memory limit exit"].
Definition retry_New (max : Z) (errors : list string) : Middleware := MRetry max (errors ++ internalErrors).

(** *** The set-up of the client *)

Record Backoff := BackOff { Multiplier10 : Z; MaxElapsedTime : Z; MaxInterval : Z; InitialInterval : Z }.
Definition ms : Z := 1000000.
(** Durations in nanoseconds, the multiplier in tenths; the argument is not used. *)
Definition newBackoff (timeout : Z) : Backoff := BackOff 13 0 (10000 * ms) (500 * ms).
Definition NewDefaultMiddlewares (timeout : Z) : list Middleware := [MRecovery; retry_New 2 []].

Record DCOption := DcOption { dc_ID : Z; Ipv6 : bool; dc_IP : string }.
Fixpoint filterIPv4Options (options : list DCOption) : list DCOption :=
  match options with
  | [] => []
  | o :: options => if Ipv6 o then filterIPv4Options options else o :: filterIPv4Options options
  end.

Lemma elem_union_ne (d dc : Z) (X : gset Z) : d ≠ dc → d ∈ {[dc]} ∪ X ↔ d ∈ X.
Proof. set_solver. Qed.
Lemma elem_diff_ne (d dc : Z) (X : gset Z) : d ≠ dc → d ∈ X ∖ {[dc]} ↔ d ∈ X.
Proof. set_solver. Qed.

Section Client.
Context {W : Type}.
(** The Telegram library: a request over the client ([None]) or over a connection, the two
    ways to open a connection, and what a resolver does with a list of options. *)
Context (call : option nat → Request → SM W (option rpc_error)).
Context (api_Pool : Z → SM W (option rpc_error)) (api_DC : Z → Z → SM W (option rpc_error)) (this_dc : Z).
(** [ctx.Err() != nil], a wait that the context may cut short ([true]), and the clock. *)
Context (ctx_done : SM W bool) (wait : Z → SM W bool) (time_Now : SM W Z).
(** The waits the back-off of the recovery middleware grants before it stops (15 s in all). *)
Context (delays : list Z).

(** *** Middlewares *)

(** [retry.Handle]; [todo] is [max - retries]. *)
Fixpoint retry_loop (max : Z) (errors : list string) (next : SM W (option rpc_error)) (todo : nat) : SM W (option rpc_error) :=
  match todo with
  | O => done! (Some (OtherError ("retry limit reached after " +:+ itoa max +:+ " attempts")))
  | S todo =>
      do! r := next in
      match r with
      | Some err => if tgerr_Is err errors then retry_loop max errors next todo else done! (Some err)
      | None => done! None
      end
  end.

(** [shouldRecover]: neither context is done and the error is not a business error. *)
Definition shouldRecover (err : rpc_error) : SM W bool :=
  do! stop := ctx_done in
  if stop : bool then done! false else done! (negb (tgerr_As err)).
(** [recovery.Handle]: [backoff.RetryNotify] around the call. *)
Fixpoint recovery_loop (next : SM W (option rpc_error)) (ds : list Z) : SM W (option rpc_error) :=
  do! r := next in
  match r with
  | None => done! None
  | Some err =>
      do! again := shouldRecover err in
      if negb again then done! (Some err)
      else
        match ds with
        | [] => do! stop := ctx_done in if stop : bool then done! (Some CtxError) else done! (Some (Wrapped "recover" err))
        | d :: ds => do! stop := wait d in if stop : bool then done! (Some CtxError) else recovery_loop next ds
        end
  end.

Fixpoint Invoke (i : Invoker) (r : Request) : SM W (option rpc_error) :=
  match i with
  | IApi => call None r
  | IConn k => call (Some k) r
  | IFailed dc err => done! (Some (Wrapped ("DC " +:+ itoa dc +:+ " connection failed") err))
  | IMiddleware (MRetry max errors) next => retry_loop max errors (Invoke next r) (Z.to_nat max)
  | IMiddleware MRecovery next => recovery_loop (Invoke next r) delays
  | IMiddleware (MTakeout id) next => Invoke next (RTakeout id r)
  end.

(** *** The pool *)

(** The fields that change, the data centres whose lock is held, and what the world saw: the
    data centre of every connection made, by serial number, and the connections closed. *)
Record pool := Pool {
  invokers : gmap Z Invoker; closes : gmap Z nat; dcFailures : gmap Z Z; takeout : Z;
  locks : gset Z; world : W; created : list Z; closed : list nat }.
Definition PS (A : Type) : Type := SM pool A.
Definition ask {A} (m : SM W A) : PS A := λ p,
  let (a, w) := m (world p) in
  (a, Pool (invokers p) (closes p) (dcFailures p) (takeout p) (locks p) w (created p) (closed p)).
Definition get_pool : PS pool := λ p, (p, p).
Definition lock_dc (dc : Z) : PS unit := λ p,
  (tt, Pool (invokers p) (closes p) (dcFailures p) (takeout p) ({[dc]} ∪ locks p) (world p) (created p) (closed p)).
Definition unlock_dc (dc : Z) : PS unit := λ p,
  (tt, Pool (invokers p) (closes p) (dcFailures p) (takeout p) (locks p ∖ {[dc]}) (world p) (created p) (closed p)).
Definition made (dc : Z) : PS nat := λ p,
  (length (created p),
   Pool (invokers p) (closes p) (dcFailures p) (takeout p) (locks p) (world p) (created p ++ [dc]) (closed p)).
Definition set_takeout (id : Z) : PS unit := λ p,
  (tt, Pool (invokers p) (closes p) (dcFailures p) id (locks p) (world p) (created p) (closed p)).
Definition fail_dc (dc now : Z) : PS unit := λ p,
  (tt, Pool (invokers p) (closes p) (<[dc := now]> (dcFailures p)) (takeout p) (locks p) (world p) (created p) (closed p)).
Definition register (dc : Z) (k : nat) (i : Invoker) : PS unit := λ p,
  (tt, Pool (<[dc := i]> (invokers p)) (<[dc := k]> (closes p)) (delete dc (dcFailures p)) (takeout p) (locks p) (world p)
         (created p) (closed p)).
Definition note_close (k : nat) : PS unit := λ p,
  (tt, Pool (invokers p) (closes p) (dcFailures p) (takeout p) (locks p) (world p) (created p) (closed p ++ [k])).

Definition NewPool (w : W) : pool := Pool ∅ ∅ ∅ 0 ∅ w [] [].

Context (size : Z) (middlewares : list Middleware) (testMode : bool).
Definition sec : Z := 1000 * ms.

(** The read under [p.mu] that [invoker] does before and after it takes the lock: a known
    invoker, or a failed one during the cool-down. *)
Definition check (dc : Z) : PS (option Invoker) :=
  do! p := get_pool in
  match invokers p !! dc with
  | Some i => done! (Some i)
  | None =>
      match dcFailures p !! dc with
      | None => done! None
      | Some failTime =>
          do! now := ask time_Now in
          if decide (now - failTime < 5 * sec)
          then done! (Some (IFailed dc (OtherError ("foreign DC " +:+ itoa dc +:+ " in connection cooldown"))))
          else done! None
      end
  end.

Inductive creation := Created | Failed (err : rpc_error) | Cancelled.
(** The five attempts at a foreign data centre; [todo] are left. *)
Fixpoint create_loop (dc : Z) (todo : nat) (attempt : Z) (err : option rpc_error) : SM W creation :=
  match todo with
  | O => done! (match err with None => Created | Some e => Failed e end)
  | S todo =>
      do! stop := ctx_done in
      if stop : bool then done! Cancelled
      else
        do! r := api_DC dc size in
        match r with
        | None => done! Created
        | Some e =>
            let d := match AsFloodWait e with Some d => d + sec | None => (attempt + 1) * (500 * ms) end in
            do! stop := wait d in
            if stop : bool then done! Cancelled else create_loop dc todo (attempt + 1) (Some e)
        end
  end.
Definition create (dc : Z) : SM W creation :=
  if decide (dc = 0 ∨ dc = this_dc) then
    do! r := api_Pool size in
    match r with None => done! Created | Some e => done! (Failed e) end
  else create_loop dc 5 0 None.

(** A goroutine inside [invoker], between two operations on locks. *)
Inductive pc :=
| PStart (dc : Z)
| PWant (dc : Z)
| PLocked (dc : Z)
| PCreate (dc : Z)
| PPublish (dc : Z) (r : res rpc_error nat)
| PDone (dc : Z) (i : Invoker).
Definition finish (dc : Z) (i : Invoker) : PS (option pc) :=
  do! _ := unlock_dc dc in done! (Some (PDone dc i)).

(** One step; [None] when the goroutine waits for the lock or has returned. *)
Definition thread_step (c : pc) : PS (option pc) :=
  match c with
  | PStart dc =>
      if testMode then done! (Some (PDone dc IApi))
      else
        do! r := check dc in
        match r with Some i => done! (Some (PDone dc i)) | None => done! (Some (PWant dc)) end
  | PWant dc =>
      do! p := get_pool in
      if decide (dc ∈ locks p) then done! None
      else do! _ := lock_dc dc in done! (Some (PLocked dc))
  | PLocked dc =>
      do! r := check dc in
      match r with Some i => finish dc i | None => done! (Some (PCreate dc)) end
  | PCreate dc =>
      do! r := ask (create dc) in
      match r with
      | Created => do! k := made dc in done! (Some (PPublish dc (Ok k)))
      | Failed e => done! (Some (PPublish dc (Err e)))
      | Cancelled => finish dc (IFailed dc CtxError)
      end
  | PPublish dc (Err e) =>
      do! now := ask time_Now in
      do! _ := fail_dc dc now in
      finish dc (IFailed dc e)
  | PPublish dc (Ok k) =>
      let i := chainMiddlewares (IConn k) middlewares in
      do! _ := register dc k i in
      finish dc i
  | PDone _ _ => done! None
  end.

(** [invoker] by a goroutine that runs alone; [None] when it waits for ever. *)
Fixpoint run_thread (fuel : nat) (c : pc) : PS (option Invoker) :=
  match c with
  | PDone _ i => done! (Some i)
  | _ =>
      match fuel with
      | O => done! None
      | S fuel =>
          do! r := thread_step c in
          match r with Some c' => run_thread fuel c' | None => done! None end
      end
  end.
Definition invoker (dc : Z) : PS (option Invoker) := run_thread 5 (PStart dc).
Definition pool_Invoker (dc : Z) : PS (option Invoker) := invoker dc.
Definition DefaultInvoker : PS (option Invoker) := invoker this_dc.

(** *** Takeout sessions and the end of the pool *)

Context (init_takeout : SM W (res rpc_error Z)) (close_conn : nat → SM W (option rpc_error)).

Definition TakeoutInvoker (dc : Z) : PS (option Invoker) :=
  if testMode then invoker dc
  else
    do! p := get_pool in
    do! id := (if decide (takeout p = 0) then
                 do! r := ask init_takeout in
                 match r with
                 | Err _ => done! None
                 | Ok sid => do! _ := set_takeout sid in done! (Some sid)
                 end
               else done! (Some (takeout p))) in
    do! i := invoker dc in
    match id, i with
    | Some id, Some i => done! (Some (chainMiddlewares i [MTakeout id]))
    | _, i => done! i
    end.

(** [UnTakeout], then every connection registered when [Close] began. *)
Fixpoint close_all (l : list nat) : PS (list rpc_error) :=
  match l with
  | [] => done! []
  | k :: l =>
      do! r := ask (close_conn k) in
      do! _ := note_close k in
      do! es := close_all l in
      done! (match r with Some e => e :: es | None => es end)
  end.
Definition pool_Close : PS (list rpc_error) :=
  do! p := get_pool in
  let cs := (map_to_list (closes p)).*2 in
  do! e := (if decide (takeout p = 0) then done! []
            else
              do! i := TakeoutInvoker this_dc in
              match i with
              | Some i => do! r := ask (Invoke i (RPlain "account.finishTakeoutSession")) in done! (option_list r)
              | None => done! []
              end) in
  do! es := close_all cs in
  done! (e ++ es).

(** ** Goroutines that share the pool *)

Record gstate := GSt { threads : list pc; shared : pool }.
Inductive gstep : gstate → gstate → Prop :=
| gstep_thread ts p i c c' p' :
    ts !! i = Some c → thread_step c p = (Some c', p') → gstep (GSt ts p) (GSt (<[i := c']> ts) p').

Definition holds (dc : Z) (c : pc) : Prop :=
  match c with PLocked d | PCreate d | PPublish d _ => d = dc | _ => False end.
Definition pc_dc (c : pc) : Z :=
  match c with PStart d | PWant d | PLocked d | PCreate d | PPublish d _ | PDone d _ => d end.

(** What a goroutine relies on while it holds its lock. *)
Definition thread_ok (p : pool) (c : pc) : Prop :=
  match c with
  | PLocked dc => dc ∈ locks p
  | PCreate dc | PPublish dc (Err _) => dc ∈ locks p ∧ invokers p !! dc = None
  | PPublish dc (Ok k) => dc ∈ locks p ∧ invokers p !! dc = None ∧ created p !! k = Some dc
  | _ => True
  end.
Record pool_inv (g : gstate) : Prop := {
  pi_thread i c : threads g !! i = Some c → thread_ok (shared g) c;
  pi_unique i j c d dc : threads g !! i = Some c → threads g !! j = Some d → holds dc c → holds dc d → i = j;
  pi_locked dc : dc ∈ locks (shared g) → ∃ i c, threads g !! i = Some c ∧ holds dc c;
  pi_dom dc : is_Some (invokers (shared g) !! dc) ↔ is_Some (closes (shared g) !! dc);
  pi_closes dc k : closes (shared g) !! dc = Some k →
    created (shared g) !! k = Some dc ∧ invokers (shared g) !! dc = Some (chainMiddlewares (IConn k) middlewares);
  pi_created k dc : created (shared g) !! k = Some dc →
    closes (shared g) !! dc = Some k ∨ ∃ i, threads g !! i = Some (PPublish dc (Ok k)) }.

(** What a step leaves alone. *)
Record frame (dc : Z) (p p' : pool) : Prop := {
  fr_invokers d : d ≠ dc → invokers p' !! d = invokers p !! d;
  fr_closes d : d ≠ dc → closes p' !! d = closes p !! d;
  fr_locks d : d ≠ dc → d ∈ locks p' ↔ d ∈ locks p;
  fr_created : created p `prefix_of` created p' }.

Lemma ask_eq {A} (m : SM W A) p : ∃ a w,
  ask m p = (a, Pool (invokers p) (closes p) (dcFailures p) (takeout p) (locks p) w (created p) (closed p)).
Proof. unfold ask. destruct (m (world p)) as [a w]. eauto. Qed.

(** A check answers without changing anything but the world; a known invoker is what is registered. *)
Lemma check_eq dc p : ∃ o w,
  check dc p = (o, Pool (invokers p) (closes p) (dcFailures p) (takeout p) (locks p) w (created p) (closed p)) ∧
  match o with
  | Some i => invokers p !! dc = Some i ∨ ∃ e, i = IFailed dc e
  | None => invokers p !! dc = None
  end.
Proof.
  unfold check, sm_bind, get_pool, sm_ret. destruct (invokers p !! dc) as [i|] eqn:Ei.
  { destruct p. eexists _, _. split; [done|]. by left. }
  destruct (dcFailures p !! dc) as [t|]; [|destruct p; by eexists _, _].
  destruct (ask_eq time_Now p) as (now & w & ->). case_decide; eexists _, w; (split; [done|]); [right; by eexists|done].
Qed.

Ltac pool_unfold :=
  unfold finish, get_pool, lock_dc, unlock_dc, made, fail_dc, register in *; unfold sm_bind, sm_ret in *.
(** The outcomes of a step, one goal per branch of the code. *)
Ltac pool_step :=
  pool_unfold;
  repeat first
  [ match goal with
    | H : context [check ?dc ?p] |- _ =>
        let o := fresh "o" in let w := fresh "w" in let E := fresh "E" in let Ho := fresh "Ho" in
        destruct (check_eq dc p) as (o & w & E & Ho); rewrite E in H; clear E; destruct o
    | H : context [ask ?m ?p] |- _ =>
        let a := fresh "a" in let w := fresh "w" in let E := fresh "E" in
        destruct (ask_eq m p) as (a & w & E); rewrite E in H; clear E; try destruct a
    end
  | case_decide | case_match | progress simplify_eq/= ].

Lemma step_frame c p c' p' : thread_step c p = (Some c', p') → frame (pc_dc c) p p' ∧ pc_dc c' = pc_dc c.
Proof.
  intros H. destruct c as [dc|dc|dc|dc|dc [k|e]|dc i]; cbn [thread_step] in H; pool_step;
    (split; [|done]); constructor; cbn; intros; rewrite ?lookup_insert_ne by done; try done;
    try (by apply elem_union_ne); try (by apply elem_diff_ne); try by apply prefix_app_r.
Qed.

(** What a step does at its own data centre. *)
Record own_step (c c' : pc) (p p' : pool) : Prop := {
  os_ok : thread_ok p' c';
  os_held : pc_dc c ∈ locks p' → holds (pc_dc c) c';
  os_dom : is_Some (invokers p' !! pc_dc c) ↔ is_Some (closes p' !! pc_dc c);
  os_closes k : closes p' !! pc_dc c = Some k →
    created p' !! k = Some (pc_dc c) ∧ invokers p' !! pc_dc c = Some (chainMiddlewares (IConn k) middlewares);
  os_kept k : closes p !! pc_dc c = Some k → closes p' !! pc_dc c = Some k;
  os_new k d : created p' !! k = Some d → created p !! k = Some d ∨ c' = PPublish d (Ok k);
  os_done k : c = PPublish (pc_dc c) (Ok k) → closes p' !! pc_dc c = Some k }.

Lemma pool_own_step c p c' p' :
  (∀ dc, c ≠ PStart dc) → thread_ok p c →
  (is_Some (invokers p !! pc_dc c) ↔ is_Some (closes p !! pc_dc c)) →
  (∀ k, closes p !! pc_dc c = Some k →
    created p !! k = Some (pc_dc c) ∧ invokers p !! pc_dc c = Some (chainMiddlewares (IConn k) middlewares)) →
  thread_step c p = (Some c', p') → own_step c c' p p'.
Proof.
  intros Hs Hok Hdom Hcl H. destruct c as [dc|dc|dc|dc|dc [k|e]|dc i]; cbn [thread_step pc_dc] in *; [by destruct (Hs dc)|..];
    pool_step; constructor; cbn; try done; rewrite ?lookup_insert_eq; try (by intros; simplify_eq);
    try (by intros; left); try (by intros [_ Hx]%elem_of_difference; destruct Hx; apply elem_of_singleton).
  - by apply elem_of_union_l, elem_of_singleton.
  - destruct Hok as [? ?]. split_and!; [done|done|]. by apply list_lookup_middle.
  - intros k Hk. destruct (Hcl k Hk) as [_ Hi]. destruct Hok as [_ ?]. congruence.
  - intros k d [Hd|[Hl Hd]]%lookup_app_Some; [by left|]. right.
    apply list_lookup_singleton_Some in Hd as [Hk ->]. do 2 f_equal. lia.
  - intros j [= <-]. by destruct Hok as (_ & _ & ?).
  - intros j Hj. destruct Hok as (_ & Hn & _). destruct (Hcl j Hj) as [_ Hi]. congruence.
Qed.

Lemma thread_ok_frame dc p p' d : frame dc p p' → ¬ holds dc d → thread_ok p d → thread_ok p' d.
Proof.
  intros [I _ L C] Hn. destruct d as [e|e|e|e|e [k|]|e i]; cbn in *; try done; rewrite ?I, ?L by done; try done.
  intros (? & ? & ?). split_and!; [done|done|]. by eapply prefix_lookup_Some.
Qed.

(** A goroutine that steps under a lock, or takes one, finds no other that holds the lock. *)
Lemma alone ts p i c c' p' j d :
  pool_inv (GSt ts p) → (∀ dc, c ≠ PStart dc) → ts !! i = Some c → thread_step c p = (Some c', p') →
  j ≠ i → ts !! j = Some d → ¬ holds (pc_dc c) d.
Proof.
  intros [T U _ _ _ _] Hs Hi Hst Hne Hj Hd.
  destruct c as [dc|dc|dc|dc|dc r|dc x]; cbn [pc_dc] in *; [by destruct (Hs dc)| |..|done];
    try (destruct Hne; symmetry; by eapply (U i j _ d dc)).
  specialize (T j d Hj). cbn in T. cbn [thread_step] in Hst. pool_unfold.
  destruct (decide (dc ∈ locks p)) as [|Hl]; [done|]. destruct Hl.
  destruct d as [e|e|e|e|e [k|]|e y]; cbn in *; try done; subst; naive_solver.
Qed.

(** A step before the lock reads only. *)
Lemma start_step dc p c' p' : thread_step (PStart dc) p = (Some c', p') →
  (∃ w, p' = Pool (invokers p) (closes p) (dcFailures p) (takeout p) (locks p) w (created p) (closed p)) ∧
  ∀ d, ¬ holds d c'.
Proof.
  intros H. cbn [thread_step] in H. pool_step; (split; [eauto|by intros d []]). exists (world p'). by destruct p'.
Qed.
Lemma thread_ok_free p c : (∀ d, ¬ holds d c) → thread_ok p c.
Proof. destruct c as [| |d|d|d r|]; cbn; try done; intros H; by destruct (H d). Qed.

Lemma pool_inv_start ts p i dc c' p' :
  pool_inv (GSt ts p) → ts !! i = Some (PStart dc) → thread_step (PStart dc) p = (Some c', p') →
  pool_inv (GSt (<[i := c']> ts) p').
Proof.
  intros [T U L D C M] Hi Hst. apply start_step in Hst as [[w ->] Hf]. constructor; cbn in *.
  - intros j d [(-> & <- & _)|[_ Hj]]%list_lookup_insert_Some; [by apply thread_ok_free|]. by apply (T j d).
  - intros j1 j2 d1 d2 e H1 H2 E1 E2.
    apply list_lookup_insert_Some in H1 as [(-> & <- & _)|[_ H1]]; [by destruct (Hf e)|].
    apply list_lookup_insert_Some in H2 as [(-> & <- & _)|[_ H2]]; [by destruct (Hf e)|]. eauto.
  - intros e He. destruct (L e He) as (j & d & Hj & Hd). exists j, d. split; [|done].
    rewrite list_lookup_insert_ne; [done|]. intros ->. by simplify_eq.
  - done.
  - done.
  - intros k e Hk. destruct (M k e Hk) as [|[j Hj]]; [by left|right]. exists j.
    rewrite list_lookup_insert_ne; [done|]. intros ->. by simplify_eq.
Qed.

Lemma holds_dc dc c : holds dc c → pc_dc c = dc.
Proof. by destruct c. Qed.

Lemma pool_inv_own ts p i c c' p' :
  pool_inv (GSt ts p) → (∀ dc, c ≠ PStart dc) → ts !! i = Some c → thread_step c p = (Some c', p') →
  pool_inv (GSt (<[i := c']> ts) p').
Proof.
  intros I Hs Hi Hst. destruct (step_frame _ _ _ _ Hst) as [F Hdc].
  assert (∀ j d, j ≠ i → ts !! j = Some d → ¬ holds (pc_dc c) d) as Ha by (intros; by eapply alone).
  destruct I as [T U L D C M]. cbn in *.
  destruct (pool_own_step c p c' p' Hs (T i c Hi) (D _) (C _) Hst) as [Ok Hl Hd Hc Hk Hn Hp].
  assert (i < length ts)%nat as Hlt by (by eapply lookup_lt_Some).
  constructor; cbn.
  - intros j d [(-> & <- & _)|[Hne Hj]]%list_lookup_insert_Some; [done|].
    eapply thread_ok_frame; [done|by eapply Ha|]. by apply (T j d).
  - intros j1 j2 d1 d2 e H1 H2 E1 E2.
    apply list_lookup_insert_Some in H1 as [(<- & <- & _)|[N1 H1]];
      apply list_lookup_insert_Some in H2 as [(<- & <- & _)|[N2 H2]]; [done|..|by eapply U].
    + apply holds_dc in E1. destruct (Ha j2 d2); [done|done|]. by rewrite <- Hdc, E1.
    + apply holds_dc in E2. destruct (Ha j1 d1); [done|done|]. by rewrite <- Hdc, E2.
  - intros e He. destruct (decide (e = pc_dc c)) as [->|Hne].
    { exists i, c'. rewrite list_lookup_insert_eq by done. eauto. }
    rewrite (fr_locks _ _ _ F) in He by done. destruct (L e He) as (j & d & Hj & Hh). exists j, d. split; [|done].
    rewrite list_lookup_insert_ne; [done|]. intros ->. simplify_eq. by apply holds_dc in Hh.
  - intros e. destruct (decide (e = pc_dc c)) as [->|Hne]; [done|].
    by rewrite (fr_invokers _ _ _ F), (fr_closes _ _ _ F).
  - intros e k. destruct (decide (e = pc_dc c)) as [->|Hne]; [auto|].
    rewrite (fr_invokers _ _ _ F), (fr_closes _ _ _ F) by done. intros [? ?]%C. split; [|done].
    eapply prefix_lookup_Some; [done|apply F].
  - intros k e [Hold| ->]%Hn.
    2: { right. exists i. by apply list_lookup_insert_eq. }
    destruct (M k e Hold) as [Hcl|[j Hj]].
    + left. destruct (decide (e = pc_dc c)) as [->|Hne]; [auto|]. by rewrite (fr_closes _ _ _ F).
    + destruct (decide (j = i)) as [->|Hne]; [|right; exists j; by rewrite list_lookup_insert_ne].
      simplify_eq. left. cbn in *. auto.
Qed.

Lemma gstep_inv g g' : gstep g g' → pool_inv g → pool_inv g'.
Proof.
  intros [ts p i c c' p' Hi Hst] I. destruct c as [dc|dc|dc|dc|dc r|dc x].
  1: by eapply pool_inv_start.
  all: eapply pool_inv_own; [exact I| |exact Hi|exact Hst]; by intros.
Qed.

Definition asked (dcs : list Z) (w : W) : gstate := GSt (PStart <$> dcs) (NewPool w).
Lemma asked_inv dcs w : pool_inv (asked dcs w).
Proof.
  assert (∀ i c, (PStart <$> dcs) !! i = Some c → ∃ dc, c = PStart dc) as H.
  { intros i c Hi. apply list_lookup_fmap_Some in Hi as (dc & -> & _). eauto. }
  constructor; cbn.
  - intros i c [dc ->]%H. done.
  - intros i j c d dc [e ->]%H. done.
  - intros dc []%elem_of_empty.
  - intros dc. by rewrite !lookup_empty.
  - intros dc k. by rewrite lookup_empty.
  - done.
Qed.
Lemma reach_inv dcs w g : rtc gstep (asked dcs w) g → pool_inv g.
Proof.
  intros H. pose proof (asked_inv dcs w) as I. revert I. induction H as [|? ? ? St _ IH]; intros I; [done|].
  apply IH. by eapply gstep_inv.
Qed.

(** A connection is made once for a data centre. *)
Lemma created_unique g k1 k2 dc :
  pool_inv g → created (shared g) !! k1 = Some dc → created (shared g) !! k2 = Some dc → k1 = k2.
Proof.
  intros [T U _ D C M] H1 H2.
  assert (∀ i k, threads g !! i = Some (PPublish dc (Ok k)) → closes (shared g) !! dc = None) as Hx.
  { intros i k Hi. pose proof (T _ _ Hi) as (_ & Hn & _). apply eq_None_not_Some. rewrite <- D, Hn. by intros [? ?]. }
  destruct (M _ _ H1) as [E1|[i Hi]], (M _ _ H2) as [E2|[j Hj]].
  - congruence.
  - apply Hx in Hj. congruence.
  - apply Hx in Hi. congruence.
  - assert (i = j) as -> by (by eapply (U i j _ _ dc)). congruence.
Qed.

(** What a goroutine may return: the shared invoker of its data centre, or a failed one. *)
Definition served (p : pool) (dc : Z) (v : Invoker) : Prop :=
  (testMode = true ∧ v = IApi) ∨ (∃ e, v = IFailed dc e) ∨
  ∃ k, closes p !! dc = Some k ∧ v = chainMiddlewares (IConn k) middlewares.

Lemma closes_kept ts p i c c' p' dc k :
  pool_inv (GSt ts p) → ts !! i = Some c → thread_step c p = (Some c', p') →
  closes p !! dc = Some k → closes p' !! dc = Some k.
Proof.
  intros I Hi Hst Hk. destruct (step_frame _ _ _ _ Hst) as [F _].
  destruct (decide (dc = pc_dc c)) as [->|Hne]; [|by rewrite (fr_closes _ _ _ F)].
  destruct I as [T _ _ D C _]. destruct c as [e|e|e|e|e r|e x].
  { apply start_step in Hst as [[w ->] _]. done. }
  all: eapply os_kept; [eapply pool_own_step; [by intros|by apply (T i)|apply D|apply C|exact Hst]|exact Hk].
Qed.
Lemma registered_served g dc v : pool_inv g → invokers (shared g) !! dc = Some v → served (shared g) dc v.
Proof.
  intros [_ _ _ D C _] Hv. destruct (proj1 (D dc) (mk_is_Some _ _ Hv)) as [k Hk]. right; right. exists k. split; [done|].
  apply C in Hk as [_ Hk]. congruence.
Qed.
Lemma step_served ts p i c p' dc v :
  pool_inv (GSt ts p) → ts !! i = Some c → thread_step c p = (Some (PDone dc v), p') → served p' dc v.
Proof.
  intros I Hi Hst. pose proof (gstep_inv _ _ (gstep_thread _ _ _ _ _ _ Hi Hst) I) as I'.
  pose proof (registered_served _ dc v I') as Hr. cbn in Hr.
  destruct c as [e|e|e|e|e [k|err]|e x]; cbn [thread_step] in Hst; clear Hi I I'; pool_step; unfold served;
    first [by left|by right; left; eexists|destruct Ho as [?|[? ->]]; [by apply Hr|by right; left; eexists]|idtac].
  apply Hr. cbn. by rewrite lookup_insert_eq.
Qed.

Lemma reach_served dcs w g : rtc gstep (asked dcs w) g →
  ∀ i dc v, threads g !! i = Some (PDone dc v) → served (shared g) dc v.
Proof.
  intros H. apply rtc_ind_r with (P := λ g, ∀ i dc v, threads g !! i = Some (PDone dc v) → served (shared g) dc v) in H; [done| |].
  - intros i dc v Hi. cbn in Hi. apply list_lookup_fmap_Some in Hi as (e & Hi & _). done.
  - intros g1 g2 R St IH. pose proof (reach_inv _ _ _ R) as I. destruct St as [ts p i c c' p' Hi Hst]. cbn in *.
    intros j dc v [(-> & -> & _)|[Hne Hj]]%list_lookup_insert_Some; [exact (step_served ts p _ c p' dc v I Hi Hst)|].
    destruct (IH j dc v Hj) as [?|[?|(k & Hk & ->)]]; [by left|by right; left|]. right; right.
    exists k. split; [|done]. exact (closes_kept ts p i c c' p' dc k I Hi Hst Hk).
Qed.

(** C33. However the goroutines that ask the pool interleave, at most one connection is made
    per data centre; each of them is handed the shared invoker of its data centre or a failed
    one; and once all have returned, the connections made are exactly those the pool will
    close. *)
Theorem pool_one_connection (dcs : list Z) (w : W) (g : gstate) :
  rtc gstep (asked dcs w) g →
  NoDup (created (shared g)) ∧
  (∀ i dc v, threads g !! i = Some (PDone dc v) → served (shared g) dc v) ∧
  ((∀ i c, threads g !! i = Some c → ∃ dc v, c = PDone dc v) →
   ∀ k dc, created (shared g) !! k = Some dc ↔ closes (shared g) !! dc = Some k).
Proof.
  intros R. pose proof (reach_inv _ _ _ R) as I. split_and!.
  - apply NoDup_alt. intros k1 k2 dc. by apply created_unique.
  - by eapply reach_served.
  - intros Hd k dc. destruct I as [_ _ _ _ C M]. split; [|by intros [? _]%C].
    intros [?|[i Hi]]%M; [done|]. by destruct (Hd _ _ Hi) as (? & ? & ?).
Qed.

(** *** Every goroutine returns *)

Definition remaining (c : pc) : Z :=
  match c with PStart _ => 5 | PWant _ => 4 | PLocked _ => 3 | PCreate _ => 2 | PPublish _ _ => 1 | PDone _ _ => 0 end.
Lemma thread_step_remaining c p c' p' : thread_step c p = (Some c', p') → remaining c' < remaining c.
Proof.
  intros H. destruct c as [dc|dc|dc|dc|dc [k|e]|dc i]; cbn [thread_step] in H; pool_step; cbn; lia.
Qed.
Lemma gstep_remaining g g' : gstep g g' → sumZ remaining (threads g') < sumZ remaining (threads g).
Proof.
  intros [ts p i c c' p' Hi Hst]. cbn [threads]. rewrite (sumZ_insert _ _ _ _ _ Hi).
  apply thread_step_remaining in Hst. lia.
Qed.
Lemma remaining_nonneg l : 0 <= sumZ remaining l.
Proof. apply sumZ_nonneg. intros [] _; cbn; lia. Qed.
Lemma gsteps_remaining n g g' : nsteps gstep n g g' → sumZ remaining (threads g') + Z.of_nat n <= sumZ remaining (threads g).
Proof. induction 1 as [|n x y z St _ IH]; [lia|]. apply gstep_remaining in St. lia. Qed.

(** A goroutine that is not waiting for a lock can go on. *)
Lemma thread_can_step c p :
  (∃ dc v, c = PDone dc v) ∨ (∃ dc, c = PWant dc ∧ dc ∈ locks p) ∨ ∃ c' p', thread_step c p = (Some c', p').
Proof.
  destruct c as [dc|dc|dc|dc|dc [k|e]|dc i]; cbn [thread_step]; pool_unfold; [| | | |by eauto| |by eauto].
  - right; right. destruct testMode; [by eauto|]. destruct (check_eq dc p) as ([i|] & w & -> & _); eauto.
  - destruct (decide (dc ∈ locks p)); eauto 6.
  - right; right. destruct (check_eq dc p) as ([i|] & w & -> & _); eauto.
  - right; right. destruct (ask_eq (create dc) p) as ([] & w & ->); eauto.
  - right; right. destruct (ask_eq time_Now p) as (now & w & ->). eauto.
Qed.


(** A schedule: which goroutine steps next. *)
Definition gstep_at (i : nat) (g : gstate) : option gstate :=
  c ← threads g !! i;
  match thread_step c (shared g) with
  | (Some c', p') => Some (GSt (<[i := c']> (threads g)) p')
  | (None, _) => None
  end.
Fixpoint schedule (l : list nat) (g : gstate) : option gstate :=
  match l with [] => Some g | i :: l => g' ← gstep_at i g; schedule l g' end.
Lemma schedule_nsteps l : ∀ g g', schedule l g = Some g' → nsteps gstep (length l) g g'.
Proof.
  induction l as [|i l IH]; intros g g' H; cbn in H; [simplify_eq; constructor|].
  destruct (gstep_at i g) as [g1|] eqn:E; [|done]. cbn in H. apply nsteps_l with g1; [|by apply IH].
  unfold gstep_at in E. destruct g as [ts p]. cbn in E. destruct (ts !! i) as [c|] eqn:Ei; [|done]. cbn in E.
  destruct (thread_step c p) as [[c'|] p'] eqn:Et; simplify_eq. by econstructor.
Qed.

(** *** One goroutine alone *)

(** During the cool-down [invoker] fails at once: nothing is asked but the clock. *)
Theorem invoker_cooldown (dc t : Z) (p : pool) :
  testMode = false → invokers p !! dc = None → dcFailures p !! dc = Some t →
  (time_Now (world p)).1 - t < 5 * sec →
  ∃ e, invoker dc p = (Some (IFailed dc e),
    Pool (invokers p) (closes p) (dcFailures p) (takeout p) (locks p) (time_Now (world p)).2 (created p) (closed p)).
Proof.
  intros Ht Hi Hf Hc. unfold invoker. cbn [run_thread thread_step]. rewrite Ht. pool_unfold. unfold check. pool_unfold.
  rewrite Hi, Hf. unfold ask. destruct (time_Now (world p)) as [now w]. cbn in *. rewrite decide_True by done. eauto.
Qed.

Ltac run_on := do 2 (pool_unfold; cbn -[check ask create]).
(** Alone, [invoker] always returns, and leaves the lock free. *)
Lemma invoker_returns dc p : dc ∉ locks p → ∃ v p', invoker dc p = (Some v, p') ∧ locks p' = locks p.
Proof.
  intros Hl. unfold invoker. cbn [run_thread thread_step]. pool_unfold.
  destruct testMode; [by eauto|].
  destruct (check_eq dc p) as ([i|] & w & -> & _); [by eauto|]. run_on. rewrite decide_False by done. run_on.
  match goal with |- context [check dc ?q] => destruct (check_eq dc q) as ([i|] & w' & -> & _) end; run_on.
  { eexists _, _. split; [done|]. cbn. set_solver. }
  match goal with |- context [ask ?m ?q] => destruct (ask_eq m q) as ([|e|] & w2 & ->) end; run_on.
  - eexists _, _. split; [done|]. cbn. set_solver.
  - match goal with |- context [ask ?m ?q] => destruct (ask_eq m q) as (now & w3 & ->) end; run_on.
    eexists _, _. split; [done|]. cbn. set_solver.
  - eexists _, _. split; [done|]. cbn. set_solver.
Qed.

(** [Close] closes every registered connection once, in some order, when no takeout session
    is open. *)
Lemma close_all_closed l : ∀ p, closed (close_all l p).2 = closed p ++ l.
Proof.
  induction l as [|k l IH]; intros p; cbn; [by rewrite app_nil_r|]. unfold sm_bind, sm_ret, note_close.
  destruct (ask_eq (close_conn k) p) as (r & w & ->). cbn.
  match goal with |- context [close_all l ?q] => specialize (IH q); destruct (close_all l q) as [es p'] end.
  cbn in *. by rewrite IH, <- app_assoc.
Qed.
Theorem close_closes_all (p : pool) :
  takeout p = 0 → closed (pool_Close p).2 = closed p ++ (map_to_list (closes p)).*2.
Proof.
  intros Ht. unfold pool_Close, sm_bind, get_pool, sm_ret. rewrite decide_True by done. cbn.
  pose proof (close_all_closed (map_to_list (closes p)).*2 p) as E. by destruct (close_all _ p) as [es p'].
Qed.

(** *** What the middlewares repeat *)

(** [calls f n w]: the answers of [n] calls in a row, and the state they leave. *)
Fixpoint calls (f : SM W (option rpc_error)) (n : nat) (w : W) : list (option rpc_error) * W :=
  match n with
  | O => ([], w)
  | S n => let (r, w1) := f w in let (rs, w2) := calls f n w1 in (r :: rs, w2)
  end.

(** The retry middleware calls until an answer is no error of its list, at most [max] times,
    and gives that answer; after [max] such errors it gives an error of its own. *)
Theorem retry_outcome (max : Z) (errors : list string) (f : SM W (option rpc_error)) (todo : nat) (w : W) :
  let retryable := λ r, match r with Some e => tgerr_Is e errors = true | None => False end in
  ∃ n rs w', calls f n w = (rs, w') ∧ (n <= todo)%nat ∧
  ((n = todo ∧ Forall retryable rs ∧ ∃ msg, retry_loop max errors f todo w = (Some (OtherError msg), w')) ∨
   ∃ rs' r, rs = rs' ++ [r] ∧ Forall retryable rs' ∧ ¬ retryable r ∧ retry_loop max errors f todo w = (r, w')).
Proof.
  intros retryable. revert w. induction todo as [|todo IH]; intros w.
  { exists 0%nat, [], w. split_and!; [done|lia|]. left. split_and!; [done|constructor|by eexists]. }
  cbn [retry_loop]. unfold sm_bind, sm_ret. destruct (f w) as [r w1] eqn:E.
  assert (retryable r ∨ ¬ retryable r ∧ (match r with Some e => if tgerr_Is e errors then retry_loop max errors f todo
    else λ s, (Some e, s) | None => λ s, (None, s) end) w1 = (r, w1)) as [Hr|[Hr Hd]].
  { destruct r as [e|]; cbn; [destruct (tgerr_Is e errors); auto|auto]. }
  - destruct r as [e|]; cbn in Hr; [|done]. rewrite Hr.
    destruct (IH w1) as (n & rs & w' & Hc & Hn & H). exists (S n), (Some e :: rs), w'.
    split_and!; [cbn; by rewrite E, Hc|lia|]. destruct H as [(-> & F & ?)|(rs' & r & -> & F & ?)].
    + left. split_and!; [done|by constructor|done].
    + right. exists (Some e :: rs'), r. split_and!; [done|by constructor|naive_solver..].
  - exists 1%nat, [r], w1. split_and!; [cbn; by rewrite E|lia|]. right. exists [], r. split_and!; [done|constructor|done|done].
Qed.

End Client.

(** ** Concrete worlds *)

(** A client whose world counts the calls; every call answers [answer]. *)
Definition counting (answer : option rpc_error) : SM Z (option rpc_error) := λ n, (answer, n + 1).
Definition never : SM Z bool := λ n, (false, n).
Definition clock0 : SM Z Z := λ n, (n, n).

Lemma recovery_repeats (f : SM Z (option rpc_error)) (e : rpc_error) :
  (∀ n, f n = (Some e, n + 2)) → tgerr_As e = false → ∀ ds n,
  recovery_loop never (λ _, never) f ds n = (Some (Wrapped "recover" e), n + 2 * (1 + Z.of_nat (length ds))).
Proof.
  intros Hf He. induction ds as [|d ds IH]; intros n; cbn [recovery_loop]; unfold sm_bind, sm_ret, shouldRecover, sm_bind, never, sm_ret;
    rewrite Hf, He; cbn [negb]; [f_equal; cbn [length]; lia|].
  rewrite IH. f_equal. cbn [length]. lia.
Qed.
(** The default middlewares do not compose as the recovery middleware means to: an internal
    error the server keeps giving leaves the retry middleware as an error that is not
    Telegram's, so recovery takes it for a lost connection and repeats the two attempts for as
    long as its back-off lasts. *)
Theorem internal_error_storm (ds : list Z) (r : Request) (n : Z) :
  Invoke (λ _ _, counting (Some (TgError "Timedout"))) never (λ _, never) ds
    (chainMiddlewares (IConn 0) (NewDefaultMiddlewares 0)) r n =
  (Some (Wrapped "recover" (OtherError "retry limit reached after 2 attempts")), n + 2 * (1 + Z.of_nat (length ds))).
Proof.
  apply (recovery_repeats _ (OtherError "retry limit reached after 2 attempts")); [|done].
  intros m. cbn -[retry_loop]. change (Z.to_nat 2) with 2%nat. cbn [retry_loop]. unfold sm_bind, sm_ret, counting.
  change (tgerr_Is (TgError "Timedout") _) with true. cbn -[itoa Z.add].
  replace (m + 1 + 1) with (m + 2) by lia. reflexivity.
Qed.

(** [ReconnectTimeout] has no effect on the reconnection. *)
Theorem newBackoff_ignores_timeout (t t' : Z) : newBackoff t = newBackoff t' ∧ MaxElapsedTime (newBackoff t) = 0.
Proof. done. Qed.

(** No option with an IPv6 address reaches a resolver, and no other is lost. *)
Lemma filterIPv4_filter l : filterIPv4Options l = filter (λ o, Ipv6 o = false) l.
Proof.
  induction l as [|o l IH]; [done|]. rewrite filter_cons. cbn. destruct (Ipv6 o); [by rewrite decide_False|].
  by rewrite decide_True, IH.
Qed.

(** A pool in which every call succeeds, in data centre 2. *)
Definition demo_takeout (dc : Z) (p : pool (W := Z)) : pool :=
  (TakeoutInvoker (λ _, counting None) (λ _ _, counting None) 2 never (λ _, never) clock0 4 [] false (λ n, (Ok 7, n)) dc p).2.
Definition demo_close (p : pool (W := Z)) : pool :=
  (pool_Close (λ _ _, counting None) (λ _, counting None) (λ _ _, counting None) 2 never (λ _, never) clock0 [] 4 [] false
     (λ n, (Ok 7, n)) (λ _, counting None) p).2.

(** With a takeout session open, [Close] asks the pool for the invoker of the client's own
    data centre after it has listed what to close: when there was none, the connection made for
    the farewell is never closed. *)
Theorem close_leaks_connection :
  let p := demo_close (demo_takeout 4 (NewPool 0)) in created p = [4; 2] ∧ closed p = [0%nat].
Proof. vm_compute. done. Qed.

(** Two goroutines ask for data centre 4 at the same time; the second finds what the first made. *)
Definition demo_schedule (l : list nat) (dcs : list Z) : option (gstate (W := Z)) :=
  schedule (λ _, counting None) (λ _ _, counting None) 2 never (λ _, never) clock0 4 [] false l (asked dcs 0).
Definition demo_end : gstate (W := Z) := default (asked [] 0) (demo_schedule [0; 1; 0; 0; 0; 0; 1; 1]%nat [4; 4]).

Lemma pool_one_connection_witness :
  threads demo_end = [PDone 4 (IConn 0); PDone 4 (IConn 0)] ∧ NoDup (created (shared demo_end)).
Proof.
  split; [vm_compute; reflexivity|].
  apply (pool_one_connection (λ _, counting None) (λ _ _, counting None) 2 never (λ _, never) clock0 4 [] false [4; 4] 0 demo_end).
  apply (rtc_nsteps_2 8).
  apply (schedule_nsteps (λ _, counting None) (λ _ _, counting None) 2 never (λ _, never) clock0 4 [] false [0; 1; 0; 0; 0; 0; 1; 1]%nat).
  vm_compute. reflexivity.
Defined.

