(* ===== verification/Observe.v ===== *)
(** * What the daemon measures and reports
      (app/daemon/storage_meter.go, app/daemon/lifecycle.go)

    The counters of physical I/O on the two storage tiers and the wrappers that feed them;
    the observers of lifecycle events. Counters are 64-bit and atomic: each operation is one
    step, and the steps of many goroutines interleave. A wrapped writer, a file and an
    observer are arguments or traces. The theorems: whatever the interleaving, the meter holds
    exactly the bytes moved and the writers inside; hashing a file counts each of its bytes
    once; an event reaches exactly the observers registered when it is emitted. *)
From S2P Require Import Prelude.

(** ** The meter *)

Record StorageIOMeter := IOMeter {
  ssdWriteBytes : Z; ssdReadBytes : Z; ssdActiveWriters : Z;
  archiveWriteBytes : Z; archiveReadBytes : Z; archiveActiveWriters : Z }.
Definition NewStorageIOMeter : StorageIOMeter := IOMeter 0 0 0 0 0 0.

(** [atomic.AddInt64] on a field. *)
Definition add_ssdWrite (n : Z) (m : StorageIOMeter) : StorageIOMeter :=
  IOMeter (wrap64 (ssdWriteBytes m + n)) (ssdReadBytes m) (ssdActiveWriters m)
    (archiveWriteBytes m) (archiveReadBytes m) (archiveActiveWriters m).
Definition add_ssdRead (n : Z) (m : StorageIOMeter) : StorageIOMeter :=
  IOMeter (ssdWriteBytes m) (wrap64 (ssdReadBytes m + n)) (ssdActiveWriters m)
    (archiveWriteBytes m) (archiveReadBytes m) (archiveActiveWriters m).
Definition add_ssdActive (n : Z) (m : StorageIOMeter) : StorageIOMeter :=
  IOMeter (ssdWriteBytes m) (ssdReadBytes m) (wrap64 (ssdActiveWriters m + n))
    (archiveWriteBytes m) (archiveReadBytes m) (archiveActiveWriters m).
Definition add_archiveWrite (n : Z) (m : StorageIOMeter) : StorageIOMeter :=
  IOMeter (ssdWriteBytes m) (ssdReadBytes m) (ssdActiveWriters m)
    (wrap64 (archiveWriteBytes m + n)) (archiveReadBytes m) (archiveActiveWriters m).
Definition add_archiveRead (n : Z) (m : StorageIOMeter) : StorageIOMeter :=
  IOMeter (ssdWriteBytes m) (ssdReadBytes m) (ssdActiveWriters m)
    (archiveWriteBytes m) (wrap64 (archiveReadBytes m + n)) (archiveActiveWriters m).

Definition add_archiveActive (n : Z) (m : StorageIOMeter) : StorageIOMeter :=
  IOMeter (ssdWriteBytes m) (ssdReadBytes m) (ssdActiveWriters m)
    (archiveWriteBytes m) (archiveReadBytes m) (wrap64 (archiveActiveWriters m + n)).

(** The readers and the [Record] methods; a nil meter counts nothing. *)
Definition SSDWriteBytes (m : option StorageIOMeter) : Z := match m with Some m => ssdWriteBytes m | None => 0 end.
Definition SSDReadBytes (m : option StorageIOMeter) : Z := match m with Some m => ssdReadBytes m | None => 0 end.
Definition SSDActiveWriters (m : option StorageIOMeter) : Z := match m with Some m => ssdActiveWriters m | None => 0 end.
Definition ArchiveWriteBytes (m : option StorageIOMeter) : Z := match m with Some m => archiveWriteBytes m | None => 0 end.
Definition ArchiveReadBytes (m : option StorageIOMeter) : Z := match m with Some m => archiveReadBytes m | None => 0 end.
Definition ArchiveActiveWriters (m : option StorageIOMeter) : Z :=
  match m with Some m => archiveActiveWriters m | None => 0 end.
Definition record_positive (add : Z → StorageIOMeter → StorageIOMeter) (n : Z) (m : option StorageIOMeter) : option StorageIOMeter :=
  if decide (0 < n) then add n <$> m else m.
Definition RecordSSDWrite : Z → option StorageIOMeter → option StorageIOMeter := record_positive add_ssdWrite.
Definition RecordSSDRead : Z → option StorageIOMeter → option StorageIOMeter := record_positive add_ssdRead.
Definition RecordArchiveWrite : Z → option StorageIOMeter → option StorageIOMeter := record_positive add_archiveWrite.
Definition RecordArchiveRead : Z → option StorageIOMeter → option StorageIOMeter := record_positive add_archiveRead.

(** What the orchestrator reports of its target tier: the archive when it is enabled, the SSD
    otherwise, never their sum. *)
Definition PhysicalTargetWriteBytes (archive : bool) (m : option StorageIOMeter) : Z :=
  if archive then ArchiveWriteBytes m else SSDWriteBytes m.
Definition PhysicalTargetReadBytes (archive : bool) (m : option StorageIOMeter) : Z :=
  if archive then ArchiveReadBytes m else SSDReadBytes m.
Definition ActiveTargetWriters (archive : bool) (m : option StorageIOMeter) : Z :=
  if archive then ArchiveActiveWriters m else SSDActiveWriters m.

(** ** The wrappers, step by step *)

(** A goroutine at a wrapped handle: [WriteAt] of the SSD writer enters, writes and counts,
    and leaves; the archive worker enters and leaves around a whole copy; the streams count
    once. [n] is what the wrapped call returned. *)
Inductive io_step :=
| WriteAt_enter
| WriteAt_count (n : Z)
| WriteAt_leave
| SSD_Read (n : Z)
| Archive_enter
| Archive_leave
| Archive_Write (n : Z)
| Archive_Read (n : Z).
Definition count_if (add : Z → StorageIOMeter → StorageIOMeter) (n : Z) (m : StorageIOMeter) : StorageIOMeter :=
  if decide (0 < n) then add n m else m.
Definition exec_io (s : io_step) (m : StorageIOMeter) : StorageIOMeter :=
  match s with
  | WriteAt_enter => add_ssdActive 1 m
  | WriteAt_count n => count_if add_ssdWrite n m
  | WriteAt_leave => add_ssdActive (-1) m
  | SSD_Read n => count_if add_ssdRead n m
  | Archive_enter => add_archiveActive 1 m
  | Archive_leave => add_archiveActive (-1) m
  | Archive_Write n => count_if add_archiveWrite n m
  | Archive_Read n => count_if add_archiveRead n m
  end.
(** The calls as one goroutine makes them. *)
Definition metered_WriteAt (n : Z) : list io_step := [WriteAt_enter; WriteAt_count n; WriteAt_leave].
Definition run_io (l : list io_step) (m : StorageIOMeter) : StorageIOMeter := foldl (λ m s, exec_io s m) m l.

(** [interleaving ls l]: [l] is an interleaving of the sequences [ls]. *)
Inductive interleaving {A} : list (list A) → list A → Prop :=
| inter_nil ls : Forall (eq []) ls → interleaving ls []
| inter_step ls i x xs l : ls !! i = Some (x :: xs) → interleaving (<[i := xs]> ls) l → interleaving ls (x :: l).

(** ** Hashing a file through the meter *)

Section Hash.
Context {B D : Type} (sha256 : list B → D).
(** What [Read] gives, call by call: bytes, with the end of the file or an error after them. *)
Inductive chunk := Bytes (l : list B) | EOF (l : list B) | ReadError (l : list B).
Definition chunk_bytes (c : chunk) : list B := match c with Bytes l | EOF l | ReadError l => l end.
(** [io.CopyBuffer] from the metered reader into the hash; [None] when the answers run out. *)
Fixpoint copy_hash (count : Z → option StorageIOMeter → option StorageIOMeter) (reads : list chunk) (seen : list B)
    (m : option StorageIOMeter) : option (res unit (list B)) * option StorageIOMeter :=
  match reads with
  | [] => (None, m)
  | c :: reads =>
      let m := count (Z.of_nat (length (chunk_bytes c))) m in
      match c with
      | Bytes l => copy_hash count reads (seen ++ l) m
      | EOF l => (Some (Ok (seen ++ l)), m)
      | ReadError _ => (Some (Err tt), m)
      end
  end.
Definition compute_sha (count : Z → option StorageIOMeter → option StorageIOMeter) (opened : bool) (reads : list chunk)
    (m : option StorageIOMeter) : option (res unit D) * option StorageIOMeter :=
  if opened then
    let (r, m) := copy_hash count reads [] m in
    ((λ r, match r with Ok l => Ok (sha256 l) | Err e => Err e end) <$> r, m)
  else (Some (Err tt), m).
Definition ComputeSSDFileSHA256 : bool → list chunk → option StorageIOMeter → option (res unit D) * option StorageIOMeter :=
  compute_sha RecordSSDRead.
Definition ComputeArchiveFileSHA256 : bool → list chunk → option StorageIOMeter → option (res unit D) * option StorageIOMeter :=
  compute_sha RecordArchiveRead.
End Hash.

(** ** Lifecycle events *)

Record LifecycleEvent := Evt {
  e_Event : string; e_TaskID : string; e_AttemptID : string; e_PhysicalAttemptID : string; e_ChatID : string;
  e_MessageID : Z; e_Stage : string; e_Op : string; e_Path : string; e_Size : Z; e_SHA256 : string; e_DC : Z;
  e_Error : string; e_ErrorClass : string; e_Retryable : bool; e_RetryOwner : string; e_Status : string;
  e_PhysicalRetries : Z; e_RequestCount : Z; e_WireBytes : Z; e_ReplayBytes : Z; e_Extra : list (string * string) }.
Inductive log_value := LStr (s : string) | LInt (z : Z).

(** Observers are known by a name; what each was given is a trace. *)
Record observers := Observers { nextObserverID : Z; lifecycleObservers : gmap Z string; delivered : list (string * LifecycleEvent) }.
Definition no_observers : observers := Observers 0 ∅ [].
Definition wrap_u64 (z : Z) : Z := z mod 2 ^ 64.

(** [RegisterLifecycleObserver]: the number the returned closure will delete; none for nil. *)
Definition RegisterLifecycleObserver (obs : option string) (s : observers) : option Z * observers :=
  match obs with
  | None => (None, s)
  | Some o =>
      let id := wrap_u64 (nextObserverID s + 1) in
      (Some id, Observers id (<[id := o]> (lifecycleObservers s)) (delivered s))
  end.
Definition unregister (h : option Z) (s : observers) : observers :=
  match h with
  | None => s
  | Some id => Observers (nextObserverID s) (delete id (lifecycleObservers s)) (delivered s)
  end.
Definition str_field (k v : string) : list (string * log_value) := if decide (v = "") then [] else [(k, LStr v)].
Definition int_field (k : string) (v : Z) : list (string * log_value) := if decide (v = 0) then [] else [(k, LInt v)].
(** The fields of the log line, in the order they are appended. *)
Definition lifecycle_fields (e : LifecycleEvent) : list (string * log_value) :=
  [("event", LStr (e_Event e))] ++
  str_field "task_id" (e_TaskID e) ++ str_field "attempt_id" (e_AttemptID e) ++
  str_field "physical_attempt_id" (e_PhysicalAttemptID e) ++ str_field "chat_id" (e_ChatID e) ++
  int_field "message_id" (e_MessageID e) ++ str_field "stage" (e_Stage e) ++ str_field "op" (e_Op e) ++
  str_field "path" (e_Path e) ++ int_field "size" (e_Size e) ++ str_field "sha256" (e_SHA256 e) ++ int_field "dc" (e_DC e) ++
  str_field "error_class" (e_ErrorClass e) ++ str_field "error" (e_Error e) ++ str_field "retry_owner" (e_RetryOwner e) ++
  str_field "status" (e_Status e) ++ int_field "physical_retries" (e_PhysicalRetries e) ++
  int_field "request_count" (e_RequestCount e) ++ int_field "wire_bytes" (e_WireBytes e) ++
  int_field "replay_bytes" (e_ReplayBytes e) ++ ((λ kv : string * string, (kv.1, LStr kv.2)) <$> e_Extra e).
(** [EmitLifecycle]: the log line when there is a logger, then every registered observer. *)
Definition EmitLifecycle (logger : bool) (e : LifecycleEvent) (s : observers) : option (list (string * log_value)) * observers :=
  (if logger then Some (lifecycle_fields e) else None,
   Observers (nextObserverID s) (lifecycleObservers s)
     (delivered s ++ ((λ o, (o, e)) <$> (map_to_list (lifecycleObservers s)).*2))).

(** ** Theorems about the meter *)

Definition active_delta (s : io_step) : Z := match s with WriteAt_enter => 1 | WriteAt_leave => -1 | _ => 0 end.
Definition archive_delta (s : io_step) : Z := match s with Archive_enter => 1 | Archive_leave => -1 | _ => 0 end.
Definition written (s : io_step) : Z := match s with WriteAt_count n => Z.max 0 n | _ => 0 end.
Definition ssd_read (s : io_step) : Z := match s with SSD_Read n => Z.max 0 n | _ => 0 end.
Definition archived (s : io_step) : Z := match s with Archive_Write n => Z.max 0 n | _ => 0 end.
Definition archive_read (s : io_step) : Z := match s with Archive_Read n => Z.max 0 n | _ => 0 end.

Lemma wrap64_add a b : wrap64 (wrap64 a + b) = wrap64 (a + b).
Proof.
  unfold wrap64.
  replace ((a + 2 ^ 63) mod 2 ^ 64 - 2 ^ 63 + b + 2 ^ 63) with ((a + 2 ^ 63) mod 2 ^ 64 + b) by lia.
  rewrite Zplus_mod_idemp_l. do 2 f_equal. lia.
Qed.

(** The counters are the sums of what the steps moved, modulo [2^64]. *)
Lemma run_io_sums l : ∀ m,
  let m' := run_io l m in
  wrap64 (ssdWriteBytes m') = wrap64 (ssdWriteBytes m + sumZ written l) ∧
  wrap64 (ssdReadBytes m') = wrap64 (ssdReadBytes m + sumZ ssd_read l) ∧
  wrap64 (ssdActiveWriters m') = wrap64 (ssdActiveWriters m + sumZ active_delta l) ∧
  wrap64 (archiveWriteBytes m') = wrap64 (archiveWriteBytes m + sumZ archived l) ∧
  wrap64 (archiveReadBytes m') = wrap64 (archiveReadBytes m + sumZ archive_read l) ∧
  wrap64 (archiveActiveWriters m') = wrap64 (archiveActiveWriters m + sumZ archive_delta l).
Proof.
  induction l as [|s l IH]; intros m; cbn zeta; [cbn; by rewrite !Z.add_0_r|].
  specialize (IH (exec_io s m)). cbn zeta in IH. rewrite !sumZ_cons. change (run_io (s :: l) m) with (run_io l (exec_io s m)).
  destruct IH as (-> & -> & -> & -> & -> & ->).
  destruct s; cbn [exec_io]; unfold count_if; try case_decide;
    cbn [add_ssdActive add_archiveActive add_ssdWrite add_ssdRead add_archiveWrite add_archiveRead ssdWriteBytes ssdReadBytes ssdActiveWriters
      archiveWriteBytes archiveReadBytes archiveActiveWriters written ssd_read active_delta archive_delta archived archive_read];
    rewrite ?wrap64_add; split_and!; try done; f_equal; lia.
Qed.

(** Counters stay in range, so what is stored is the wrapped value. *)
Record ranged (m : StorageIOMeter) : Prop := {
  rg_w : wrap64 (ssdWriteBytes m) = ssdWriteBytes m; rg_r : wrap64 (ssdReadBytes m) = ssdReadBytes m;
  rg_a : wrap64 (ssdActiveWriters m) = ssdActiveWriters m; rg_aw : wrap64 (archiveWriteBytes m) = archiveWriteBytes m;
  rg_ar : wrap64 (archiveReadBytes m) = archiveReadBytes m;
  rg_aa : wrap64 (archiveActiveWriters m) = archiveActiveWriters m }.
Lemma run_io_ranged l m : ranged m → ranged (run_io l m).
Proof.
  revert m. induction l as [|s l IH]; intros m R; [done|]. apply IH. destruct R as [W R A AW AR AA].
  assert (∀ z, wrap64 (wrap64 z) = wrap64 z) as Hw by (intros z; apply wrap64_id, wrap64_range).
  destruct s; cbn; unfold count_if; try case_decide; constructor; cbn; by rewrite ?Hw.
Qed.

Lemma interleaving_perm {A} (ls : list (list A)) l : interleaving ls l → l ≡ₚ concat ls.
Proof.
  induction 1 as [ls Hn|ls i x xs l Hi _ IH].
  - induction Hn as [|? ls <- _ IH]; [done|]. by cbn.
  - rewrite IH. clear IH l. revert i Hi. induction ls as [|y ls IH]; intros [|i] Hi; simplify_eq/=; [done|].
    rewrite <- (IH i Hi). by rewrite Permutation_middle.
Qed.

(** Where an interleaving is cut, each goroutine has a rest of its sequence left. *)
Lemma interleaving_rest {A} (ls : list (list A)) l1 l2 : interleaving ls (l1 ++ l2) →
  ∃ rest, interleaving rest l2 ∧ Forall2 suffix rest ls.
Proof.
  revert ls. induction l1 as [|x l1 IH]; intros ls H.
  { exists ls. split; [done|]. by apply Forall_Forall2_diag, Forall_true. }
  inversion H as [|? i ? xs ? Hi Hr]; subst. destruct (IH _ Hr) as (rest & Hi2 & Hs). exists rest. split; [done|].
  assert (Forall2 suffix (<[i := xs]> ls) ls) as Ht.
  { apply Forall2_same_length_lookup_2; [by rewrite length_insert|]. intros j y z Hy Hz.
    apply list_lookup_insert_Some in Hy as [(-> & <- & _)|[_ Hy]]; simplify_eq; [by exists [x]|done]. }
  by etrans.
Qed.

Lemma suffix_cons_cases {A} (l k : list A) (y : A) : suffix l (y :: k) → l = y :: k ∨ suffix l k.
Proof. destruct l; [right; apply suffix_nil|apply suffix_cons_inv]. Qed.

Definition ssd_writer (ns : list Z) : list io_step := concat (metered_WriteAt <$> ns).
Lemma ssd_writer_cons n ns : ssd_writer (n :: ns) = WriteAt_enter :: WriteAt_count n :: WriteAt_leave :: ssd_writer ns.
Proof. done. Qed.
Lemma writer_balanced ns : sumZ active_delta (ssd_writer ns) = 0.
Proof. induction ns as [|n ns IH]; [done|]. rewrite ssd_writer_cons, !sumZ_cons, IH. done. Qed.
Lemma writer_written ns : sumZ written (ssd_writer ns) = sumZ (λ n, Z.max 0 n) ns.
Proof. induction ns as [|n ns IH]; [done|]. rewrite ssd_writer_cons, !sumZ_cons, IH. cbn [written]. lia. Qed.
(** A rest of a writer's steps leaves at most once more than it enters. *)
Lemma writer_rest ns rest : suffix rest (ssd_writer ns) → -1 <= sumZ active_delta rest <= 0.
Proof.
  induction ns as [|n ns IH]; [by intros ->%suffix_nil_inv|]. rewrite ssd_writer_cons. intros Hs.
  do 3 (apply suffix_cons_cases in Hs as [->|Hs]; [rewrite !sumZ_cons, writer_balanced; cbn; lia|]). auto.
Qed.
Lemma concat_writers f (nss : list (list Z)) : sumZ f (concat (ssd_writer <$> nss)) = sumZ (λ ns, sumZ f (ssd_writer ns)) nss.
Proof. induction nss as [|ns nss IH]; [done|]. rewrite fmap_cons. cbn [concat]. by rewrite sumZ_app, sumZ_cons, IH. Qed.
Lemma all_balanced nss : sumZ active_delta (concat (ssd_writer <$> nss)) = 0.
Proof. rewrite concat_writers. induction nss as [|ns nss IH]; [done|]. by rewrite sumZ_cons, writer_balanced, IH. Qed.
Lemma all_written nss : sumZ written (concat (ssd_writer <$> nss)) = sumZ (λ ns, sumZ (λ n, Z.max 0 n) ns) nss.
Proof. rewrite concat_writers. induction nss as [|ns nss IH]; [done|]. by rewrite !sumZ_cons, writer_written, IH. Qed.
Lemma rests_bounded rest nss : Forall2 suffix rest (ssd_writer <$> nss) →
  - Z.of_nat (length nss) <= sumZ active_delta (concat rest) <= 0.
Proof.
  revert rest. induction nss as [|ns nss IH]; intros rest Hs; inversion Hs as [|r ? rs ? Hr Hs']; subst; [done|].
  cbn [concat]. rewrite sumZ_app. apply writer_rest in Hr. specialize (IH _ Hs'). cbn [length]. lia.
Qed.
Lemma meter_reads l :
  ssdActiveWriters (run_io l NewStorageIOMeter) = wrap64 (sumZ active_delta l) ∧
  ssdWriteBytes (run_io l NewStorageIOMeter) = wrap64 (sumZ written l).
Proof.
  destruct (run_io_ranged l NewStorageIOMeter) as [<- _ <- _ _ _]; [done|].
  by destruct (run_io_sums l NewStorageIOMeter) as (-> & _ & -> & _).
Qed.

(** Goroutines that write the given numbers of bytes through the metered SSD writer, in
    any interleaving: at every moment the meter shows as many active writers as are inside a
    write, at most one per goroutine; in the end it shows none, and exactly the bytes that
    were written. *)
Theorem meter_exact (nss : list (list Z)) (l1 l2 : list io_step) :
  interleaving (ssd_writer <$> nss) (l1 ++ l2) →
  Z.of_nat (length nss) <= int64_max →
  sumZ (λ ns, sumZ (λ n, Z.max 0 n) ns) nss <= int64_max →
  0 <= SSDActiveWriters (Some (run_io l1 NewStorageIOMeter)) <= Z.of_nat (length nss) ∧
  SSDActiveWriters (Some (run_io (l1 ++ l2) NewStorageIOMeter)) = 0 ∧
  SSDWriteBytes (Some (run_io (l1 ++ l2) NewStorageIOMeter)) = sumZ (λ ns, sumZ (λ n, Z.max 0 n) ns) nss.
Proof.
  intros H Hlen Hsum. pose proof (interleaving_perm _ _ H) as P.
  destruct (interleaving_rest _ _ _ H) as (rest & Hr & Hs). apply rests_bounded in Hs.
  rewrite <- (sumZ_Permutation _ _ _ (interleaving_perm _ _ Hr)) in Hs.
  pose proof (sumZ_Permutation active_delta _ _ P) as Ea. rewrite all_balanced in Ea.
  pose proof (sumZ_Permutation written _ _ P) as Ew. rewrite all_written in Ew.
  assert (0 <= sumZ written (l1 ++ l2)) by (apply sumZ_nonneg; intros [] _; cbn; lia).
  cbn [SSDActiveWriters SSDWriteBytes]. destruct (meter_reads l1) as [-> _], (meter_reads (l1 ++ l2)) as [-> ->].
  rewrite <- Ew in *. rewrite Ea. rewrite sumZ_app in Ea.
  unfold int64_max in *. split_and!; [..|by cbn|]; rewrite ?wrap64_id; try lia; unfold in_int64, int64_min, int64_max; lia.
Qed.

Lemma meter_exact_witness :
  let l := [WriteAt_enter; WriteAt_enter; WriteAt_count 5; WriteAt_leave; WriteAt_count 7; WriteAt_leave] in
  0 <= SSDActiveWriters (Some (run_io (take 2 l) NewStorageIOMeter)) <= 2 ∧
  SSDActiveWriters (Some (run_io l NewStorageIOMeter)) = 0 ∧ SSDWriteBytes (Some (run_io l NewStorageIOMeter)) = 12.
Proof.
  cbn zeta.
  apply (meter_exact [[5]; [7]] [WriteAt_enter; WriteAt_enter] [WriteAt_count 5; WriteAt_leave; WriteAt_count 7; WriteAt_leave]).
  - eapply (inter_step _ 0); [reflexivity|]. eapply (inter_step _ 1); [reflexivity|].
    do 2 (eapply (inter_step _ 0); [reflexivity|]). do 2 (eapply (inter_step _ 1); [reflexivity|]).
    apply inter_nil. by repeat constructor.
  - vm_compute. discriminate.
  - vm_compute. discriminate.
Defined.

(** *** Hashing *)

Section HashProps.
Context {B D : Type} (sha256 : list B → D).
(** A way to count: nothing for nothing, and in parts as at once. *)
Definition additive (count : Z → option StorageIOMeter → option StorageIOMeter) : Prop :=
  (∀ m, count 0 m = m) ∧ ∀ a b m, 0 <= a → 0 <= b → count b (count a m) = count (a + b) m.
Lemma copy_hash_outcome count (reads : list (chunk (B := B))) : additive count → ∀ seen m, ∃ bytes,
  let r := copy_hash count reads seen m in
  r.2 = count (Z.of_nat (length bytes)) m ∧ bytes `prefix_of` concat (chunk_bytes <$> reads) ∧
  match r.1 with Some (Ok l) => l = seen ++ bytes | _ => True end.
Proof.
  intros [H0 Hadd]. induction reads as [|c reads IH]; intros seen m.
  { exists []. cbn. by rewrite H0. }
  destruct c as [l|l|l]; cbn; [|by exists l; split_and!; [|apply prefix_app_r|]..].
  destruct (IH (seen ++ l) (count (Z.of_nat (length l)) m)) as (bytes & -> & Hp & Hr). exists (l ++ bytes). split_and!.
  - rewrite Hadd by lia. f_equal. rewrite length_app. lia.
  - by apply prefix_app.
  - destruct (copy_hash _ _ _ _) as [[[k|]|] ?]; cbn in *; [by rewrite Hr, app_assoc|done|done].
Qed.
Lemma record_additive_ssd : additive RecordSSDRead.
Proof.
  split; [done|]. intros a b [m|] Ha Hb; unfold RecordSSDRead, record_positive; repeat case_decide; try done; try lia; cbn.
  - unfold add_ssdRead. cbn. rewrite wrap64_add. do 3 f_equal. lia.
  - do 2 f_equal. lia.
  - do 2 f_equal. lia.
Qed.

(** A file that is read to its end hashes to the digest of its bytes, and the meter counts
    each of them once; a failed read counts what was read before it. *)
Theorem compute_ssd_sha_counts (reads : list (chunk (B := B))) (m : option StorageIOMeter) :
  ∃ bytes, (ComputeSSDFileSHA256 sha256 true reads m).2 = RecordSSDRead (Z.of_nat (length bytes)) m ∧
  bytes `prefix_of` concat (chunk_bytes <$> reads) ∧
  ∀ d, (ComputeSSDFileSHA256 sha256 true reads m).1 = Some (Ok d) → d = sha256 bytes.
Proof.
  destruct (copy_hash_outcome _ reads record_additive_ssd [] m) as (bytes & E & Hp & Hr). exists bytes.
  unfold ComputeSSDFileSHA256, compute_sha. destruct (copy_hash _ _ _ _) as [[[l|]|] m']; cbn in *; subst; naive_solver.
Qed.
End HashProps.

(** ** Theorems about lifecycle events *)

(** The calls that change the observers. *)
Inductive obs_call := CRegister (obs : option string) | CUnregister (h : option Z) | CEmit (e : LifecycleEvent).
Definition exec_obs (c : obs_call) (s : observers) : observers :=
  match c with
  | CRegister o => (RegisterLifecycleObserver o s).2
  | CUnregister h => unregister h s
  | CEmit e => (EmitLifecycle true e s).2
  end.
(** Numbers are given in order: a new one is not in use before [2^64] registrations. *)
Definition obs_inv (s : observers) : Prop :=
  0 <= nextObserverID s ∧ ∀ id, is_Some (lifecycleObservers s !! id) → 0 < id <= nextObserverID s.
Lemma exec_obs_inv c s : obs_inv s → nextObserverID s + 1 < 2 ^ 64 → obs_inv (exec_obs c s).
Proof.
  intros [H0 H] Hlt. destruct c as [[o|]|[id|]|e]; cbn; try done; unfold wrap_u64; rewrite ?Z.mod_small by lia.
  - split; [cbn; lia|]. cbn. intros id. destruct (decide (id = nextObserverID s + 1)) as [->|Hne]; [lia|].
    rewrite lookup_insert_ne by done. intros ?%H. lia.
  - split; [done|]. cbn. intros i. destruct (decide (i = id)) as [->|Hne].
    + rewrite lookup_delete_eq. by intros [? ?].
    + rewrite lookup_delete_ne by done. apply H.
Qed.

(** An observer gets an event exactly when it is registered at that moment: registering
    one takes no other's place, and the closure that registration returned removes that one
    and no other. *)
Theorem observers_exact (s : observers) (o : string) (e : LifecycleEvent) :
  obs_inv s → nextObserverID s + 1 < 2 ^ 64 →
  let (h, s1) := RegisterLifecycleObserver (Some o) s in
  let given := λ s, drop (length (delivered s)) (delivered (EmitLifecycle true e s).2) in
  given s1 ≡ₚ (o, e) :: given s ∧ given (unregister h s1) = given s ∧ lifecycleObservers (unregister h s1) = lifecycleObservers s.
Proof.
  intros [H0 H] Hlt. cbn. unfold wrap_u64. rewrite Z.mod_small by lia. rewrite !drop_app_length.
  assert (lifecycleObservers s !! (nextObserverID s + 1) = None) as Hf.
  { apply eq_None_not_Some. intros ?%H. lia. }
  rewrite delete_insert_id by done. split_and!; [|done|done].
  by rewrite map_to_list_insert.
Qed.
Lemma observers_exact_witness : obs_inv (exec_obs (CRegister (Some "a")) no_observers) ∧
  let (h, s1) := RegisterLifecycleObserver (Some "b") (exec_obs (CRegister (Some "a")) no_observers) in
  lifecycleObservers (unregister h s1) = lifecycleObservers (exec_obs (CRegister (Some "a")) no_observers).
Proof.
  assert (obs_inv (exec_obs (CRegister (Some "a")) no_observers)) as I.
  { apply exec_obs_inv; [split; [done|]; cbn; intros id; rewrite lookup_empty; by intros [? ?]|vm_compute; reflexivity]. }
  split; [exact I|].
  destruct (observers_exact _ "b" (Evt "x" "" "" "" "" 0 "" "" "" 0 "" 0 "" "" false "" "" 0 0 0 0 []) I) as (_ & _ & E);
    [vm_compute; reflexivity|exact E].
Defined.
