(* ===== verification/RegistryStatus.v ===== *)
(** * What the registry shows (app/daemon/registry.go: Task, Tasks, Status, rollingRate)

    The reading half of the registry: snapshots of one task, of all tasks, and of the whole,
    with the rate over the last five seconds. Reading trims the windows of events it looks at,
    so these are operations on the registry too. Floating-point numbers are a type with the
    operations the code uses and no laws; the figures of the Go run time are arguments. The
    theorems: a reading changes nothing but those windows; each task is shown once, in the
    order of the identifiers; the active files are the tasks under way; the totals are those
    the conservation theorem is about. *)
From S2P Require Import Prelude Ranges Registry RegistryProps.

(** [sort.Slice] by identifier. *)
Definition snap_ID (s : TaskSnapshot) : string := ID (t_request (s_cell s)).
Definition snap_le (a b : TaskSnapshot) : Prop := String.leb (snap_ID a) (snap_ID b) = true.
#[export] Instance snap_le_dec : RelDecision snap_le.
Proof. intros a b. unfold snap_le. apply _. Defined.
#[export] Instance snap_le_total : Total snap_le.
Proof. intros a b. unfold snap_le. by destruct (String.leb_total (snap_ID a) (snap_ID b)); [left|right]. Qed.

Definition Registry_Task (id : string) (now : Z) (r : Registry) : option TaskSnapshot * Registry :=
  match tasks r !! id with
  | Some p => snapshotTaskLocked p now r
  | None => (None, r)
  end.
Fixpoint snapshot_all (ps : list ptr) (now : Z) (r : Registry) : list TaskSnapshot * Registry :=
  match ps with
  | [] => ([], r)
  | p :: ps =>
      let (s, r) := snapshotTaskLocked p now r in
      let (l, r) := snapshot_all ps now r in
      (option_list s ++ l, r)
  end.
Definition Tasks (now : Z) (r : Registry) : list TaskSnapshot * Registry :=
  let (l, r) := snapshot_all (map_to_list (tasks r)).*2 now r in
  (merge_sort snap_le l, r).

Section Status.
Context {F : Type} (f_of : Z → F) (f_add f_mul f_div : F → F → F) (f_trunc : F → Z) (f_zero : F → bool).
(** [0.4], [0.6] and a duration in seconds. *)
Context (f_04 f_06 : F) (f_seconds : Z → F).

(** [rollingRate]; a time that was never set is [None]. *)
Definition rollingRate (f : feed) (now : Z) : Z :=
  match events f, lastByte f with
  | [], _ | _, None => 0
  | evs, Some last =>
      if decide (5 * ns_per_s <= now - last) then 0
      else
        let total := sumZ snd evs in
        let cutoff := now - 5 * ns_per_s in
        let start := match firstByte f with Some t => if decide (t < cutoff) then cutoff else t | None => cutoff end in
        let elapsed := if decide (now - start < ns_per_s) then ns_per_s else now - start in
        f_trunc (f_div (f_of total) (f_seconds elapsed))
  end.

(** The runtime's memory figures. *)
Record memory := Memory { ProcessRSS : Z; HeapAlloc : Z; HeapInuse : Z; HeapObjects : Z; GCCount : Z; GCPauseTotal : Z }.
Record StatusSnapshot := StatusOf {
  st_Paused : bool; st_Rolling5sBPS : Z; st_ActiveFiles : list TaskSnapshot; st_QueueDepth : Z; st_Pool : PoolSnapshot;
  st_LastError : string; st_UpdatedAt : Z; st_totals : metrics; st_memory : memory }.

Definition smooth (currentBPS : Z) (s : F) : F :=
  if decide (currentBPS = 0) then f_of 0
  else if f_zero s then f_of currentBPS
  else f_add (f_mul f_04 (f_of currentBPS)) (f_mul f_06 s).
(** The cells of the tasks under way, in the order of the map. *)
Definition active_cell (r : Registry) (p : ptr) : bool :=
  match heap r !! p with Some t => is_active (t_state t) | None => false end.
Definition active_cells (r : Registry) : list ptr := filter (λ p, active_cell r p = true) (map_to_list (tasks r)).*2.

Definition Status (mem : memory) (now : Z) (smoothed : F) (r : Registry) : StatusSnapshot * F * Registry :=
  let r := with_feed (trim_feed now (r_feed r)) r in
  let (l, r) := snapshot_all (active_cells r) now r in
  let active := merge_sort snap_le l in
  let smoothed := smooth (rollingRate (r_feed r) now) smoothed in
  (StatusOf (paused r) (f_trunc smoothed) active (Z.of_nat (length (queue r)))
     (Pool (p_Size (pool r)) (Z.of_nat (length active)) (p_Reconnects (pool r)))
     (lastError r) (now / ns_per_s) (totals r) mem,
   smoothed, r).

(** ** Theorems *)

(** Registries that differ in nothing but windows of events. *)
Definition untimed (t : taskState) : taskState := with_tfeed zero_feed t.
Definition same_but_windows (r r' : Registry) : Prop :=
  untimed <$> heap r' = untimed <$> heap r ∧
  with_feed zero_feed (with_heap ∅ r') = with_feed zero_feed (with_heap ∅ r).
#[local] Instance same_windows_preorder : PreOrder same_but_windows.
Proof. split; [by intros r|]. intros r1 r2 r3 [? ?] [? ?]. split; congruence. Qed.

Lemma snapshot_windows p now r : same_but_windows r (snapshotTaskLocked p now r).2.
Proof.
  split; [|done]. cbn. apply map_eq. intros q. rewrite !lookup_fmap.
  destruct (decide (p = q)) as [->|]; [rewrite lookup_alter_eq|by rewrite lookup_alter_ne].
  by destruct (heap r !! q).
Qed.
Lemma snapshot_all_windows ps now r : same_but_windows r (snapshot_all ps now r).2.
Proof.
  revert r. induction ps as [|p ps IH]; intros r; [done|]. cbn [snapshot_all].
  pose proof (snapshot_windows p now r) as H. destruct (snapshotTaskLocked p now r) as [s r1].
  specialize (IH r1). destruct (snapshot_all ps now r1) as [l r2]. cbn in *. by etrans.
Qed.

(** What a snapshot shows of a cell besides its window. *)
Definition shown (t : taskState) : string * TaskState * meter * outcome :=
  (ID (t_request t), t_state t, t_meter t, t_outcome t).
Lemma windows_shown r r' p : same_but_windows r r' → shown <$> heap r' !! p = shown <$> heap r !! p.
Proof.
  intros [H _]. assert (untimed <$> heap r' !! p = untimed <$> heap r !! p) as E by (by rewrite <- !lookup_fmap, H).
  destruct (heap r' !! p) as [[]|], (heap r !! p) as [[]|]; cbn in *; by simplify_eq.
Qed.
Lemma snapshot_all_shown ps now r :
  (shown ∘ s_cell) <$> (snapshot_all ps now r).1 = omap (λ p, shown <$> heap r !! p) ps.
Proof.
  revert r. induction ps as [|p ps IH]; intros r; [done|]. cbn [snapshot_all].
  pose proof (snapshot_windows p now r) as Hw.
  assert ((shown ∘ s_cell) <$> (snapshotTaskLocked p now r).1 = shown <$> heap r !! p) as Hs.
  { cbn. rewrite lookup_alter_eq. by destruct (heap r !! p). }
  destruct (snapshotTaskLocked p now r) as [s r1]. cbn in Hw, Hs.
  specialize (IH r1). destruct (snapshot_all ps now r1) as [l r2]. cbn [fst] in *. rewrite fmap_app, IH. cbn.
  assert (omap (λ p, shown <$> heap r1 !! p) ps = omap (λ p, shown <$> heap r !! p) ps) as ->.
  { apply list_omap_ext, Forall_Forall2_diag, Forall_true. intros q. by apply windows_shown. }
  destruct s; cbn in *; rewrite <- Hs; done.
Qed.

Lemma windows_totals r r' : same_but_windows r r' → totals r' = totals r.
Proof.
  intros H. pose proof H as [_ E]. assert (tasks r' = tasks r ∧ cumulative r' = cumulative r) as [Et Ec].
  { destruct r, r'. cbn in E. by injection E. }
  unfold totals. rewrite Et, Ec. f_equal; f_equal; apply map_sum_ext; intros id p _; unfold cell_metric;
    pose proof (windows_shown r r' p H) as Hs; destruct (heap r' !! p), (heap r !! p); cbn in Hs; unfold shown in Hs; congruence.
Qed.

(** The identifiers of snapshots are those of the cells. *)
Lemma snapshot_all_ids ps now r :
  snap_ID <$> (snapshot_all ps now r).1 = omap (λ p, ID ∘ t_request <$> heap r !! p) ps.
Proof.
  transitivity ((λ x : string * TaskState * meter * outcome, x.1.1.1) <$> ((shown ∘ s_cell) <$> (snapshot_all ps now r).1)).
  { by rewrite <- list_fmap_compose. }
  rewrite snapshot_all_shown. induction ps as [|p ps IH]; [done|]. cbn. by destruct (heap r !! p); cbn; rewrite IH.
Qed.
Lemma active_ids_cells r :
  omap (λ p, ID ∘ t_request <$> heap r !! p) (active_cells r) = active_ids r.
Proof.
  unfold active_cells, active_ids. induction (map_to_list (tasks r)) as [|[id p] l IH]; [done|].
  rewrite fmap_cons. destruct (active_cell r p) eqn:Ha; pose proof Ha as Hb; unfold active_cell in Hb.
  - rewrite filter_cons_True by done. cbn -[filter]. destruct (heap r !! p) as [t|]; [|done]. cbn -[filter].
    rewrite Hb. f_equal. exact IH.
  - rewrite filter_cons_False by (cbn; by rewrite Ha). cbn -[filter]. destruct (heap r !! p) as [t|]; [|done].
    by rewrite Hb.
Qed.
Lemma task_ids r : reg_ok r →
  omap (λ p, ID ∘ t_request <$> heap r !! p) (map_to_list (tasks r)).*2 = (map_to_list (tasks r)).*1.
Proof.
  intros [Ht _ _ _ _]. assert (∀ kp, kp ∈ map_to_list (tasks r) → ∃ t, heap r !! kp.2 = Some t ∧ ID (t_request t) = kp.1) as H.
  { intros [id p] Hin%elem_of_map_to_list. by apply Ht. }
  induction (map_to_list (tasks r)) as [|[id p] l IH]; [done|]. cbn.
  destruct (H (id, p)) as (t & Ep & Ei); [by left|]. cbn in Ep, Ei. rewrite Ep. cbn. rewrite Ei, IH; [done|].
  intros kp Hin. apply H. by right.
Qed.
Lemma active_ids_NoDup r : reg_ok r → NoDup (active_ids r).
Proof.
  intros [Ht _ _ _ _]. assert (∀ kp, kp ∈ map_to_list (tasks r) → ∃ t, heap r !! kp.2 = Some t ∧ ID (t_request t) = kp.1) as H.
  { intros [id p] Hin%elem_of_map_to_list. by apply Ht. }
  unfold active_ids. pose proof (NoDup_fst_map_to_list (tasks r)) as Hnd. revert Hnd H.
  induction (map_to_list (tasks r)) as [|[id p] l IH]; intros Hnd H; [constructor|].
  rewrite fmap_cons in Hnd. apply NoDup_cons in Hnd as [Hni Hnd].
  assert (∀ kp, kp ∈ l → ∃ t, heap r !! kp.2 = Some t ∧ ID (t_request t) = kp.1) as Hl by (intros kp Hin; apply H; by right).
  specialize (IH Hnd Hl). cbn. destruct (H (id, p)) as (t & Ep & Ei); [by left|]. cbn in Ep, Ei. rewrite Ep.
  destruct (is_active (t_state t)); [|done]. apply NoDup_cons. split; [|done]. rewrite Ei.
  intros ([id' p'] & Hin & Hx)%list_elem_of_omap. destruct (Hl _ Hin) as (t' & Ep' & Ei'). cbn in *. rewrite Ep' in Hx.
  destruct (is_active (t_state t')); [|done]. injection Hx as Hx. apply Hni, list_elem_of_fmap. exists (id', p').
  split; [cbn; congruence|done].
Qed.

(** The files of a status are the tasks under way. *)
Lemma status_files (mem : memory) (now : Z) (smoothed : F) (r : Registry) :
  snap_ID <$> st_ActiveFiles (Status mem now smoothed r).1.1 ≡ₚ active_ids r.
Proof.
  unfold Status. set (r0 := with_feed _ r). pose proof (snapshot_all_ids (active_cells r0) now r0) as Hi.
  rewrite active_ids_cells in Hi. destruct (snapshot_all (active_cells r0) now r0) as [l r1]. cbn in Hi |- *.
  rewrite (merge_sort_Permutation snap_le l). change (active_ids r) with (active_ids r0). by rewrite Hi.
Qed.

(** A status is a faithful reading: it changes nothing but the windows of events, shows
    the totals, and lists each task under way once, in the order of the identifiers, with
    their number. *)
Theorem status_faithful (mem : memory) (now : Z) (smoothed : F) (r : Registry) :
  reg_ok r →
  let '(st, _, r') := Status mem now smoothed r in
  same_but_windows r r' ∧ totals r' = totals r ∧ st_totals st = totals r ∧
  Sorted snap_le (st_ActiveFiles st) ∧ snap_ID <$> st_ActiveFiles st ≡ₚ active_ids r ∧ NoDup (active_ids r) ∧
  p_ActiveFiles (st_Pool st) = Z.of_nat (length (active_ids r)) ∧ st_QueueDepth st = Z.of_nat (length (queue r)).
Proof.
  intros Hok. pose proof (status_files mem now smoothed r) as Hp. revert Hp. unfold Status. set (r0 := with_feed _ r).
  assert (same_but_windows r r0) as W0 by done.
  pose proof (snapshot_all_windows (active_cells r0) now r0) as W1.
  destruct (snapshot_all (active_cells r0) now r0) as [l r1]. cbn in W1 |- *. intros Hp.
  assert (same_but_windows r r1) as W by (by etrans).
  split_and!; [done|by apply windows_totals|by apply windows_totals|apply Sorted_merge_sort, _|done|by apply active_ids_NoDup|..].
  - rewrite <- Hp. by rewrite length_fmap.
  - destruct W as [_ E]. destruct r, r1. cbn in E |- *. by injection E as -> -> -> -> ->.
Qed.

(** The list of tasks shows each of them once, in the order of the identifiers. *)
Theorem tasks_complete (now : Z) (r : Registry) :
  reg_ok r →
  same_but_windows r (Tasks now r).2 ∧ Sorted snap_le (Tasks now r).1 ∧
  snap_ID <$> (Tasks now r).1 ≡ₚ (map_to_list (tasks r)).*1.
Proof.
  intros Hok. unfold Tasks. pose proof (snapshot_all_windows (map_to_list (tasks r)).*2 now r) as W.
  pose proof (snapshot_all_ids (map_to_list (tasks r)).*2 now r) as Hi. rewrite task_ids in Hi by done.
  destruct (snapshot_all _ now r) as [l r1]. cbn in *. split_and!; [done|apply Sorted_merge_sort, _|].
  by rewrite merge_sort_Permutation, Hi.
Qed.
End Status.

(** A registry with one task under way; integers stand for the floating-point numbers. *)
Definition demo_registry : Registry := exec_all (take 4 first_attempt) (NewRegistry 4 2).
Definition demo_status : StatusSnapshot * Z * Registry :=
  Status (λ z, z) Z.add Z.mul Z.div (λ z, z) (λ z, bool_decide (z = 0)) 0 1 (λ z, z) (Memory 0 0 0 0 0 0) 50 0 demo_registry.
Lemma status_faithful_witness :
  st_totals demo_status.1.1 = totals demo_registry ∧ snap_ID <$> st_ActiveFiles demo_status.1.1 ≡ₚ active_ids demo_registry ∧
  active_ids demo_registry = ["t"].
Proof.
  pose proof (status_faithful (λ z, z) Z.add Z.mul Z.div (λ z, z) (λ z, bool_decide (z = 0)) 0 1 (λ z, z) (Memory 0 0 0 0 0 0) 50 0
    demo_registry) as H.
  unfold demo_status. destruct (Status _ _ _ _ _ _ _ _ _ _ _ _ _) as [[st sm] r'].
  destruct H as (_ & _ & Ht & _ & Hp & _); [apply reg_ok_all; [repeat constructor|apply reg_ok_new]|].
  exact (conj Ht (conj Hp eq_refl)).
Defined.
