(* ===== verification/Startup.v ===== *)
(** * Options and start-up of the daemon (app/daemon/run.go, cmd/daemon.go)

    [Options] with their defaults and checks, [daemon_Run] with every early return and deferred
    call, its group of goroutines, the handler of transfer retries, and the command that runs
    sessions until its context ends. What the operating system and the other components
    answer is a record of outcomes; what [daemon_Run] did is the list of its actions, which the
    program does not keep. The HTTP server, the proxy watchdog and the peers are represented
    by the action that starts them. The theorems: accepted options are in the ranges the other
    components rely on, crash recovery comes before any worker, and every path releases what
    it took. *)
From S2P Require Import Prelude Paths Fscommit Registry Archive Transfer ClientPool Observe.

(** ** Options *)

Record daemon_Options := Opts {
  Listen : string; OutputDir : string; ArchiveDir : string; MinFreeSpace : Z; DBPath : string; Password : string;
  SingboxURL : string; QueueCapacity : Z; TerminalLimit : Z; FileConcurrency : Z; Threads : Z; PoolSize : Z;
  StartPaused : bool; ReconnectTimeout : Z; PeerSyncTimeout : Z; Namespace : string }.
Definition str_default (v d : string) : string := if decide (v = "") then d else v.
Definition int_default (v d : Z) : Z := if decide (v <= 0) then d else v.
Definition minute : Z := 60 * sec.

Definition withDefaults (o : daemon_Options) : daemon_Options :=
  Opts (str_default (Listen o) "0.0.0.0:18080") (str_default (OutputDir o) "/app/downloads") (ArchiveDir o)
    (if decide (MinFreeSpace o = 0) then DefaultMinFreeSpace else MinFreeSpace o)
    (str_default (DBPath o) "/app/state/download_records.sqlite3") (Password o) (SingboxURL o)
    (int_default (QueueCapacity o) 1000) (int_default (TerminalLimit o) 2000) (int_default (FileConcurrency o) 5)
    (int_default (Threads o) 8) (int_default (PoolSize o) 40) (StartPaused o) (ReconnectTimeout o)
    (int_default (PeerSyncTimeout o) (3 * minute)) (str_default (Namespace o) "default").
Definition zero_options : daemon_Options := Opts "" "" "" 0 "" "" "" 0 0 0 0 0 false 0 0 "".
Definition DefaultOptions : daemon_Options :=
  let o := withDefaults zero_options in
  Opts (Listen o) (OutputDir o) (ArchiveDir o) (MinFreeSpace o) (DBPath o) (Password o) (SingboxURL o) (QueueCapacity o)
    (TerminalLimit o) (FileConcurrency o) (Threads o) (PoolSize o) true (ReconnectTimeout o) (PeerSyncTimeout o) (Namespace o).

Inductive option_err :=
| BadListen (e : addr_err) | OutputNotAbsolute | ArchiveNotAbsolute | BadFileConcurrency (n : Z) | BadThreads (n : Z)
| BadPoolSize (n : Z) | BadCapacity | NegativeReconnect | BadPeerSync.
Definition validate (o : daemon_Options) : res option_err unit :=
  match SplitHostPort (Listen o) with
  | Err e => Err (BadListen e)
  | Ok _ =>
      if negb (IsAbs (OutputDir o)) then Err OutputNotAbsolute
      else if bool_decide (ArchiveDir o ≠ "") && negb (IsAbs (ArchiveDir o)) then Err ArchiveNotAbsolute
      else if decide (FileConcurrency o < 1 ∨ 64 < FileConcurrency o) then Err (BadFileConcurrency (FileConcurrency o))
      else if decide (Threads o < 1 ∨ 64 < Threads o) then Err (BadThreads (Threads o))
      else if decide (PoolSize o < 1 ∨ 64 < PoolSize o) then Err (BadPoolSize (PoolSize o))
      else if decide (QueueCapacity o < 1 ∨ TerminalLimit o < 1) then Err BadCapacity
      else if decide (ReconnectTimeout o < 0) then Err NegativeReconnect
      else if decide (PeerSyncTimeout o <= 0 ∨ 30 * minute < PeerSyncTimeout o) then Err BadPeerSync
      else Ok tt
  end.

(** ** Retries of a transfer *)

(** [TaskRetryHandler]: which physical attempt failed, and the event that says so. *)
Definition retry_attempt_id (tc : task) (err : goerr) (operation : string) (attempt : Z) : string :=
  let fallback :=
    let id := GetFailedAttempt tc operation in
    if decide (id = "") then AttemptID tc +:+ "-p" +:+ itoa attempt else id in
  match ExtractPhysicalAttempt err with
  | Some (id, _) => if decide (id = "") then fallback else id
  | None => fallback
  end.
Definition retry_event (tc : task) (taskID chatID : string) (messageID dc : Z) (err : goerr) (operation : string)
    (attempt : Z) (text : string) : LifecycleEvent :=
  let phys := retry_attempt_id tc err operation attempt in
  let label := default "" (snd <$> ExtractPhysicalAttempt err) in
  let op := if decide (label = "") then operation else operation +:+ ":" +:+ label in
  Evt "rpc.retry" taskID (AttemptID tc) phys chatID messageID "" op "" 0 "" dc text "" false "" "" attempt 0 0 0
    ([("operation", operation); ("attempt", itoa attempt); ("physical_attempt_id", phys)] ++
     (if decide (label = "") then [] else [("range", label)])).

(** ** Run *)

Inductive action :=
| AMkdir | ABind | AMakePool | AOpenDB (ok : bool) | AMakeArchiver | AMakeRegistry (paused : bool) | AMakeOrchestrator
| AReconcile | AStartOrchestrator | AStartUpdates | AStartArchiver | AServe | ASyncPeers | AWatchProxy
| AStopOrchestrator | ACloseDB | AClosePool.
(** What the calls answered; [finished] are the results of the goroutines of the group in the
    order in which they ended. *)
Record outcomes := Outcomes {
  o_mkdir : option goerr; o_listen : option goerr; o_db : option goerr; o_reconcile : option goerr;
  finished : list (option goerr); o_close : option goerr }.
Inductive run_err :=
| EOptions (e : option_err) | EMkdir (e : goerr) | EBind (e : goerr) | EArchiver (e : worker_err) | EGroup (e : goerr)
| EClose (e : goerr).

Definition is_canceled (e : goerr) : bool := existsb (λ x, match x with CtxErr t => bool_decide (t = "context canceled") | _ => false end) (chain e).
(** [group.Wait]: the first error. *)
Definition group_Wait (l : list (option goerr)) : option goerr := head (omap id l).

(** The archive worker, which needs a directory and a database. *)
Definition start_archiver (o : daemon_Options) (db : bool) : res worker_err (option ArchiveWorker) :=
  if bool_decide (ArchiveDir o ≠ "") && db then
    match NewArchiveWorker (Clean (OutputDir o)) (Clean (ArchiveDir o)) with
    | Ok w => Ok (Some w)
    | Err e => Err e
    end
  else Ok None.

(** From the database to the end of [daemon_Run]'s body. *)
Definition run_with_db (o : daemon_Options) (out : outcomes) (db : bool) : list action * list run_err :=
  match start_archiver o db with
  | Err e => ([], [EArchiver e])
  | Ok worker =>
      let orch := if db then [AMakeOrchestrator; AReconcile] else [] in
      let start := if db then [AStartOrchestrator; AStartUpdates] else [] in
      let archive := if IsEnabled worker then [AStartArchiver] else [] in
      ((if worker is Some _ then [AMakeArchiver] else []) ++ [AMakeRegistry (StartPaused o)] ++ orch ++ start ++ archive ++
       [ASyncPeers; AServe; AWatchProxy] ++ (if db then [AStopOrchestrator] else []),
       match group_Wait (finished out) with
       | Some e => if is_canceled e then [] else [EGroup e]
       | None => []
       end)
  end.

(** [daemon_Run]: its actions, and the errors it joins; the deferred calls run last. *)
Definition daemon_Run (opts : daemon_Options) (out : outcomes) : list action * list run_err :=
  let o := withDefaults opts in
  match validate o with
  | Err e => ([], [EOptions e])
  | Ok _ =>
      match o_mkdir out with
      | Some e => ([AMkdir], [EMkdir e])
      | None =>
          match o_listen out with
          | Some e => ([AMkdir; ABind], [EBind e])
          | None =>
              let db := if o_db out is Some _ then false else true in
              let (acts, errs) := run_with_db o out db in
              ([AMkdir; ABind; AMakePool; AOpenDB db] ++ acts ++ (if db then [ACloseDB] else []) ++ [AClosePool],
               errs ++ match o_close out with Some e => [EClose e] | None => [] end)
          end
      end
  end.

(** The result of the first synchronisation of the peers: an error other than the end of the
    context becomes the registry's last error. *)
Definition peer_sync_result (text : goerr → string) (r : option goerr) (reg : Registry) : Registry :=
  match r with
  | Some e => if is_canceled e then reg else SetLastError (text e) reg
  | None => reg
  end.

(** [NewDaemon]'s command: sessions until the context ends. A session is what [Err] of the
    context says before it, what it returned, whether the context ended during it, and whether
    it ends during the pause of two seconds. *)
Record session := Session { ended_before : bool; returned : option run_err; ended_during : bool; ended_in_pause : bool }.
Fixpoint daemon_command (l : list session) : option nat :=
  match l with
  | [] => None
  | s :: l =>
      if ended_before s then Some 0%nat
      else if ended_during s || ended_in_pause s then Some 1%nat
      else S <$> daemon_command l
  end.

(** ** Theorems *)

Lemma validate_bounds o : validate o = Ok tt →
  (∃ hp, SplitHostPort (Listen o) = Ok hp) ∧ IsAbs (OutputDir o) = true ∧ (ArchiveDir o ≠ "" → IsAbs (ArchiveDir o) = true) ∧
  1 <= FileConcurrency o <= 64 ∧ 1 <= Threads o <= 64 ∧ 1 <= PoolSize o <= 64 ∧ 1 <= QueueCapacity o ∧ 1 <= TerminalLimit o ∧
  0 <= ReconnectTimeout o ∧ 0 < PeerSyncTimeout o <= 30 * minute.
Proof.
  unfold validate. destruct (SplitHostPort (Listen o)) as [hp|]; [|done].
  destruct (IsAbs (OutputDir o)); [|done]. cbn [negb].
  destruct (bool_decide (ArchiveDir o ≠ "") && negb (IsAbs (ArchiveDir o))) eqn:Ea; [done|].
  intros H. repeat (case_decide; [discriminate|]). clear H.
  split_and!; [by eexists|done| |lia..]. intros Hne. rewrite bool_decide_eq_true_2 in Ea by done. by destruct (IsAbs _).
Qed.

(** Options that pass the checks after the defaults give every component a configuration
    it relies on: absolute directories, a transfer manager and a pool with between 1 and 64
    slots, a registry of the capacities asked for, and a reserve of free space; the defaults
    change nothing when applied again. *)
Theorem accepted_options_sound (opts : daemon_Options) :
  let o := withDefaults opts in
  validate o = Ok tt →
  withDefaults o = o ∧ IsAbs (OutputDir o) = true ∧ (ArchiveDir o ≠ "" → IsAbs (ArchiveDir o) = true) ∧
  fileCapacity (NewTransferManager (FileConcurrency o) (Threads o)) = FileConcurrency o ∧
  maxFileThreads (NewTransferManager (FileConcurrency o) (Threads o)) = Threads o ∧
  1 <= FileConcurrency o <= 64 ∧ 1 <= Threads o <= 64 ∧ 1 <= PoolSize o <= 64 ∧
  queueCapacity (NewRegistry (QueueCapacity o) (TerminalLimit o)) = QueueCapacity o ∧
  terminalLimit (NewRegistry (QueueCapacity o) (TerminalLimit o)) = TerminalLimit o ∧
  minFreeSpace (NewSSDAdmission (OutputDir o) (MinFreeSpace o)) = MinFreeSpace o ∧ MinFreeSpace o ≠ 0 ∧
  0 < PeerSyncTimeout o <= 30 * minute.
Proof.
  intros o Hv. apply validate_bounds in Hv as (_ & Ho & Ha & Hf & Ht & Hp & Hq & Hl & _ & Hs).
  assert (MinFreeSpace o ≠ 0) as Hm by (subst o; cbn; by case_decide).
  assert (withDefaults o = o) as Hd.
  { unfold withDefaults at 1. subst o. destruct opts. unfold withDefaults, str_default, int_default. cbn.
    f_equal; repeat case_decide; done. }
  clearbody o. unfold NewTransferManager, NewRegistry, NewSSDAdmission.
  cbn [fileCapacity maxFileThreads queueCapacity terminalLimit minFreeSpace].
  split_and!; try done; try lia; repeat case_match; go_bool; lia.
Qed.
Lemma accepted_options_sound_witness :
  withDefaults (withDefaults zero_options) = withDefaults zero_options ∧ 1 <= FileConcurrency (withDefaults zero_options) <= 64.
Proof.
  destruct (accepted_options_sound zero_options) as (E & _ & _ & _ & _ & F & _); [vm_compute; reflexivity|].
  exact (conj E F).
Defined.

(** The actions that work on records and files. *)
Definition works (a : action) : Prop :=
  match a with AStartOrchestrator | AStartUpdates | AStartArchiver | AServe => True | _ => False end.
#[global] Instance action_eq_dec : EqDecision action.
Proof. solve_decision. Defined.
#[global] Instance works_dec a : Decision (works a).
Proof. destruct a; cbn; apply _. Defined.
Definition count_action (a : action) (l : list action) : nat := length (filter (eq a) l).
(** Nothing works before position [n]. *)
Definition idle_before (n : nat) (l : list action) : Prop := Forall (λ a, ¬ works a) (take n l).
#[global] Instance idle_before_dec n l : Decision (idle_before n l).
Proof. unfold idle_before. apply _. Defined.

(** The traces of [daemon_Run] after the options, the directory and the address were accepted. *)
Lemma run_traces opts out :
  validate (withDefaults opts) = Ok tt → o_mkdir out = None → o_listen out = None →
  ∃ paused (db made enabled ok : bool), (enabled = true → db = true) ∧
  (daemon_Run opts out).1 = [AMkdir; ABind; AMakePool; AOpenDB db] ++
    (if ok then
       (if made then [AMakeArchiver] else []) ++ [AMakeRegistry paused] ++ (if db then [AMakeOrchestrator; AReconcile] else []) ++
       (if db then [AStartOrchestrator; AStartUpdates] else []) ++ (if enabled then [AStartArchiver] else []) ++
       [ASyncPeers; AServe; AWatchProxy] ++ (if db then [AStopOrchestrator] else [])
     else []) ++ (if db then [ACloseDB] else []) ++ [AClosePool].
Proof.
  intros Hv Hm Hl. unfold daemon_Run. rewrite Hv, Hm, Hl. set (db := if o_db out is Some _ then false else true).
  unfold run_with_db, start_archiver.
  destruct (bool_decide _ && db) eqn:E.
  - apply andb_true_iff in E as [_ E]. destruct (NewArchiveWorker _ _) as [w|e].
    + exists (StartPaused (withDefaults opts)), db, true, (IsEnabled (Some w)), true. by split.
    + exists true, db, false, false, false. by split.
  - exists (StartPaused (withDefaults opts)), db, false, false, true. by split.
Qed.

(** What is left to show of a trace, by how far it got. *)
Definition orderly (l : list action) : Prop :=
  (AMakePool ∉ l → l `prefix_of` [AMkdir; ABind]) ∧
  (AMakePool ∈ l → count_action AMakePool l = 1%nat ∧ count_action AClosePool l = 1%nat ∧ last l = Some AClosePool) ∧
  (AOpenDB true ∈ l → count_action ACloseDB l = 1%nat ∧ l !! (length l - 2)%nat = Some ACloseDB ∧
     ∀ i a, l !! i = Some a → works a → ∃ j, (j < i)%nat ∧ l !! j = Some AReconcile) ∧
  (AOpenDB true ∉ l → (ACloseDB ∉ l) ∧ (AStartOrchestrator ∉ l) ∧ (AStartUpdates ∉ l) ∧ (AStartArchiver ∉ l)).
Definition pool_closed (l : list action) : Prop :=
  AMakePool ∈ l ∧ count_action AMakePool l = 1%nat ∧ count_action AClosePool l = 1%nat ∧ last l = Some AClosePool.
Definition db_closed (l : list action) : Prop :=
  AOpenDB true ∈ l ∧ count_action ACloseDB l = 1%nat ∧ l !! (length l - 2)%nat = Some ACloseDB.
Lemma run_short l : l `prefix_of` [AMkdir; ABind] → orderly l.
Proof.
  intros Hp. assert (∀ a, a ∈ l → a = AMkdir ∨ a = ABind) as H.
  { intros a Ha. destruct Hp as [k E]. assert (a ∈ [AMkdir; ABind]) as Hx by (rewrite E; set_solver). set_solver. }
  unfold orderly. split_and!; try done; try (intros []%H; done).
  intros _. split_and!; intros []%H; done.
Qed.
Lemma run_long_db l j : pool_closed l → db_closed l → l !! j = Some AReconcile → idle_before (S j) l → orderly l.
Proof.
  intros [HP Hp] (HD & Hd1 & Hd2) Hj Hi. unfold orderly. split_and!; try done. intros _. split_and!; [done|done|].
  intros i a Ha Hw. exists j. split; [|done]. destruct (decide (i < S j)%nat) as [Hlt|]; [|lia].
  unfold idle_before in Hi. rewrite Forall_lookup in Hi. destruct (Hi i a); [by rewrite lookup_take_lt|done].
Qed.
Lemma run_long_idle l : pool_closed l → db_closed l → idle_before (length l) l → orderly l.
Proof.
  intros [HP Hp] (HD & Hd1 & Hd2) Hi. unfold orderly. split_and!; try done. intros _. split_and!; [done|done|].
  intros i a Ha Hw. unfold idle_before in Hi. rewrite firstn_all, Forall_lookup in Hi. by destruct (Hi i a).
Qed.
Lemma run_long_no_db l : pool_closed l → (AOpenDB true ∉ l) →
  (ACloseDB ∉ l) ∧ (AStartOrchestrator ∉ l) ∧ (AStartUpdates ∉ l) ∧ (AStartArchiver ∉ l) → orderly l.
Proof. intros [HP Hp] HD Hn. unfold orderly. by split_and!. Qed.
Ltac by_computing := apply (bool_decide_unpack _); vm_compute; exact I.


(** The command returns only when its context has ended, whatever the sessions returned. *)
Lemma daemon_command_context l n : daemon_command l = Some n →
  ∃ s, s ∈ l ∧ (ended_before s = true ∨ ended_during s = true ∨ ended_in_pause s = true).
Proof.
  revert n. induction l as [|s l IH]; intros n; cbn; [done|].
  destruct (ended_before s) eqn:E1; [intros _; exists s; split; [left|auto]|].
  destruct (ended_during s) eqn:E2; [intros _; exists s; split; [left|auto]|].
  destruct (ended_in_pause s) eqn:E3; [intros _; exists s; split; [left|auto]|]. cbn.
  destruct (daemon_command l) as [m|]; [|done]. destruct (IH m eq_refl) as (s' & Hs & H). intros _. exists s'. split; [by right|done].
Qed.

(** A retry event always names a physical attempt. *)
Lemma retry_event_named tc taskID chatID mid dc err op attempt text :
  e_PhysicalAttemptID (retry_event tc taskID chatID mid dc err op attempt text) ≠ "".
Proof.
  cbn. unfold retry_attempt_id.
  assert (∀ s, AttemptID tc +:+ "-p" +:+ s ≠ "") as Hne by (intros s; by destruct (AttemptID tc)).
  repeat (case_match || case_decide); try done; apply Hne.
Qed.
