(* ===== verification/WebPanels.v ===== *)
(** * The panels of the web interface (app/daemon/web_server.go)

    The handlers that show things and those that hand a request to another component: the
    event stream with its telemetry, the report on storage, the lists of active and finished
    downloads, the proxies, the wizard and the accounts. A handler is a function of the decoded
    request ([None]: it could not be decoded) and of the state of the component it serves;
    its answer is the status and what the body says. JSON, HTTP and tickers are left out; the
    event stream is given its ticks. The theorems: no telemetry after a session has ended,
    figures that could not be read are reported as missing and never as zero, sizes are
    printed with the right unit, a page is a window of the finished downloads, and a refused
    request changes nothing. *)
From S2P Require Import Prelude Paths Sql ArchiveJobs Downloads Registry RegistryProps RegistryStatus Archive Planner World.
From S2P Require Import Fscommit Gate Transfer Observe Orchestrator Targets TargetsProps Peers Media Fetch Updates Telegram ChatService AuthWizard.
From S2P Require Import Proxy Web WebTargets.

(** ** Sizes in words *)

(** [fmt.Sprintf("%.1f %cB", b/div, unit)] or ["%d B"]; the digits are not spelled out. *)
Inductive human_size := Plain (b : Z) | Scaled (b div : Z) (unit : Ascii.ascii).
(** [for n := b / unit; n >= unit; n /= unit]. *)
Fixpoint size_loop (fuel : nat) (n div exp : Z) : Z * Z :=
  match fuel with
  | O => (div, exp)
  | S fuel => if decide (1024 <= n) then size_loop fuel (n / 1024) (wrap64 (div * 1024)) (exp + 1) else (div, exp)
  end.
Definition size_units : list Ascii.ascii := String.list_ascii_of_string "KMGTPE".
(** [None] is the panic of an index past the units. *)
Definition formatBytes (b : Z) : option human_size :=
  if decide (b < 1024) then Some (Plain b)
  else
    let (div, exp) := size_loop 7 (b / 1024) 1024 0 in
    Scaled b div <$> size_units !! Z.to_nat exp.

(** ** The event stream *)

Record sse_times := SSE { sseUpdateInterval : Z; sseHeartbeatInterval : Z; sseWriteTimeout : Z }.
Definition second_ns : Z := 1000000000.
Definition new_sse_times : sse_times := SSE second_ns (15 * second_ns) (5 * second_ns).
Definition positive_or (v d : Z) : Z := if decide (0 < v) then v else d.
Definition SetSSEIntervals (update heartbeat writeTimeout : Z) (t : sse_times) : sse_times :=
  SSE (positive_or update (sseUpdateInterval t)) (positive_or heartbeat (sseHeartbeatInterval t))
    (positive_or writeTimeout (sseWriteTimeout t)).
Definition getSSEIntervals (t : sse_times) : Z * Z * Z :=
  (positive_or (sseUpdateInterval t) second_ns, positive_or (sseHeartbeatInterval t) (15 * second_ns),
   positive_or (sseWriteTimeout t) (5 * second_ns)).

(** What wakes the loop: the end of the request, or a ticker, with the time, the sessions of
    that moment, the telemetry when it can be encoded, and whether the write succeeds. *)
Inductive wake_kind := Heartbeat | Update.
Record tick (T : Type) := Tick { tk_kind : wake_kind; tk_now : Z; tk_server : WebServer; tk_snapshot : option T; tk_write : bool }.
Arguments Tick {T}. Arguments tk_kind {T}. Arguments tk_now {T}. Arguments tk_server {T}. Arguments tk_snapshot {T}. Arguments tk_write {T}.
Inductive frame (T : Type) := FSnapshot (x : T) | FUpdate (x : T) | FHeartbeat | FExpired.
Arguments FSnapshot {T}. Arguments FUpdate {T}. Arguments FHeartbeat {T}. Arguments FExpired {T}.

Section Stream.
Context {T : Type} (req : http_request).
Definition tick_valid (k : tick T) : bool := isSessionValid (tk_now k) (tk_server k) req.
(** The loop: what is written, each with the tick that wrote it; [None] ends the request. *)
Fixpoint stream_loop (l : list (option (tick T))) : list (frame T * tick T) :=
  match l with
  | [] | None :: _ => []
  | Some k :: l =>
      if negb (tick_valid k) then [(FExpired, k)]
      else
        match tk_kind k, tk_snapshot k with
        | Heartbeat, _ => if tk_write k then (FHeartbeat, k) :: stream_loop l else []
        | Update, Some x => if tk_write k then (FUpdate x, k) :: stream_loop l else []
        | Update, None => stream_loop l
        end
  end.
(** [handleEventsStream]: 500 without a flusher; otherwise the frames, and the number of
    streams before, during and after. *)
Definition handleEventsStream (flusher : bool) (first : tick T) (l : list (option (tick T))) (activeSSE : Z) :
    http_reply (list (frame T * tick T)) * list Z :=
  if negb flusher then (HErr 500 "streaming unsupported", [activeSSE])
  else
    let frames :=
      if negb (tick_valid first) then [(FExpired, first)]
      else match tk_snapshot first with
           | Some x => if tk_write first then (FSnapshot x, first) :: stream_loop l else []
           | None => stream_loop l
           end in
    (HOk 200 frames, [activeSSE; activeSSE + 1; activeSSE]).
End Stream.

(** ** Telemetry and storage *)

Definition ReservedBytes (a : option SSDAdmission) : Z := match a with Some a => totalReserved a | None => 0 end.
Definition AvailableBytes (a : option SSDAdmission) (space : option (Z * Z)) : Z :=
  match a with
  | Some a => match Stats a space with Ok s => AvailableBytes_ s | Err _ => 0 end
  | None => 0
  end.
Definition used_bytes (free total : Z) : Z := if decide (free < total) then total - free else 0.

(** The report of /api/system/storage; a figure that may be missing is an option. *)
Record storage_report := StorageReport {
  sr_free : Z; sr_total : Z; sr_used : Z; sr_archive : option ArchiveStats;
  sr_ssd : Z * Z * Z; sr_ssd_backlog : option Z;
  sr_arch : Z * Z * Z; sr_arch_backlog : option Z;
  sr_target : Z * Z * Z; sr_target_backlog : option Z; sr_target_durable : option Z;
  sr_errors : list string }.
(** The orchestrator as the report sees it: its archive worker and its meter. *)
Record storage_view := View { v_worker : option ArchiveWorker; v_meter : option StorageIOMeter }.
Definition system_storage (disk : res string (Z * Z)) (orch : option storage_view) (activeFiles : option Z)
    (reg : option Registry) (has_db : bool) : SM sqlst (http_reply storage_report) :=
  match disk with
  | Err e => done! (HErr 500 e)
  | Ok (free, total) =>
      let enabled := match orch with Some v => IsEnabled (v_worker v) | None => false end in
      let meter f := match orch with Some v => f (v_meter v) | None => 0 end in
      let ssd := (meter SSDWriteBytes, meter SSDReadBytes, meter SSDActiveWriters) in
      let arch := (meter ArchiveWriteBytes, meter ArchiveReadBytes, meter ArchiveActiveWriters) in
      let target := match orch with
                    | Some v => (PhysicalTargetWriteBytes enabled (v_meter v), PhysicalTargetReadBytes enabled (v_meter v),
                                 ActiveTargetWriters enabled (v_meter v))
                    | None => (0, 0, default 0 activeFiles)
                    end in
      let ssd_backlog := QueuedBacklogBytes <$> reg in
      let report := StorageReport free total (used_bytes free total) in
      if enabled then
        if has_db then
          do! r := GetArchiveStats in
          done! match r with
                | Ok s => HOk 200 (report (Some s) ssd ssd_backlog arch (Some (BacklogBytes s)) target (Some (BacklogBytes s))
                                     (Some (ArchivedBytes s)) [])
                | Err _ => HOk 200 (report None ssd ssd_backlog arch None target None None ["archive_stats"])
                end
        else done! (HOk 200 (report None ssd ssd_backlog arch None target None None []))
      else if has_db then
        do! r := GetDurableTargetBytes in
        done! match r with
              | Ok d => HOk 200 (report None ssd ssd_backlog arch None target ssd_backlog (Some d) [])
              | Err _ => HOk 200 (report None ssd ssd_backlog arch None target ssd_backlog None ["durable_bytes"])
              end
      else done! (HOk 200 (report None ssd ssd_backlog arch None target ssd_backlog None []))
  end.

(** The telemetry of the event stream. *)
Record gate_info := GateInfo { gi_max : Z; gi_in_flight : Z; gi_files : Z; gi_concurrency : Z }.
Record telemetry := Telemetry {
  tm_paused : bool; tm_status : option StatusSnapshot; tm_gate : gate_info; tm_reserved : Z; tm_available : Z;
  tm_archive : option ArchiveStats; tm_progress : option (list TargetProgressItemDTO); tm_storage : option (Z * Z * Z) }.
(** [gate]: the gate's maximum and use, when there is one. *)
Definition gate_report (m : option TransferManager) (gate : option (Z * Z)) : gate_info :=
  match m with
  | None => GateInfo (256 * 1024 * 1024) 0 0 5
  | Some m =>
      let (mx, used) := default (256 * 1024 * 1024, 0) gate in
      GateInfo mx used (activeFiles m) (FileConcurrency (Some m))
  end.
(** The items of the stream: errors of the cursor are dropped. *)
Fixpoint stream_items (stats : gmap string TargetProgressStat) (l : list ListenTarget) : SM sst (list TargetProgressItemDTO) :=
  match l with
  | [] => done! []
  | t :: l =>
      do! c := d_db (GetScanCursor (lt_ChatID t)) in
      do! xs := stream_items stats l in
      done! (PItem (lt_ChatID t) (lt_Title t) (lt_Enabled t) (match c with Ok n => n | Err _ => 0 end) "ok" ""
               (default zero_stat (stats !! lt_ChatID t)) :: xs)
  end.
Definition stream_progress : SM sst (option (list TargetProgressItemDTO)) :=
  do! l := d_db GetListenTargets in
  match l with
  | Ok (t :: ts) =>
      do! s := d_db GetTargetProgressStats in
      do! xs := stream_items (match s with Ok m => m | Err _ => ∅ end) (t :: ts) in
      done! (Some xs)
  | _ => done! None
  end.
Definition collectTelemetrySnapshot (status : option StatusSnapshot) (gate : option (Z * Z)) (disk : option (Z * Z)) :
    SM sst telemetry :=
  do! o := (λ s, (st_daemon s, s)) in
  let isPaused := negb (o_running o) || match status with Some st => st_Paused st | None => false end in
  do! arc := d_db GetArchiveStats in
  do! prog := stream_progress in
  done! (Telemetry isPaused status (gate_report (Some (o_transfer o)) gate) (ReservedBytes (Some (o_adm o)))
           (AvailableBytes (Some (o_adm o)) disk)
           (match arc with Ok a => Some a | Err _ => None end) prog
           ((λ ft : Z * Z, (ft.1, ft.2, used_bytes ft.1 ft.2)) <$> disk)).

(** /api/gate: the figures of a component that is missing are left out. *)
Record gate_panel := GatePanel { gp_gate : option (Z * Z); gp_files : option (Z * Z); gp_ssd : option (Z * Z) }.
Definition get_gate (m : option TransferManager) (gate : option (Z * Z)) (a : option SSDAdmission) (space : option (Z * Z)) : gate_panel :=
  GatePanel (match m with Some _ => gate | None => None end)
    ((λ m, (activeFiles m, FileConcurrency (Some m))) <$> m)
    ((λ a, (ReservedBytes (Some a), AvailableBytes (Some a) space)) <$> a).

(** The status panel: [running] is the orchestrator's, when there is one; the slots are
    those in all, used and free, the files are keyed by their identifiers. *)
Record download_status := DStatus {
  dst_speed : Z; dst_paused : bool; dst_slots : Z * Z * Z; dst_in_flight : Z * Z; dst_ssd : Z * Z;
  dst_files : gmap string TaskSnapshot }.
Definition files_map (l : list TaskSnapshot) : gmap string TaskSnapshot :=
  foldl (λ m f, <[snap_ID f := f]> m) ∅ l.
Definition handleGetDownloadStatus (st : StatusSnapshot) (running : option bool) (m : option TransferManager) (gate : option (Z * Z))
    (a : option SSDAdmission) (space : option (Z * Z)) : download_status :=
  let files := match m with Some m => activeFiles m | None => 0 end in
  let concurrency := match m with Some _ => FileConcurrency m | None => 0 end in
  let '(mx, used) := match m with Some _ => default (0, 0) gate | None => (0, 0) end in
  DStatus (st_Rolling5sBPS st) (match running with Some b => negb b | None => false end)
    (concurrency, files, wrap64 (concurrency - files)) (used, mx) (ReservedBytes a, AvailableBytes a space)
    (files_map (st_ActiveFiles st)).

(** ** Lists of downloads *)

(** Titles by chat identifier and by name; a later target takes the place of an earlier one. *)
Definition title_map (targets : list ListenTarget) : gmap string string :=
  foldl (λ m t,
    if decide (lt_Title t = "") then m
    else
      let m := <[lt_ChatID t := lt_Title t]> m in
      if decide (lt_Username t = "") then m else <["@" +:+ lt_Username t := lt_Title t]> m) ∅ targets.
Definition display_chat (titles : gmap string string) (chatID : string) : string :=
  match titles !! chatID with Some t => or_else t chatID | None => chatID end.
(** [strings.SplitN(id, ":", 2)]. *)
Definition colon_char : Ascii.ascii := Ascii.Ascii false true false true true true false false.
Fixpoint cut_colon (s : string) : option (string * string) :=
  match s with
  | EmptyString => None
  | String c s => if decide (c = colon_char) then Some ("", s) else (λ p : string * string, (String c p.1, p.2)) <$> cut_colon s
  end.
(** The chat and the message a row is about. *)
Definition row_ids (t : taskState) : string * Z :=
  match cut_colon (ID (t_request t)) with
  | Some (chat, m) => (chat, default (MessageID (t_request t)) (ParseInt m))
  | None => (Peer (t_request t), MessageID (t_request t))
  end.
(** The part of a base name after the first [" - "], when something follows it. *)
Fixpoint after_dash (s : string) : option string :=
  match s with
  | EmptyString => None
  | String c r => if HasPrefix s " - " then Some (drop_string 3 s) else after_dash r
  end.
Definition row_file (t : taskState) (msgID : Z) : string :=
  let name := t_fileName t in
  let name :=
    if decide (name = "" ∨ HasSuffix name ".unknown" = true) then
      let base := Base (FinalPath (t_request t)) in
      match after_dash base with Some r => or_else r base | None => base end
    else name in
  if decide (name = "" ∨ name = ".") then itoa msgID +:+ ".bin" else name.
Record download_row_view := DRow { dr_chat : string; dr_chat_id : string; dr_id : Z; dr_file : string; dr_path : string; dr_size : option human_size }.
Definition active_row (titles : gmap string string) (s : TaskSnapshot) : download_row_view :=
  let t := s_cell s in
  let (chat, mid) := row_ids t in
  DRow (display_chat titles chat) chat mid (row_file t mid) (FinalPath (t_request t)) (formatBytes (Registry.totalSize t)).
Definition handleGetDownloadList (active : list TaskSnapshot) : SM sqlst (list download_row_view) :=
  do! l := GetListenTargets in
  done! (active_row (title_map (match l with Ok l => l | Err _ => [] end)) <$> active).

(** [page] and [limit] as [strconv.Atoi] gives them. *)
Definition page_of (page : Z) : Z := if decide (page < 1) then 1 else page.
Definition limit_of (limit : Z) : Z := if decide (limit < 1 ∨ 500 < limit) then 50 else limit.
Definition page_offset (page limit : Z) : Z := wrap64 (wrap64 (page_of page - 1) * limit_of limit).
Record record_view := RView {
  rv_chat : string; rv_chat_id : string; rv_id : Z; rv_file : string; rv_path : string; rv_type : string;
  rv_size : option human_size; rv_completed : Z }.
Definition record_row (titles : gmap string string) (x : DownloadRecord * Z) : record_view :=
  let (r, downloadedAt) := x in
  let name := if decide (r_FileName r = "" ∧ r_SavePath r ≠ "") then Base (r_SavePath r) else r_FileName r in
  RView (display_chat titles (r_ChatID r)) (r_ChatID r) (r_MessageID r) (or_else name ("media_" +:+ itoa (r_MessageID r)))
    (r_SavePath r) (r_MediaType r) (formatBytes (r_FileSize r)) (if decide (downloadedAt = 0) then r_UpdatedAt r else downloadedAt).
(** The answer: the rows, the number of all matches, the page and its size. *)
Definition handleGetDownloadedRecords (q : string) (page limit : Z) : SM sqlst (http_reply (list record_view * Z * Z * Z)) :=
  do! l := GetListenTargets in
  let titles := title_map (match l with Ok l => l | Err _ => [] end) in
  do! r := GetDownloadedRecords (TrimSpace q) (limit_of limit) (page_offset page limit) in
  done! match r with
        | Err e => HErr 500 (dberr_text e)
        | Ok (rows, total) => HOk 200 (record_row titles <$> rows, total, page_of page, limit_of limit)
        end.
Definition get_conflicts (has_db : bool) : SM sqlst (http_reply (list DownloadRecord)) :=
  if has_db then
    do! r := GetConflictedDownloads in
    done! match r with Ok l => HOk 200 l | Err e => HErr 500 (dberr_text e) end
  else done! (HOk 200 []).
Definition get_task (id : string) (now : Z) (r : Registry) : http_reply TaskSnapshot * Registry :=
  match Registry_Task id now r with
  | (Some s, r) => (HOk 200 s, r)
  | (None, r) => (HErr 404 "task not found", r)
  end.

(** ** Proxies *)

(** The first of four fields that is not empty. *)
Definition node_of_request (name tag node node_tag : string) : string := or_else name (or_else tag (or_else node node_tag)).
Section Proxies.
Context {F : Type} (f_lt : F → F → bool) (f_add f_mul f_div : F → F → F) (f_of : Z → F) (f_trunc : F → Z) {S : Type}.
Context (get_proxies : SM S (option (list (string * ProxyData)))) (put_proxy : string → string → SM S (option Z)) (get_delay : string → SM S (option Z)).
(** The active node carries at least the bytes the database knows of the last day. *)
Definition top_up (current : string) (bytes : Z) (n : ProxyNode (F := F)) : ProxyNode :=
  if bool_decide (Tag n = current) && f_lt (TotalBytes24h n) (f_of bytes)
  then Node (Tag n) (n_Type n) (PeakSpeedBPS n) (AvgSpeedBPS n) (f_of bytes) (ActiveSamplesCount n) (LastPingMS n) (IsPeakLeader n)
  else n.
Definition handleProxyList (manager : bool) (db24h : option Z) (now : Z) : PX (F := F) (S := S) (http_reply (string * list (ProxyNode (F := F)))) :=
  if manager then
    do! r := GetProxyList f_lt f_add f_mul f_div f_of f_trunc get_proxies now in
    done! match r with
          | None => HErr 500 "proxy list"
          | Some (nodes, current) => HOk 200 (current, match db24h with Some b => top_up current b <$> nodes | None => nodes end)
          end
  else done! (HOk 200 ("direct", [])).
Definition handleProxySwitch (manager : bool) (body : option (string * (string * string * string * string))) : PX (F := F) (S := S) (http_reply string) :=
  match body with
  | None => done! (HErr 400 "invalid json")
  | Some (group, (name, tag, node, node_tag)) =>
      let target := node_of_request name tag node node_tag in
      if decide (target = "") then done! (HErr 400 "node name or tag is required")
      else if negb manager then done! (HErr 503 "proxy manager not initialized")
      else
        do! ok := SwitchProxy put_proxy group target in
        done! (if ok : bool then HOk 200 target else HErr 500 "switch proxy")
  end.
Definition handleProxyPing (manager : bool) (body : option (string * string * string * string)) : PX (F := F) (S := S) (http_reply Z) :=
  match body with
  | None => done! (HErr 400 "invalid json")
  | Some (name, tag, node, node_tag) =>
      let target := node_of_request name tag node node_tag in
      if decide (target = "") then done! (HErr 400 "node name or tag is required")
      else if negb manager then done! (HErr 503 "proxy manager not initialized")
      else
        do! d := PingProxy get_delay target in
        done! match d with Some d => HOk 200 d | None => HErr 500 "ping proxy" end
  end.
End Proxies.

(** ** The wizard and the accounts *)

Definition wizard_reply (r : res string reply) : http_reply reply := match r with Ok x => HOk 200 x | Err e => HErr 400 e end.
Definition no_wizard : string := "auth wizard not initialized".
(** [wired] says whether there is a wizard; the answers of Telegram are arguments of its operations. *)
Section Wizard.
Context (wired : bool) (now : Z).
Definition handleAuthStatus (authorized : option bool) (self : option user) : A_ (option (AuthWizard * list TelegramAccount)) :=
  if wired then do! s := AuthStatus now authorized self in done! (Some s) else done! None.
(** A body that cannot be decoded counts as empty. *)
Definition handleAuthQRStart (body : option string) (query : string) (token : res string (string * Z)) (encoded : bool) : A_ (http_reply reply) :=
  if wired then
    do! r := StartQR (or_else (default "" body) query) token encoded in done! (wizard_reply r)
  else done! (HErr 503 no_wizard).
Definition handleAuthQRPoll (answer : option sign_in) (self : option user) : A_ (http_reply reply) :=
  if wired then do! r := PollQR now answer self in done! (wizard_reply r) else done! (HErr 503 no_wizard).
(** A handler that needs a field: 400 when it is missing, 503 without a wizard. *)
Definition needs {A} (field : option string) (msg : string) (op : string → A_ (http_reply A)) : A_ (http_reply A) :=
  match field with
  | None => done! (HErr 400 msg)
  | Some v => if decide (v = "") then done! (HErr 400 msg) else if wired then op v else done! (HErr 503 no_wizard)
  end.
Definition handleAuthSendPhoneCode (body : option (string * string)) (sent : res string (option string)) (self : option user) : A_ (http_reply reply) :=
  needs (fst <$> body) "invalid phone number" (λ phone,
    do! r := SendPhoneCode now phone (default "" (snd <$> body)) sent self in done! (wizard_reply r)).
Definition handleAuthVerifyPhoneCode (body : option string) (answer : sign_in) (self : option user) : A_ (http_reply reply) :=
  needs body "invalid verification code" (λ _, do! r := VerifyPhoneCode now answer self in done! (wizard_reply r)).
Definition handleAuthVerify2FA (body : option string) (accepted : res string unit) (self : option user) : A_ (http_reply reply) :=
  needs body "invalid password" (λ _, do! r := Verify2FA now accepted self in done! (wizard_reply r)).
Definition handleAuthLogoutTelegram : A_ (http_reply unit) :=
  if wired then do! _ := Logout in done! (HOk 200 tt) else done! (HErr 503 no_wizard).
Definition handleGetAccounts (has_db : bool) : A_ (http_reply (list TelegramAccount)) :=
  if has_db then
    do! r := a_db GetAccounts in
    done! match r with Ok l => HOk 200 l | Err e => HErr 500 (dberr_text e) end
  else done! (HErr 503 "database not initialized").
Definition handleSwitchAccount (body : option string) : A_ (http_reply string) :=
  needs body "invalid namespace" (λ ns,
    do! r := SwitchAccount now ns in done! match r with Ok _ => HOk 200 ns | Err e => HErr 500 (dberr_text e) end).
Definition handleDeleteAccount (body : option string) : A_ (http_reply string) :=
  needs body "invalid namespace" (λ ns,
    do! r := WizardDeleteAccount ns in done! match r with Ok _ => HOk 200 ns | Err e => HErr 500 (dberr_text e) end).
End Wizard.

(** ** Peers *)

Section PeerInfo.
Context {S : Type} (resolve_peer : string → SM S (res fetch_err ResolvedPeer)) (derr_text : derr → string).
Definition handleResolveTarget (access : bool) (body : option (string * string)) : SM S (http_reply DialogDTO) :=
  match body with
  | None => done! (HErr 400 "invalid json")
  | Some (query, target) =>
      if negb access then done! (HErr 503 "telegram access not available")
      else
        do! r := ResolvePeerInfo resolve_peer (or_else query target) in
        done! match r with Ok d => HOk 200 d | Err e => HErr 400 (derr_text e) end
  end.
Definition chat_resolve (access : bool) (body : option string) : SM S (http_reply DialogDTO) :=
  if negb access then done! (HErr 503 "telegram access not available")
  else
    match body with
    | None => done! (HErr 400 "invalid json")
    | Some query =>
        do! r := ResolvePeerInfo resolve_peer query in
        done! match r with Ok d => HOk 200 d | Err e => HErr 500 (derr_text e) end
    end.

Context (mime_ext : string → option string).
Context (resolve_input : string → SM S (res fetch_err InputPeerClass)).
Context (get_history : InputPeerClass → Z * Z * Z * Z → ST S fetch_err MessagesAnswer).
Definition chat_history (access : bool) (body : option HistoryRequest) : SM S (http_reply (list MessageDTO)) :=
  if negb access then done! (HErr 503 "telegram access not available")
  else
    match body with
    | None => done! (HErr 400 "invalid json")
    | Some req =>
        do! r := GetHistory mime_ext resolve_input get_history req in
        done! match r with Ok l => HOk 200 l | Err e => HErr 500 (derr_text e) end
    end.
End PeerInfo.

(** ** Theorems: sizes, the stream, pages *)

Lemma size_loop_spec fuel : ∀ n div exp b,
  div = 1024 ^ (exp + 1) → n = b / div → 0 <= exp → exp + Z.of_nat fuel <= 7 → div <= b → b < 1024 ^ (exp + 1 + Z.of_nat fuel) →
  b <= int64_max →
  let (d, e) := size_loop fuel n div exp in d = 1024 ^ (e + 1) ∧ exp <= e ∧ d <= b < 1024 * d.
Proof.
  induction fuel as [|fuel IH]; intros n div exp b Hd Hn He Hf Hle Hlt Hb; cbn [size_loop].
  { split_and!; [done|lia|done|]. rewrite Z.add_0_r in Hlt. lia. }
  assert (0 < div) by (subst div; apply Z.pow_pos_nonneg; lia).
  assert (1024 * div = 1024 ^ (exp + 1 + 1)) as Hnext by (subst div; rewrite <- Z.pow_succ_r by lia; f_equal; lia).
  case_decide as Hc.
  - assert (1024 * div <= b) as Hge by (subst n; pose proof (Z.mul_div_le b div ltac:(lia)); nia).
    assert (wrap64 (div * 1024) = 1024 ^ (exp + 1 + 1)) as Hw.
    { rewrite wrap64_id; [lia|]. unfold in_int64, int64_min, int64_max in *. lia. }
    specialize (IH (n / 1024) (wrap64 (div * 1024)) (exp + 1) b). rewrite Hw in IH |- *.
    destruct (size_loop fuel (n / 1024) (1024 ^ (exp + 1 + 1)) (exp + 1)) as [d e].
    destruct IH as (? & ? & ?); [done| |lia|lia|lia| |done|split_and!; lia].
    + subst n. rewrite Z.div_div by lia. f_equal. lia.
    + replace (exp + 1 + 1 + Z.of_nat fuel) with (exp + 1 + Z.of_nat (S fuel)) by lia. done.
  - split_and!; [done|lia|done|]. subst n. pose proof (Z.mul_succ_div_gt b div ltac:(lia)). nia.
Qed.

(** Every size is printed: a number below 1024 as it is, any other as a quotient between 1
    and 1024 with the unit of its power, and the index of the unit is always in range. *)
Theorem format_bytes_total (b : Z) :
  b <= int64_max →
  (b < 1024 → formatBytes b = Some (Plain b)) ∧
  (1024 <= b → ∃ e u, formatBytes b = Some (Scaled b (1024 ^ (e + 1)) u) ∧ 0 <= e <= 5 ∧
     size_units !! Z.to_nat e = Some u ∧ 1024 ^ (e + 1) <= b < 1024 * 1024 ^ (e + 1)).
Proof.
  intros Hb. unfold formatBytes. case_decide as Hc; (split; [|try lia]); [done|lia|]. intros _.
  assert (b < 1024 ^ 8) as Hb8 by (unfold int64_max in Hb; lia).
  pose proof (size_loop_spec 7 (b / 1024) 1024 0 b) as Hs. destruct (size_loop 7 (b / 1024) 1024 0) as [d e].
  destruct Hs as (-> & He & Hr); [done|done|lia|lia|lia|done|done|].
  assert (e <= 5) as He5.
  { destruct (decide (e <= 5)) as [|Hn]; [done|]. exfalso.
    assert (1024 ^ 7 <= 1024 ^ (e + 1)) by (apply Z.pow_le_mono_r; lia). unfold int64_max in Hb. lia. }
  destruct (lookup_lt_is_Some_2 size_units (Z.to_nat e)) as [u Hu]; [vm_compute length; lia|].
  exists e, u. rewrite Hu. split_and!; try done; lia.
Qed.
Lemma format_bytes_total_witness :
  formatBytes (5 * 1024 * 1024) ≠ None ∧
  ∃ e u, formatBytes (5 * 1024 * 1024) = Some (Scaled (5 * 1024 * 1024) (1024 ^ (e + 1)) u) ∧ 0 <= e <= 5.
Proof.
  split; [vm_compute; discriminate|].
  destruct (format_bytes_total (5 * 1024 * 1024)) as [_ H]; [vm_compute; discriminate|].
  destruct H as (e & u & E & He & _); [vm_compute; discriminate|]. exists e, u. exact (conj E He).
Defined.

(** The intervals of the stream are positive whatever is set. *)
Lemma sse_intervals_positive t : let '(u, h, w) := getSSEIntervals t in 0 < u ∧ 0 < h ∧ 0 < w.
Proof. unfold getSSEIntervals, positive_or, second_ns. split_and!; case_decide; lia. Qed.

(** A frame that carries something other than the end of the session. *)
Definition carries {T} (f : frame T) : Prop := match f with FExpired => False | _ => True end.
Lemma stream_loop_valid {T} (req : http_request) (l : list (option (tick T))) i f k :
  stream_loop req l !! i = Some (f, k) →
  (carries f → tick_valid req k = true) ∧ (f = FExpired → S i = length (stream_loop req l) ∧ tick_valid req k = false).
Proof.
  revert i. induction l as [|[x|] l IH]; intros i; [done| |done]. cbn [stream_loop].
  destruct (tick_valid req x) eqn:Hv; cbn [negb].
  2: { destruct i; [|done]. intros [= <- <-]. done. }
  assert (∀ f0, carries f0 → (if tk_write x then (f0, x) :: stream_loop req l else []) !! i = Some (f, k) →
    (carries f → tick_valid req k = true) ∧
    (f = FExpired → S i = length (if tk_write x then (f0, x) :: stream_loop req l else []) ∧ tick_valid req k = false)) as Hcons.
  { intros f0 Hf0. destruct (tk_write x); [|done]. destruct i as [|i].
    - intros [= <- <-]. split; [done|]. by destruct f0.
    - cbn. intros [H1 H2]%IH. split; [done|]. intros [? ?]%H2. split; [cbn; lia|done]. }
  destruct (tk_kind x); [by apply Hcons|]. destruct (tk_snapshot x); [by apply Hcons|apply IH].
Qed.

(** Telemetry goes only to a live session: whatever a stream sent besides the notice that
    the session ended was sent at a moment when the session was valid, and that notice is the
    last thing sent. The count of streams comes back to what it was. *)
Theorem stream_needs_a_live_session {T} (req : http_request) (flusher : bool) (first : tick T) (l : list (option (tick T)))
    (active : Z) (frames : list (frame T * tick T)) :
  (handleEventsStream req flusher first l active).1 = HOk 200 frames →
  last (handleEventsStream req flusher first l active).2 = Some active ∧
  ∀ i f k, frames !! i = Some (f, k) →
    (carries f → isSessionValid (tk_now k) (tk_server k) req = true) ∧ (f = FExpired → S i = length frames).
Proof.
  unfold handleEventsStream. destruct flusher; [|done]. cbn [negb fst snd]. intros [= <-]. split; [done|].
  intros i f k. destruct (tick_valid req first) eqn:Hv; cbn [negb].
  2: { destruct i; [|done]. intros [= <- <-]. done. }
  destruct (tk_snapshot first) as [x|].
  2: { intros [H1 H2]%stream_loop_valid. split; [done|]. naive_solver. }
  destruct (tk_write first); [|done]. destruct i as [|i].
  - intros [= <- <-]. done.
  - cbn. intros [H1 H2]%stream_loop_valid. split; [done|]. intros [? ?]%H2. lia.
Qed.

Definition demo_server : WebServer := Server "pw" {["t" := 30]}.
Definition demo_request : http_request := HttpReq "GET" "/api/events/stream" "" (Some "t").
Definition demo_ticks : list (option (tick Z)) :=
  [Some (Tick Update 20 demo_server (Some 2) true); Some (Tick Heartbeat 40 demo_server None true); Some (Tick Update 41 demo_server (Some 3) true)].
Lemma stream_needs_a_live_session_witness :
  let first := Tick Update 10 demo_server (Some 1) true in
  let frames := [(FSnapshot 1, first); (FUpdate 2, Tick Update 20 demo_server (Some 2) true);
                 (FExpired, Tick Heartbeat 40 demo_server None true)] in
  (handleEventsStream demo_request true first demo_ticks 4).1 = HOk 200 frames ∧
  last (handleEventsStream demo_request true first demo_ticks 4).2 = Some 4.
Proof.
  intros first frames. assert ((handleEventsStream demo_request true first demo_ticks 4).1 = HOk 200 frames) as E by (vm_compute; done).
  split; [exact E|]. exact (proj1 (stream_needs_a_live_session demo_request true first demo_ticks 4 frames E)).
Defined.

(** The report on storage says only what was read: a figure whose query failed is missing
    and the failure is listed; the durable bytes it gives are those of the tier that is the
    target; the target's counters are those of one tier; the database is not changed. *)
Theorem storage_report_honest (free total : Z) (v : storage_view) (files : option Z) (reg : option Registry) (has_db : bool)
    (q q' : sqlst) (rep : storage_report) :
  let enabled := IsEnabled (v_worker v) in
  system_storage (Ok (free, total)) (Some v) files reg has_db q = (HOk 200 rep, q') →
  tabs q' = tabs q ∧ sr_target rep = (if enabled then sr_arch rep else sr_ssd rep) ∧
  (sr_errors rep ≠ [] → sr_target_durable rep = None) ∧
  (has_db = true → sr_errors rep = [] → is_Some (sr_target_durable rep)) ∧
  (∀ d, sr_target_durable rep = Some d →
     d = if enabled then sum_jobs (λ r, bool_decide (state r = "archived")) expected_size (tabs q) else success_bytes (tabs q)).
Proof.
  cbn zeta. unfold system_storage, sm_bind, sm_ret, GetArchiveStats, GetDurableTargetBytes, query, stmt.
  destruct (IsEnabled (v_worker v)); destruct has_db; try (destruct (hd false (faults q)));
    cbn -[sum_jobs success_bytes]; intros [= <- <-]; cbn -[sum_jobs success_bytes]; split_and!; try done; try by intros d [= <-].
Qed.
Lemma storage_report_honest_witness :
  let q := Sql empty_db [true] in
  ∃ rep q', system_storage (Ok (5, 9)) (Some (View None None)) None None true q = (HOk 200 rep, q') ∧ sr_target_durable rep = None.
Proof.
  cbn zeta. eexists _, _. split; [reflexivity|].
  eapply (storage_report_honest 5 9 (View None None) None None true (Sql empty_db [true])); [reflexivity|discriminate].
Defined.

(** What the database answers to a page, when no statement fails. *)
Definition page_rows (q : string) (page limit : Z) (d : db) : list (key * download_row) :=
  limit_to (limit_of limit) (skip_to (page_offset page limit) (merge_sort downloaded_le (downloaded_rows q d))).
Lemma records_page (q : string) (page limit : Z) (s : sqlst) :
  faults s = [] →
  ∃ titles, (handleGetDownloadedRecords q page limit s).1 =
    HOk 200 ((λ kr, record_row titles (record_of_downloaded kr, coalesce 0 (downloaded_at kr.2))) <$> page_rows (TrimSpace q) page limit (tabs s),
             Z.of_nat (length (downloaded_rows (TrimSpace q) (tabs s))), page_of page, limit_of limit).
Proof.
  intros Hf. unfold handleGetDownloadedRecords, GetDownloadedRecords, GetListenTargets, sm_bind, sm_ret, st_try, st_bind, st_ret, query, stmt.
  rewrite Hf. cbn. eexists. by rewrite <- list_fmap_compose.
Qed.

Lemma page_offset_exact page limit : 1 <= page → 1 <= limit <= 500 → page * limit <= int64_max → page_offset page limit = (page - 1) * limit.
Proof.
  intros Hp Hl Hm. unfold page_offset, page_of, limit_of. rewrite !decide_False by lia. unfold int64_max in Hm.
  assert (page <= page * limit) by nia.
  rewrite (wrap64_id (page - 1)) by (unfold in_int64, int64_min, int64_max; lia).
  apply wrap64_id. unfold in_int64, int64_min, int64_max. nia.
Qed.

(** The pages of the finished downloads, one after the other, are the sorted list of all
    matches: no record is shown twice and none is left out. *)
Theorem pages_cover (q : string) (limit : Z) (n : nat) (d : db) :
  1 <= limit <= 500 → Z.of_nat n * limit <= int64_max →
  concat ((λ i, page_rows q (Z.of_nat i) limit d) <$> seq 1 n) =
  take (n * Z.to_nat limit) (merge_sort downloaded_le (downloaded_rows q d)).
Proof.
  intros Hl. induction n as [|n IH]; intros Hn; [done|].
  rewrite seq_S, fmap_app, concat_app, IH by lia. cbn [fmap list_fmap concat]. rewrite app_nil_r. unfold page_rows.
  rewrite page_offset_exact by lia. unfold limit_of, limit_to, skip_to. rewrite decide_False by lia.
  destruct (Z.ltb_spec limit 0); [lia|].
  set (l := merge_sort _ _). replace (Z.to_nat ((Z.of_nat (1 + n) - 1) * limit)) with (n * Z.to_nat limit)%nat by lia.
  rewrite take_take_drop. f_equal. lia.
Qed.
Lemma pages_cover_witness (d := empty_db) :
  concat ((λ i, page_rows "" (Z.of_nat i) 2 d) <$> seq 1 3) = take 6 (merge_sort downloaded_le (downloaded_rows "" d)).
Proof. apply (pages_cover "" 2 3); [lia|vm_compute; discriminate]. Defined.

(** The product of page and limit wraps: far enough out, the first page comes again. *)
Theorem huge_page_shows_the_first (q : string) (d : db) :
  page_rows q (2 ^ 62 + 1) 4 d = page_rows q 1 4 d.
Proof. unfold page_rows. by replace (page_offset (2 ^ 62 + 1) 4) with (page_offset 1 4) by (vm_compute; reflexivity). Qed.

(** Rows of the active list name the chat and the message of a canonical identifier. *)
Lemma cut_colon_app chat s : colon_char ∉ String.list_ascii_of_string chat → cut_colon (chat +:+ String colon_char s) = Some (chat, s).
Proof.
  induction chat as [|c chat IH]; [done|]. change (String.list_ascii_of_string (String c chat)) with (c :: String.list_ascii_of_string chat).
  intros Hn. apply not_elem_of_cons in Hn as [Hc Hn]. change (String c chat +:+ String colon_char s) with (String c (chat +:+ String colon_char s)).
  cbn [cut_colon]. rewrite decide_False by done. by rewrite IH.
Qed.
Lemma row_ids_canonical t chat mid :
  colon_char ∉ String.list_ascii_of_string chat → in_int64 mid → ID (t_request t) = CanonicalTaskID chat mid → row_ids t = (chat, mid).
Proof.
  intros Hc Hm Hid. unfold row_ids. rewrite Hid. unfold CanonicalTaskID.
  change (chat +:+ ":" +:+ itoa mid) with (chat +:+ String colon_char (itoa mid)).
  rewrite cut_colon_app by done. by rewrite ParseInt_itoa.
Qed.

(** ** The wizard behind its handlers *)

(** A request of the wizard's routes, with what Telegram answers to it. *)
Inductive wizard_request :=
| QStatus (authorized : option bool) (self : option user)
| QStartQR (body : option string) (query : string) (token : res string (string * Z)) (encoded : bool)
| QPollQR (answer : option sign_in) (self : option user)
| QSendCode (body : option (string * string)) (sent : res string (option string)) (self : option user)
| QVerifyCode (body : option string) (answer : sign_in) (self : option user)
| QVerify2FA (body : option string) (accepted : res string unit) (self : option user)
| QLogout
| QAccounts (has_db : bool)
| QSwitch (body : option string)
| QDelete (body : option string).
Definition status_code {A} (r : http_reply A) : Z := match r with HOk n _ | HErr n _ => n end.
Definition serve_wizard (wired : bool) (now : Z) (r : wizard_request) : A_ Z :=
  let code {A} (m : A_ (http_reply A)) : A_ Z := do! x := m in done! (status_code x) in
  match r with
  | QStatus a u => do! _ := handleAuthStatus wired now a u in done! 200
  | QStartQR b q t e => code (handleAuthQRStart wired b q t e)
  | QPollQR a u => code (handleAuthQRPoll wired now a u)
  | QSendCode b s u => code (handleAuthSendPhoneCode wired now b s u)
  | QVerifyCode b a u => code (handleAuthVerifyPhoneCode wired now b a u)
  | QVerify2FA b a u => code (handleAuthVerify2FA wired now b a u)
  | QLogout => code (handleAuthLogoutTelegram wired)
  | QAccounts h => code (handleGetAccounts h)
  | QSwitch b => code (handleSwitchAccount wired now b)
  | QDelete b => code (handleDeleteAccount wired b)
  end.

(** A request without the field it needs. *)
Definition malformed (r : wizard_request) : bool :=
  let missing (b : option string) := bool_decide (default "" b = "") in
  match r with
  | QSendCode b _ _ => missing (fst <$> b)
  | QVerifyCode b _ _ | QVerify2FA b _ _ | QSwitch b | QDelete b => missing b
  | _ => false
  end.
Lemma forget_eq {A} (m : A_ A) s : (forget m s).2 = (m s).2.
Proof. unfold forget, sm_bind, sm_ret. by destruct (m s). Qed.
Lemma accounts_read s : wiz_wf s → (a_db GetAccounts s).2 = s.
Proof.
  intros [_ [Hf _]]. destruct s as [w [d f]]. cbn in Hf. subst f.
  unfold a_db, GetAccounts, query, stmt. done.
Qed.
Lemma then_state {A B} (m : A_ A) (f : A → B) s : (sm_bind m (λ x, sm_ret (f x)) s).2 = (m s).2.
Proof. unfold sm_bind, sm_ret. by destruct (m s). Qed.
Lemma then_value {A B} (m : A_ A) (f : A → B) s : (sm_bind m (λ x, sm_ret (f x)) s).1 = f (m s).1.
Proof. unfold sm_bind, sm_ret. by destruct (m s). Qed.
(** What a request may do to the wizard. *)
Definition obedient (wired : bool) (now : Z) (bad : bool) (s : ast) (code : Z) (s' : ast) : Prop :=
  (bad = true → code = 400 ∧ s' = s) ∧ (wired = false → s' = s) ∧ (s' = s ∨ ∃ op, s' = (wiz_step now op s).2).
Lemma needs_obedient {A} wired now field msg (op : string → A_ (http_reply A)) s :
  (∀ v, ∃ o, (op v s).2 = (wiz_step now o s).2) →
  obedient wired now (bool_decide (default "" field = "")) s (status_code (needs wired field msg op s).1) (needs wired field msg op s).2.
Proof.
  intros Hop. unfold needs, sm_ret, obedient. destruct field as [v|]; cbn [default]; [|by rewrite bool_decide_true; auto].
  case_decide as Hv; [subst; by rewrite bool_decide_true; auto|]. rewrite bool_decide_false by done.
  destruct wired; (split_and!; [done|done|]); [|by left]. destruct (Hop v) as [o Ho]. right. by exists o.
Qed.
Lemma wired_obedient {A} (wired : bool) now (m : A_ A) (r : A) (code : A → Z) s o :
  (m s).2 = (wiz_step now o s).2 →
  obedient wired now false s (code ((if wired then m else sm_ret r) s).1) ((if wired then m else sm_ret r) s).2.
Proof. intros Ho. unfold obedient. destruct wired; split_and!; try done; [right; by exists o|by left]. Qed.

(** The web interface drives the wizard only through its operations: a request without its
    field is refused with 400 and one without a wizard changes nothing; any other changes
    nothing or does exactly one operation of the wizard. *)
Theorem web_wizard_refines (wired : bool) (now : Z) (r : wizard_request) (s : ast) :
  wiz_wf s →
  let c := (serve_wizard wired now r s).1 in
  let s' := (serve_wizard wired now r s).2 in
  (malformed r = true → c = 400 ∧ s' = s) ∧ (wired = false → s' = s) ∧ (s' = s ∨ ∃ op, s' = (wiz_step now op s).2).
Proof.
  intros Hw. change (obedient wired now (malformed r) s (serve_wizard wired now r s).1 (serve_wizard wired now r s).2).
  destruct r as [a u|b q t e|a u|b x u|b a u|b a u| |h|b|b]; cbn [serve_wizard malformed]; rewrite ?then_state, ?then_value.
  - apply (wired_obedient wired now _ None (λ _, 200) s (OpCheck a u)). rewrite then_state. unfold AuthStatus, sm_bind.
    pose proof (check_wf now a u s Hw) as Hc. cbn [wiz_step]. destruct (CheckStatus now a u s) as [[] s1]. cbn in Hc |- *.
    pose proof (accounts_read s1 Hc) as E. destruct (a_db GetAccounts s1) as [l s2]. by cbn in *.
  - apply (wired_obedient wired now _ _ status_code s (OpStartQR (or_else (default "" b) q) t e)). cbn [wiz_step].
    by rewrite then_state, forget_eq.
  - apply (wired_obedient wired now _ _ status_code s (OpPollQR a u)). cbn [wiz_step]. by rewrite then_state, forget_eq.
  - apply needs_obedient. intros v. exists (OpSendCode v (default "" (snd <$> b)) x u). cbn [wiz_step]. by rewrite then_state, forget_eq.
  - apply needs_obedient. intros v. exists (OpVerifyCode a u). cbn [wiz_step]. by rewrite then_state, forget_eq.
  - apply needs_obedient. intros v. exists (OpVerify2FA a u). cbn [wiz_step]. by rewrite then_state, forget_eq.
  - apply (wired_obedient wired now _ _ status_code s OpLogout). by rewrite then_state.
  - unfold handleGetAccounts, obedient. destruct h; [|by split_and!; [| |left]].
    rewrite then_state, accounts_read by done. by split_and!; [| |left].
  - apply needs_obedient. intros v. exists (OpSwitch v). cbn [wiz_step]. by rewrite then_state, forget_eq.
  - apply needs_obedient. intros v. exists (OpRemove v). cbn [wiz_step]. by rewrite then_state, forget_eq.
Qed.
Lemma web_wizard_refines_witness :
  (serve_wizard true 5 (QVerifyCode None Accepted None) (ex_start empty_db)).2 = ex_start empty_db.
Proof.
  destruct (web_wizard_refines true 5 (QVerifyCode None Accepted None) (ex_start empty_db)) as [H _].
  - split; [split; [done|by intros ?]|]. split; [done|]. intros n1 n2 r1 r2 H1. destruct (lookup_empty_Some n1 r1 H1).
  - exact (proj2 (H eq_refl)).
Defined.

(** ** The status panel *)

Lemma files_map_lookup l : ∀ m : gmap string TaskSnapshot,
  NoDup (snap_ID <$> l) → (∀ f, f ∈ l → m !! snap_ID f = None) →
  ∀ id f, foldl (λ m f, <[snap_ID f := f]> m) m l !! id = Some f ↔ m !! id = Some f ∨ f ∈ l ∧ snap_ID f = id.
Proof.
  induction l as [|x l IH]; intros m Hnd Hm id f; cbn [foldl]; [set_solver|].
  rewrite fmap_cons in Hnd. apply NoDup_cons in Hnd as [Hx Hnd]. rewrite IH; [|done|].
  - rewrite elem_of_cons. destruct (decide (snap_ID x = id)) as [<-|Hne].
    + rewrite lookup_insert_eq, Hm by (by left). split; [naive_solver|].
      intros [?|[[->|Hin] Hid]]; [done|by left|]. exfalso. apply Hx. rewrite <- Hid. by apply list_elem_of_fmap_2.
    + rewrite lookup_insert_ne by done. naive_solver.
  - intros y Hy. rewrite lookup_insert_ne; [apply Hm; by right|]. intros E. apply Hx. rewrite E. by apply list_elem_of_fmap_2.
Qed.
Section StatusPanel.
Context {F : Type} (f_of : Z → F) (f_add f_mul f_div : F → F → F) (f_trunc : F → Z) (f_zero : F → bool).
Context (f_04 f_06 : F) (f_seconds : Z → F).
(** The panel shows the files of the status, each under its own identifier, and no other: in
    a registry in order no two of them share a row. *)
Theorem status_panel_complete (mem : memory) (now : Z) (smoothed : F) (r : Registry)
    (running : option bool) (m : option TransferManager) (gate : option (Z * Z)) (a : option SSDAdmission) (space : option (Z * Z)) :
  reg_ok r →
  let st := (Status f_of f_add f_mul f_div f_trunc f_zero f_04 f_06 f_seconds mem now smoothed r).1.1 in
  let files := dst_files (handleGetDownloadStatus st running m gate a space) in
  dom files = list_to_set (active_ids r) ∧ ∀ id f, files !! id = Some f ↔ f ∈ st_ActiveFiles st ∧ snap_ID f = id.
Proof.
  intros Hok st files. pose proof (status_files f_of f_add f_mul f_div f_trunc f_zero f_04 f_06 f_seconds mem now smoothed r) as Hp.
  fold st in Hp.
  assert (∀ id f, files !! id = Some f ↔ f ∈ st_ActiveFiles st ∧ snap_ID f = id) as Hf.
  { intros id f. assert (files = files_map (st_ActiveFiles st)) as ->.
    { unfold files, handleGetDownloadStatus. by destruct (match m with Some _ => _ | None => _ end). }
    unfold files_map. rewrite files_map_lookup; [|rewrite Hp; by apply active_ids_NoDup|by intros; apply lookup_empty].
    rewrite lookup_empty. naive_solver. }
  split; [|done]. apply leibniz_equiv. intros id. rewrite elem_of_dom, elem_of_list_to_set, <- Hp, list_elem_of_fmap. split.
  - intros [f [? <-]%Hf]. by exists f.
  - intros (f & -> & Hin). exists f. by apply Hf.
Qed.
End StatusPanel.

(** The panel asks only the orchestrator whether downloads are paused: a daemon that was
    started paused has only its registry paused, and the panel shows it as running, where the
    event stream and the control route say that it is paused. *)
Theorem status_panel_misses_the_pause (st : StatusSnapshot) (gate disk : option (Z * Z)) (s : sst) :
  st_Paused st = true → o_running (st_daemon s) = true →
  dst_paused (handleGetDownloadStatus st (Some true) (Some (o_transfer (st_daemon s))) gate (Some (o_adm (st_daemon s))) disk) = false ∧
  tm_paused (collectTelemetrySnapshot (Some st) gate disk s).1 = true.
Proof.
  intros Hp Hr. split.
  - unfold handleGetDownloadStatus. by destruct (default (0, 0) gate).
  - unfold collectTelemetrySnapshot, sm_bind, sm_ret. rewrite Hr, Hp. destruct (d_db GetArchiveStats s) as [? s1].
    by destruct (stream_progress s1).
Qed.

(** ** The stream hides what it could not read *)

(** A failed query of the statistics shows as a target with nothing downloaded and a scan that
    is "ok", where /api/target_progress answers with an error. *)
Theorem stream_hides_read_errors :
  (stream_progress (ex_state [false; true; true])).1 = Some [PItem "-1005" "news" true 0 "ok" "" zero_stat] ∧
  status_code (handleTargetProgress (ex_state [false; true; true])).1 = 500.
Proof. vm_compute. done. Qed.
