(* ===== verification/Commands.v ===== *)
(** * The download command, its file server and the operator's commands
      (app/dl/dl.go, app/dl/serve.go, pkg/tmessage/files.go, cmd/conflict.go, cmd/healthcheck.go)

    The loop that downloads many files at once, with its semaphore and its group; the server
    that streams files on request, with its cache; the reader of exported chats; and the two
    commands that talk to a running daemon. Goroutines interleave at their lock operations; a
    download and an answer of Telegram are arguments. The theorems: never more downloads than
    the limit, each file reported once, an error ends the loop and is its result; the commands
    reach the routes the daemon serves. Two theorems show faults: the cache confuses
    files, and the conflict command looks for the daemon at another port. *)
From S2P Require Import Prelude Planner Media Peers Fetch Telegram Iter Web ClientPool Startup.

(** ** The download loop *)

Section Loop.
Context {E X : Type}.
(** A goroutine holds a slot from before its start until it has reported; [reports] are the
    calls of [OnDone], oldest first, [added] those of [OnAdd]. [todo] are the
    elements the iterator will yield, [waiting] is the one the loop holds while it waits for a
    slot. *)
Record dl_state := Dl {
  todo : list E; waiting : option E; running : list E; added : list E; reports : list (E * option X);
  looping : bool; group_err : option X }.
Definition dl_start (l : list E) : dl_state := Dl l None [] [] [] true None.
(** [gctx.Done()]: the first error ended the context of the group, or the caller's ended. *)
Definition cancelled (outer : bool) (s : dl_state) : bool := outer || bool_decide (is_Some (group_err s)).

(** The steps of [runDownloadLoop] with [limit] slots; [outer] says that the caller's context
    has ended. *)
Inductive loop_step (limit : nat) (outer : bool) : dl_state → dl_state → Prop :=
| dl_next x l r a rp g :
    cancelled outer (Dl (x :: l) None r a rp true g) = false →
    loop_step limit outer (Dl (x :: l) None r a rp true g) (Dl l (Some x) r (a ++ [x]) rp true g) (* it.Next, OnAdd *)
| dl_end l r a rp g :
    l = [] ∨ cancelled outer (Dl l None r a rp true g) = true →
    loop_step limit outer (Dl l None r a rp true g) (Dl l None r a rp false g)                    (* it.Next is false *)
| dl_slot x l r a rp g :
    (length r < limit)%nat →
    loop_step limit outer (Dl l (Some x) r a rp true g) (Dl l None (r ++ [x]) a rp true g)         (* sem <-, g.Go *)
| dl_break x l r a rp g :
    cancelled outer (Dl l (Some x) r a rp true g) = true →
    loop_step limit outer (Dl l (Some x) r a rp true g) (Dl l (Some x) r a rp false g)             (* break downloadLoop *)
| dl_finish r1 x r2 e l w a rp b g :
    loop_step limit outer (Dl l w (r1 ++ x :: r2) a rp b g)
      (Dl l w (r1 ++ r2) a (rp ++ [(x, e)]) b (match g with Some _ => g | None => e end)).       (* OnDone, <-sem *)
(** [g.Wait] and the result of the loop; [it_err] is the iterator's error. *)
Definition dl_over (s : dl_state) : Prop := looping s = false ∧ running s = [].
Definition dl_result (it_err : option X) (s : dl_state) : option X :=
  match group_err s with Some e => Some e | None => it_err end.

Record dl_inv (all : list E) (limit : nat) (outer : bool) (s : dl_state) : Prop := {
  dl_bound : (length (running s) <= limit)%nat;
  dl_seen : added s ++ todo s = all;
  dl_where : added s ≡ₚ option_list (waiting s) ++ running s ++ (reports s).*1;
  dl_first : group_err s = head (omap snd (reports s));
  dl_ended : looping s = false → cancelled outer s = true ∨ (todo s = [] ∧ waiting s = None) }.
Lemma loop_step_inv all limit outer s s' : loop_step limit outer s s' → dl_inv all limit outer s → dl_inv all limit outer s'.
Proof.
  intros St [B S W F D]. destruct St; cbn in *; constructor; cbn; try done.
  - by rewrite <- app_assoc.
  - rewrite W. solve_Permutation.
  - intros _. naive_solver.
  - rewrite length_app. cbn. lia.
  - rewrite W. solve_Permutation.
  - by left.
  - rewrite length_app in *. cbn in B. lia.
  - rewrite W, fmap_app. cbn. solve_Permutation.
  - rewrite omap_app, head_app, <- F. cbn. by destruct g, e.
  - intros Hb. destruct (D Hb) as [Hc|?]; [left|by right]. unfold cancelled in *. cbn in *.
    destruct outer; [done|]. cbn in *. by destruct g.
Qed.
Lemma dl_reach_inv l limit outer s : rtc (loop_step limit outer) (dl_start l) s → dl_inv l limit outer s.
Proof.
  intros R. assert (dl_inv l limit outer (dl_start l)) as I by (constructor; cbn; try done; lia).
  revert I. induction R as [|? ? ? St _ IH]; intros I; [done|]. apply IH. by eapply loop_step_inv.
Qed.

(** Steps that are left: none for ever. *)
Definition dl_measure (s : dl_state) : nat :=
  (4 * length (todo s) + 3 * length (option_list (waiting s)) + 2 * length (running s) + (if looping s then 1 else 0))%nat.
Lemma dl_step_measure limit outer s s' : loop_step limit outer s s' → (dl_measure s' < dl_measure s)%nat.
Proof. intros []; unfold dl_measure; cbn; rewrite ?length_app; cbn; lia. Qed.
Lemma dl_progress limit outer s : (1 <= limit)%nat → dl_over s ∨ ∃ s', loop_step limit outer s s'.
Proof.
  intros Hl. destruct s as [l w r a rp b g]. destruct b.
  - right. destruct w as [x|].
    + destruct (decide (length r < limit)%nat) as [H|H]; [eexists; by apply dl_slot|].
      destruct r as [|y r]; cbn in H; [lia|]. eexists. apply (dl_finish limit outer [] y r None).
    + destruct (cancelled outer (Dl l None r a rp true g)) eqn:Hc; [eexists; apply dl_end; by right|].
      destruct l as [|x l]; [eexists; apply dl_end; by left|]. eexists. by apply dl_next.
  - destruct r as [|y r]; [by left|]. right. eexists. apply (dl_finish limit outer [] y r None).
Qed.


(** The loop ends: a run has at most [4 * n + 1] steps, and one that cannot go on is over. *)
Theorem download_loop_ends (limit : nat) (outer : bool) (l : list E) (n : nat) (s : dl_state) :
  (1 <= limit)%nat → nsteps (loop_step limit outer) n (dl_start l) s →
  (n <= 4 * length l + 1)%nat ∧ ((∀ s', ¬ loop_step limit outer s s') → dl_over s).
Proof.
  intros Hl R. split.
  - assert (dl_measure s + n <= dl_measure (dl_start l))%nat as H.
    { clear Hl. induction R as [|n x y z St _ IH]; [lia|]. apply dl_step_measure in St. lia. }
    unfold dl_measure in H at 2. cbn in H. lia.
  - intros Hn. destruct (dl_progress limit outer s Hl) as [?|[s' St]]; [done|]. by destruct (Hn s').
Qed.
End Loop.

(** Two downloads through one slot, the first of which fails. *)
Definition demo_end : dl_state := Dl [] (Some 2) [] [1; 2] [(1, Some "gone")] false (Some "gone").
Lemma demo_loop : nsteps (loop_step (E := Z) (X := string) 1 false) 5 (dl_start [1; 2]) demo_end.
Proof.
  eapply nsteps_l; [by apply dl_next|]. eapply nsteps_l; [apply dl_slot; cbn; lia|]. eapply nsteps_l; [by apply dl_next|].
  eapply nsteps_l; [apply (dl_finish 1 false [] 1 [] (Some "gone"))|]. eapply nsteps_l; [by apply dl_break|]. constructor.
Qed.
Lemma download_loop_ends_witness : (5 <= 9)%nat ∧ ((∀ s', ¬ loop_step 1 false demo_end s') → dl_over demo_end).
Proof. apply (download_loop_ends 1 false [1; 2] 5 demo_end); [lia|exact demo_loop]. Defined.

(** ** The file server *)

Record item := Item { it_media : Media.Media; it_MIME : string }.
Definition convItem (mime_ext : string → option string) (m : Message) : res string item :=
  match GetMedia mime_ext m with
  | None => Err "message is not a media"
  | Some md =>
      match msg_Media m with
      | Some (MessageMediaDocument None) => Err "document is empty"
      | Some (MessageMediaDocument (Some d)) => Ok (Item md (MimeType d))
      | Some (MessageMediaPhoto _) => Ok (Item md "image/jpeg")
      | _ => Ok (Item md "")
      end
  end.

Section Serve.
Context {S P : Type} (mime_ext : string → option string).
Context (get_peer : string → SM S (res string P)) (get_message : P → Z → SM S (res string Message)).
Record serve_st := ServeSt { cache : gmap string item; sv_net : S }.
(** What the handler of [/{peer}/{message}] streams, or the text of its 400. The key of the
    cache is the peer followed by the message. *)
Definition serve_item (peer messageStr : string) (s : serve_st) : res string item * serve_st :=
  match cache s !! (peer +:+ messageStr) with
  | Some x => (Ok x, s)
  | None =>
      match ParseInt messageStr with
      | None => (Err "invalid message id", s)
      | Some message =>
          match get_peer peer (sv_net s) with
          | (Err e, n) => (Err ("resolve peer: " +:+ e), ServeSt (cache s) n)
          | (Ok p, n) =>
              match get_message p message n with
              | (Err e, n) => (Err ("resolve message: " +:+ e), ServeSt (cache s) n)
              | (Ok m, n) =>
                  match convItem mime_ext m with
                  | Err e => (Err ("convItem: " +:+ e), ServeSt (cache s) n)
                  | Ok x => (Ok x, ServeSt (<[peer +:+ messageStr := x]> (cache s)) n)
                  end
              end
          end
      end
  end.
(** The links of the front page. *)
Definition serve_links (dialogs : list (list Dialog)) : list string :=
  concat ((λ d, (λ m, itoa (GetInputPeerID (Iter.Peer d)) +:+ "/" +:+ itoa m) <$> Messages d) <$> concat dialogs).

(** Once a file was served, a request whose peer and message spell the same text is answered
    with that file, and Telegram is not asked: [/1/23] gives the file of [/12/3]. *)
Theorem serve_confuses_files (p1 m1 p2 m2 : string) (s s1 : serve_st) (x : item) :
  p1 +:+ m1 = p2 +:+ m2 → serve_item p1 m1 s = (Ok x, s1) → serve_item p2 m2 s1 = (Ok x, s1).
Proof.
  intros E. unfold serve_item. rewrite <- E. destruct (cache s !! (p1 +:+ m1)) as [y|] eqn:Ec.
  { intros [= <- <-]. by rewrite Ec. }
  destruct (ParseInt m1) as [m|]; [|done]. destruct (get_peer p1 (sv_net s)) as [[p|e] n]; [|done].
  destruct (get_message p m n) as [[msg|e] n']; [|done]. destruct (convItem mime_ext msg) as [y|e]; [|done].
  intros [= <- <-]. cbn. by rewrite lookup_insert_eq.
Qed.
End Serve.

(** ** The download command *)

Section DlRun.
Context (sha256Hex : string → string).
(** What the flags say, the sources parsed, the user's answer, what serving and the loop give
    (the error, and the iterator with what is finished by then), and closing the pool. *)
Record dl_flags := DlFlags { fl_Serve : bool; fl_Restart : bool; fl_Continue : bool }.
Inductive dl_err := DParse (e : string) | DServe (e : string) | DIter | DResume | DLoop (e : string) | DSave | DClear | DClose (e : string).
Definition default_limit (v d : Z) : Z := if decide (v <= 0) then d else v.
(** The deferred end of a run that reached the loop. *)
Definition end_of_run (rerr : option string) (i : iter) : SM kvst (list dl_err) :=
  match rerr with
  | Some e => do! r := saveProgress sha256Hex i in done! (DLoop e :: match r with Ok _ => [] | Err _ => [DSave] end)
  | None =>
      do! r := kv_op (λ m, (tt, delete (resume_key sha256Hex (dialogs i)) m)) in
      done! match r with Ok _ => [] | Err _ => [DClear] end
  end.
(** The progress of an earlier run, unless the flag says to start anew. *)
Definition take_up (f : dl_flags) (answer : option bool) (i : iter) : ST kvst unit iter :=
  if fl_Restart f then return! i else resume sha256Hex (negb (fl_Continue f)) answer i.
Definition run_iter (f : dl_flags) (answer : option bool) (loop : iter → option string * iter) (i : iter) : SM kvst (list dl_err) :=
  do! r := take_up f answer i in
  match r with
  | Err _ => done! [DResume]
  | Ok i => let (rerr, i) := loop i in end_of_run rerr i
  end.
Definition dl_Run (f : dl_flags) (o : Options) (parsed : res string (list (list Dialog))) (served : option string)
    (answer : option bool) (loop : iter → option string * iter) (closed : option string) : SM kvst (list dl_err) :=
  do! errs := match parsed with
              | Err e => done! [DParse e]
              | Ok ds =>
                  if fl_Serve f then done! (match served with Some e => [DServe e] | None => [] end)
                  else match newIter o ds with
                       | None => done! [DIter]
                       | Some i => run_iter f answer loop i
                       end
              end in
  done! (errs ++ match closed with Some e => [DClose e] | None => [] end).

Lemma kv_op_other {A} (f : gmap string (gset Z) → A * gmap string (gset Z)) k s :
  (∀ m, (f m).2 !! k = m !! k) → kv (kv_op f s).2 !! k = kv s !! k.
Proof. intros Hf. unfold kv_op. destruct (hd false _); [done|]. specialize (Hf (kv s)). by destruct (f (kv s)). Qed.
Lemma resume_other ask answer i k s : k ≠ resume_key sha256Hex (dialogs i) → kv (resume sha256Hex ask answer i s).2 !! k = kv s !! k.
Proof.
  intros Hk. unfold resume, st_bind, st_ret, st_err.
  pose proof (kv_op_other (λ m, (m !! resume_key sha256Hex (dialogs i), m)) k s (λ m, eq_refl)) as H1.
  destruct (kv_op _ s) as [[[fin|]|] s1]; cbn in H1 |- *; [|done|done]. case_decide; [done|].
  destruct (if ask then answer else Some true) as [[]|]; [done| |done].
  pose proof (kv_op_other (λ m : gmap string (gset Z), (tt, delete (resume_key sha256Hex (dialogs i)) m)) k s1) as H2.
  rewrite <- H1, <- H2 by (intros m; cbn; by rewrite lookup_delete_ne). by destruct (kv_op _ s1) as [[] s2].
Qed.
Lemma resume_dialogs ask answer i s i' s' : resume sha256Hex ask answer i s = (Ok i', s') → dialogs i' = dialogs i.
Proof.
  unfold resume, st_bind, st_ret, st_err. destruct (kv_op _ s) as [[[fin|]|] s1]; [|by intros [= <- _]|done].
  case_decide; [by intros [= <- _]|]. destruct (if ask then answer else Some true) as [[]|]; [by intros [= <- _]| |done].
  destruct (kv_op _ s1) as [[] s2]; [by intros [= <- _]|done].
Qed.

(** A run of the command, whatever accesses to the store fail: it touches no progress but its
    own; an error of the loop is among its errors; and a run without errors leaves no progress
    behind, so that the next one starts anew. *)
Theorem dl_run_outcome (f : dl_flags) (o : Options) (ds : list (list Dialog)) (i : iter) (served : option string)
    (answer : option bool) (loop : iter → option string * iter) (closed : option string) (s : kvst) :
  newIter o ds = Some i → fl_Serve f = false → (∀ x, dialogs (loop x).2 = dialogs x) →
  let key := resume_key sha256Hex (dialogs i) in
  let '(errs, s') := dl_Run f o (Ok ds) served answer loop closed s in
  (∀ k, k ≠ key → kv s' !! k = kv s !! k) ∧ (errs = [] → kv s' !! key = None) ∧
  (errs = [] → ∃ x, dialogs x = dialogs i ∧ (loop x).1 = None).
Proof.
  intros Hi Hserve Hloop key. unfold dl_Run, sm_bind, sm_ret. rewrite Hserve, Hi. unfold run_iter, sm_bind, sm_ret.
  assert (∃ r s1, take_up f answer i s = (r, s1) ∧
    (∀ k, k ≠ key → kv s1 !! k = kv s !! k) ∧ ∀ x, r = Ok x → dialogs x = dialogs i) as (r & s1 & -> & Hk & Hd).
  { unfold take_up. destruct (fl_Restart f); [exists (Ok i), s; split_and!; [done|done|by intros x [= <-]]|].
    destruct (resume _ _ _ i s) as [r s1] eqn:Er. exists r, s1. split_and!; [done| |].
    - intros k Hne. pose proof (resume_other (negb (fl_Continue f)) answer i k s Hne) as H. by rewrite Er in H.
    - intros x ->. by eapply resume_dialogs. }
  destruct r as [x|u]; [|by cbn]. specialize (Hd x eq_refl). specialize (Hloop x).
  destruct (loop x) as [rerr y] eqn:El. cbn in Hloop. unfold end_of_run, saveProgress, sm_bind, sm_ret, kv_op.
  rewrite Hloop, Hd. fold key. destruct rerr as [e|].
  - destruct (hd false (kvfaults s1)); cbn; split_and!; try done. intros k Hne. rewrite lookup_insert_ne by done. by apply Hk.
  - destruct (hd false (kvfaults s1)); cbn; split_and!; try done.
    + intros k Hne. rewrite lookup_delete_ne by done. by apply Hk.
    + intros _. by rewrite lookup_delete_eq.
    + intros _. exists x. by rewrite El.
Qed.
(** An interrupted run is continued: the next run of the same request, told to continue,
    hands its loop the positions that were finished when the first one failed. *)
Theorem interrupted_run_continues (o : Options) (ds : list (list Dialog)) (i i1 : iter) (e : string)
    (loop1 loop2 : iter → option string * iter) (answer : option bool) (store : gmap string (gset Z)) :
  newIter o ds = Some i → loop1 i = (Some e, i1) → dialogs i1 = dialogs i → Iter.finished i1 ≠ ∅ →
  let s1 := (dl_Run (DlFlags false true false) o (Ok ds) None answer loop1 None (Kv store [])).2 in
  dl_Run (DlFlags false false true) o (Ok ds) None answer loop2 None s1 =
  (let (rerr, y) := loop2 (set_finished (Iter.finished i1) i) in
   do! errs := end_of_run rerr y in done! (errs ++ [])) s1.
Proof.
  intros Hi Hl Hd Hf s1.
  assert (s1 = Kv (<[resume_key sha256Hex (dialogs i) := Iter.finished i1]> store) []) as ->.
  { unfold s1, dl_Run, run_iter, take_up, end_of_run, saveProgress, kv_op, sm_bind, sm_ret, st_ret. cbn. rewrite Hi, Hl. cbn. by rewrite Hd. }
  unfold dl_Run, run_iter, take_up, resume, st_bind, kv_op, st_ret, sm_bind, sm_ret. cbn. rewrite Hi. cbn.
  rewrite lookup_insert_eq, decide_False by done. by destruct (loop2 _) as [rerr y].
Qed.
End DlRun.

(** ** Exported chats *)

(** An entry of the list of messages: not an object, one that cannot be decoded, or a message. *)
Record fMessage := FMessage { fm_ID : Z; fm_Type : string; fm_File : string; fm_Photo : string }.
Inductive export_entry := NotObject | Undecodable | Entry (m : fMessage).
Definition wanted (onlyMedia : bool) (m : fMessage) : bool :=
  negb ((fm_ID m <? 0) || negb (bool_decide (fm_Type m = "message"))) &&
  negb (bool_decide (fm_File m = "") && bool_decide (fm_Photo m = "") && onlyMedia).
(** [collect]; [stop] says for each entry whether the context has ended by then. *)
Fixpoint collect_export (onlyMedia : bool) (l : list (bool * export_entry)) (acc : list Z) : res string (list Z) :=
  match l with
  | [] => Ok acc
  | (true, _) :: _ => Err "context"
  | (false, NotObject) :: l => collect_export onlyMedia l acc
  | (false, Undecodable) :: _ => Err "decode"
  | (false, Entry m) :: l => collect_export onlyMedia l (if wanted onlyMedia m then acc ++ [fm_ID m] else acc)
  end.
(** [getChatInfo]: the values of the keys of the top object in turn, [None] for one that is not
    a number. The outer [None] is the panic of the type assertion. *)
Fixpoint export_chat (l : list (string * option Z)) : option (option Z) :=
  match l with
  | [] => Some None
  | (k, v) :: l =>
      if decide (k = "id") then
        match v with
        | None => None
        | Some id => if decide (id = 0) then export_chat l else Some (Some id)
        end
      else export_chat l
  end.
Lemma collect_export_spec onlyMedia l acc ids : collect_export onlyMedia l acc = Ok ids →
  ids = acc ++ omap (λ e : bool * export_entry, match e.2 with Entry m => if wanted onlyMedia m then Some (fm_ID m) else None | _ => None end) l.
Proof.
  revert acc. induction l as [|[[] e] l IH]; intros acc; [by intros [= <-]; rewrite app_nil_r|done|].
  destruct e as [| |m]; cbn; [apply IH|done|]. intros ->%IH. by destruct (wanted onlyMedia m); [rewrite <- app_assoc|].
Qed.

(** ** The operator's commands *)

Definition conflict_url : string := "127.0.0.1:8080".
Definition healthcheck_url : string := "127.0.0.1:18080".
Definition bearer_of (token : string) : string := if decide (token = "") then "" else "Bearer " +:+ token.
Definition conflict_list (token : string) : http_request := HttpReq "GET" "/api/conflicts" (bearer_of token) None.
(** The chat and the message of [conflict resolve]: the flags first, then the arguments. *)
Definition conflict_ids (chatFlag : string) (msgFlag : Z) (args : list string) : res string (string * Z) :=
  let chatID := if decide (chatFlag = "") then hd "" args else chatFlag in
  let msg := if decide (msgFlag = 0) then match args with _ :: a :: _ => ParseInt a | _ => Some 0 end else Some msgFlag in
  match msg with
  | None => Err "invalid message_id"
  | Some m => if decide (chatID = "" ∨ m = 0) then Err "chat_id and message_id are required" else Ok (chatID, m)
  end.
Definition conflict_resolve (token chatFlag : string) (msgFlag : Z) (args : list string) : res string (http_request * (string * Z)) :=
  match conflict_ids chatFlag msgFlag args with
  | Err e => Err e
  | Ok ids => Ok (HttpReq "POST" "/api/conflicts/resolve" (bearer_of token) None, ids)
  end.
(** [false] ends the process with status 1. *)
Definition healthcheck (answer : option Z) : bool := match answer with Some 200 => true | _ => false end.
Definition healthz : http_request := HttpReq "GET" "/healthz" "" None.

Lemma bearer_admitted now srv method path :
  TrimSpace (password srv) = password srv → requireAuth now srv (HttpReq method path (bearer_of (password srv)) None) = Admit.
Proof.
  intros Ht. unfold requireAuth. case_decide as Hp; [done|]. unfold bearer, bearer_of. cbn [q_Authorization].
  rewrite decide_False by done. change (HasPrefix ("Bearer " +:+ password srv) "Bearer ") with (HasPrefix (password srv) "").
  change (TrimPrefix ("Bearer " +:+ password srv) "Bearer ") with (if HasPrefix (password srv) "" then password srv else "Bearer " +:+ password srv).
  assert (HasPrefix (password srv) "" = true) as -> by (by destruct (password srv)).
  rewrite Ht, !bool_decide_false, bool_decide_true by done. done.
Qed.
Lemma served_when_admitted now srv r x :
  find (route_matches r) Handler = Some x → (rt_guarded x = true → requireAuth now srv r = Admit) → serve now srv r = Some x.
Proof.
  intros Hf Ha. unfold serve. rewrite Hf. destruct (rt_guarded x); [|done]. by rewrite bool_decide_true by auto.
Qed.

(** The commands reach the daemon's routes: with the daemon's password as the token both
    requests of [conflict] are admitted and find the handlers they are meant for, and the
    request of [healthcheck] is served without any password. *)
Theorem commands_reach_the_daemon (now : Z) (srv : WebServer) (chatFlag : string) (msgFlag : Z) (args : list string)
    (req : http_request) (ids : string * Z) :
  TrimSpace (password srv) = password srv →
  conflict_resolve (password srv) chatFlag msgFlag args = Ok (req, ids) →
  serve now srv (conflict_list (password srv)) = Some (guarded "/api/conflicts" ["GET"]) ∧
  serve now srv req = Some (guarded "/api/conflicts/resolve" ["POST"]) ∧
  serve now srv healthz = Some (open "/healthz" ["GET"; "HEAD"]) ∧ ids.1 ≠ "" ∧ ids.2 ≠ 0.
Proof.
  intros Ht Hr. unfold conflict_resolve, conflict_ids in Hr.
  destruct (if decide (msgFlag = 0) then _ else _) as [m|]; [|done]. case_decide as Hc; [done|]. injection Hr as <- <-.
  split_and!; [..|cbn; tauto|cbn; tauto].
  - apply served_when_admitted; [reflexivity|]. intros _. by apply bearer_admitted.
  - apply served_when_admitted; [reflexivity|]. intros _. by apply bearer_admitted.
  - by apply served_when_admitted.
Qed.
Lemma commands_reach_the_daemon_witness :
  serve 5 (Server "secret" ∅) (conflict_list "secret") = Some (guarded "/api/conflicts" ["GET"]).
Proof.
  apply (commands_reach_the_daemon 5 (Server "secret" ∅) "-1001" 7 []
    (HttpReq "POST" "/api/conflicts/resolve" (bearer_of "secret") None) ("-1001", 7)); vm_compute; reflexivity.
Defined.

(** A daemon started with the default options does not listen where [conflict] looks for it by
    default; [healthcheck] looks at the right place. *)
Theorem conflict_default_misses_the_daemon :
  let port a := match SplitHostPort a with Ok (_, p) => p | Err _ => "" end in
  port (Listen DefaultOptions) = "18080" ∧ port healthcheck_url = "18080" ∧ port conflict_url = "8080".
Proof. vm_compute. done. Qed.
