(* ===== verification/ArchiveLoop.v ===== *)
(** * The loop of the archive worker (app/daemon/archive.go)

    [Wake] and [runLoop]: a channel of one slot, a ticker, and a pass that claims and runs one
    due job after the other. A pass is given its rounds (what the context, the clock and the
    streams do in each). The theorems: a pass of less than the shortest back-off ends, after
    at most one round for each job that is due; no pass loses a file, whatever fails; and a
    wake-up is never lost between the producers and the worker. *)
From S2P Require Import Prelude Paths Fscommit Sql ArchiveJobs Downloads Registry World Archive.

(** ** A pass *)

(** [ctx.Err() != nil], the claim built from clock and process, the streams, the clock. *)
Record round := Round { rd_done : bool; rd_claim : string; rd_io : stream_faults; rd_now : Z }.
(** Why a pass ends; [PMore] when the rounds given are used up. *)
Inductive pass_end := PCancelled | PIdle | PRefused | PMore.

Section Loop.
Context (sha256Hex : string → string).

Definition with_claim (c : string) (j : ArchiveJob) : ArchiveJob :=
  Job (j_ChatID j) (j_MessageID j) (j_RelativePath j) (j_ExpectedSize j) (j_SHA256 j) (j_State j) (j_Attempts j)
    (j_NextRetryAt j) c (j_LastError j) (j_CreatedAt j) (j_UpdatedAt j).
Fixpoint archive_pass (wk : ArchiveWorker) (l : list round) : W pass_end :=
  match l with
  | [] => done! PMore
  | r :: l =>
      if rd_done r then done! PCancelled
      else
        do! js := on_db (GetDueArchiveJobs (rd_now r) 1) in
        match js with
        | Ok (j :: _) =>
            do! c := on_db (ClaimArchiveJob (job_key j) (rd_claim r) (rd_now r)) in
            match c with
            | Ok true =>
                do! _ := processJob sha256Hex wk (with_claim (rd_claim r) j) (rd_io r) (rd_now r) in
                archive_pass wk l
            | _ => done! PRefused
            end
        | _ => done! PIdle
        end
  end.

(** ** Producers and the worker *)

(** [Wake]: a full channel stays full; nothing for a worker that is off. *)
Definition Wake (w : option ArchiveWorker) (ch : bool) : bool := if IsEnabled w then true else ch.
(** Where the worker is: in the [select], before the query of a round, behind it, or ended. *)
Inductive loop_pc := LWait | LQuery | LWork | LEnd.
Record loop_st := LSt { wakeCh : bool; l_pc : loop_pc; unseen : bool }.
(** [unseen]: the last [Wake] came after the last query. The moves of the producers, the
    ticker and the worker; a move that is not possible gives [None]. *)
Inductive loop_move := MWake | MTick | MTake | MQuery (found : bool) | MNext | MRefused | MDone.
Definition loop_exec (w : option ArchiveWorker) (m : loop_move) (s : loop_st) : option loop_st :=
  match m, l_pc s with
  | MWake, p => Some (LSt (Wake w (wakeCh s)) p true)
  | MTick, LWait => Some (LSt (wakeCh s) LQuery (unseen s))
  | MTake, LWait => if wakeCh s then Some (LSt false LQuery (unseen s)) else None
  | MQuery found, LQuery => Some (LSt (wakeCh s) (if found then LWork else LWait) false)
  | MNext, LWork => Some (LSt (wakeCh s) LQuery (unseen s))
  | MRefused, LWork => Some (LSt (wakeCh s) LWait (unseen s))
  | MDone, LWait | MDone, LQuery => Some (LSt (wakeCh s) LEnd (unseen s))
  | _, _ => None
  end.
Fixpoint loop_run (w : option ArchiveWorker) (ms : list loop_move) (s : loop_st) : option loop_st :=
  match ms with [] => Some s | m :: ms => s' ← loop_exec w m s; loop_run w ms s' end.
(** [Start]: nothing for a worker that is off. *)
Definition Start (w : option ArchiveWorker) : option loop_st := if IsEnabled w then Some (LSt false LWait false) else None.
End Loop.

(** ** What a job does to the queue *)

Definition weffect {A} (R : db → db → Prop) (m : W A) : Prop := ∀ w, R (w_tabs w) (w_tabs (m w).2).
Section WEffect.
Context (R : db → db → Prop) (Rrefl : ∀ d, R d d).
Lemma weffect_ret {A} (a : A) : weffect R (sm_ret a).
Proof. intros w. apply Rrefl. Qed.
Lemma weffect_fs {A B} (m : FS A) (k : A → W B) : (∀ a, weffect R (k a)) → weffect R (sm_bind (on_fs m) k).
Proof.
  intros Hk w. unfold sm_bind, on_fs. destruct (m (w_fs w)) as [a f]. specialize (Hk a (World f (w_sql w) (w_reg w))). exact Hk.
Qed.
Lemma weffect_db {A B} (m : DB A) (k : res dberr A → W B) :
  effect R m → (∀ a w, w_tabs (k a w).2 = w_tabs w) → weffect R (sm_bind (on_db m) k).
Proof.
  intros Hm Hk w. unfold sm_bind, on_db. specialize (Hm (w_sql w)). destruct (m (w_sql w)) as [a s]. rewrite Hk. exact Hm.
Qed.
End WEffect.

Section Queue.
Context (sha256Hex : string → string).
Lemma fs_after_db {A B} (m : FS A) (k : A → W B) w : (∀ a w, w_tabs (k a w).2 = w_tabs w) → w_tabs (sm_bind (on_fs m) k w).2 = w_tabs w.
Proof. intros Hk. unfold sm_bind, on_fs. destruct (m (w_fs w)) as [a f]. by rewrite Hk. Qed.
(** A job changes the queue only by failing, marking or completing itself. *)
Lemma processJob_queue (R : db → db → Prop) wk j io now :
  (∀ d, R d d) → (∀ e, effect R (FailArchiveJob (job_key j) (j_ClaimID j) e now)) →
  (∀ e, effect R (SetArchiveJobConflict (job_key j) (j_ClaimID j) e now)) →
  effect R (CompleteArchiveJob (job_key j) (j_ClaimID j) (j_SHA256 j) now) →
  weffect R (processJob sha256Hex wk j io now).
Proof.
  intros Hr Hf Hc Hd.
  assert (∀ e, weffect R (fail_job j e now)) as Hfail by (intros e; apply weffect_db; [apply Hf|done]).
  assert (∀ e, weffect R (conflict_job j e now)) as Hconf by (intros e; apply weffect_db; [apply Hc|done]).
  assert (∀ ok src, weffect R (complete_and_remove ok j src now)) as Hcomp.
  { intros ok src. apply weffect_db; [apply Hd|]. intros [] w; [|done]. apply fs_after_db. intros r w'.
    destruct (_ || _)%bool; [by apply fs_after_db|done]. }
  unfold processJob. repeat (case_match; [by apply Hfail|]). apply weffect_fs. intros [n|e].
  - unfold existing_target. destruct (_ =? _); [|done]. apply weffect_fs. intros [h|]; [|done]. by case_decide.
  - unfold check_source. apply weffect_fs. intros [n|x]; [|by destruct x].
    destruct (negb (node_size n =? _)); [done|]. apply weffect_fs. intros [u|x]; [|done].
    unfold copy_and_commit. apply weffect_fs. intros [data|x]; [|done]. apply weffect_fs. intros [u2|x]; [|done].
    destruct (CopyStreamSequential sha256Hex data io) as [[out written] r]. apply weffect_fs. intros _.
    destruct r as [sha|[op x]]; [|by apply weffect_fs]. case_decide; [by apply weffect_fs|].
    apply weffect_fs. intros [u4|x]; [done|]. by destruct (is_exist x).
Qed.
End Queue.

(** ** A pass ends *)

(** Jobs count their attempts from zero. *)
Definition counted (o : option archive_row) : Prop := ∀ r, o = Some r → 0 <= a_attempts r.
(** Nothing becomes due by the given time that was not, and attempts stay counted. *)
Definition calms (hi : Z) (o o' : option archive_row) : Prop :=
  counted o → counted o' ∧ ∀ r', o' = Some r' → due hi r' = true → ∃ r, o = Some r ∧ due hi r = true.
Lemma calms_refl hi o : calms hi o o.
Proof. intros Hc. split; [done|eauto]. Qed.
Lemma calms_trans hi o1 o2 o3 : calms hi o1 o2 → calms hi o2 o3 → calms hi o1 o3.
Proof. intros H1 H2 Hc. destruct (H1 Hc) as [Hc2 D1]. destruct (H2 Hc2) as [Hc3 D2]. split; [done|]. intros r Hr Hd. destruct (D2 _ Hr Hd) as (? & ? & ?). eauto. Qed.
Lemma calms_state hi r r' : a_attempts r' = a_attempts r → state r' ≠ "pending" → calms hi (Some r) (Some r').
Proof.
  intros Ea Hs Hc. split.
  - intros x [= <-]. rewrite Ea. by apply Hc.
  - intros x [= <-] Hd. unfold due in Hd. go_bool. by destruct Hd.
Qed.
Lemma claim_calms hi k c now : effect (on_jobs (calms hi)) (ClaimArchiveJob k c now).
Proof.
  apply effect_bind_r; [|intros ?; quiet]. apply effect_update_job; [apply calms_refl|]. intros r _. by apply calms_state.
Qed.
Lemma complete_calms hi k c sha now : effect (on_jobs (calms hi)) (CompleteArchiveJob k c sha now).
Proof.
  apply effect_bind_r; [|].
  - apply effect_update_job; [apply calms_refl|]. intros r _. by apply calms_state.
  - intros n. destruct (n =? 0); quiet.
Qed.
Lemma conflict_calms hi k c e now : effect (on_jobs (calms hi)) (SetArchiveJobConflict k c e now).
Proof.
  apply effect_bind_l; [by intros d k'; apply calms_refl|quiet|]. intros [r|]; [|apply effect_quiet; [by intros d k'; apply calms_refl|quiet]].
  repeat (case_decide; [apply effect_quiet; [by intros d k'; apply calms_refl|quiet]|]).
  apply effect_bind_r; [|intros ?; quiet]. apply effect_update_job; [apply calms_refl|]. intros r' _. by apply calms_state.
Qed.
(** A failed job comes back after the back-off, which is at least five seconds. *)
Lemma fail_calms hi k c e now : hi < now + 5 → effect (on_jobs (calms hi)) (FailArchiveJob k c e now).
Proof.
  intros Hhi. apply effect_read; [by intros d k'; apply calms_refl|]. intros s.
  destruct (jobs (tabs s) !! k) as [r|] eqn:Hk; [|by intros k'; apply calms_refl].
  repeat (case_decide; [by intros k'; apply calms_refl|]).
  enough (on_jobs (calms hi) (tabs s) (tabs (update_job k (λ r0, bool_decide (state r0 = "copying") && claim_ok c r0)
    (λ r0, set_a_updated_at now (set_claim "" (set_last_error e (set_retry (a_attempts r + 1) (now + archive_backoff (a_attempts r + 1)) (set_state "pending" r0))))) s).2)) as Hup.
  { unfold st_bind. destruct (update_job _ _ _ s) as [[n|] s'] eqn:Hu; [|exact Hup]. cbn in Hup |- *. by destruct (n =? 0). }
  intros k'. unfold update_job, stmt. destruct (hd false (faults s)); [apply calms_refl|]. cbn. rewrite Hk.
  destruct (_ && _)%bool; [|apply calms_refl]. cbn. destruct (decide (k = k')) as [<-|Hne]; [|rewrite lookup_insert_ne by done; apply calms_refl].
  rewrite lookup_insert_eq, Hk. intros Hc. specialize (Hc r eq_refl). split.
  - intros x [= <-]. cbn. lia.
  - intros x [= <-] Hd. unfold due in Hd. go_bool. destruct Hd as [_ Hd]. cbn in Hd.
    pose proof (archive_backoff_bounded (a_attempts r + 1) ltac:(lia)). lia.
Qed.

Definition all_counted (d : db) : Prop := ∀ k, counted (jobs d !! k).
Definition due_keys (hi : Z) (d : db) : gset key := dom (filter (λ kr : key * archive_row, due hi kr.2 = true) (jobs d)).
Lemma elem_due_keys hi d k : k ∈ due_keys hi d ↔ ∃ r, jobs d !! k = Some r ∧ due hi r = true.
Proof. unfold due_keys. rewrite elem_of_dom. unfold is_Some. setoid_rewrite map_lookup_filter_Some. done. Qed.
Lemma calms_keys hi d d' : on_jobs (calms hi) d d' → all_counted d → all_counted d' ∧ due_keys hi d' ⊆ due_keys hi d.
Proof.
  intros H Hc. split; [intros k; by apply H|]. intros k (r & Hr & Hd)%elem_due_keys. apply elem_due_keys.
  by destruct (H k (Hc k)) as [_ D]; eapply D.
Qed.
(** What the query returns is due. *)
Lemma due_job_is_due now s s' j js : GetDueArchiveJobs now 1 s = (Ok (j :: js), s') →
  tabs s' = tabs s ∧ ∃ r, jobs (tabs s) !! job_key j = Some r ∧ due now r = true ∧ j = job_of_row (job_key j) r.
Proof.
  unfold GetDueArchiveJobs, query, stmt. destruct (hd false (faults s)); [done|]. cbn. intros [= Hj <-]. split; [done|].
  set (l := filter _ _) in Hj. destruct (top_k job_le 1 l) as [|[k r] t] eqn:Ht; [done|]. cbn in Hj. injection Hj as Hj _.
  pose proof (top_k_spec job_le 1 l) as (_ & Hin & _). specialize (Hin (k, r)). rewrite Ht in Hin.
  assert ((k, r) ∈ l) as Hl by (apply Hin; by left).
  unfold l in Hl. apply list_elem_of_filter in Hl as [Hd Hl]. apply elem_of_map_to_list in Hl. cbn in Hd.
  subst j. destruct k as [c m]. exists r. done.
Qed.
(** What a claim leaves is not due. *)
Lemma claimed_not_due hi k c now s s' : ClaimArchiveJob k c now s = (Ok true, s') → k ∉ due_keys hi (tabs s').
Proof.
  unfold ClaimArchiveJob, st_bind, update_job, stmt, st_ret. destruct (hd false (faults s)); [done|]. cbn.
  destruct (jobs (tabs s) !! k) as [r|]; [|done]. destruct (bool_decide _); [|done]. cbn. intros [= <-].
  rewrite elem_due_keys. cbn. rewrite lookup_insert_eq. intros (x & [= <-] & Hd). unfold due in Hd. go_bool. by destruct Hd.
Qed.

Section Ends.
Context (sha256Hex : string → string).
(** A round that ran a job takes its key out of the due ones. *)
Lemma round_shrinks wk j io now hi w w' c js :
  now <= hi < now + 5 → all_counted (w_tabs w) →
  on_db (GetDueArchiveJobs now 1) w = (Ok (j :: js), w') →
  ∀ w1, on_db (ClaimArchiveJob (job_key j) c now) w' = (Ok true, w1) →
  let w2 := (processJob sha256Hex wk (with_claim c j) io now w1).2 in
  all_counted (w_tabs w2) ∧ due_keys hi (w_tabs w2) ⊂ due_keys hi (w_tabs w).
Proof.
  intros Hhi Hc Hq w1 Hcl w2. unfold on_db in Hq, Hcl.
  destruct (GetDueArchiveJobs now 1 (w_sql w)) as [a s] eqn:Hg. injection Hq as -> <-.
  apply due_job_is_due in Hg as (Et & r & Hr & Hd & _). cbn in Hcl.
  destruct (ClaimArchiveJob (job_key j) c now s) as [b s1] eqn:Hk. injection Hcl as -> <-.
  pose proof (claim_calms hi (job_key j) c now s) as C1. rewrite Hk, Et in C1. cbn in C1.
  apply calms_keys in C1 as [Hc1 S1]; [|done].
  assert (on_jobs (calms hi) (tabs s1) (w_tabs w2)) as C2.
  { refine (processJob_queue sha256Hex (on_jobs (calms hi)) wk (with_claim c j) io now _ _ _ _ (World (w_fs w) s1 (w_reg w))).
    - intros d k. apply calms_refl.
    - intros e. apply fail_calms. lia.
    - intros e. apply conflict_calms.
    - apply complete_calms. }
  apply calms_keys in C2 as [Hc2 S2]; [|done]. split; [done|]. split; [by trans (due_keys hi (tabs s1))|].
  intros Hsub. apply (claimed_not_due hi) in Hk. apply Hk, S2, Hsub, elem_due_keys. exists r. split; [done|].
  unfold due in *. apply bool_decide_eq_true in Hd. apply bool_decide_eq_true. split; [tauto|lia].
Qed.

(** C10. A pass ends, whatever fails: when its rounds fall into less than the shortest back-off,
    it needs at most one round for each job that is due and one more. *)
Theorem archive_pass_ends (wk : ArchiveWorker) (l : list round) (hi : Z) (w : world) :
  Forall (λ r, rd_now r <= hi < rd_now r + 5) l → all_counted (w_tabs w) →
  (size (due_keys hi (w_tabs w)) < length l)%nat → (archive_pass sha256Hex wk l w).1 ≠ PMore.
Proof.
  intros Hl. revert w. induction Hl as [|r l Hr Hl IH]; intros w Hc Hn; [cbn in Hn; lia|].
  cbn [archive_pass]. destruct (rd_done r); [done|]. unfold sm_bind.
  destruct (on_db (GetDueArchiveJobs (rd_now r) 1) w) as [[[|j js]|] w'] eqn:Hq; [done| |done].
  destruct (on_db (ClaimArchiveJob (job_key j) (rd_claim r) (rd_now r)) w') as [[[]|] w1] eqn:Hk; [|done|done].
  destruct (round_shrinks wk j (rd_io r) (rd_now r) hi w w' (rd_claim r) js Hr Hc Hq w1 Hk) as [Hc2 Hs].
  apply subset_size in Hs. destruct (processJob _ _ _ _ _ w1) as [u w2]. apply IH; [done|]. cbn in *. lia.
Qed.
End Ends.

(** ** A pass loses no file *)

Lemma string_app_assoc (s t u : string) : s +:+ (t +:+ u) = (s +:+ t) +:+ u.
Proof. induction s as [|a s IH]; [done|]. apply (f_equal (String a)), IH. Qed.
Lemma HasSuffix_app p s : HasSuffix (p +:+ s) s = true.
Proof.
  induction p as [|a p IH].
  - change ("" +:+ s) with s. destruct s; cbn; [done|]. by rewrite Ascii.eqb_refl, String.eqb_refl.
  - change (String a p +:+ s) with (String a (p +:+ s)). cbn [HasSuffix]. by destruct (String.eqb _ s).
Qed.
Lemma prefix_app s t p : HasPrefix s p = true → HasPrefix (s +:+ t) p = true.
Proof.
  unfold HasPrefix. revert s. induction p as [|a p IH]; intros [|b s] H; [by destruct t|done|done|].
  change (String b s +:+ t) with (String b (s +:+ t)). cbn in H |- *. destruct (Ascii.ascii_dec a b); [by apply IH|done].
Qed.
Lemma join_slash_app e f : e ≠ [] → f ≠ [] → join_slash (e ++ f) = join_slash e +:+ String slash (join_slash f).
Proof.
  induction e as [|c e IH]; [done|]. intros _ Hf. destruct e as [|d e].
  - cbn. by destruct f.
  - change (join_slash ((c :: d :: e) ++ f)) with (c +:+ String slash (join_slash ((d :: e) ++ f))). rewrite IH by done.
    change (join_slash (c :: d :: e)) with (c +:+ String slash (join_slash (d :: e))). by rewrite <- string_app_assoc.
Qed.
Lemma join_split s : join_slash (split_on slash s) = s.
Proof.
  induction s as [|a s IH]; [done|]. cbn [split_on]. pose proof (split_on_nonempty slash s) as Hne.
  destruct (split_on slash s) as [|h l]; [done|]. case_decide as Ha.
  - subst a. change (join_slash ("" :: h :: l)) with ("" +:+ String slash (join_slash (h :: l))). by rewrite IH.
  - rewrite <- IH. by destruct l.
Qed.
Lemma last_component s c : last (split_on slash s) = Some c → ∃ pre, s = pre +:+ c.
Proof.
  intros [l Hl]%last_Some. rewrite <- (join_split s), Hl. destruct l as [|h l]; [by exists ""|].
  rewrite join_slash_app by done. exists (join_slash (h :: l) +:+ String slash ""). by rewrite <- string_app_assoc.
Qed.

(** The directories of a worker share no path. *)
Lemma roots_disjoint_half a b ra rb e :
  IsAbs a = true → IsAbs b = true → safe_rel ra → comps b = comps a ++ e → comps ra = e ++ comps rb → comps rb ≠ [] →
  inside a b = true.
Proof.
  intros Ha Hb Hs Eb Er Hne. unfold inside, Rel. destruct (decide (Clean a = Clean b)) as [|Hd]; [done|].
  rewrite Ha, Hb. cbn [Bool.eqb negb]. rewrite Eb, strip_common_app. cbn [map app].
  destruct e as [|c e]; [exfalso; apply Hd; rewrite !Clean_abs by done; rewrite Eb; by rewrite app_nil_r|].
  destruct (HasPrefix (join_slash (c :: e)) "..") eqn:Hp; [|done]. exfalso.
  destruct Hs as (H1 & H2 & H3). destruct (safe_rel_comps ra) as (_ & _ & Ec); [done|].
  rewrite Ec, Er, join_slash_app in H2 by done. by rewrite (prefix_app _ _ _ Hp) in H2.
Qed.
Lemma roots_disjoint dl ar wk r1 r2 :
  NewArchiveWorker dl ar = Ok wk → IsAbs dl = true → IsAbs ar = true → safe_rel r1 → safe_rel r2 →
  Join dl (Clean r1) ≠ Join ar (Clean r2).
Proof.
  intros Hw Hd Ha H1 H2 E. apply (f_equal comps) in E.
  destruct (Join_contained dl r1 Hd H1) as (E1 & N1 & _). destruct (Join_contained ar r2 Ha H2) as (E2 & N2 & _).
  rewrite E1, E2 in E. unfold NewArchiveWorker in Hw. rewrite decide_False in Hw by (by intros ->).
  case_decide; [done|]. destruct (inside dl ar) eqn:I1; [done|]. destruct (inside ar dl) eqn:I2; [done|].
  apply app_eq_inv in E as [(e & Eb & Er)|(e & Eb & Er)].
  - by rewrite (roots_disjoint_half ar dl r2 r1 e) in I2.
  - by rewrite (roots_disjoint_half dl ar r1 r2 e) in I1.
Qed.
(** The source and the target of a path end in the same component. *)
Lemma no_moving_target dl ar rel :
  IsAbs dl = true → IsAbs ar = true → safe_rel rel →
  (∀ p, Join dl (Clean rel) ≠ p +:+ ".moving") → ∀ p, Join ar (Clean rel) ≠ p +:+ ".moving".
Proof.
  intros Hd Ha Hs Hq p E. destruct (safe_rel_comps rel Hs) as (Hp & Hn & Hc). rewrite Hc in *.
  apply (f_equal (λ s, last (split_on slash s))) in E. cbv beta in E.
  rewrite split_on_last in E by (intros Hin; vm_compute in Hin; set_solver).
  pose proof (last_Join_plain dl (comps rel) Hd Hn Hp) as El. rewrite last_Join_plain in E by done.
  rewrite E in El. destruct (last (split_on slash p)) as [c|] eqn:Hl; [|by apply last_None, split_on_nonempty in Hl].
  apply last_component in El as [pre El]. apply (Hq (pre +:+ c)). by rewrite El, string_app_assoc.
Qed.

Section Safety.
Context (sha256Hex : string → string) (dl ar : string) (wk : ArchiveWorker).
Context (Hwk : NewArchiveWorker dl ar = Ok wk) (Hdl : IsAbs dl = true) (Har : IsAbs ar = true).

(** The file is where it was, or it was the source of a job that is archived, and a file of
    the recorded size and digest is at the target. *)
Definition accounted (q : string) (n : node) (w : world) : Prop :=
  w_files w !! q = Some n ∨
  ∃ k row, jobs (w_tabs w) !! k = Some row ∧ state row = "archived" ∧ safe_rel (relative_path row) ∧
    q = Join dl (Clean (relative_path row)) ∧
    has_proof sha256Hex (Join ar (Clean (relative_path row))) (expected_size row) (a_sha256 row) (w_files w).

Lemma archived_stays o o' row : job_step o o' → o = Some row → state row = "archived" → o' = Some row.
Proof. intros H -> Hs. inversion H; subst; [done|congruence]. Qed.
Lemma identity_stays o o' row row' : job_step o o' → o = Some row → o' = Some row' → identity row' = identity row.
Proof. intros H -> ->. by inversion H; subst. Qed.
Lemma job_stays o o' row : job_step o o' → o = Some row → ∃ row', o' = Some row' ∧ identity row' = identity row.
Proof. intros H ->. inversion H; subst; eauto. Qed.
Lemma job_step_refl : ∀ d, on_jobs job_step d d.
Proof. intros d k. constructor. Qed.
Lemma processJob_steps j io now w : on_jobs job_step (w_tabs w) (w_tabs (processJob sha256Hex wk j io now w).2).
Proof.
  refine (processJob_queue sha256Hex (on_jobs job_step) wk j io now job_step_refl _ _ _ w).
  - intros e. apply FailArchiveJob_step.
  - intros e. apply SetArchiveJobConflict_step.
  - apply CompleteArchiveJob_step.
Qed.
(** A job whose path is refused touches no file. *)
Lemma bad_path_persists j io now w : bad_rel (Clean (j_RelativePath j)) = true →
  persist w (processJob sha256Hex wk j io now w).2.
Proof. intros Hb. unfold processJob. destruct (is_blank _); [apply persist_fail|]. rewrite Hb. apply persist_fail. Qed.
Lemma proof_persists p size sha d d' : (∀ n, d !! p = Some n → d' !! p = Some n) → has_proof sha256Hex p size sha d → has_proof sha256Hex p size sha d'.
Proof. intros H (data & Hd & Hx). exists data. split; [by apply H|done]. Qed.

(** One job: what was accounted for stays so. *)
Lemma job_accounts q n j r io now w :
  (∀ p, q ≠ p +:+ ".moving") → jobs (w_tabs w) !! job_key j = Some r →
  (j_RelativePath j, j_ExpectedSize j, j_SHA256 j) = identity r →
  accounted q n w → accounted q n (processJob sha256Hex wk j io now w).2.
Proof.
  intros Hq Hr Hid Hacc. set (w' := (processJob sha256Hex wk j io now w).2).
  pose proof (processJob_steps j io now w) as Hst. fold w' in Hst.
  destruct (bad_rel (Clean (j_RelativePath j))) eqn:Hb.
  { pose proof (bad_path_persists j io now w Hb) as Hp. fold w' in Hp.
    destruct Hacc as [Hf|(k & row & Hk & Hs & Hsr & E & Hpf)]; [left; by apply Hp|right]. exists k, row.
    split_and!; [by eapply archived_stays|done|done|done|]. eapply proof_persists; [|exact Hpf]. intros m. apply Hp. }
  apply bad_rel_safe in Hb. pose proof (processJob_post sha256Hex dl ar wk j io now w Hwk Hdl Har) as Hpost. fold w' in Hpost.
  destruct Hacc as [Hf|(k & row & Hk & Hs & Hsr & E & Hpf)].
  - destruct (Hpost q n (Hq _) Hf) as [|(-> & (row & Hk & Hs & Hsha) & Hpf)]; [by left|right]. exists (job_key j), row.
    pose proof (identity_stays _ _ _ _ (Hst (job_key j)) Hr Hk) as Hi. rewrite <- Hid in Hi.
    injection Hi as E1 E2 E3. rewrite E1, E2, E3. done.
  - right. exists k, row. split_and!; [by eapply archived_stays|done|done|done|]. eapply proof_persists; [|exact Hpf].
    intros m Hm. destruct (Hpost _ m (no_moving_target dl ar _ Hdl Har Hsr ltac:(by rewrite <- E) _) Hm) as [|[Hx _]]; [done|].
    by destruct (roots_disjoint dl ar wk (j_RelativePath j) (relative_path row) Hwk Hdl Har Hb Hsr).
Qed.
Lemma db_accounts {A} (m : DB A) q n w : effect (on_jobs job_step) m → accounted q n w → accounted q n (on_db m w).2.
Proof.
  intros Hm Hacc. specialize (Hm (w_sql w)). unfold on_db. destruct (m (w_sql w)) as [a s]. cbn in Hm |- *.
  destruct Hacc as [Hf|(k & row & Hk & Hs & Hx)]; [by left|right]. exists k, row. split; [|done]. by eapply archived_stays.
Qed.
End Safety.

(** ** Wake-ups *)

Lemma loop_run_inv w ms : IsEnabled w = true → ∀ s s', loop_run w ms s = Some s' →
  (unseen s = true → wakeCh s = true ∨ l_pc s = LQuery ∨ l_pc s = LEnd) →
  unseen s' = true → wakeCh s' = true ∨ l_pc s' = LQuery ∨ l_pc s' = LEnd.
Proof.
  intros Hw. induction ms as [|m ms IH]; intros s s'; [by intros [= <-]|]. cbn [loop_run].
  destruct (loop_exec w m s) as [s1|] eqn:E; [|done]. cbn. intros Hr Hi. eapply IH; [exact Hr|].
  destruct s as [ch p u]. unfold loop_exec, Wake in E. rewrite Hw in E. cbn in *.
  destruct m, p, ch; simplify_eq/=; naive_solver.
Qed.
(** A wake-up is not lost: in any order of wake-ups, ticks and moves of the worker, a wake-up
    that no query has answered yet is answered by the worker's own next two moves, without
    another wake-up or a tick of the clock, unless the worker has ended. *)
Theorem wake_is_not_lost (w : option ArchiveWorker) (s0 s : loop_st) (ms : list loop_move) :
  Start w = Some s0 → loop_run w ms s0 = Some s → unseen s = true → l_pc s ≠ LEnd →
  ∃ ms', Forall (λ m, m ≠ MWake ∧ m ≠ MTick) ms' ∧ (length ms' <= 2)%nat ∧ unseen <$> loop_run w ms' s = Some false.
Proof.
  unfold Start. destruct (IsEnabled w) eqn:Hw; [|done]. intros [= <-] Hr Hu Hp.
  destruct (loop_run_inv w ms Hw _ _ Hr) as [Hc|[Hc|Hc]]; [done|done| | |done].
  - destruct s as [ch p u]. cbn in *. subst ch. destruct p; [exists [MTake; MQuery true]|exists [MQuery true]|exists [MNext; MQuery true]|done];
      (split; [repeat (constructor; [done|]); constructor|]; split; [cbn; lia|done]).
  - destruct s as [ch p u]. cbn in *. subst p. exists [MQuery true]. split; [repeat (constructor; [done|]); constructor|]. split; [cbn; lia|done].
Qed.

(** ** Witnesses *)

Definition demo_row (rel : string) (st : string) : archive_row := ARow rel 4 "sha:data" st 0 0 "" None 1 1.
Definition demo_world (dsk : disk) (js : gmap key archive_row) : world :=
  World (Fs dsk []) (Sql (set_jobs js (w_tabs toy_world)) []) None.
Definition demo_disk : disk := {[ "/ssd" := DirNode; "/hdd" := DirNode; "/" := DirNode; "/ssd/a" := DirNode; "/ssd/a/7.mp4" := FileNode "data" ]}.
(** Two jobs, one of them without its source. *)
Definition demo_queue : world :=
  demo_world demo_disk (<[("chat", 7) := demo_row "a/7.mp4" "pending"]> {[ ("chat", 8) := demo_row "a/8.mp4" "pending" ]}).
Definition demo_rounds : list round := replicate 3 (Round false "c1" no_faults 10).
Definition demo_worker : ArchiveWorker := Worker "/ssd" "/hdd".

Lemma archive_pass_ends_witness :
  (archive_pass toy_sha demo_worker demo_rounds demo_queue).1 ≠ PMore ∧
  (λ r, (state r, a_next_retry_at r)) <$> (jobs (w_tabs (archive_pass toy_sha demo_worker demo_rounds demo_queue).2) !! ("chat", 8)) = Some ("pending", 15) ∧
  state <$> (jobs (w_tabs (archive_pass toy_sha demo_worker demo_rounds demo_queue).2) !! ("chat", 7)) = Some "archived".
Proof.
  split; [|vm_compute; done].
  apply (archive_pass_ends toy_sha demo_worker demo_rounds 12 demo_queue).
  - repeat (constructor; [cbn; lia|]). constructor.
  - intros k r Hr. cbn in Hr. apply lookup_insert_Some in Hr as [[_ <-]|[_ Hr]]; [cbn; lia|].
    apply lookup_singleton_Some in Hr as [_ <-]. cbn. lia.
  - apply Nat.ltb_lt. vm_compute. reflexivity.
Defined.
Lemma wake_is_not_lost_witness : ∃ ms', (length ms' <= 2)%nat ∧ unseen <$> loop_run (Some demo_worker) ms' (LSt true LWork true) = Some false.
Proof.
  destruct (wake_is_not_lost (Some demo_worker) (LSt false LWait false) (LSt true LWork true) [MWake; MTake; MQuery true; MWake])
    as (ms' & _ & Hl & Hu); [reflexivity|reflexivity|reflexivity|discriminate|].
  exists ms'. split; [exact Hl|exact Hu].
Defined.

(** ** What the ".moving" name costs *)

(** The working copy of one job has the name of another file when that file's name ends in
    ".moving": a file that was archived under such a name is overwritten, and removed, by the
    archiving of its namesake. *)
Theorem moving_name_destroys_archived :
  let before := demo_world (<["/hdd/a" := DirNode]> (<["/hdd/a/7.mp4.moving" := FileNode "kept"]> demo_disk))
    (<[("chat", 7) := demo_row "a/7.mp4" "pending"]> {[ ("other", 7) := ARow "a/7.mp4.moving" 4 "sha:kept" "archived" 0 0 "" None 1 1 ]}) in
  let after := (archive_pass toy_sha demo_worker demo_rounds before).2 in
  has_proof toy_sha "/hdd/a/7.mp4.moving" 4 "sha:kept" (w_files before) ∧
  w_files after !! "/hdd/a/7.mp4.moving" = None ∧ state <$> jobs (w_tabs after) !! ("other", 7) = Some "archived".
Proof. split; [by exists "kept"|]. vm_compute. done. Qed.
