(* ===== verification/Dispatch.v ===== *)
(** * The dispatcher of updates (app/daemon/updates_stream.go)

    Which handler an update goes to, the stream of the process that the handlers of the client
    look up, and its start. The theorems: the two registrations agree, updates that come
    before the daemon has set its stream are dropped, and the cache of targets mirrors the
    table over any sequence of updates as long as no statement fails. *)
From S2P Require Import Prelude Sql Downloads Registry World Orchestrator Planner Targets TargetsProps Peers Media Fetch Updates WebTargets.

Inductive update :=
| UpdateNewChannelMessage (m : MessageClass) | UpdateNewMessage (m : MessageClass)
| UpdateEditChannelMessage (m : MessageClass) | UpdateEditMessage (m : MessageClass)
| UpdateChannel (id : Z) | UpdateChat (id : Z).

Section Dispatch.
Context (mime_ext : string → option string) (run_filter : string → Message → option bool).

(** [registerHandlers]: the handlers of the stream's own dispatcher. *)
Definition registerHandlers (u : update) (e : Entities) (nano : Z) : SM sst unit :=
  match u with
  | UpdateNewChannelMessage m | UpdateNewMessage m | UpdateEditChannelMessage m | UpdateEditMessage m =>
      handleMessage mime_ext run_filter m e nano
  | UpdateChannel id => handleChannelUpdate id e (nano / ns_per_s)
  | UpdateChat id => handleChatUpdate id e (nano / ns_per_s)
  end.
(** [GlobalUpdateHandler]: the stream set last, nothing before. *)
Definition GlobalUpdateHandler (u : update) (e : Entities) (nano : Z) : SM (option sst) unit := λ g,
  match g with
  | None => (tt, None)
  | Some s =>
      let handle : SM sst unit :=
        match u with
        | UpdateNewChannelMessage m => handleMessage mime_ext run_filter m e nano
        | UpdateNewMessage m => handleMessage mime_ext run_filter m e nano
        | UpdateEditChannelMessage m => handleMessage mime_ext run_filter m e nano
        | UpdateEditMessage m => handleMessage mime_ext run_filter m e nano
        | UpdateChannel id => handleChannelUpdate id e (nano / ns_per_s)
        | UpdateChat id => handleChatUpdate id e (nano / ns_per_s)
        end in
      let (x, s) := handle s in (x, Some s)
  end.
Definition SetGlobalUpdatesStream (s : sst) (g : option sst) : option sst := Some s.
(** [NewUpdatesStream]: empty maps, then the first reading of the targets. *)
Definition NewUpdatesStream (o : ost) : sst := (refreshTargetCache (SSt empty_stream o)).2.
Fixpoint dispatch_all (l : list (update * Entities * Z)) (g : option sst) : option sst :=
  match l with [] => g | (u, e, nano) :: l => dispatch_all l (GlobalUpdateHandler u e nano g).2 end.

(** ** The cache mirrors the table *)

Definition st_sql (s : sst) : sqlst := w_sql (o_world (st_daemon s)).
Record mirrors (s : sst) : Prop := { mi_cache : st_cache s = cache_of (listed (st_tabs s)); mi_calm : faults (st_sql s) = [] }.

Lemma frame_mirrors s s' : st_cache s' = st_cache s → target_frame (st_tabs s) true (st_sql s') → mirrors s → mirrors s'.
Proof.
  intros Hc (Ht & Hcu & Hf) [Hm Hcalm]. split; [|by apply Hf]. rewrite Hc, Hm. f_equal. unfold listed, st_tabs, st_sql in *.
  rewrite Ht. apply list_fmap_ext. intros i [k r] _. unfold target_of_row. by rewrite Hcu.
Qed.
Lemma refresh_mirrors s : faults (st_sql s) = [] → mirrors (refreshTargetCache s).2.
Proof.
  intros Hf. unfold refreshTargetCache, sm_bind, on_daemon, o_db, in_world, on_db, GetListenTargets, query, stmt.
  unfold st_sql in Hf. rewrite Hf. cbn. by split.
Qed.
Lemma ingest_frame m now q : faults q = [] → target_frame (tabs q) true (IngestMessage m now q).2.
Proof.
  intros Hf. unfold IngestMessage, with_tx, upsert_record, query, exec, st_bind, st_ret, stmt. rewrite Hf. cbn.
  destruct (m_HasMedia m); cbn; split_and!; done.
Qed.
Lemma message_mirrors m e nano s : mirrors s → mirrors (handleMessage mime_ext run_filter m e nano s).2.
Proof.
  intros Hm. unfold handleMessage. destruct m as [m|]; [|done]. destruct (matchTarget (st_cache s) e m) as [t|]; [|done].
  cbv zeta. destruct (filtered_out _ t m _); [done|]. unfold on_daemon, sm_bind, o_db, in_world, on_db.
  pose proof (ingest_frame (stream_message (lt_ChatID t) m (message_media mime_ext m)) (nano / ns_per_s) (st_sql s) (mi_calm _ Hm)) as Hi.
  unfold st_sql in Hi. destruct (IngestMessage _ _ _) as [r q]. cbn in Hi.
  set (o := with_world _ _). assert (mirrors (SSt (st_cache s) o)) as Ho by (apply (frame_mirrors s); [done|exact Hi|done]).
  destruct r as [u|er]; [|done]. destruct (message_media mime_ext m) as [x|]; [|done].
  pose proof (TriggerStreamDispatch_tabs (stream_record t m x) nano o) as Ht. destruct (TriggerStreamDispatch _ nano o) as [v o'].
  apply (frame_mirrors (SSt (st_cache s) o)); [done| |exact Ho]. unfold target_frame, st_sql, st_tabs. cbn in *. rewrite Ht.
  split_and!; [done|done|intros _; apply (mi_calm _ Ho)].
Qed.
Lemma meta_mirrors {A} (m : DB A) s : faults (st_sql s) = [] → (∀ q, faults q = [] → faults (m q).2 = []) →
  mirrors ((do! _ := on_daemon (o_db m) in refreshTargetCache) s).2.
Proof.
  intros Hf Hm. unfold sm_bind, on_daemon at 1, o_db, in_world, on_db. specialize (Hm (st_sql s) Hf). unfold st_sql in Hm.
  destruct (m _) as [r q]. cbn in Hm |- *. by apply refresh_mirrors.
Qed.
Lemma update_target_calm id f q : faults q = [] → faults (update_target id f q).2 = [].
Proof. intros Hf. unfold update_target, exec, stmt. by rewrite Hf. Qed.
Lemma handler_mirrors u e nano s : mirrors s → mirrors (registerHandlers u e nano s).2.
Proof.
  intros Hm. destruct u as [m|m|m|m|id|id]; [by apply message_mirrors..| |]; cbn [registerHandlers].
  - unfold handleChannelUpdate. destruct (e_Channels e !! id); [|done]. apply meta_mirrors; [apply Hm|apply update_target_calm].
  - unfold handleChatUpdate. destruct (e_Chats e !! id) as [title|]; [|done]. case_decide; [apply refresh_mirrors, Hm|].
    pose proof (meta_mirrors (update_target ("-" +:+ itoa id) (set_title title None (nano / ns_per_s))) s (mi_calm _ Hm) (update_target_calm _ _)) as HH.
    revert HH. unfold sm_bind, sm_ret. by destruct (on_daemon _ s).
Qed.
Lemma global_is_registered u e nano s : GlobalUpdateHandler u e nano (Some s) = ((registerHandlers u e nano s).1, Some (registerHandlers u e nano s).2).
Proof. destruct u; cbn -[handleMessage handleChannelUpdate handleChatUpdate]; by case_match. Qed.

(** C29. The cache mirrors the table: from the start of the stream on, after any updates, and as
    long as no statement fails, the stream matches messages with exactly the targets that are
    stored, and updates never change how the stream is found. Updates that come before the
    stream is set are dropped. *)
Theorem stream_cache_mirrors_targets (o : ost) (l0 l : list (update * Entities * Z)) :
  faults (w_sql (o_world o)) = [] →
  dispatch_all l0 None = None ∧
  ∃ s, dispatch_all l (SetGlobalUpdatesStream (NewUpdatesStream o) (dispatch_all l0 None)) = Some s ∧
    st_cache s = cache_of (listed (st_tabs s)).
Proof.
  intros Hf. split; [induction l0 as [|[[u e] n] l0 IH]; [done|exact IH]|].
  assert (mirrors (NewUpdatesStream o)) as Hm by (by apply refresh_mirrors). unfold SetGlobalUpdatesStream. revert Hm.
  generalize (NewUpdatesStream o). induction l as [|[[u e] n] l IH]; intros s Hm; [exists s; split; [done|apply Hm]|].
  cbn [dispatch_all]. rewrite global_is_registered. by apply IH, handler_mirrors.
Qed.
End Dispatch.
Lemma stream_cache_mirrors_targets_witness :
  ∃ s, dispatch_all (λ _, None) (λ _ _, None) [(UpdateChannel 5, Entities_ {[ 5 := Channel "renamed" "news" ]} ∅ ∅, 7 * ns_per_s)]
      (Some (NewUpdatesStream (st_daemon (ex_state [])))) = Some s ∧
    st_cache s = cache_of (listed (st_tabs s)) ∧ lt_Title <$> targetByID (st_cache s) !! 5 = Some "renamed".
Proof.
  destruct (stream_cache_mirrors_targets (λ _, None) (λ _ _, None) (st_daemon (ex_state []))
    [] [(UpdateChannel 5, Entities_ {[ 5 := Channel "renamed" "news" ]} ∅ ∅, 7 * ns_per_s)]) as (_ & s & E & Hs); [reflexivity|].
  exists s. split; [exact E|]. split; [exact Hs|]. injection E as <-. vm_compute. reflexivity.
Defined.
