(* ===== verification/Fields.v ===== *)
(** * The fields of the filter language (pkg/texpr/fields.go)

    [FieldsGetter.Walk] lists the fields of a struct type with their paths. The paths are Go
    slices that [append] extends: two paths may share one array, so the arrays are a store
    and a slice is a pointer into it with a length. How much room [append] makes is a
    parameter. The theorems: types and comments are always those of the fields, in order; the
    paths are right when the types are nested no deeper than the arrays are exact. With the
    growth of Go that is three levels: the fourth overwrites its neighbours. *)
From S2P Require Import Prelude.

(** ** Types and paths *)

(** Numbers, strings and booleans; maps, which are listed too; structs; arrays and slices;
    pointers; and the kinds that are skipped: channels, functions, interfaces. A field of
    a struct has a name, a tag and may be unexported. *)
Inductive gotype :=
| TBasic (name : string) | TMap (name : string) (elem : gotype) | TStruct (fs : gofields)
| TList (t : gotype) | TPointer (t : gotype) | TChan (t : gotype) | TOther
with gofields := FNil | FCons (name : string) (exported : bool) (comment : string) (t : gotype) (fs : gofields).
Scheme gotype_mind := Induction for gotype Sort Prop with gofields_mind := Induction for gofields Sort Prop.
Combined Scheme gotype_mutind from gotype_mind, gofields_mind.

(** A slice of strings: no array for nil. *)
Record slice := Slice { sl_ptr : option nat; sl_len : nat }.
Definition nil_slice : slice := Slice None 0.
Record Field := Field_ { fd_Path : slice; fd_Type : string; fd_Comment : string }.
(** The arrays, each as long as its capacity, and the fields found so far. *)
Record walk_st := WalkSt { arrays : list (list string); found : list Field }.

Definition read (s : slice) (h : list (list string)) : list string :=
  match sl_ptr s with Some p => take (sl_len s) (default [] (h !! p)) | None => [] end.

Section Walk.
Context (newcap : nat → nat).

(** [append(path, name)]: in place when there is room, otherwise in a new array. *)
Definition append (s : slice) (x : string) (h : list (list string)) : slice * list (list string) :=
  let fresh := (Slice (Some (length h)) (S (sl_len s)), h ++ [read s h ++ x :: replicate (newcap (sl_len s) - S (sl_len s)) ""]) in
  match sl_ptr s with
  | Some p =>
      match h !! p with
      | Some arr => if decide (sl_len s < length arr)%nat then (Slice (Some p) (S (sl_len s)), <[p := <[sl_len s := x]> arr]> h) else fresh
      | None => fresh
      end
  | None => fresh
  end.
(** [field.Path[len(field.Path)-1] += "[]"]; [None] is the panic of an empty path. *)
Definition mark_list (s : slice) (h : list (list string)) : option (list (list string)) :=
  match sl_ptr s, sl_len s with
  | Some p, S n => Some (alter (alter (λ c, c +:+ "[]") n) p h)
  | _, _ => None
  end.

(** [walk]; [None] is a panic. *)
Fixpoint walk (v : gotype) (path : slice) (comment : string) (st : walk_st) : option walk_st :=
  match v with
  | TBasic name | TMap name _ => Some (WalkSt (arrays st) (found st ++ [Field_ path name comment]))
  | TStruct fs => walk_fields fs path st
  | TList t => h ← mark_list path (arrays st); walk t path comment (WalkSt h (found st))
  | TPointer t => walk t path comment st
  | TChan _ | TOther => Some st
  end
with walk_fields (fs : gofields) (path : slice) (st : walk_st) : option walk_st :=
  match fs with
  | FNil => Some st
  | FCons name exported comment t fs =>
      if exported then
        let (p, h) := append path name (arrays st) in
        st' ← walk t p comment (WalkSt h (found st)); walk_fields fs path st'
      else walk_fields fs path st
  end.
(** [Walk]: [None] is a panic ([Elem] of a basic type among them), [Some None] the error. *)
Definition Walk (v : gotype) : option (option walk_st) :=
  let go := Some <$> walk v nil_slice "" (WalkSt [] []) in
  match v with
  | TStruct _ | TMap _ (TStruct _) | TList (TStruct _) | TPointer (TStruct _) | TChan (TStruct _) => go
  | TMap _ _ | TList _ | TPointer _ | TChan _ => Some None
  | TBasic _ | TOther => None
  end.
(** [Sprint] without colours. *)
Definition field_line (h : list (list string)) (f : Field) : string :=
  String.concat "." (read (fd_Path f) h) +:+ ": " +:+ fd_Type f +:+ " # " +:+ fd_Comment f.
Definition Sprint (st : walk_st) : list string := field_line (arrays st) <$> found st.
End Walk.

(** ** The fields, without sharing *)

Definition mark_last (path : list string) : list string := alter (λ c, c +:+ "[]") (pred (length path)) path.
Fixpoint fields_of (v : gotype) (path : list string) (comment : string) : list (list string * string * string) :=
  match v with
  | TBasic name | TMap name _ => [(path, name, comment)]
  | TStruct fs => fields_of_all fs path
  | TList t => fields_of t (mark_last path) comment
  | TPointer t => fields_of t path comment
  | TChan _ | TOther => []
  end
with fields_of_all (fs : gofields) (path : list string) : list (list string * string * string) :=
  match fs with
  | FNil => []
  | FCons name exported comment t fs =>
      (if exported then fields_of t (path ++ [name]) comment else []) ++ fields_of_all fs path
  end.
(** How many names a path below gets. *)
Fixpoint depth (v : gotype) : nat :=
  match v with TStruct fs => depth_all fs | TList t | TPointer t => depth t | TBasic _ | TMap _ _ | TChan _ | TOther => 0 end
with depth_all (fs : gofields) : nat :=
  match fs with FNil => 0 | FCons _ exported _ t fs => max (if exported then S (depth t) else 0) (depth_all fs) end.

(** Types and comments do not depend on the sharing. *)
Lemma walk_kinds newcap :
  (∀ v path c st st', walk newcap v path c st = Some st' → ∀ q,
     (λ f, (fd_Type f, fd_Comment f)) <$> found st' =
     ((λ f, (fd_Type f, fd_Comment f)) <$> found st) ++ ((λ x, (x.1.2, x.2)) <$> fields_of v q c)) ∧
  (∀ fs path st st', walk_fields newcap fs path st = Some st' → ∀ q,
     (λ f, (fd_Type f, fd_Comment f)) <$> found st' =
     ((λ f, (fd_Type f, fd_Comment f)) <$> found st) ++ ((λ x, (x.1.2, x.2)) <$> fields_of_all fs q)).
Proof.
  apply gotype_mutind.
  - intros name path c st st' [= <-] q. cbn. by rewrite fmap_app.
  - intros name t _ path c st st' [= <-] q. cbn. by rewrite fmap_app.
  - intros fs IH path c st st' H q. by apply IH with path.
  - intros t IH path c st st' H q. cbn in H. destruct (mark_list path (arrays st)) as [h|]; [|done]. cbn in H.
    by rewrite (IH _ _ _ _ H (mark_last q)).
  - intros t IH path c st st' H q. by apply IH with path.
  - intros t _ path c st st' [= <-] q. cbn. by rewrite app_nil_r.
  - intros path c st st' [= <-] q. cbn. by rewrite app_nil_r.
  - intros path st st' [= <-] q. cbn. by rewrite app_nil_r.
  - intros name ex c t IHt fs IHfs path st st' H q. cbn in H |- *. destruct ex; [|by apply IHfs with path].
    destruct (append newcap path name (arrays st)) as [p h]. destruct (walk newcap t p c _) as [st1|] eqn:E; [|done]. cbn in H.
    rewrite (IHfs _ _ _ H q), (IHt _ _ _ _ E (q ++ [name])). cbn. by rewrite fmap_app, app_assoc.
Qed.

(** ** Paths that share nothing *)

Section Exact.
Context (newcap : nat → nat) (limit : nat).
Context (grows : ∀ n, (n < newcap n)%nat) (exact : ∀ n, (S n < limit)%nat → newcap n = S n).

(** The slice is readable, and without room when more names will be appended. *)
Definition ready (s : slice) (more : nat) (h : list (list string)) : Prop :=
  match sl_ptr s with
  | None => sl_len s = 0%nat
  | Some p => ∃ arr, h !! p = Some arr ∧ (1 <= sl_len s <= length arr)%nat ∧ ((1 <= more)%nat → length arr = sl_len s)
  end.
Definition apart (s : slice) (h : list (list string)) (f : Field) : Prop :=
  match sl_ptr (fd_Path f) with Some q => (q < length h)%nat ∧ Some q ≠ sl_ptr s | None => True end.
Definition show (h : list (list string)) (f : Field) : list string * string * string := (read (fd_Path f) h, fd_Type f, fd_Comment f).
(** What a walk adds, and that it leaves the other arrays. *)
Record adds (own : option nat) (st st' : walk_st) (l : list (list string * string * string)) : Prop := {
  ad_len : (length (arrays st) <= length (arrays st'))%nat;
  ad_frame : ∀ q, (q < length (arrays st))%nat → Some q ≠ own → arrays st' !! q = arrays st !! q;
  ad_found : ∃ new, found st' = found st ++ new ∧ show (arrays st') <$> new = l ∧
    Forall (λ f, match sl_ptr (fd_Path f) with
                 | Some q => (q < length (arrays st'))%nat ∧ (Some q = own ∨ (length (arrays st) <= q)%nat)
                 | None => True end) new }.

Lemma read_frame s h h' : (∀ q, sl_ptr s = Some q → h' !! q = h !! q) → read s h' = read s h.
Proof. unfold read. destruct (sl_ptr s) as [p|]; [|done]. intros H. by rewrite H. Qed.
Lemma ready_append s x more h :
  ready s (S more) h → (sl_len s + S more <= limit)%nat →
  ∃ p h', append newcap s x h = (p, h') ∧ sl_ptr p = Some (length h) ∧ sl_len p = S (sl_len s) ∧
    length h' = S (length h) ∧ (∀ q, (q < length h)%nat → h' !! q = h !! q) ∧ ready p more h' ∧ read p h' = read s h ++ [x].
Proof.
  intros Hr Hlim. set (arr := read s h ++ x :: replicate (newcap (sl_len s) - S (sl_len s)) "").
  assert (length (read s h) = sl_len s) as Hlen.
  { unfold ready, read in *. destruct (sl_ptr s) as [p|]; [|done]. destruct Hr as (a & -> & ? & _). cbn. rewrite length_take. lia. }
  assert (append newcap s x h = (Slice (Some (length h)) (S (sl_len s)), h ++ [arr])) as ->.
  { unfold append, ready in *. destruct (sl_ptr s) as [p|]; [|done]. destruct Hr as (a & Ha & _ & Hm). rewrite Ha.
    rewrite decide_False; [done|]. rewrite Hm; lia. }
  assert (length arr = newcap (sl_len s)) as Harr.
  { unfold arr. rewrite length_app. cbn. rewrite length_replicate, Hlen. pose proof (grows (sl_len s)). lia. }
  assert ((h ++ [arr]) !! length h = Some arr) as Hl by (by rewrite lookup_app_r, Nat.sub_diag by lia).
  exists (Slice (Some (length h)) (S (sl_len s))), (h ++ [arr]). split_and!; try done.
  - rewrite length_app. cbn. lia.
  - intros q Hq. by rewrite lookup_app_l.
  - unfold ready. cbn. exists arr. split; [done|]. pose proof (grows (sl_len s)). split; [lia|]. intros Hm. rewrite Harr. apply exact. lia.
  - unfold read at 1. cbn. rewrite Hl. cbn. unfold arr. rewrite take_app_ge by lia. rewrite Hlen.
    replace (S (sl_len s) - sl_len s)%nat with 1%nat by lia. done.
Qed.
Lemma ready_less s m m' h : (m' <= m)%nat → ready s m h → ready s m' h.
Proof. unfold ready. destruct (sl_ptr s); [|done]. intros Hm (arr & H1 & H2 & H3). exists arr. split_and!; [done|lia|lia|intros; apply H3; lia]. Qed.
Lemma ready_frame s m h h' : (∀ q, (q < length h)%nat → h' !! q = h !! q) → ready s m h → ready s m h' ∧ read s h' = read s h.
Proof.
  intros Hf Hr. assert (∀ q, sl_ptr s = Some q → h' !! q = h !! q) as Hq.
  { intros q Hs. apply Hf. unfold ready in Hr. rewrite Hs in Hr. destruct Hr as (arr & Ha & _). by apply lookup_lt_Some in Ha. }
  split; [|by apply read_frame]. unfold ready in *. destruct (sl_ptr s) as [p|]; [|done]. by rewrite Hq.
Qed.
Lemma adds_own st st' l own : adds None st st' l → adds own st st' l.
Proof.
  intros [H1 H2 (new & E & Es & Hn)]. split; [done|by intros q Hq _; apply H2|]. exists new. split_and!; [done|done|].
  eapply Forall_impl; [exact Hn|]. intros f. cbn. destruct (sl_ptr (fd_Path f)); [|done]. intros [? [?|?]]; [done|by split; [|right]].
Qed.
(** Walks one after the other: the second leaves all arrays of the first. *)
Lemma adds_app own st st1 st2 l1 l2 :
  adds own st st1 l1 → adds None st1 st2 l2 → adds own st st2 (l1 ++ l2).
Proof.
  intros [A1 F1 (n1 & E1 & S1 & N1)] [A2 F2 (n2 & E2 & S2 & N2)]. split; [lia| |].
  - intros q Hq Ho. rewrite F2 by (done || lia). by apply F1.
  - exists (n1 ++ n2). rewrite E2, E1, app_assoc, fmap_app, S2, <- S1. split_and!; [done| |].
    + f_equal. apply list_fmap_ext. intros j f Hf. unfold show. do 2 f_equal. apply read_frame. intros q Hq.
      rewrite Forall_lookup in N1. specialize (N1 j f Hf). rewrite Hq in N1. apply F2; [lia|done].
    + apply Forall_app. split; (eapply Forall_impl; [first [exact N1|exact N2]|]); intros f; cbn; destruct (sl_ptr (fd_Path f)); try done.
      * intros [? ?]. split; [lia|done].
      * intros [? [?|?]]; [done|]. split; [lia|]. right. lia.
Qed.
Lemma mark_read s h n p arr : sl_ptr s = Some p → sl_len s = S n → h !! p = Some arr → (S n <= length arr)%nat →
  read s (alter (alter (λ c, c +:+ "[]") n) p h) = mark_last (read s h).
Proof.
  intros Hp Hn Ha Hl. unfold read, mark_last. rewrite Hp, list_lookup_alter_eq, Ha, Hn.
  change (default [] (alter (λ c, c +:+ "[]") n <$> Some arr)) with (alter (λ c, c +:+ "[]") n arr). change (default [] (Some arr)) with arr.
  rewrite length_take, Nat.min_l by done. cbn [pred]. apply list_eq. intros j.
  destruct (decide (j = n)) as [->|Hj].
  - rewrite list_lookup_alter_eq, !lookup_take_lt, list_lookup_alter_eq by lia. done.
  - rewrite (list_lookup_alter_ne _ _ n j) by done. destruct (decide (j < S n)%nat); [|by rewrite !lookup_take_ge by lia].
    by rewrite !lookup_take_lt, list_lookup_alter_ne by (done || lia).
Qed.

(** The walk of a child whose path is a new array, seen from its parent. *)
Lemma child_adds st st1 h l :
  length h = S (length (arrays st)) → (∀ q, (q < length (arrays st))%nat → h !! q = arrays st !! q) →
  Forall (apart nil_slice (arrays st)) (found st) → adds (Some (length (arrays st))) (WalkSt h (found st)) st1 l →
  adds None st st1 l ∧ Forall (apart nil_slice (arrays st1)) (found st1).
Proof.
  intros Hlen Hfr Hf [B1 B2 (new & B3 & B4 & B5)]. cbn in *. split; [split; [lia| |]|].
  - intros q Hq _. rewrite B2 by (lia || (intros [= ->]; lia)). by apply Hfr.
  - exists new. split_and!; [done|done|]. eapply Forall_impl; [exact B5|]. intros f. cbn. destruct (sl_ptr (fd_Path f)); [|done].
    intros [? [[= ->]|?]]; (split; [lia|right; lia]).
  - rewrite B3. apply Forall_app. split; (eapply Forall_impl; [first [exact Hf|exact B5]|]); intros f; unfold apart; cbn;
      destruct (sl_ptr (fd_Path f)); try done; intros [? ?]; split; [lia|done|lia|done].
Qed.
(** Marking a path as a list changes its own array and no other. *)
Lemma list_adds s more st :
  ready s more (arrays st) → sl_len s ≠ 0%nat →
  ∃ h, mark_list s (arrays st) = Some h ∧ ready s more h ∧
    (Forall (apart s (arrays st)) (found st) → Forall (apart s h) (found st)) ∧
    ∀ st' v c, adds (sl_ptr s) (WalkSt h (found st)) st' (fields_of v (read s h) c) →
      adds (sl_ptr s) st st' (fields_of v (mark_last (read s (arrays st))) c).
Proof.
  intros Hr H0. unfold ready in Hr. destruct (sl_ptr s) as [p|] eqn:Hp; [|done]. destruct Hr as (arr & Ha & Hlen & Hm).
  unfold mark_list. rewrite Hp. destruct (sl_len s) as [|n] eqn:Hn; [done|].
  set (h1 := alter (alter (λ c, c +:+ "[]") n) p (arrays st)). exists h1.
  assert (length h1 = length (arrays st)) as Hl1 by apply length_alter. split_and!; [done| | |].
  - unfold ready. rewrite Hp, Hn. eexists. split; [unfold h1; by rewrite list_lookup_alter_eq, Ha|]. by rewrite length_alter.
  - intros Hf. eapply Forall_impl; [exact Hf|]. intros f. unfold apart. by rewrite Hl1.
  - intros st' v c A. pose proof (mark_read s (arrays st) n p arr Hp Hn Ha ltac:(lia)) as Hmr. fold h1 in Hmr. rewrite Hmr in A.
    destruct A as [A1 A2 A3]. cbn in A1, A2, A3. rewrite Hl1 in *. split; [done| |done].
    intros q Hq Hne. rewrite A2 by done. unfold h1. rewrite list_lookup_alter_ne by congruence. done.
Qed.

(** Something that can be walked without a path: no list before the first struct. *)
Fixpoint rooted (v : gotype) : Prop := match v with TList _ => False | TPointer t => rooted t | _ => True end.
Lemma walk_adds :
  (∀ v s c st, ready s (depth v) (arrays st) → (sl_len s + depth v <= limit)%nat → Forall (apart s (arrays st)) (found st) →
     (sl_len s = 0%nat → rooted v) →
     ∃ st', walk newcap v s c st = Some st' ∧ adds (sl_ptr s) st st' (fields_of v (read s (arrays st)) c)) ∧
  (∀ fs s st, ready s (depth_all fs) (arrays st) → (sl_len s + depth_all fs <= limit)%nat → Forall (apart nil_slice (arrays st)) (found st) →
     ∃ st', walk_fields newcap fs s st = Some st' ∧ adds None st st' (fields_of_all fs (read s (arrays st)))).
Proof.
  assert (∀ s name c st n, ready s n (arrays st) →
    adds (sl_ptr s) st (WalkSt (arrays st) (found st ++ [Field_ s name c])) [(read s (arrays st), name, c)]) as Hbasic.
  { intros s name c st n Hr. split; [done|done|]. exists [Field_ s name c]. split_and!; [done|done|]. constructor; [|constructor]. cbn.
    unfold ready in Hr. destruct (sl_ptr s); [|done]. destruct Hr as (arr & Ha & _). split; [by apply lookup_lt_Some in Ha|by left]. }
  apply gotype_mutind.
  - intros name s c st Hr _ _ _. eexists. split; [done|by eapply Hbasic].
  - intros name t _ s c st Hr _ _ _. eexists. split; [done|by eapply Hbasic].
  - intros fs IH s c st Hr Hl Hf _. destruct (IH s st Hr Hl) as (st' & E & A); [|exists st'; split; [done|by apply adds_own]].
    eapply Forall_impl; [exact Hf|]. intros f. unfold apart. destruct (sl_ptr (fd_Path f)); [|done]. by intros [? _].
  - intros t IH s c st Hr Hl Hf Hroot. cbn in Hr, Hl, Hroot.
    destruct (list_adds s (depth t) st Hr) as (h & E & Hr1 & Hf1 & Ha); [intros H0; by apply Hroot in H0|].
    cbn. rewrite E. cbn. destruct (IH s c (WalkSt h (found st)) Hr1 Hl) as (st' & E' & A);
      [by apply Hf1|intros H0; by apply Hroot in H0|].
    exists st'. split; [done|]. by apply Ha.
  - intros t IH s c st Hr Hl Hf Hroot. by apply IH.
  - intros t _ s c st _ _ _ _. exists st. split; [done|]. split; [done|done|]. exists []. by rewrite app_nil_r.
  - intros s c st _ _ _ _. exists st. split; [done|]. split; [done|done|]. exists []. by rewrite app_nil_r.
  - intros s st _ _ _. exists st. split; [done|]. split; [done|done|]. exists []. by rewrite app_nil_r.
  - intros name ex c t IHt fs IHfs s st Hr Hl Hf. cbn in Hr, Hl |- *. destruct ex; [|by apply IHfs].
    destruct (ready_append s name (depth t) (arrays st)) as (p & h & -> & Hp & Hn & Hlen & Hfr & Hrp & Hrd);
      [eapply ready_less; [|exact Hr]; lia|lia|].
    destruct (IHt p c (WalkSt h (found st)) Hrp) as (st1 & E1 & A1); [lia| |lia|].
    { cbn. eapply Forall_impl; [exact Hf|]. intros f. unfold apart. rewrite Hp. destruct (sl_ptr (fd_Path f)); [|done].
      intros [? _]. split; [lia|]. intros [= ->]. lia. }
    cbn in A1. rewrite Hrd, Hp in A1. rewrite E1. cbn. destruct (child_adds st st1 h _ Hlen Hfr Hf A1) as [A1' Hf1].
    assert (∀ q, (q < length (arrays st))%nat → arrays st1 !! q = arrays st !! q) as Hst1 by (intros q Hq; by apply (ad_frame _ _ _ _ A1')).
    destruct (ready_frame s (depth_all fs) (arrays st) (arrays st1) Hst1) as [Hr1 Hrd1]; [eapply ready_less; [|exact Hr]; lia|].
    destruct (IHfs s st1 Hr1) as (st2 & E2 & A2); [lia|done|].
    rewrite Hrd1 in A2. exists st2. split; [done|]. by eapply adds_app.
Qed.

(** C22. The fields are listed with their paths, types and comments, each as the type declares it,
    when no path gets more names than the arrays are exact for. *)
Theorem walk_lists_the_fields (fs : gofields) :
  (depth_all fs <= limit)%nat →
  ∃ st, Walk newcap (TStruct fs) = Some (Some st) ∧ show (arrays st) <$> found st = fields_of_all fs [].
Proof.
  intros Hl. destruct walk_adds as [_ W]. destruct (W fs nil_slice (WalkSt [] [])) as (st & E & A); [done|done|done|].
  exists st. unfold Walk. cbn. rewrite E. split; [done|]. destruct A as [_ _ (new & -> & Hs & _)]. exact Hs.
Qed.
End Exact.

(** ** With Go's growth *)

(** [growslice] below 256 elements: one, then double. *)
Definition go_newcap (n : nat) : nat := match n with O => 1 | _ => 2 * n end.
Lemma go_grows n : (n < go_newcap n)%nat.
Proof. unfold go_newcap. destruct n; lia. Qed.
Lemma go_exact n : (S n < 3)%nat → go_newcap n = S n.
Proof. intros H. destruct n as [|[|n]]; [done|done|lia]. Qed.
(** Three levels are safe. *)
Lemma walk_lists_the_fields_witness :
  let media := FCons "Name" true "File name" (TBasic "string") (FCons "Size" true "File size. Unit: Byte" (TBasic "int64") (FCons "DC" true "DC ID" (TBasic "int") FNil)) in
  let env := FCons "Message" true "The message" (TBasic "string") (FCons "Media" true "Media attachment" (TStruct media) (FCons "Views" true "View count" (TBasic "int") FNil)) in
  ∃ st, Walk go_newcap (TStruct env) = Some (Some st) ∧ show (arrays st) <$> found st = fields_of_all env [] ∧
    Sprint st = ["Message: string # The message"; "Media.Name: string # File name"; "Media.Size: int64 # File size. Unit: Byte"; "Media.DC: int # DC ID"; "Views: int # View count"].
Proof.
  intros media env. destruct (walk_lists_the_fields go_newcap 3 go_grows go_exact env) as (st & E & Hs); [vm_compute; lia|].
  exists st. split; [exact E|]. split; [exact Hs|]. vm_compute in E. injection E as <-. vm_compute. reflexivity.
Defined.
(** At the fourth level two neighbours share an array: the second overwrites the name of the
    first. *)
Theorem fourth_level_overwrites :
  let v := TStruct (FCons "A" true "" (TStruct (FCons "B" true "" (TStruct (FCons "C" true "" (TStruct
             (FCons "X" true "x" (TBasic "int") (FCons "Y" true "y" (TBasic "bool") FNil))) FNil)) FNil)) FNil) in
  option_map (option_map Sprint) (Walk go_newcap v) = Some (Some ["A.B.C.Y: int # x"; "A.B.C.Y: bool # y"]).
Proof. vm_compute. reflexivity. Qed.
(** The check lets a slice of structs pass, whose empty path has no last name to mark. *)
Theorem slice_of_structs_panics (newcap : nat → nat) (fs : gofields) : Walk newcap (TList (TStruct fs)) = None.
Proof. reflexivity. Qed.
